(* ===== verification/_CoqProject ===== *)
-Q . S2P
Prelude.v
Sha256.v
Json.v
JsonFacts.v
GoTime.v
Codec.v
Os.v
OsFacts.v
Cas.v
Parallel.v
Blobs.v
Chunked.v
ChunkedFacts.v
Tree.v
WalkFacts.v
TreeFacts.v
Snap.v
SnapFacts.v
SnapProps.v
SnapFaults.v
Model.v
Codecs.v
ChunkedProps.v
Repo.v
RepoFacts.v
RepoProps.v
Backend.v
Engine.v
EngineFacts.v
StepFacts.v
StepProps.v
WholeFacts.v
WholeProps.v
Remote.v
Sync.v
SyncFacts.v
PullFacts.v
PushFacts.v
StoreFacts.v
S3Facts.v
S3Props.v
DirFacts.v
Checks.v
SyncProps.v
Agent.v
AgentFacts.v
Strconv.v
Firecracker.v
AgentProps.v
GuestProps.v
VmProps.v
Base64.v
FakeMachine.v
FakeProps.v
PackFacts.v
DirProps.v
Flags.v
Config.v
ConfigProps.v
CacheProps.v
CacheFacts.v
CacheFaults.v
MachineFacts.v
MachineProps.v
MachineSteps.v
FakeSpec.v
MachineRuns.v
MachineTravel.v
Cli.v
CliProps.v
GuestInit.v
Vsock.v
