(* ===== verification/Prelude.v ===== *)
(** * vitvm: a verified model of "git for VM state"

    vitvm keeps the history of a sandbox (a working directory, or a whole
    Firecracker microVM) as a chain of checkpoints.  Every step of a sandbox
    runs a command and records the files, and for a VM the memory and the disk,
    as blobs named by their SHA-256; a checkpoint can be browsed, checked out,
    forked, pushed to a remote and pulled into another repository.

    ** The parts and how they interact

    The command line (cmd/vit) reads flags and configuration, opens a
    repository and drives the engine.  The engine (internal/engine) runs
    commands on a backend: plain processes, the Firecracker driver
    (internal/fcvm) or the fake machine of the tests.  It keeps sandboxes and
    checkpoints as JSON documents (repo.go), directories as trees
    (internal/tree, internal/snap), VM images as chunked blobs (internal/cas)
    and exchanges them with an object store (internal/remote).  The Firecracker
    driver talks over vsock to an agent inside the guest (internal/agent),
    which the guest's init (cmd/vit-guest) keeps alive.

    ** Files

    The ground everything stands on:
    - [Prelude]: outcomes of Go code ([res], [gerr]), the state-and-error monad
      [M], weakest preconditions [wp] with their tactics, the interface [GoJSON]
      of a JSON codec, strings.
    - [Sha256]: SHA-256 and hex, executable.
    - [Json], [JsonFacts], [GoTime], [Codec], [Base64], [Strconv]: what the
      sources use of encoding/json, time, encoding/base64 and strconv, with the
      printer and the parser proved inverse to each other.
    - [Os], [OsFacts], [WalkFacts]: the file system, with symbolic links, holes
      in files and injected faults; [filepath.WalkDir].

    The store:
    - [Cas] (internal/cas/cas.go): [Put], [PutFile], [Get], [OpenBlob], [Has]
      over the abstract store [blob_of]; [Blobs] is the store as clients see it.
    - [Parallel] ([parallel] of internal/cas/chunked.go): the goroutines as a
      step relation [pool_step].
    - [Chunked], [ChunkedFacts], [ChunkedProps] (internal/cas/chunked.go):
      images in chunks of 1 MiB, sparse files, overlays over a base image.
    - [Tree], [TreeFacts] (internal/tree/tree.go) and [Snap], [SnapFacts],
      [SnapProps] (internal/snap/restore.go): [Snapshot], [Diff], [Restore];
      [SnapFaults]: trees that are not snapshots, and working directories in
      which a command left a link or a directory, that lead [Restore] astray.

    The repository and the engine:
    - [Model], [Codecs] (internal/engine/model.go, the struct tags): records and
      their JSON documents, round trip included.
    - [Repo], [RepoFacts], [RepoProps] (internal/engine/repo.go).
    - [Backend] (backend.go, process_backend.go): the interfaces as classes, the
      process backend over a parameter for running a child.
    - [Engine] (engine.go, memory.go, cache.go, diskusage_linux.go); its
      operations one by one in [EngineFacts], [StepFacts], [StepProps]; any
      sequence of them in [WholeFacts], [WholeProps], as the step relation
      [op_step] with the invariant [whole]; the cache of images in [CacheProps],
      [CacheFacts], [CacheFaults].  Machines are proved against the contract
      [MachineSpec] of a memory backend and [GuestSpec] of its guest: capturing
      and bringing up in [MachineFacts], [MachineProps], the parts of a step in
      [MachineSteps], [Run], [Checkout] and [Fork] in [MachineRuns], any
      sequence of them ([machine_op]) in [MachineTravel].
    - [FakeMachine] (fake_machine.go, bytes.go); its memory images in
      [FakeProps], its disk documents in [PackFacts]; [FakeSpec] discharges
      [MachineSpec] and [GuestSpec] for it.
    - [Remote] (internal/remote): the interface [ObjectStore], the directory
      store, the S3 client with its request signing.
    - [Sync], [SyncFacts], [PushFacts], [PullFacts], [SyncProps]
      (internal/engine/sync.go), proved against [StoreSpec], what the engine
      relies on of a store, or for the safety of a pull against [StoreReads]
      alone: reading changes nothing.  [StoreFacts]: such a store is a map.
      [DirFacts] discharges both for a directory (the keys of the engine;
      [DirProps]: any keys that keep apart), [S3Facts] discharges [StoreSpec]
      for S3 from the promises [S3Service] of the service, which checks
      signatures ([sigv4]); [S3Props] has a service that does.
    - [Checks]: deciders for the invariants, used on concrete states.

    Virtual machines and the command line:
    - [Agent], [AgentFacts] (internal/agent): both ends of the protocol.
    - [Firecracker] (internal/fcvm): the driver over a parameter [Host].
    - [AgentProps], [GuestProps], [VmProps]: driver and agent together.
    - [GuestInit], [Vsock] (cmd/vit-guest): mounts, the supervising loop as the
      step relation [init_step], the vsock socket.
    - [Flags], [Config], [ConfigProps], [Cli], [CliProps] (cmd/vit): parsing
      flags, config.json, every command.

    ** How code becomes definitions

    A Go function that touches files is a program of type [M world A]: a
    function of the state that returns an outcome and the next state, so that a
    run that fails keeps its effects.  Code with a backend, a remote or a
    connection runs on [world * X].  A struct is a record, an interface a class,
    a wrapped error [Wrap].  Integers are [Z], wrapped at their width where the
    source computes with them.  What is not in the sources is a parameter with
    named promises: running a child process ([Processes], [GuestProcesses]),
    HTTP, URL and XML decoding, Firecracker and the host's tools ([Host]), the
    system calls of the guest ([GuestKernel], [VsockCalls]), the scheduler's
    choice of the order in which parallel calls complete ([Sched]).

    The environment [OsEnv] decides for each call on files whether it fails,
    how much of a failing write arrives, the clock and the random numbers.
    Safety theorems hold for every environment, that is whatever fails; "the
    call succeeds" is stated for [quiet] ones, in which nothing is injected.
    Theorems that compare blobs by digest take a set [U] of byte strings on
    which SHA-256 does not collide ([NoCollision]); [put_get] instead names the
    colliding blob.

    ** What the theorems show

    - Store: what is put is found again; a [Put] that fails half way leaves
      every blob as it was; [PutFile] agrees with [Put].
    - Worker pool: every interleaving runs each index exactly once, ends, and
      never loses an error.
    - Images: [dataSpans] finds exactly the data of a sparse file; storing and
      writing an image back gives its bytes; an overlay stores the base with
      the written cells over it, if the base has the file's size (of another
      size, what the code keeps of it: [overlay_other_size]); a failed write
      leaves the destination alone.
    - Trees: [Snapshot] lists exactly what is there, [Diff] is exact, [Restore]
      makes the directory the tree or, if something of another kind is in the
      way, fails without changing anything outside it; into a fresh directory
      the two compose to a copy.  All of [Restore] is for directories in which
      no symbolic link stands where the tree has a file or a directory: the code
      writes through such a link ([restore_through_link]).
    - Repository: documents load as saved, names resolve to the newest sandbox,
      [History] is the chain of parents.
    - Engine: a step records exactly what the command left; [Checkout], [Fork],
      browsing and history follow; the cache stays within its limit.  Whatever
      operations run in whatever order, the repository stays whole: no
      checkpoint is lost, each has its tree, its files and its history, and can
      still be forked.  This is for the process backend and for hosts whose
      calls do not fail (a document is written in place, so a failing write can
      damage it), for commands that stay in their working directory and leave
      UTF-8 names, and for checkouts that find no link to write through.  A
      checkout that something of another kind makes fail is one of the outcomes.
    - Machines: a machine captured into a checkpoint comes back with the same
      memory, device state and disk; a step records the files of the guest and
      the machine the command left; whatever warm steps, forks, checkouts and
      stops follow, a fork or a checkout of that checkpoint runs that machine
      again, and other machines go on.  This is for every backend that keeps the
      promises of backend.go ([MachineSpec], [GuestSpec]) and whose machines have
      no layered base disk (in its default overlay mode firecracker's have one);
      for a cache that has room for the images; and for operations that find a
      machine, running or in the checkpoint.  The fake machine is such a
      backend, and what the contract sees of it determines its memory and its
      files ([fake_vm_inj]).  [CacheFaults] shows what happens without room, or
      when writing a cached file fails.
    - Sync: a push is complete and the next one sends nothing; a pull, whatever
      the remote holds, accepts only blobs under their own digest and writes one
      document, under the identifier inside it ([pull_overwrites]: not always
      the one asked for); a checkpoint arrives as it was; the directory store
      refines a map for keys none of which is at, above or below another or its
      temporary name ([tmp_key_lost] shows two that are), the S3 store because
      every request is correctly signed (virtual-hosted addressing, plain keys).
    - VMs: the agent stays in its tree, what the driver lists and writes is
      what the guest has, [Snapshot] leaves the machine running, unless
      Firecracker's answer to the pause is lost ([lost_reply_stays_paused]) or
      it refuses to resume; init always brings the agent back; the fake machine's
      difference images are right, and packing and unpacking its guest gives
      exactly the same files.
    - Command line: the grammar of flags, the configuration, the search for a
      repository.

    ** Bounds and fuel

    Loops over data are structural.  The path walk stops after [max_links] = 40
    links, as Linux does.  [History] has as many steps as the file system has
    nodes, enough for any chain that ends.  The JSON parser has the length of
    its input plus one.  Loops that wait for a deadline run as often as the
    parameter [deadline] says; listing an S3 bucket is bounded by a number of
    pages, since the service decides when it ends; [Write] on a vsock makes at
    most one call per byte.  Temporary names are tried as often as Go does.

    ** Not modelled

    - Deadlines and timeouts other than as a number of tries, contexts, the
      texts of operating-system errors, what a child process prints, setuid and
      sticky bits, Unicode upper-casing of JSON keys, tabs inside the cells of
      a table.
    - In cmd/vit-guest, the goroutine that answers one connection (it runs
      [Agent.Handle], which is modelled) is a parameter of [serve].
    - internal/fcvm/testdata/fakefc, a double of the firecracker binary; the
      driver is proved against [Host] instead.
    - Machines with a layered base disk in the theorems on machines: the code
      that handles them is modelled, but [Fork] drops the base from the root
      checkpoint it writes, so a history of forks does not keep such a machine.
    - The overflow of [chunkCount] for sizes within a chunk of 2^63; a file
      system that reports holes less exactly than byte by byte ([fd_seek_data]);
      calls of [parallel] still in flight after one failed, other than in
      [pool_step]; a tree of which only a part decoded, which [parent_tree]
      takes as none; the error of [MarshalIndent] in [putJSON], which the
      records it is given cannot cause.
    - [Pull] as one of the operations of [op_step]: a remote may hold anything,
      and what a pull keeps and checks is [pull_verified].
    - Interleaving inside the agent: a request is answered as one step.  The
      bucket listing of S3 is modelled, without promises of the service about
      it. *)

From stdpp Require Export prelude strings gmap sorting pretty.
From Stdlib.Strings Require Export Byte.
From Stdlib Require String Ascii.


(** ** Bytes and strings

    A Go [[]byte] is a list of bytes; a Go [string] is a [string] (a byte
    sequence as well).  The two conversions are inverse to each other. *)

Abbreviation ascii := Ascii.ascii.
Abbreviation bytes := (list byte).

#[global] Instance byte_eq_decision : EqDecision byte := Byte.byte_eq_dec.

Definition to_bytes (s : string) : bytes := String.list_byte_of_string s.
Definition of_bytes (b : bytes) : string := String.string_of_list_byte b.

(** ** Outcomes of Go code

    [Ok a]: the function returned [a] and a nil error; [Err e]: it returned
    the error [e]; [Panic]: a run-time panic (index out of range and so on). *)

Inductive errno :=
| ENOENT | EEXIST | ENOTDIR | EISDIR | ENOTEMPTY | ELOOP | EINVAL | ENXIO | EIO | ENOSPC | EACCES.

#[global] Instance errno_eq_decision : EqDecision errno.
Proof. solve_decision. Defined.

(** Errors: an operating-system error, a sentinel of the program
    ([cas.ErrNotFound], [remote.ErrNotFound]) or of the library, a
    [fmt.Errorf] message, or a [%w] wrapping of another error. *)
Inductive gerr :=
| Errno (e : errno)
| ErrNotFound
| ErrObjectNotFound
| SkipDir
| Errorf (msg : string)
| Wrap (msg : string) (e : gerr).

#[global] Instance gerr_eq_decision : EqDecision gerr.
Proof. solve_decision. Defined.

Inductive res (A : Type) :=
| Ok (a : A)
| Err (e : gerr)
| Panic.
Arguments Ok {A} _.
Arguments Err {A} _.
Arguments Panic {A}.

(** [errors.Is]: walk the wrapping chain. *)
Fixpoint errors_Is (e target : gerr) : bool :=
  bool_decide (e = target) ||
  match e with Wrap _ e' => errors_Is e' target | _ => false end.

Definition is_ok {A} (r : res A) : bool :=
  match r with Ok _ => true | _ => false end.

(** Mapping over the value of an error-or-value pair. *)
#[global] Instance sum_fmap E : FMap (sum E) := λ A B f r,
  match r with inl e => inl e | inr a => inr (f a) end.

(** ** The state-and-error monad

    Code that touches the state [S] (the operating system, a backend, a remote
    store) is a function from the state to an outcome and the next state.  The
    state of a failed run is kept: an error path has effects too. *)

Definition M (S A : Type) : Type := S → res A * S.

#[global] Instance M_ret S : MRet (M S) := λ A a s, (Ok a, s).
#[global] Instance M_bind S : MBind (M S) := λ A B k m s,
  match m s with
  | (Ok a, s') => k a s'
  | (Err e, s') => (Err e, s')
  | (Panic, s') => (Panic, s')
  end.

Definition throw {S A} (e : gerr) : M S A := λ s, (Err e, s).
Definition panic {S A} : M S A := λ s, (Panic, s).
Definition get_state {S} : M S S := λ s, (Ok s, s).

(** [r ← attempt m; k r] is Go's [v, err := m(); ...]: the error becomes a
    value the code inspects.  A panic is not an error. *)
Definition attempt {S A} (m : M S A) : M S (gerr + A) := λ s,
  match m s with
  | (Ok a, s') => (Ok (inr a), s')
  | (Err e, s') => (Ok (inl e), s')
  | (Panic, s') => (Panic, s')
  end.

(** A call whose error the source drops. *)
Definition ignore {S A} (m : M S A) : M S unit := _ ← attempt m; mret tt.

Definition of_sum {S A} (r : gerr + A) : M S A :=
  match r with inl e => throw e | inr a => mret a end.

(** A loop over a slice; an error leaves the loop. *)
Fixpoint for_each {S A} (l : list A) (f : A → M S unit) : M S unit :=
  match l with
  | [] => mret tt
  | x :: l' => f x;; for_each l' f
  end.

(** A loop over a slice that threads a local variable. *)
Fixpoint fold_m {S A B} (f : B → A → M S B) (b : B) (l : list A) : M S B :=
  match l with
  | [] => mret b
  | x :: l' => b' ← f b x; fold_m f b' l'
  end.

(** ** Weakest preconditions

    [wp m Q s]: run from [s], the program does not panic and its outcome and
    final state satisfy [Q]. *)

Definition wp {S A} (m : M S A) (Q : gerr + A → S → Prop) (s : S) : Prop :=
  match m s with
  | (Ok a, s') => Q (inr a) s'
  | (Err e, s') => Q (inl e) s'
  | (Panic, _) => False
  end.

Lemma wp_mono {S A} (m : M S A) (Q Q' : gerr + A → S → Prop) s :
  wp m Q s → (∀ r s', Q r s' → Q' r s') → wp m Q' s.
Proof. unfold wp. destruct (m s) as [[] ?]; eauto. Qed.

Lemma wp_ret {S A} (a : A) (Q : gerr + A → S → Prop) s :
  Q (inr a) s → wp (mret a) Q s.
Proof. done. Qed.

Lemma wp_throw {S A} e (Q : gerr + A → S → Prop) s :
  Q (inl e) s → wp (throw e) Q s.
Proof. done. Qed.

Lemma wp_bind {S A B} (m : M S A) (k : A → M S B) (Q : gerr + B → S → Prop) s :
  wp m (λ r s', match r with inl e => Q (inl e) s' | inr a => wp (k a) Q s' end) s →
  wp (m ≫= k) Q s.
Proof. unfold wp, mbind, M_bind. by destruct (m s) as [[] ?]. Qed.

Lemma wp_bind_inv {S A B} (m : M S A) (k : A → M S B) (Q : gerr + B → S → Prop) s :
  wp (m ≫= k) Q s →
  wp m (λ r s', match r with inl e => Q (inl e) s' | inr a => wp (k a) Q s' end) s.
Proof. unfold wp, mbind, M_bind. by destruct (m s) as [[] ?]. Qed.

Lemma wp_attempt {S A} (m : M S A) (Q : gerr + (gerr + A) → S → Prop) s :
  wp m (λ r s', Q (inr r) s') s → wp (attempt m) Q s.
Proof. unfold wp, attempt. by destruct (m s) as [[] ?]. Qed.

Lemma wp_ignore {S A} (m : M S A) (Q : gerr + unit → S → Prop) s :
  wp m (λ _ s', Q (inr tt) s') s → wp (ignore m) Q s.
Proof. intros H. apply wp_bind, wp_attempt. eapply wp_mono; [done|]. by intros. Qed.

Lemma wp_get_state {S} (Q : gerr + S → S → Prop) s : Q (inr s) s → wp get_state Q s.
Proof. done. Qed.

Lemma wp_of_sum {S A} (r : gerr + A) (Q : gerr + A → S → Prop) s :
  Q r s → wp (of_sum r) Q s.
Proof. by destruct r. Qed.

Lemma wp_and {S A} (m : M S A) (Q Q' : gerr + A → S → Prop) s :
  wp m Q s → wp m Q' s → wp m (λ r s', Q r s' ∧ Q' r s') s.
Proof. unfold wp. destruct (m s) as [[] ?]; auto. Qed.

(** From a weakest precondition back to a run. *)
Lemma wp_run {S A} (m : M S A) (Q : gerr + A → S → Prop) s r s' :
  wp m Q s → m s = (r, s') →
  match r with Ok a => Q (inr a) s' | Err e => Q (inl e) s' | Panic => False end.
Proof. unfold wp. intros H E. rewrite E in H. by destruct r. Qed.

Lemma wp_exists {S A} (m : M S A) (Q : gerr + A → S → Prop) s :
  wp m Q s →
  ∃ r s', m s = (match r with inl e => Err e | inr a => Ok a end, s') ∧ Q r s'.
Proof.
  unfold wp. destruct (m s) as [[a|e|] s'] eqn:E; [| |done]; intros ?.
  - by exists (inr a), s'.
  - by exists (inl e), s'.
Qed.

(** Loop rules: an invariant indexed by the part of the slice done. *)
Lemma wp_for_each {S A} (l : list A) (f : A → M S unit)
    (I : list A → S → Prop) (Q : gerr + unit → S → Prop) s :
  I [] s →
  (∀ done x todo s1, l = done ++ x :: todo → I done s1 →
     wp (f x) (λ r s2, match r with inr _ => I (done ++ [x]) s2 | inl e => Q (inl e) s2 end) s1) →
  (∀ s1, I l s1 → Q (inr tt) s1) →
  wp (for_each l f) Q s.
Proof.
  intros HI Hf HQ.
  cut (∀ done todo s1, l = done ++ todo → I done s1 → wp (for_each todo f) Q s1).
  { intros H. by apply (H [] l s). }
  intros done todo. revert done. induction todo as [|x todo IH]; intros done s1 -> HI1; simpl.
  - rewrite app_nil_r in HQ. by apply wp_ret, HQ.
  - apply wp_bind. eapply wp_mono; [by eapply Hf|].
    intros [e|[]] s2; [done|]. intros HI2. apply (IH (done ++ [x])); [|done].
    by rewrite <- app_assoc.
Qed.

Lemma wp_fold_m {S A B} (f : B → A → M S B) (b : B) (l : list A)
    (I : list A → B → S → Prop) (Q : gerr + B → S → Prop) s :
  I [] b s →
  (∀ done x todo b1 s1, l = done ++ x :: todo → I done b1 s1 →
     wp (f b1 x) (λ r s2, match r with inr b2 => I (done ++ [x]) b2 s2 | inl e => Q (inl e) s2 end) s1) →
  (∀ b1 s1, I l b1 s1 → Q (inr b1) s1) →
  wp (fold_m f b l) Q s.
Proof.
  intros HI Hf HQ.
  cut (∀ done todo b1 s1, l = done ++ todo → I done b1 s1 → wp (fold_m f b1 todo) Q s1).
  { intros H. by apply (H [] l b s). }
  intros done todo. revert done. induction todo as [|x todo IH]; intros done b1 s1 -> HI1; simpl.
  - rewrite app_nil_r in HQ. by apply wp_ret, HQ.
  - apply wp_bind. eapply wp_mono; [by eapply Hf|].
    intros [e|b2] s2; [done|]. intros HI2. apply (IH (done ++ [x])); [|done].
    by rewrite <- app_assoc.
Qed.

(** ** JSON documents

    What the code relies on of [encoding/json] for a type: a document for each
    value, and that reading it back gives the value, for the values in
    [json_dom].  [json_MarshalIndent] is [json.MarshalIndent(v, "", "  ")]. *)
Class GoJSON (A : Type) := {
  json_Marshal : A → bytes;
  json_MarshalIndent : A → bytes;
  json_Unmarshal : bytes → option A;
  json_dom : A → Prop;
  json_roundtrip a : json_dom a → json_Unmarshal (json_Marshal a) = Some a;
  json_roundtrip_indent a : json_dom a → json_Unmarshal (json_MarshalIndent a) = Some a
}.

(** ** Running a program on a part of the state *)

Definition on_fst {S X A} (m : M S A) : M (S * X) A := λ sx,
  let '(r, s) := m (fst sx) in (r, (s, snd sx)).
Definition modify_snd {S X} (f : X → X) : M (S * X) unit := λ sx, (Ok tt, (fst sx, f (snd sx))).

(** Run [m] with a local variable of initial value [x]; the result is the
    variable's last value. *)
Definition with_local {S X} (x : X) (m : M (S * X) unit) : M S X := λ s,
  match m (s, x) with
  | (Ok _, (s', x')) => (Ok x', s')
  | (Err e, (s', _)) => (Err e, s')
  | (Panic, (s', _)) => (Panic, s')
  end.

Lemma wp_with_local {S X} (x : X) (m : M (S * X) unit) (Q : gerr + X → S → Prop) s :
  wp m (λ r sx, match r with inl e => Q (inl e) (fst sx) | inr _ => Q (inr (snd sx)) (fst sx) end) (s, x) →
  wp (with_local x m) Q s.
Proof. unfold wp, with_local. by destruct (m (s, x)) as [[[]|?|] [? ?]]. Qed.

Lemma wp_on_fst {S X A} (m : M S A) (Q : gerr + A → S * X → Prop) s x :
  wp m (λ r s', Q r (s', x)) s → wp (on_fst m) Q (s, x).
Proof. unfold wp, on_fst. simpl. by destruct (m s) as [[] ?]. Qed.

Lemma wp_modify_snd {S X} (f : X → X) (Q : gerr + unit → S * X → Prop) s x :
  Q (inr tt) (s, f x) → wp (modify_snd f) Q (s, x).
Proof. done. Qed.

(** [wp_step] peels the head of a monadic program. *)
Ltac wp_step :=
  lazymatch goal with
  | |- wp (mret _) _ _ => apply wp_ret
  | |- wp (throw _) _ _ => apply wp_throw
  | |- wp (_ ≫= _) _ _ => apply wp_bind
  | |- wp (attempt _) _ _ => apply wp_attempt
  | |- wp (ignore _) _ _ => apply wp_ignore
  | |- wp (of_sum _) _ _ => apply wp_of_sum
  | |- wp get_state _ _ => apply wp_get_state
  | |- wp (on_fst _) _ (_, _) => apply wp_on_fst
  | |- wp (modify_snd _) _ (_, _) => apply wp_modify_snd
  | |- wp (with_local _ _) _ _ => apply wp_with_local
  end.
(** [wp_use H]: apply a specification, leaving its consequence. *)
Tactic Notation "wp_use" uconstr(H) := eapply wp_mono; [eapply H|]; [..|cbv beta].

(** ** Strings *)

(** [strings.Split s sep] for a one-byte separator: never empty. *)
Fixpoint split_on (c : ascii) (s : string) : list string :=
  match s with
  | EmptyString => [""]
  | String a s' =>
      if decide (a = c) then "" :: split_on c s'
      else match split_on c s' with
           | [] => [String a ""]
           | x :: xs => String a x :: xs
           end
  end.

(** [strings.Join]. *)
Fixpoint join_with (sep : string) (l : list string) : string :=
  match l with
  | [] => ""
  | [x] => x
  | x :: l' => x +:+ sep +:+ join_with sep l'
  end.

Fixpoint has_char (c : ascii) (s : string) : bool :=
  match s with
  | EmptyString => false
  | String a s' => bool_decide (a = c) || has_char c s'
  end.

(** [strings.HasPrefix] and [strings.TrimPrefix]. *)
Definition has_prefix (pre s : string) : bool := String.prefix pre s.
Definition trim_prefix (pre s : string) : string :=
  if has_prefix pre s
  then String.substring (String.length pre) (String.length s - String.length pre) s
  else s.

Lemma string_length_app s1 s2 : String.length (s1 +:+ s2) = (String.length s1 + String.length s2)%nat.
Proof. induction s1 as [|a s1 IH]; [done|]. simpl. f_equal. exact IH. Qed.

Lemma substring_all s : String.substring 0 (String.length s) s = s.
Proof. induction s as [|c s IH]; simpl; congruence. Qed.

Lemma string_app_assoc (a b d : string) : a +:+ (b +:+ d) = (a +:+ b) +:+ d.
Proof.
  induction a as [|z a IH]; [done|].
  change (String z (a +:+ (b +:+ d)) = String z ((a +:+ b) +:+ d)). by rewrite IH.
Qed.

Lemma has_prefix_app p s : has_prefix p (p +:+ s) = true.
Proof.
  unfold has_prefix. induction p as [|a p IH]; [by destruct s|]. change (String a p +:+ s) with (String a (p +:+ s)). simpl.
  by destruct (Ascii.ascii_dec a a).
Qed.

Lemma has_prefix_inv pre s : has_prefix pre s = true → ∃ k, s = pre +:+ k.
Proof.
  unfold has_prefix. revert s. induction pre as [|a pre IH]; intros s; [by exists s|].
  destruct s as [|b' s]; [done|]. cbn [String.prefix]. destruct (Ascii.ascii_dec a b') as [->|]; [|done].
  intros [k ->]%IH. by exists k.
Qed.

Lemma split_on_no_sep c s : has_char c s = false → split_on c s = [s].
Proof.
  induction s as [|a s IH]; [done|]; simpl.
  intros [Ha Hs]%orb_false_iff. apply bool_decide_eq_false in Ha.
  rewrite decide_False by done. by rewrite (IH Hs).
Qed.

Lemma split_on_not_nil c s : split_on c s ≠ [].
Proof. destruct s as [|a s]; simpl; [done|]. case_decide; [done|]. by destruct (split_on c s). Qed.

Lemma split_on_app_sep c s1 s2 :
  has_char c s1 = false → split_on c (s1 +:+ String c s2) = s1 :: split_on c s2.
Proof.
  induction s1 as [|a s1 IH]; simpl.
  - intros _. by rewrite decide_True.
  - intros [Ha Hs]%orb_false_iff. apply bool_decide_eq_false in Ha.
    rewrite decide_False by done. by rewrite (IH Hs).
Qed.

Lemma split_join c l :
  l ≠ [] → Forall (λ s, has_char c s = false) l →
  split_on c (join_with (String c "") l) = l.
Proof.
  induction l as [|x l IH]; [done|]. intros _ Hl. inversion Hl as [|?? Hx Hl']; subst.
  destruct l as [|y l]; [by apply split_on_no_sep|].
  change (join_with (String c "") (x :: y :: l))
    with (x +:+ String c (join_with (String c "") (y :: l))).
  rewrite split_on_app_sep by done. by rewrite IH.
Qed.

Lemma split_on_pieces c s : Forall (λ x, has_char c x = false) (split_on c s).
Proof.
  induction s as [|a s IH]; simpl; [by repeat constructor|].
  case_decide; [by constructor|].
  destruct (split_on c s) as [|x xs].
  - repeat constructor; simpl. by rewrite bool_decide_eq_false_2.
  - inversion IH; subst. constructor; [|done]. simpl. by rewrite bool_decide_eq_false_2.
Qed.

Lemma join_split c s : join_with (String c "") (split_on c s) = s.
Proof.
  induction s as [|a s IH]; [done|]; simpl. case_decide; subst.
  - pose proof (split_on_not_nil c s). destruct (split_on c s) as [|x xs]; [done|].
    simpl in *. by rewrite IH.
  - pose proof (split_on_not_nil c s). destruct (split_on c s) as [|x [|y xs]]; [done|..]; simpl in *.
    + by rewrite IH.
    + by rewrite <- IH.
Qed.

#[global] Instance to_bytes_of_bytes : Cancel (=) to_bytes of_bytes.
Proof. intros b. apply String.list_byte_of_string_of_list_byte. Qed.
#[global] Instance of_bytes_to_bytes : Cancel (=) of_bytes to_bytes.
Proof. intros s. apply String.string_of_list_byte_of_string. Qed.
