(* ===== verification/Sha256.v ===== *)
(** * SHA-256 and its hexadecimal digest

    The store of vitvm names every blob by [hex.EncodeToString] of the
    [sha256.Sum256] of its bytes (src/internal/cas/cas.go).  Both functions are
    Go's standard library; they are defined here so that every name the model
    computes is the name the program computes.  Words are 32-bit integers in
    [Z], with the wrap-around of addition and of left shifts written out.

    Nothing in the development relies on the digest beyond its shape
    ([hashOf_length], [hashOf_hex]): where a theorem needs two blobs not to
    collide it says so. *)

From S2P Require Import Prelude.
Open Scope Z_scope.

Definition byte_to_Z (b : byte) : Z := Z.of_N (Byte.to_N b).
Definition byte_of_Z (z : Z) : byte :=
  default x00 (Byte.of_N (Z.to_N (z mod 256))).

Module Sha256.

Definition wrap32 (x : Z) : Z := Z.land x 0xffffffff.
Definition add32 (x y : Z) : Z := wrap32 (x + y).
Definition rotr (n x : Z) : Z :=
  Z.lor (Z.shiftr x n) (wrap32 (Z.shiftl x (32 - n))).
Definition not32 (x : Z) : Z := Z.lxor x 0xffffffff.

Definition Ch (x y z : Z) : Z := Z.lxor (Z.land x y) (Z.land (not32 x) z).
Definition Maj (x y z : Z) : Z := Z.lxor (Z.lxor (Z.land x y) (Z.land x z)) (Z.land y z).
Definition Sigma0 (x : Z) : Z := Z.lxor (Z.lxor (rotr 2 x) (rotr 13 x)) (rotr 22 x).
Definition Sigma1 (x : Z) : Z := Z.lxor (Z.lxor (rotr 6 x) (rotr 11 x)) (rotr 25 x).
Definition sigma0 (x : Z) : Z := Z.lxor (Z.lxor (rotr 7 x) (rotr 18 x)) (Z.shiftr x 3).
Definition sigma1 (x : Z) : Z := Z.lxor (Z.lxor (rotr 17 x) (rotr 19 x)) (Z.shiftr x 10).

(** The round constants are the first 32 bits of the fractional parts of the
    cube roots of the first 64 primes, the initial state those of the square
    roots of the first 8. *)
Definition primes : list Z :=
  Eval vm_compute in
    List.filter (λ p, forallb (λ d, negb (p mod d =? 0)) (Z.of_nat <$> seq 2 (Z.to_nat p - 2)))
                (Z.of_nat <$> seq 2 310).

Fixpoint cbrt_bits (i : nat) (n r : Z) : Z :=
  match i with
  | O => r
  | S i' => let r' := r + 2 ^ Z.of_nat i' in
            cbrt_bits i' n (if r' ^ 3 <=? n then r' else r)
  end.
Definition cbrt_frac32 (p : Z) : Z := cbrt_bits 40 (p * 2 ^ 96) 0 mod 2 ^ 32.
Definition sqrt_frac32 (p : Z) : Z := Z.sqrt (p * 2 ^ 64) mod 2 ^ 32.

Definition K : list Z := Eval vm_compute in cbrt_frac32 <$> primes.

Record state := St { sa : Z; sb : Z; sc : Z; sd : Z; se : Z; sf : Z; sg : Z; sh : Z }.

Definition H0 : state := Eval vm_compute in
  match sqrt_frac32 <$> take 8 primes with
  | [a; b; c; d; e; f; g; h] => St a b c d e f g h
  | _ => St 0 0 0 0 0 0 0 0
  end.

Definition word_of (b : bytes) : Z := foldl (λ acc x, Z.lor (Z.shiftl acc 8) (byte_to_Z x)) 0 b.

Fixpoint words (fuel : nat) (b : bytes) : list Z :=
  match fuel with
  | O => []
  | S n => word_of (take 4 b) :: words n (drop 4 b)
  end.

(** The message schedule, kept as a sliding window of the last 16 words. *)
Fixpoint rounds (ks : list Z) (w : list Z) (s : state) : state :=
  match ks, w with
  | k :: ks', w0 :: wrest =>
      let t1 := add32 (add32 (add32 (add32 (sh s) (Sigma1 (se s))) (Ch (se s) (sf s) (sg s))) k) w0 in
      let t2 := add32 (Sigma0 (sa s)) (Maj (sa s) (sb s) (sc s)) in
      let next := add32 (add32 (add32 (sigma1 (nth 14 w 0)) (nth 9 w 0)) (sigma0 (nth 1 w 0))) w0 in
      rounds ks' (wrest ++ [next])
        (St (add32 t1 t2) (sa s) (sb s) (sc s) (add32 (sd s) t1) (se s) (sf s) (sg s))
  | _, _ => s
  end.

Definition compress (s : state) (block : bytes) : state :=
  let r := rounds K (words 16 block) s in
  St (add32 (sa s) (sa r)) (add32 (sb s) (sb r)) (add32 (sc s) (sc r)) (add32 (sd s) (sd r))
     (add32 (se s) (se r)) (add32 (sf s) (sf r)) (add32 (sg s) (sg r)) (add32 (sh s) (sh r)).

Fixpoint be_bytes (n : nat) (z : Z) : bytes :=
  match n with
  | O => []
  | S n' => byte_of_Z (Z.shiftr z (8 * Z.of_nat n')) :: be_bytes n' z
  end.

Definition pad (b : bytes) : bytes :=
  let l := Z.of_nat (length b) in
  b ++ [x80] ++ replicate (Z.to_nat ((55 - l) mod 64)) x00 ++ be_bytes 8 (8 * l).

Fixpoint blocks (fuel : nat) (b : bytes) (s : state) : state :=
  match fuel with
  | O => s
  | S n => match b with
           | [] => s
           | _ => blocks n (drop 64 b) (compress s (take 64 b))
           end
  end.

Definition Sum256 (b : bytes) : bytes :=
  let p := pad b in
  let s := blocks (S (length p / 64)) p H0 in
  mjoin (be_bytes 4 <$> [sa s; sb s; sc s; sd s; se s; sf s; sg s; sh s]).

End Sha256.

(** [hex.EncodeToString]. *)
Definition hex_digit (n : N) : ascii := default Ascii.zero (String.get (N.to_nat n) "0123456789abcdef").

Fixpoint hex_EncodeToString (b : bytes) : string :=
  match b with
  | [] => ""
  | x :: b' => String (hex_digit (Byte.to_N x / 16)) (String (hex_digit (Byte.to_N x mod 16))
                 (hex_EncodeToString b'))
  end.

(** [hashOf] of src/internal/cas/cas.go. *)
Definition hashOf (b : bytes) : string := hex_EncodeToString (Sha256.Sum256 b).

Definition is_hex_char (c : ascii) : bool :=
  bool_decide (c ∈ String.list_ascii_of_string "0123456789abcdef").
Definition all_hex (s : string) : bool :=
  forallb is_hex_char (String.list_ascii_of_string s).
(** The shape of a digest: 64 lower-case hexadecimal characters. *)
Definition is_digest (s : string) : bool :=
  bool_decide (String.length s = 64%nat) && all_hex s.

Lemma length_be_bytes n z : length (Sha256.be_bytes n z) = n.
Proof. induction n as [|n IH]; simpl; congruence. Qed.

Lemma length_Sum256 b : length (Sha256.Sum256 b) = 32%nat.
Proof. reflexivity. Qed.

Lemma hex_digit_hex n : (n < 16)%N → is_hex_char (hex_digit n) = true.
Proof.
  intros Hn. assert (n ∈ N.of_nat <$> seq 0 16) as Hin.
  { apply list_elem_of_fmap. exists (N.to_nat n). rewrite elem_of_seq. lia. }
  clear Hn. revert n Hin. apply Forall_forall. by vm_compute; repeat constructor.
Qed.

Lemma byte_to_N_lt b : (Byte.to_N b < 256)%N.
Proof. pose proof (Byte.to_N_bounded b). lia. Qed.

Lemma hex_encode_length b : String.length (hex_EncodeToString b) = (2 * length b)%nat.
Proof. induction b as [|x b IH]; simpl; lia. Qed.

Lemma hex_encode_hex b : all_hex (hex_EncodeToString b) = true.
Proof.
  induction b as [|x b IH]; [done|]. unfold all_hex in *; simpl.
  pose proof (byte_to_N_lt x).
  rewrite !hex_digit_hex, IH; [done|..].
  - by apply N.mod_lt.
  - by apply N.Div0.div_lt_upper_bound.
Qed.

(** Every name the store gives is a digest. *)
Lemma hashOf_digest b : is_digest (hashOf b) = true.
Proof.
  unfold is_digest, hashOf. rewrite hex_encode_hex, andb_true_r.
  apply bool_decide_eq_true. by rewrite hex_encode_length, length_Sum256.
Qed.

Example hashOf_abc :
  hashOf (to_bytes "abc") = "ba7816bf8f01cfea414140de5dae2223b00361a396177a9cb410ff61f20015ad".
Proof. by vm_compute. Qed.

Global Opaque hashOf.
#[global] Arguments Sha256.Sum256 : simpl never.
