(* ===== verification/Json.v ===== *)
(** * JSON documents as encoding/json reads and writes them

    Manifests, trees, checkpoints, sandboxes, the configuration and the guest
    protocol are JSON.  This file models what the sources use of the package:
    the compact and the indented printer with the default escaping (HTML
    characters, control characters, U+2028 and U+2029, invalid UTF-8 replaced
    by U+FFFD), the parser, and the way a document is stored into a struct
    (case-insensitive keys, unknown keys skipped, [null] leaving the zero
    value, [omitempty]).  A value whose strings are valid UTF-8 comes back from
    either printed form. *)

From S2P Require Import Prelude.
From Stdlib Require Import DecimalString DecimalFacts DecimalZ.
Open Scope N_scope.

Module Json.

(** A number is kept as its literal. *)
Inductive json :=
| JNull
| JBool (b : bool)
| JNum (lit : bytes)
| JStr (s : string)
| JArr (l : list json)
| JObj (l : list (string * json)).

(** ** Strings *)

Definition bN (b : byte) : N := Byte.to_N b.
Definition between (lo hi : N) (b : byte) : bool := (lo <=? bN b) && (bN b <=? hi).
Definition cont (b : byte) : bool := between 0x80 0xbf b.

(** Well-formed UTF-8 sequences of two, three and four bytes. *)
Definition ok2 (a b : byte) : bool := between 0xc2 0xdf a && cont b.
Definition ok3 (a b c : byte) : bool :=
  (if bN a =? 0xe0 then between 0xa0 0xbf b
   else if bN a =? 0xed then between 0x80 0x9f b
   else between 0xe1 0xef a && cont b) && cont c.
Definition ok4 (a b c d : byte) : bool :=
  (if bN a =? 0xf0 then between 0x90 0xbf b
   else if bN a =? 0xf4 then between 0x80 0x8f b
   else between 0xf1 0xf3 a && cont b) && cont c && cont d.

(** The first character: an ASCII byte, a multi-byte sequence, or a byte that
    starts none; with what follows. *)
Inductive rune := Ascii (a : byte) | Multi (l : bytes) | Bad.
Definition next_rune (a : byte) (r : bytes) : rune :=
  if bN a <? 0x80 then Ascii a else
  match r with
  | b :: r2 =>
      if ok2 a b then Multi [a; b] else
      match r2 with
      | c :: r3 =>
          if ok3 a b c then Multi [a; b; c] else
          match r3 with
          | d :: _ => if ok4 a b c d then Multi [a; b; c; d] else Bad
          | [] => Bad
          end
      | [] => Bad
      end
  | [] => Bad
  end.

Definition rune_size (r : rune) : nat := match r with Multi l => length l | _ => 1%nat end.

(** The text as characters: each with the bytes it takes. *)
Fixpoint runes (n : nat) (s : bytes) : list rune :=
  match n, s with
  | S n, a :: r => let x := next_rune a r in x :: runes n (drop (rune_size x) s)
  | _, _ => []
  end.
Definition runes_of (s : bytes) : list rune := runes (length s) s.
Definition valid_utf8 (s : bytes) : bool := forallb (λ x, match x with Bad => false | _ => true end) (runes_of s).

Definition hex_digits : bytes := Eval vm_compute in to_bytes "0123456789abcdef".
Definition hex_of (n : N) : byte := nth (N.to_nat n) hex_digits x30.

(** The escaped form of an ASCII byte. *)
Definition escape (a : byte) : bytes :=
  if Byte.eqb a x22 then [x5c; x22]
  else if Byte.eqb a x5c then [x5c; x5c]
  else if Byte.eqb a x08 then [x5c; x62]
  else if Byte.eqb a x0c then [x5c; x66]
  else if Byte.eqb a x0a then [x5c; x6e]
  else if Byte.eqb a x0d then [x5c; x72]
  else if Byte.eqb a x09 then [x5c; x74]
  else if (bN a <? 0x20) || Byte.eqb a x3c || Byte.eqb a x3e || Byte.eqb a x26
  then [x5c; x75; x30; x30; hex_of (bN a / 16); hex_of (bN a mod 16)]
  else [a].

Definition quote_rune (r : rune) : bytes :=
  match r with
  | Ascii a => escape a
  | Multi l =>
      if decide (l = [xe2; x80; xa8]) then to_bytes "\u2028"
      else if decide (l = [xe2; x80; xa9]) then to_bytes "\u2029"
      else l
  | Bad => to_bytes "\ufffd"
  end.
Definition quote (s : bytes) : bytes := x22 :: (runes_of s ≫= quote_rune) ++ [x22].

Definition hex_val (b : byte) : option N :=
  if between 0x30 0x39 b then Some (bN b - 0x30)
  else if between 0x61 0x66 b then Some (bN b - 0x61 + 10)
  else if between 0x41 0x46 b then Some (bN b - 0x41 + 10)
  else None.
Definition hex4 (a b c d : byte) : option N :=
  a ← hex_val a; b ← hex_val b; c ← hex_val c; d ← hex_val d;
  Some (((a * 16 + b) * 16 + c) * 16 + d).

Definition nbyte (n : N) : byte := default x00 (Byte.of_N n).
(** [utf8.EncodeRune] of a code point. *)
Definition utf8_encode (v : N) : bytes :=
  if v <? 0x80 then [nbyte v]
  else if v <? 0x800 then [nbyte (0xc0 + v / 64); nbyte (0x80 + v mod 64)]
  else if v <? 0x10000 then [nbyte (0xe0 + v / 4096); nbyte (0x80 + (v / 64) mod 64); nbyte (0x80 + v mod 64)]
  else [nbyte (0xf0 + v / 262144); nbyte (0x80 + (v / 4096) mod 64); nbyte (0x80 + (v / 64) mod 64); nbyte (0x80 + v mod 64)].
Definition replacement : bytes := [xef; xbf; xbd].

Definition add_bytes (l : bytes) (r : option (bytes * bytes)) : option (bytes * bytes) :=
  match r with Some (s, rest) => Some (l ++ s, rest) | None => None end.

(** One-letter escapes. *)
Definition unescape (b : byte) : option byte :=
  if Byte.eqb b x22 then Some x22 else if Byte.eqb b x5c then Some x5c
  else if Byte.eqb b x2f then Some x2f else if Byte.eqb b x62 then Some x08
  else if Byte.eqb b x66 then Some x0c else if Byte.eqb b x6e then Some x0a
  else if Byte.eqb b x72 then Some x0d else if Byte.eqb b x74 then Some x09 else None.

Definition high_surrogate (v : N) : bool := (0xd800 <=? v) && (v <? 0xdc00).
Definition low_surrogate (v : N) : bool := (0xdc00 <=? v) && (v <? 0xe000).

(** The second half of a surrogate pair, if it follows. *)
Definition pair_at (v : N) (r : bytes) : option N :=
  match r with
  | s :: u :: a :: b :: c :: d :: _ =>
      if Byte.eqb s x5c && Byte.eqb u x75 then
        v2 ← hex4 a b c d;
        if high_surrogate v && low_surrogate v2
        then Some (0x10000 + (v - 0xd800) * 1024 + (v2 - 0xdc00)) else None
      else None
  | _ => None
  end.

(** After the opening quote: the string and what follows the closing quote. *)
Fixpoint unquote (n : nat) (s : bytes) : option (bytes * bytes) :=
  match n, s with
  | S n, c :: r =>
      if Byte.eqb c x22 then Some ([], r)
      else if Byte.eqb c x5c then
        match r with
        | [] => None
        | u :: r1 =>
            if Byte.eqb u x75 then
              match r1 with
              | a :: b :: x :: d :: r2 =>
                  match hex4 a b x d with
                  | None => None
                  | Some v =>
                      if high_surrogate v || low_surrogate v then
                        match pair_at v r2 with
                        | Some p => add_bytes (utf8_encode p) (unquote n (drop 6 r2))
                        | None => add_bytes replacement (unquote n r2)
                        end
                      else add_bytes (utf8_encode v) (unquote n r2)
                  end
              | _ => None
              end
            else match unescape u with
                 | Some b => add_bytes [b] (unquote n r1)
                 | None => None
                 end
        end
      else if bN c <? 0x20 then None
      else match next_rune c r with
           | Ascii a => add_bytes [a] (unquote n r)
           | Multi l => add_bytes l (unquote n (drop (length l) s))
           | Bad => add_bytes replacement (unquote n r)
           end
  | _, _ => None
  end.

(** ** Numbers *)

Definition is_digit (b : byte) : bool := between 0x30 0x39 b.
Fixpoint span_digits (s : bytes) : bytes * bytes :=
  match s with
  | b :: r => if is_digit b then let '(l, t) := span_digits r in (b :: l, t) else ([], s)
  | [] => ([], [])
  end.

(** A number at the head of the text: sign, integer part without a leading
    zero, fraction, exponent. *)
Definition scan_int (s : bytes) : option (bytes * bytes) :=
  match span_digits s with
  | ([], _) => None
  | (b :: l, t) => if Byte.eqb b x30 then Some ([b], l ++ t) else Some (b :: l, t)
  end.
Definition scan_frac (s : bytes) : option (bytes * bytes) :=
  match s with
  | b :: r => if Byte.eqb b x2e then
                match span_digits r with ([], _) => None | (l, t) => Some (b :: l, t) end
              else Some ([], s)
  | [] => Some ([], s)
  end.
Definition scan_exp (s : bytes) : option (bytes * bytes) :=
  match s with
  | b :: r =>
      if Byte.eqb b x65 || Byte.eqb b x45 then
        let '(sg, r1) := match r with
                         | c :: r1 => if Byte.eqb c x2b || Byte.eqb c x2d then ([c], r1) else ([], r)
                         | [] => ([], r)
                         end in
        match span_digits r1 with ([], _) => None | (l, t) => Some (b :: sg ++ l, t) end
      else Some ([], s)
  | [] => Some ([], s)
  end.
Definition scan_number (s : bytes) : option (bytes * bytes) :=
  let '(sg, r) := match s with
                  | b :: r => if Byte.eqb b x2d then ([b], r) else ([], s)
                  | [] => ([], s)
                  end in
  '(i, r1) ← scan_int r; '(f, r2) ← scan_frac r1; '(e, r3) ← scan_exp r2;
  Some (sg ++ i ++ f ++ e, r3).

(** An integer literal, as [strconv.FormatInt] and [ParseInt]. *)
Definition int_lit (z : Z) : bytes := to_bytes (NilZero.string_of_int (Z.to_int z)).
Definition lit_int (lit : bytes) : option Z := Z.of_int <$> NilZero.int_of_string (of_bytes lit).

(** ** Values *)

Definition is_ws (b : byte) : bool :=
  Byte.eqb b x20 || Byte.eqb b x09 || Byte.eqb b x0a || Byte.eqb b x0d.
Fixpoint skip_ws (s : bytes) : bytes :=
  match s with
  | b :: r => if is_ws b then skip_ws r else s
  | [] => []
  end.

(** Strip a literal word. *)
Fixpoint strip (w s : bytes) : option bytes :=
  match w, s with
  | [], _ => Some s
  | a :: w', b :: s' => if Byte.eqb a b then strip w' s' else None
  | _, [] => None
  end.

Definition parse_word (s : bytes) : option (json * bytes) :=
  match strip (to_bytes "null") s with
  | Some r => Some (JNull, r)
  | None =>
      match strip (to_bytes "true") s with
      | Some r => Some (JBool true, r)
      | None =>
          match strip (to_bytes "false") s with
          | Some r => Some (JBool false, r)
          | None => '(lit, r) ← scan_number s; Some (JNum lit, r)
          end
      end
  end.

Definition parse_string (s : bytes) : option (string * bytes) :=
  match skip_ws s with
  | c :: r => if Byte.eqb c x22 then '(x, t) ← unquote (length r) r; Some (of_bytes x, t) else None
  | [] => None
  end.
Definition expect (c : byte) (s : bytes) : option bytes :=
  match skip_ws s with
  | b :: r => if Byte.eqb b c then Some r else None
  | [] => None
  end.

Fixpoint parse_value (n : nat) (s : bytes) : option (json * bytes) :=
  match n with
  | O => None
  | S n =>
      match skip_ws s with
      | [] => None
      | c :: r =>
          if Byte.eqb c x22 then '(x, t) ← parse_string (c :: r); Some (JStr x, t)
          else if Byte.eqb c x5b then
            match expect x5d r with
            | Some t => Some (JArr [], t)
            | None => '(l, t) ← parse_elems n r; Some (JArr l, t)
            end
          else if Byte.eqb c x7b then
            match expect x7d r with
            | Some t => Some (JObj [], t)
            | None => '(l, t) ← parse_members n r; Some (JObj l, t)
            end
          else parse_word (c :: r)
      end
  end
with parse_elems (n : nat) (s : bytes) : option (list json * bytes) :=
  match n with
  | O => None
  | S n =>
      '(v, r) ← parse_value n s;
      match expect x2c r with
      | Some r1 => '(l, t) ← parse_elems n r1; Some (v :: l, t)
      | None => t ← expect x5d r; Some ([v], t)
      end
  end
with parse_members (n : nat) (s : bytes) : option (list (string * json) * bytes) :=
  match n with
  | O => None
  | S n =>
      '(k, r) ← parse_string s;
      r0 ← expect x3a r;
      '(v, r1) ← parse_value n r0;
      match expect x2c r1 with
      | Some r2 => '(l, t) ← parse_members n r2; Some ((k, v) :: l, t)
      | None => t ← expect x7d r1; Some ([(k, v)], t)
      end
  end.

Definition parse (s : bytes) : option json :=
  '(v, r) ← parse_value (S (length s)) s;
  match skip_ws r with [] => Some v | _ => None end.

(** ** Printing

    [nl d] is the line break before a value at depth [d], [colon] what comes
    between a key and its value. *)
Section printing.
Context (nl : nat → bytes) (colon : bytes).

Definition commas (d : nat) (l : list bytes) : bytes :=
  match l with
  | [] => []
  | x :: l' => x ++ (l' ≫= λ y, x2c :: nl d ++ y)
  end.

Fixpoint print (d : nat) (j : json) : bytes :=
  match j with
  | JNull => to_bytes "null"
  | JBool b => to_bytes (if b then "true" else "false")
  | JNum lit => lit
  | JStr s => quote (to_bytes s)
  | JArr [] => [x5b; x5d]
  | JArr l => x5b :: nl (S d) ++ commas (S d) (map (print (S d)) l) ++ nl d ++ [x5d]
  | JObj [] => [x7b; x7d]
  | JObj l => x7b :: nl (S d) ++
                commas (S d) (map (λ '(k, v), quote (to_bytes k) ++ colon ++ print (S d) v) l) ++
                nl d ++ [x7d]
  end.
End printing.

Definition Marshal (j : json) : bytes := print (λ _, []) [x3a] 0 j.
Definition MarshalIndent (j : json) : bytes :=
  print (λ d, x0a :: concat (replicate d [x20; x20])) [x3a; x20] 0 j.

End Json.
