(* ===== verification/JsonFacts.v ===== *)
(** * Printing and parsing JSON are inverse *)

From S2P Require Import Prelude Json.
From Stdlib Require Import DecimalString DecimalFacts DecimalZ.
Import Json.
Open Scope N_scope.

(** Values whose strings are valid UTF-8 and whose numbers are integers. *)
Fixpoint json_wf (j : json) : Prop :=
  match j with
  | JNull | JBool _ => True
  | JNum lit => ∃ z, lit = int_lit z
  | JStr s => valid_utf8 (to_bytes s) = true
  | JArr l => (fix go l := match l with [] => True | x :: l' => json_wf x ∧ go l' end) l
  | JObj l => (fix go l := match l with
                           | [] => True
                           | (k, v) :: l' => valid_utf8 (to_bytes k) = true ∧ json_wf v ∧ go l'
                           end) l
  end.

Section json_induction.
Context (P : json → Prop) (Hnull : P JNull) (Hbool : ∀ b, P (JBool b)) (Hnum : ∀ l, P (JNum l))
  (Hstr : ∀ s, P (JStr s)) (Harr : ∀ l, Forall P l → P (JArr l)) (Hobj : ∀ l, Forall (P ∘ snd) l → P (JObj l)).
Fixpoint json_ind' (j : json) : P j :=
  match j with
  | JNull => Hnull
  | JBool b => Hbool b
  | JNum l => Hnum l
  | JStr s => Hstr s
  | JArr l => Harr l ((fix go l : Forall P l :=
      match l with [] => Forall_nil_2 P | x :: l' => Forall_cons_2 P x l' (json_ind' x) (go l') end) l)
  | JObj l => Hobj l ((fix go l : Forall (P ∘ snd) l :=
      match l with [] => Forall_nil_2 _ | x :: l' => Forall_cons_2 (P ∘ snd) x l' (json_ind' (snd x)) (go l') end) l)
  end.
End json_induction.

Lemma json_wf_arr l : json_wf (JArr l) ↔ Forall json_wf l.
Proof. induction l as [|x l IH]; simpl in *; [done|]. by rewrite Forall_cons, IH. Qed.
Lemma json_wf_obj l : json_wf (JObj l) ↔ Forall (λ kv, valid_utf8 (to_bytes kv.1) = true ∧ json_wf kv.2) l.
Proof. induction l as [|[k v] l IH]; simpl in *; [done|]. rewrite Forall_cons, IH. simpl. tauto. Qed.

(** ** Strings *)

Lemma unquote_escape n a r :
  (bN a <? 0x80) = true → unquote (S n) (escape a ++ r) = add_bytes [a] (unquote n r).
Proof. destruct a; intros Ha; first [discriminate Ha | reflexivity]. Qed.

Lemma next_rune_multi a r l :
  next_rune a r = Multi l →
  (bN a <? 0x80) = false ∧ (2 ≤ length l)%nat ∧ (∃ t, a :: r = l ++ t) ∧
  ∀ t', ∃ r', l ++ t' = a :: r' ∧ next_rune a r' = Multi l.
Proof.
  unfold next_rune. destruct (bN a <? 0x80) eqn:Ha; [done|].
  destruct r as [|b r2]; [done|]. destruct (ok2 a b) eqn:E2.
  { intros [= <-]. split_and!; [done|simpl; lia|by exists r2|]. intros t'. exists (b :: t'). by rewrite E2. }
  destruct r2 as [|c r3]; [done|]. destruct (ok3 a b c) eqn:E3.
  { intros [= <-]. split_and!; [done|simpl; lia|by exists r3|]. intros t'. exists (b :: c :: t'). by rewrite E2, E3. }
  destruct r3 as [|d r4]; [done|]. destruct (ok4 a b c d) eqn:E4; [|done].
  intros [= <-]. split_and!; [done|simpl; lia|by exists r4|]. intros t'. exists (b :: c :: d :: t').
  by rewrite E2, E3, E4.
Qed.

Lemma next_rune_ascii a r b : next_rune a r = Ascii b → a = b ∧ (bN a <? 0x80) = true.
Proof.
  unfold next_rune. destruct (bN a <? 0x80) eqn:Ha; [by intros [= ->]|].
  destruct r as [|? [|? [|? ?]]]; repeat case_match; done.
Qed.

Lemma not_ascii_plain c :
  (bN c <? 0x80) = false → Byte.eqb c x22 = false ∧ Byte.eqb c x5c = false ∧ (bN c <? 0x20) = false.
Proof. destruct c; intros H; first [discriminate H | done]. Qed.

Lemma unquote_multi n a r l rest :
  next_rune a r = Multi l → unquote (S n) (quote_rune (Multi l) ++ rest) = add_bytes l (unquote n rest).
Proof.
  intros Hr. destruct (next_rune_multi _ _ _ Hr) as (Ha & _ & _ & Hany). simpl quote_rune.
  destruct (decide (l = [xe2; x80; xa8])) as [->|_]; [reflexivity|].
  destruct (decide (l = [xe2; x80; xa9])) as [->|_]; [reflexivity|].
  destruct (Hany rest) as (r' & Hl & Hn). rewrite Hl. simpl.
  destruct (not_ascii_plain a Ha) as (-> & -> & ->). rewrite Hn. rewrite <- Hl. by rewrite drop_app_length.
Qed.

Lemma quote_rune_length r : (1 ≤ length (quote_rune r))%nat ∨ r = Multi [].
Proof.
  destruct r as [a|l|]; simpl; [left; destruct a; simpl; lia| |left; simpl; lia].
  destruct l; [by right|]. left. repeat case_decide; simpl; lia.
Qed.

Lemma unquote_runes k s n rest :
  (length s ≤ k)%nat → forallb (λ x, match x with Bad => false | _ => true end) (runes k s) = true →
  (length (runes k s ≫= quote_rune) < n)%nat →
  unquote n ((runes k s ≫= quote_rune) ++ x22 :: rest) = Some (s, rest).
Proof.
  revert s n. induction k as [|k IH]; intros s n Hk Hv Hn.
  { destruct s; [|simpl in Hk; lia]. destruct n; [simpl in Hn; lia|done]. }
  destruct s as [|a r]; [destruct n; [simpl in Hn; lia|done]|].
  cbn [runes] in Hv, Hn |- *. destruct (next_rune a r) as [b|l|] eqn:E; simpl in Hv; [| |done].
  - destruct (next_rune_ascii _ _ _ E) as [-> Hb]. destruct n as [|n]; [lia|].
    change (((Ascii b :: runes k (drop (rune_size (Ascii b)) (b :: r))) ≫= quote_rune))
      with (escape b ++ (runes k r ≫= quote_rune)) in *. rewrite length_app in Hn.
    rewrite <- app_assoc, unquote_escape by done.
    assert (1 ≤ length (escape b))%nat by (destruct b; simpl; lia).
    rewrite IH; [done|simpl in Hk; lia|done|lia].
  - destruct (next_rune_multi _ _ _ E) as (Ha & Hl & [t Ht] & _). destruct n as [|n]; [lia|].
    change (((Multi l :: runes k (drop (rune_size (Multi l)) (a :: r))) ≫= quote_rune))
      with (quote_rune (Multi l) ++ (runes k (drop (length l) (a :: r)) ≫= quote_rune)) in *.
    rewrite length_app in Hn. rewrite <- app_assoc, (unquote_multi n a r) by done.
    destruct (quote_rune_length (Multi l)) as [Hq|[= ->]]; [|simpl in Hl; lia].
    assert (length (a :: r) = length l + length t)%nat as Hlen by (rewrite Ht; apply length_app).
    simpl rune_size in *. rewrite Ht, drop_app_length in Hn, Hv |- *. rewrite IH; [done|lia|done|lia].
Qed.

Lemma unquote_quote s n rest :
  valid_utf8 s = true → (length (quote s) ≤ S n)%nat →
  unquote n ((runes_of s ≫= quote_rune) ++ x22 :: rest) = Some (s, rest).
Proof.
  intros Hv Hn. apply unquote_runes; [done|done|]. unfold quote in Hn. simpl in Hn. rewrite length_app in Hn.
  simpl in Hn. unfold runes_of in Hn. lia.
Qed.

(** ** White space and punctuation *)

Definition all_ws (w : bytes) : Prop := forallb is_ws w = true.

Lemma skip_ws_app w s : all_ws w → skip_ws (w ++ s) = skip_ws s.
Proof. unfold all_ws. induction w as [|b w IH]; simpl; [done|]. intros [-> Hw]%andb_true_iff. auto. Qed.

Lemma skip_ws_head b s : is_ws b = false → skip_ws (b :: s) = b :: s.
Proof. simpl. by intros ->. Qed.

Lemma byte_eqb_refl b : Byte.eqb b b = true.
Proof. by destruct b. Qed.

Lemma expect_here c w s : all_ws w → is_ws c = false → expect c (w ++ c :: s) = Some s.
Proof. intros Hw Hc. unfold expect. rewrite skip_ws_app, skip_ws_head by done. by rewrite byte_eqb_refl. Qed.

Lemma expect_other c b w s : all_ws w → is_ws b = false → Byte.eqb b c = false → expect c (w ++ b :: s) = None.
Proof. intros Hw Hb Hc. unfold expect. rewrite skip_ws_app, skip_ws_head by done. by rewrite Hc. Qed.

Lemma parse_string_quote w s rest :
  all_ws w → valid_utf8 (to_bytes s) = true → parse_string (w ++ quote (to_bytes s) ++ rest) = Some (s, rest).
Proof.
  intros Hw Hs. unfold parse_string, quote. rewrite skip_ws_app by done.
  change ((x22 :: (runes_of (to_bytes s) ≫= quote_rune) ++ [x22]) ++ rest)
    with (x22 :: ((runes_of (to_bytes s) ≫= quote_rune) ++ [x22]) ++ rest).
  rewrite <- app_assoc. simpl ([x22] ++ rest). rewrite skip_ws_head by done.
  change (Byte.eqb x22 x22) with true. cbv iota.
  rewrite unquote_quote; [|done|].
  - simpl. by rewrite (cancel of_bytes to_bytes).
  - unfold quote. rewrite length_cons, !length_app. simpl. lia.
Qed.

(** ** Integers *)

(** What may follow a number. *)
Definition stop (s : bytes) : Prop :=
  match s with
  | [] => True
  | b :: _ => is_digit b = false ∧ Byte.eqb b x2e = false ∧ Byte.eqb b x65 = false ∧ Byte.eqb b x45 = false
  end.

Lemma span_digits_app l rest : forallb is_digit l = true → stop rest → span_digits (l ++ rest) = (l, rest).
Proof.
  induction l as [|b l IH]; simpl.
  - intros _ Hs. destruct rest as [|b r]; [done|]. simpl in *. by destruct Hs as [-> _].
  - intros [-> Hl]%andb_true_iff Hs. by rewrite IH.
Qed.

Lemma scan_frac_stop rest : stop rest → scan_frac rest = Some ([], rest).
Proof. destruct rest as [|b r]; [done|]. by intros (_ & H & _); simpl; rewrite H. Qed.
Lemma scan_exp_stop rest : stop rest → scan_exp rest = Some ([], rest).
Proof. destruct rest as [|b r]; [done|]. by intros (_ & _ & H1 & H2); simpl; rewrite H1, H2. Qed.

Definition udigits (u : Decimal.uint) : bytes := to_bytes (NilEmpty.string_of_uint u).

Lemma udigits_all u : forallb is_digit (udigits u) = true.
Proof. induction u; [done|exact IHu..]. Qed.

(** A normal form has no leading zero. *)
Lemma unorm_lead u : Decimal.unorm u = u → match u with Decimal.Nil => False | Decimal.D0 u' => u' = Decimal.Nil | _ => True end.
Proof.
  destruct u; try done. intros Hu. unfold Decimal.unorm in Hu. simpl in Hu.
  destruct (Decimal.nzhead u) as [|u'| | | | | | | | |] eqn:E; try done; [by injection Hu|].
  exfalso. by apply (nzhead_nonzero u u').
Qed.

Lemma scan_int_unorm u rest : Decimal.unorm u = u → stop rest → scan_int (udigits u ++ rest) = Some (udigits u, rest).
Proof.
  intros Hu%unorm_lead Hs. unfold scan_int. rewrite span_digits_app by (done || apply udigits_all).
  destruct u; try done. by subst u.
Qed.

Lemma Z_to_int_norm z : Decimal.norm (Z.to_int z) = Z.to_int z.
Proof. rewrite <- DecimalZ.to_of. by rewrite DecimalZ.of_to. Qed.

Lemma int_lit_cases z :
  ∃ u, Decimal.unorm u = u ∧ (int_lit z = udigits u ∨ int_lit z = x2d :: udigits u).
Proof.
  unfold int_lit. pose proof (Z_to_int_norm z) as Hn. destruct (Z.to_int z) as [u|u]; simpl in Hn.
  - injection Hn as Hu. exists u. split; [done|]. left. by destruct u.
  - destruct (Decimal.nzhead u) eqn:E; [done|..]; injection Hn as Hu;
      (exists u; split; [unfold Decimal.unorm; by rewrite E|right; by destruct u]).
Qed.

Lemma udigits_head u : Decimal.unorm u = u → ∃ b l, udigits u = b :: l ∧ is_digit b = true.
Proof.
  intros Hu%unorm_lead. pose proof (udigits_all u) as Ha. destruct (udigits u) as [|b l] eqn:E.
  - by destruct u.
  - exists b, l. split; [done|]. simpl in Ha. by apply andb_true_iff in Ha as [? _].
Qed.

Lemma digit_not_minus b : is_digit b = true → Byte.eqb b x2d = false.
Proof. by destruct b. Qed.

Lemma scan_number_int z rest : stop rest → scan_number (int_lit z ++ rest) = Some (int_lit z, rest).
Proof.
  intros Hs. destruct (int_lit_cases z) as (u & Hu & Hz).
  destruct (udigits_head u Hu) as (b & l & Hb & Hd). unfold scan_number.
  destruct Hz as [-> | ->].
  - rewrite Hb. change ((b :: l) ++ rest) with (b :: l ++ rest). cbv iota beta. rewrite (digit_not_minus b Hd).
    change (b :: l ++ rest) with ((b :: l) ++ rest). rewrite <- Hb, scan_int_unorm by done. simpl.
    rewrite scan_frac_stop by done. simpl. rewrite scan_exp_stop by done. simpl. by rewrite !List.app_nil_r.
  - simpl. rewrite scan_int_unorm by done. simpl.
    rewrite scan_frac_stop by done. simpl. rewrite scan_exp_stop by done. simpl. by rewrite !List.app_nil_r.
Qed.

Lemma lit_int_lit z : lit_int (int_lit z) = Some z.
Proof.
  unfold lit_int, int_lit. rewrite (cancel of_bytes to_bytes).
  pose proof (Z_to_int_norm z) as Hn. rewrite NilZero.isi.
  - simpl. by rewrite DecimalZ.of_to.
  - intros He. by rewrite He in Hn.
  - intros He. by rewrite He in Hn.
Qed.

(** A literal's first byte tells it from every other value. *)
Lemma int_lit_head z : ∃ b l, int_lit z = b :: l ∧ (is_digit b || Byte.eqb b x2d) = true.
Proof.
  destruct (int_lit_cases z) as (u & Hu & [-> | ->]); [|by eexists _, _].
  destruct (udigits_head u Hu) as (b & l & -> & Hb). exists b, l. by rewrite Hb.
Qed.

Lemma number_head b :
  (is_digit b || Byte.eqb b x2d) = true →
  is_ws b = false ∧ Byte.eqb b x22 = false ∧ Byte.eqb b x5b = false ∧ Byte.eqb b x7b = false ∧
  Byte.eqb b x5d = false ∧ Byte.eqb b x7d = false ∧
  Byte.eqb x6e b = false ∧ Byte.eqb x74 b = false ∧ Byte.eqb x66 b = false.
Proof. by destruct b. Qed.

Lemma parse_word_int z rest : stop rest → parse_word (int_lit z ++ rest) = Some (JNum (int_lit z), rest).
Proof.
  intros Hs. unfold parse_word.
  destruct (int_lit_head z) as (b & l & Hz & Hb). destruct (number_head b Hb) as (_ & _ & _ & _ & _ & _ & Hn & Ht & Hf).
  assert (∀ c w, Byte.eqb c b = false → strip (c :: w) (int_lit z ++ rest) = None) as Hstrip.
  { intros c w Hc. rewrite Hz. simpl. by rewrite Hc. }
  change (to_bytes "null") with (x6e :: to_bytes "ull"). rewrite Hstrip by done.
  change (to_bytes "true") with (x74 :: to_bytes "rue"). rewrite Hstrip by done.
  change (to_bytes "false") with (x66 :: to_bytes "alse"). rewrite Hstrip by done.
  by rewrite scan_number_int.
Qed.

(** ** Values *)

Section print_parse.
Context (nl : nat → bytes) (sp : bytes) (Hnl : ∀ d, all_ws (nl d)) (Hsp : all_ws sp).
Let colon := x3a :: sp.
Abbreviation pr := (print nl colon).

Lemma print_head d j : json_wf j → ∃ b l, pr d j = b :: l ∧ is_ws b = false ∧ Byte.eqb b x5d = false.
Proof.
  destruct j as [|[]|lit|s|[|x l]|[|x l]]; simpl; try (intros _; by eexists _, _).
  intros [z ->]. destruct (int_lit_head z) as (b & l & -> & Hb). exists b, l.
  destruct (number_head b Hb) as (? & _ & _ & _ & ? & _). done.
Qed.

Lemma stop_ws w b s : all_ws w → stop (b :: s) → stop (w ++ b :: s).
Proof. destruct w as [|c w]; [done|]. unfold all_ws. simpl. intros [Hc _]%andb_true_iff _. by destruct c. Qed.

(** The statement proved by induction on the value. *)
Definition parses (j : json) : Prop :=
  json_wf j → ∀ d n w rest, all_ws w → stop rest → (length (pr d j) ≤ n)%nat →
  parse_value n (w ++ pr d j ++ rest) = Some (j, rest).

Lemma commas_cons d x y (l : list bytes) : commas nl d (x :: y :: l) = x ++ x2c :: nl d ++ commas nl d (y :: l).
Proof. simpl. by rewrite <- app_assoc. Qed.

Lemma parse_elems_print (l : list json) d n w w' rest :
  l ≠ [] → Forall parses l → Forall json_wf l → all_ws w → all_ws w' →
  (length (commas nl d (map (pr d) l)) < n)%nat →
  parse_elems n (w ++ commas nl d (map (pr d) l) ++ w' ++ x5d :: rest) = Some (l, rest).
Proof.
  intros Hne Hp Hwf Hw Hw'. revert n w Hw. induction l as [|x [|y l] IH]; [done|..]; intros n w Hw Hn.
  all: destruct n as [|n]; [lia|]; inversion Hp as [|?? Hpx Hpl]; inversion Hwf as [|?? Hx Hl]; subst; cbn [parse_elems].
  - simpl in Hn |- *. rewrite List.app_nil_r in *.
    rewrite Hpx; [|done|done|by apply stop_ws|lia]. simpl. rewrite expect_other by done. by rewrite expect_here by done.
  - change (map (pr d) (x :: y :: l)) with (pr d x :: pr d y :: map (pr d) l) in *.
    rewrite commas_cons in *. rewrite length_app, length_cons, length_app in Hn. rewrite <- app_assoc.
    rewrite Hpx; [|done|done|done|lia]. simpl.
    change (pr d y :: map (pr d) l) with (map (pr d) (y :: l)) in *. rewrite <- app_assoc.
    rewrite IH; [done|done|done|done|done|lia].
Qed.

Lemma parse_members_print (l : list (string * json)) d n w w' rest :
  l ≠ [] → Forall (parses ∘ snd) l → Forall (λ kv, valid_utf8 (to_bytes kv.1) = true ∧ json_wf kv.2) l →
  all_ws w → all_ws w' →
  let item := λ '(k, v), quote (to_bytes k) ++ colon ++ pr d v in
  (length (commas nl d (map item l)) < n)%nat →
  parse_members n (w ++ commas nl d (map item l) ++ w' ++ x7d :: rest) = Some (l, rest).
Proof.
  intros Hne Hp Hwf Hw Hw' item. revert n w Hw. induction l as [|[k v] [|y l] IH]; [done|..]; intros n w Hw Hn.
  all: destruct n as [|n]; [lia|]; inversion Hp as [|?? Hpx Hpl]; inversion Hwf as [|?? [Hk Hx] Hl]; subst; cbn [parse_members].
  - assert (commas nl d (map item [(k, v)]) = quote (to_bytes k) ++ colon ++ pr d v) as Hc by apply List.app_nil_r.
    rewrite Hc in *. rewrite !length_app in Hn.
    rewrite <- !app_assoc, parse_string_quote by done. simpl.
    rewrite Hpx; [|done|done|by apply stop_ws|simpl; lia]. simpl. rewrite expect_other by done. by rewrite expect_here by done.
  - change (map item ((k, v) :: y :: l)) with (item (k, v) :: item y :: map item l) in *.
    rewrite commas_cons in *. change (item y :: map item l) with (map item (y :: l)) in *.
    unfold item at 1 in Hn. unfold item at 1. rewrite !length_app, length_cons, !length_app in Hn.
    rewrite <- !app_assoc, parse_string_quote by done. simpl.
    rewrite Hpx; [|done|done|done|simpl in *; lia]. simpl. rewrite <- app_assoc.
    rewrite IH; [done|done|done|done|done|simpl in *; lia].
Qed.

Lemma parses_all j : parses j.
Proof.
  induction j as [|b|lit|s|l IH|l IH] using json_ind'; intros Hwf d n w rest Hw Hs Hn.
  all: destruct n as [|n]; [destruct (print_head d _ Hwf) as (? & ? & He & _); rewrite He in Hn; simpl in Hn; lia|].
  all: cbn [parse_value]; rewrite skip_ws_app by done.
  - done.
  - by destruct b.
  - destruct Hwf as [z ->]. simpl print. destruct (int_lit_head z) as (b & l & Hz & Hb).
    destruct (number_head b Hb) as (Hb1 & Hb2 & Hb3 & Hb4 & _).
    assert (skip_ws (int_lit z ++ rest) = b :: l ++ rest) as -> by (rewrite Hz; by apply skip_ws_head).
    rewrite Hb2, Hb3, Hb4. change (b :: l ++ rest) with ((b :: l) ++ rest). rewrite <- Hz. by apply parse_word_int.
  - simpl print. change (quote (to_bytes s) ++ rest) with ([] ++ quote (to_bytes s) ++ rest).
    assert (skip_ws ([] ++ quote (to_bytes s) ++ rest) = [] ++ quote (to_bytes s) ++ rest) as -> by done.
    unfold quote at 1. simpl app at 1. change (Byte.eqb x22 x22) with true. cbv iota.
    change (x22 :: ((runes_of (to_bytes s) ≫= quote_rune) ++ [x22]) ++ rest) with ([] ++ quote (to_bytes s) ++ rest).
    by rewrite parse_string_quote.
  - apply json_wf_arr in Hwf. destruct l as [|x l]; [done|].
    change (pr d (JArr (x :: l))) with (x5b :: nl (S d) ++ commas nl (S d) (map (pr (S d)) (x :: l)) ++ nl d ++ [x5d]) in *.
    cbn [app]. rewrite skip_ws_head by done. change (Byte.eqb x5b x22) with false. change (Byte.eqb x5b x5b) with true. cbv iota.
    rewrite length_cons, !length_app in Hn. rewrite <- !app_assoc. cbn [app].
    inversion Hwf as [|?? Hx Hl]; subst. destruct (print_head (S d) x Hx) as (b & t & Hb & Hb1 & Hb2).
    assert (∃ t', commas nl (S d) (map (pr (S d)) (x :: l)) = b :: t') as [t' Ht'].
    { simpl. rewrite Hb. by eexists. }
    rewrite Ht' at 1. cbn [app]. rewrite expect_other by done.
    rewrite parse_elems_print; [done|done|done|done|done|done|simpl length in *; lia].
  - apply json_wf_obj in Hwf. destruct l as [|[k v] l]; [done|].
    set (item := λ '(k, v), quote (to_bytes k) ++ colon ++ pr (S d) v).
    change (pr d (JObj ((k, v) :: l))) with (x7b :: nl (S d) ++ commas nl (S d) (map item ((k, v) :: l)) ++ nl d ++ [x7d]) in *.
    cbn [app]. rewrite skip_ws_head by done. change (Byte.eqb x7b x22) with false. change (Byte.eqb x7b x5b) with false.
    change (Byte.eqb x7b x7b) with true. cbv iota. rewrite length_cons, !length_app in Hn. rewrite <- !app_assoc. cbn [app].
    assert (∃ t', commas nl (S d) (map item ((k, v) :: l)) = x22 :: t') as [t' Ht'] by by eexists.
    rewrite Ht' at 1. cbn [app]. rewrite expect_other by done.
    rewrite parse_members_print; [done|done|done|done|done|done|]. fold item. change (length [x7d]) with 1%nat in Hn. lia.
Qed.

(** Space after the document does not matter. *)
Lemma parse_print_ws j w : json_wf j → all_ws w → parse (pr 0%nat j ++ w) = Some j.
Proof.
  intros Hwf Hw. unfold parse. pose proof (parses_all j Hwf 0%nat (S (length (pr 0%nat j ++ w))) [] w) as Hp.
  cbn [app] in Hp. rewrite Hp; [|done| |rewrite length_app; lia].
  - simpl. pose proof (skip_ws_app w [] Hw) as Hs. rewrite List.app_nil_r in Hs. by rewrite Hs.
  - destruct w as [|b w]; [done|]. apply andb_true_iff in Hw as [Hb _]. by destruct b.
Qed.
Lemma parse_print j : json_wf j → parse (pr 0%nat j) = Some j.
Proof. intros Hwf. rewrite <- (List.app_nil_r (pr 0%nat j)). by apply parse_print_ws. Qed.

End print_parse.

Lemma parse_Marshal j : json_wf j → parse (Marshal j) = Some j.
Proof. by apply parse_print. Qed.

Lemma parse_MarshalIndent j : json_wf j → parse (MarshalIndent j) = Some j.
Proof.
  apply (parse_print _ [x20]); [|done]. intros d. unfold all_ws. simpl.
  induction d as [|d IH]; [done|]. exact IH.
Qed.
