(* ===== verification/GoTime.v ===== *)
(** * Times as encoding/json writes them

    A [time.Time] in UTC is a number of nanoseconds since 1970.  Its JSON form
    is RFC 3339 with a fraction whose trailing zeros are dropped, as in
    [2024-05-01T12:00:00.25Z].  Reading the text back gives the time, for the
    years 0 to 9999 (outside them [MarshalJSON] refuses).  Only the UTC form is
    read, which is the only one the sources write. *)

From S2P Require Import Prelude.
Open Scope Z_scope.

Module GoTime.

Definition digit (n : Z) : byte := default x30 (Byte.of_N (Z.to_N (48 + n))).
Definition digit_val (b : byte) : option Z :=
  let n := Z.of_N (Byte.to_N b) - 48 in if decide (0 ≤ n < 10) then Some n else None.

(** [n] in [k] decimal digits. *)
Fixpoint pad (k : nat) (n : Z) : bytes :=
  match k with O => [] | S k => pad k (n / 10) ++ [digit (n mod 10)] end.

(** Read exactly [k] digits. *)
Fixpoint digits (k : nat) (acc : Z) (s : bytes) : option (Z * bytes) :=
  match k, s with
  | O, _ => Some (acc, s)
  | S k, b :: r => v ← digit_val b; digits k (acc * 10 + v) r
  | S _, [] => None
  end.
Definition char (c : byte) (s : bytes) : option bytes :=
  match s with b :: r => if Byte.eqb b c then Some r else None | [] => None end.

(** The civil date of a day number (proleptic Gregorian, days since 1970), by
    400-year eras of years that start in March. *)
Definition era_year (doe : Z) : Z := (doe - doe / 1460 + doe / 36524 - doe / 146096) / 365.
Definition civil (days : Z) : Z * Z * Z :=
  let z := days + 719468 in
  let era := z / 146097 in
  let doe := z mod 146097 in
  let yoe := era_year doe in
  let doy := doe - (365 * yoe + yoe / 4 - yoe / 100) in
  let mp := (5 * doy + 2) / 153 in
  let d := doy - (153 * mp + 2) / 5 + 1 in
  let m := if decide (mp < 10) then mp + 3 else mp - 9 in
  let y := yoe + era * 400 in
  (if decide (m ≤ 2) then y + 1 else y, m, d).
Definition day_number (y m d : Z) : Z :=
  let y := if decide (m ≤ 2) then y - 1 else y in
  let era := y / 400 in
  let yoe := y mod 400 in
  let mp := if decide (m > 2) then m - 3 else m + 9 in
  let doy := (153 * mp + 2) / 5 + d - 1 in
  let doe := yoe * 365 + yoe / 4 - yoe / 100 + doy in
  era * 146097 + doe - 719468.

(** The fraction: nine digits less the trailing zeros, or nothing. *)
Fixpoint trim (k : nat) (n : Z) : nat * Z :=
  match k with
  | O => (O, n)
  | S k' => if decide (n mod 10 = 0) then trim k' (n / 10) else (k, n)
  end.
Definition fraction (ns : Z) : bytes :=
  match trim 9 ns with (O, _) => [] | (k, n) => x2e :: pad k n end.
Definition is_digit (b : byte) : bool := match digit_val b with Some _ => true | None => false end.
Fixpoint count_digits (s : bytes) : nat :=
  match s with b :: r => if is_digit b then S (count_digits r) else O | [] => O end.
Definition read_fraction (s : bytes) : option (Z * bytes) :=
  match s with
  | b :: r =>
      if Byte.eqb b x2e then
        let k := count_digits r in
        if decide (1 ≤ k ≤ 9)%nat then
          '(v, t) ← digits k 0 r; Some (v * 10 ^ Z.of_nat (9 - k), t)
        else None
      else Some (0, s)
  | [] => Some (0, s)
  end.

Definition nanos : Z := 1000000000.

Definition format (t : Z) : bytes :=
  let sec := t / nanos in
  let '(y, m, d) := civil (sec / 86400) in
  let s := sec mod 86400 in
  pad 4 y ++ x2d :: pad 2 m ++ x2d :: pad 2 d ++ x54 :: pad 2 (s / 3600) ++ x3a ::
    pad 2 (s / 60 mod 60) ++ x3a :: pad 2 (s mod 60) ++ fraction (t mod nanos) ++ [x5a].

Definition parse (s : bytes) : option Z :=
  '(y, s) ← digits 4 0 s; s ← char x2d s;
  '(m, s) ← digits 2 0 s; s ← char x2d s;
  '(d, s) ← digits 2 0 s; s ← char x54 s;
  '(h, s) ← digits 2 0 s; s ← char x3a s;
  '(mi, s) ← digits 2 0 s; s ← char x3a s;
  '(sec, s) ← digits 2 0 s;
  '(ns, s) ← read_fraction s;
  s ← char x5a s;
  match s with
  | [] => Some ((day_number y m d * 86400 + h * 3600 + mi * 60 + sec) * nanos + ns)
  | _ => None
  end.

(** The years [MarshalJSON] accepts. *)
Definition in_range (t : Z) : Prop := 0 ≤ (civil (t / nanos / 86400)).1.1 ≤ 9999.
#[global] Instance in_range_dec t : Decision (in_range t) := _.

(** ** Reading what was written *)

Lemma digit_val_digit n : 0 ≤ n < 10 → digit_val (digit n) = Some n.
Proof.
  intros Hn. assert (n = 0 ∨ n = 1 ∨ n = 2 ∨ n = 3 ∨ n = 4 ∨ n = 5 ∨ n = 6 ∨ n = 7 ∨ n = 8 ∨ n = 9) as Hc by lia.
  by destruct_or! Hc; subst.
Qed.

Lemma digits_app k acc l s v t : digits k acc l = Some (v, t) → digits k acc (l ++ s) = Some (v, t ++ s).
Proof.
  revert acc l. induction k as [|k IH]; intros acc l; [by intros [= <- <-]|].
  destruct l as [|b l]; [done|]. simpl. destruct (digit_val b); simpl; [apply IH|done].
Qed.

Lemma digits_snoc k acc l v b w :
  digits k acc l = Some (v, []) → digit_val b = Some w → digits (S k) acc (l ++ [b]) = Some (v * 10 + w, []).
Proof.
  revert acc l. induction k as [|k IH]; intros acc l.
  - intros [= -> ->] Hb. simpl. by rewrite Hb.
  - destruct l as [|c l]; [done|]. simpl. destruct (digit_val c); simpl; [|done]. intros Hl Hb. by apply IH.
Qed.

Lemma digits_pad k n acc : 0 ≤ n < 10 ^ Z.of_nat k → digits k acc (pad k n) = Some (acc * 10 ^ Z.of_nat k + n, []).
Proof.
  revert n. induction k as [|k IH]; intros n Hn.
  - simpl in *. f_equal. f_equal. lia.
  - rewrite Nat2Z.inj_succ, Z.pow_succ_r in * by lia.
    cbn [pad]. erewrite digits_snoc; [|apply IH|apply digit_val_digit].
    + f_equal. f_equal. pose proof (Z.div_mod n 10 ltac:(lia)). set (p := 10 ^ Z.of_nat k) in *. nia.
    + split; [apply Z.div_pos; lia|]. apply Z.div_lt_upper_bound; lia.
    + apply Z.mod_pos_bound. lia.
Qed.

Lemma read_pad k n s : 0 ≤ n < 10 ^ Z.of_nat k → digits k 0 (pad k n ++ s) = Some (n, s).
Proof. intros Hn. erewrite digits_app by by apply digits_pad. done. Qed.

Lemma read_char c s : char c (c :: s) = Some s.
Proof. simpl. assert (Byte.eqb c c = true) as -> by by destruct c. done. Qed.

Lemma era_year_bound doe : 0 ≤ doe < 146097 → 0 ≤ era_year doe < 400.
Proof. intros. unfold era_year. Z.to_euclidean_division_equations. lia. Qed.

Lemma day_of_year_bound doe :
  0 ≤ doe < 146097 → let yoe := era_year doe in 0 ≤ doe - (365 * yoe + yoe / 4 - yoe / 100) ≤ 365.
Proof. intros Hd yoe. unfold yoe, era_year. Z.to_euclidean_division_equations. lia. Qed.

(** The date of a day is a date, and it gives the day back. *)
Lemma civil_spec days :
  let '(y, m, d) := civil days in 1 ≤ m ≤ 12 ∧ 1 ≤ d ≤ 31 ∧ day_number y m d = days.
Proof.
  unfold civil, day_number. set (z := days + 719468).
  pose proof (Z.div_mod z 146097 ltac:(lia)) as Hz. pose proof (Z.mod_pos_bound z 146097 ltac:(lia)) as Hm.
  set (doe := z mod 146097) in *. set (era := z / 146097) in *.
  pose proof (era_year_bound doe Hm) as Hy. pose proof (day_of_year_bound doe Hm) as Hd. simpl in Hd.
  set (yoe := era_year doe) in *.
  set (doy := doe - (365 * yoe + yoe / 4 - yoe / 100)) in *. set (mp := (5 * doy + 2) / 153).
  assert (0 ≤ mp ≤ 11) as Hmp by (unfold mp; Z.to_euclidean_division_equations; lia).
  assert (1 ≤ doy - (153 * mp + 2) / 5 + 1 ≤ 31) as Hday by (unfold mp; Z.to_euclidean_division_equations; lia).
  assert (∀ y', y' = yoe + era * 400 → y' / 400 = era ∧ y' mod 400 = yoe) as Hdm.
  { intros y' ->. rewrite Z.div_add, Z.mod_add, Z.div_small, Z.mod_small by lia. lia. }
  destruct (decide (mp < 10)).
  - rewrite !(decide_False (P := mp + 3 ≤ 2)) by lia. rewrite decide_True by lia.
    destruct (Hdm (yoe + era * 400) eq_refl) as [-> ->]. split_and!; [lia..|].
    replace (mp + 3 - 3) with mp by lia. unfold doy. lia.
  - rewrite !(decide_True (P := mp - 9 ≤ 2)) by lia. rewrite decide_False by lia.
    destruct (Hdm (yoe + era * 400 + 1 - 1)) as [-> ->]; [lia|]. split_and!; [lia..|].
    replace (mp - 9 + 9) with mp by lia. unfold doy. lia.
Qed.

Lemma trim_spec k n : 0 ≤ n < 10 ^ Z.of_nat k →
  let '(j, v) := trim k n in (j ≤ k)%nat ∧ 0 ≤ v < 10 ^ Z.of_nat j ∧ n = v * 10 ^ Z.of_nat (k - j).
Proof.
  revert n. induction k as [|k IH]; intros n Hn; simpl trim.
  { split_and!; [done|lia|lia|]. simpl. lia. }
  case_decide as H0; [|split_and!; [done|lia|lia|]; rewrite Nat.sub_diag; simpl; lia].
  rewrite Nat2Z.inj_succ, Z.pow_succ_r in Hn by lia.
  assert (0 ≤ n / 10 < 10 ^ Z.of_nat k) as Hd.
  { split; [apply Z.div_pos; lia|]. apply Z.div_lt_upper_bound; lia. }
  specialize (IH _ Hd). destruct (trim k (n / 10)) as [j v]. destruct IH as (Hj & Hv & He).
  split_and!; [lia|lia|lia|]. replace (S k - j)%nat with (S (k - j)) by lia.
  rewrite Nat2Z.inj_succ, Z.pow_succ_r by lia. pose proof (Z.div_mod n 10 ltac:(lia)).
  set (p := 10 ^ Z.of_nat (k - j)) in *. nia.
Qed.

Lemma is_digit_digit n : 0 ≤ n < 10 → is_digit (digit n) = true.
Proof. intros Hn. unfold is_digit. by rewrite digit_val_digit. Qed.

Lemma pad_digits k n : Forall (λ b, is_digit b = true) (pad k n).
Proof.
  revert n. induction k as [|k IH]; intros n; simpl; [done|]. apply Forall_app. split; [apply IH|].
  constructor; [|done]. apply is_digit_digit, Z.mod_pos_bound. lia.
Qed.

Lemma pad_length k n : length (pad k n) = k.
Proof. revert n. induction k as [|k IH]; intros n; simpl; [done|]. rewrite length_app, IH. simpl. lia. Qed.

Lemma count_digits_app l s :
  Forall (λ b, is_digit b = true) l → match s with b :: _ => is_digit b = false | [] => True end →
  count_digits (l ++ s) = length l.
Proof.
  intros Hl Hs. induction Hl as [|b l Hb _ IH]; simpl; [|by rewrite Hb, IH].
  destruct s; [done|]. simpl. by rewrite Hs.
Qed.

Lemma read_fraction_fraction ns s :
  0 ≤ ns < nanos → read_fraction (fraction ns ++ x5a :: s) = Some (ns, x5a :: s).
Proof.
  intros Hns. unfold fraction. pose proof (trim_spec 9 ns Hns) as Ht. destruct (trim 9 ns) as [k v].
  destruct Ht as (Hk & Hv & He). destruct k as [|k].
  - simpl. f_equal. f_equal. simpl in Hv. lia.
  - change ((x2e :: pad (S k) v) ++ x5a :: s) with (x2e :: pad (S k) v ++ x5a :: s). unfold read_fraction. change (Byte.eqb x2e x2e) with true. cbv iota.
    rewrite count_digits_app, pad_length by (done || apply pad_digits). rewrite decide_True by lia.
    rewrite read_pad by done. simpl. f_equal. by rewrite He.
Qed.

Lemma some_bind {A B} (x : A) (f : A → option B) : (Some x ≫= f) = f x.
Proof. done. Qed.

Lemma parse_format t : in_range t → parse (format t) = Some t.
Proof.
  intros Hr. unfold in_range in Hr. unfold format, parse.
  pose proof (civil_spec (t / nanos / 86400)) as Hc. destruct (civil (t / nanos / 86400)) as [[y m] d].
  simpl in Hr. destruct Hc as (Hm & Hd & Hday).
  set (s := t / nanos mod 86400). assert (0 ≤ s < 86400) as Hs by (apply Z.mod_pos_bound; lia).
  assert (0 ≤ s / 3600 < 100 ∧ 0 ≤ s / 60 mod 60 < 100 ∧ 0 ≤ s mod 60 < 100 ∧
    s = s / 3600 * 3600 + s / 60 mod 60 * 60 + s mod 60) as (Hh & Hmi & Hse & Hsum)
    by (Z.to_euclidean_division_equations; lia).
  do 5 (rewrite read_pad by (simpl; lia); rewrite some_bind; cbv beta iota; rewrite read_char, some_bind; cbv beta iota).
  rewrite read_pad by (simpl; lia). rewrite some_bind. cbv beta iota.
  rewrite read_fraction_fraction by (apply Z.mod_pos_bound; done). simpl. f_equal. rewrite Hday.
  pose proof (Z.div_mod t nanos ltac:(done)) as Ht.
  pose proof (Z.div_mod (t / nanos) 86400 ltac:(lia)) as Hsec. fold s in Hsec. nia.
Qed.

End GoTime.
