(* ===== verification/Codec.v ===== *)
(** * Go values as JSON

    How encoding/json stores a document into a Go value: fields of a struct by
    key (letter case ignored, unknown keys skipped, a later key overriding an
    earlier one), [null] leaving what was there, a type mismatch or a number
    out of range an error.  [Codec] collects the two directions for a type with
    the round trip, and gives the [GoJSON] interface the rest of the
    development is written against. *)

From S2P Require Import Prelude Json JsonFacts GoTime.
Import Json.
Open Scope Z_scope.

Class Codec (A : Type) := {
  to_json : A → json;
  of_json : json → option A;
  codec_dom : A → Prop;
  codec_ok a : codec_dom a → json_wf (to_json a) ∧ of_json (to_json a) = Some a
}.

#[global] Program Instance codec_GoJSON A `{Codec A} : GoJSON A := {|
  json_Marshal a := Marshal (to_json a);
  json_MarshalIndent a := MarshalIndent (to_json a);
  json_Unmarshal b := j ← Json.parse b; of_json j;
  json_dom := codec_dom
|}.
Next Obligation. intros A ? a Ha. destruct (codec_ok a Ha). rewrite parse_Marshal; done. Qed.
Next Obligation. intros A ? a Ha. destruct (codec_ok a Ha). rewrite parse_MarshalIndent; done. Qed.

(** ** Scalars *)

Definition utf8 (s : string) : Prop := valid_utf8 (to_bytes s) = true.

(** Signed and unsigned integers of a width. *)
Definition int64 (z : Z) : Prop := - 2 ^ 63 ≤ z < 2 ^ 63.
Definition uint32 (z : Z) : Prop := 0 ≤ z < 2 ^ 32.

Definition dec_string (old : string) (j : json) : option string :=
  match j with JStr s => Some s | JNull => Some old | _ => None end.
Definition dec_bool (old : bool) (j : json) : option bool :=
  match j with JBool b => Some b | JNull => Some old | _ => None end.
Definition dec_int (P : Z → Prop) `{∀ z, Decision (P z)} (old : Z) (j : json) : option Z :=
  match j with
  | JNum lit => z ← lit_int lit; if decide (P z) then Some z else None
  | JNull => Some old
  | _ => None
  end.
#[global] Instance int64_dec z : Decision (int64 z) := _.
#[global] Instance uint32_dec z : Decision (uint32 z) := _.
Definition dec_list {A} (dec : json → option A) (old : list A) (j : json) : option (list A) :=
  match j with JArr l => mapM dec l | JNull => Some [] | _ => None end.
Definition dec_time (old : Z) (j : json) : option Z :=
  match j with JStr s => GoTime.parse (to_bytes s) | JNull => Some old | _ => None end.

Definition enc_int (z : Z) : json := JNum (int_lit z).
Definition enc_time (t : Z) : json := JStr (of_bytes (GoTime.format t)).

Lemma dec_enc_int P `{∀ z, Decision (P z)} old z : P z → dec_int P old (enc_int z) = Some z.
Proof. intros Hz. simpl. rewrite lit_int_lit. simpl. by rewrite decide_True. Qed.

Lemma dec_enc_time old t : GoTime.in_range t → dec_time old (enc_time t) = Some t.
Proof. intros Ht. simpl. rewrite (cancel to_bytes of_bytes). by apply GoTime.parse_format. Qed.

Lemma enc_int_wf z : json_wf (enc_int z).
Proof. by exists z. Qed.

(** Text of ASCII bytes is valid UTF-8. *)
Lemma ascii_valid s : Forall (λ b, (bN b <? 0x80)%N = true) s → valid_utf8 s = true.
Proof.
  intros Hs. unfold valid_utf8, runes_of.
  cut (∀ k, forallb (λ x, match x with Bad => false | _ => true end) (runes k s) = true); [auto|].
  intros k. revert k. induction Hs as [|b s Hb _ IH]; intros [|k]; try done. simpl.
  unfold next_rune at 1 2. rewrite Hb. simpl. apply IH.
Qed.

Lemma digit_ascii n : (bN (GoTime.digit n) <? 0x80)%N = true ∨ ¬ 0 ≤ n < 10.
Proof.
  destruct (decide (0 ≤ n < 10)) as [Hn|]; [left|by right].
  assert (n = 0 ∨ n = 1 ∨ n = 2 ∨ n = 3 ∨ n = 4 ∨ n = 5 ∨ n = 6 ∨ n = 7 ∨ n = 8 ∨ n = 9) as Hc by lia.
  by destruct_or! Hc; subst.
Qed.

Lemma pad_ascii k n : Forall (λ b, (bN b <? 0x80)%N = true) (GoTime.pad k n).
Proof.
  revert n. induction k as [|k IH]; intros n; simpl; [done|]. apply Forall_app. split; [apply IH|].
  constructor; [|done]. destruct (digit_ascii (n mod 10)) as [|[]]; [done|]. apply Z.mod_pos_bound. lia.
Qed.

Lemma enc_time_wf t : json_wf (enc_time t).
Proof.
  simpl. rewrite (cancel to_bytes of_bytes). apply ascii_valid. unfold GoTime.format.
  destruct (GoTime.civil _) as [[y m] d].
  repeat (apply Forall_app; split; [apply pad_ascii|constructor; [done|]]).
  apply Forall_app; split; [apply pad_ascii|]. apply Forall_app. split; [|by constructor].
  unfold GoTime.fraction. destruct (GoTime.trim _ _) as [[|k] v]; [done|]. constructor; [done|apply pad_ascii].
Qed.

(** ** Structs *)

Definition lower (c : Ascii.ascii) : Ascii.ascii :=
  let n := Ascii.N_of_ascii c in
  if ((65 <=? n) && (n <=? 90))%N then Ascii.ascii_of_N (n + 32) else c.
Fixpoint fold_key (s : string) : string :=
  match s with String c r => String (lower c) (fold_key r) | EmptyString => EmptyString end.

(** A field: its key and how a value is stored into it. *)
Definition field (A : Type) : Type := string * (A → json → option A).

Fixpoint find_field {A} (fs : list (field A)) (k : string) : option (A → json → option A) :=
  match fs with
  | [] => None
  | (name, set) :: fs' => if decide (fold_key name = fold_key k) then Some set else find_field fs' k
  end.

Fixpoint fill {A} (fs : list (field A)) (l : list (string * json)) (a : A) : option A :=
  match l with
  | [] => Some a
  | (k, v) :: l' =>
      match find_field fs k with
      | Some set => a' ← set a v; fill fs l' a'
      | None => fill fs l' a
      end
  end.

Definition dec_struct {A} (zero : A) (fs : list (field A)) (j : json) : option A :=
  match j with
  | JObj l => fill fs l zero
  | JNull => Some zero
  | _ => None
  end.

(** [omitempty]. *)
Definition opt_field (present : bool) (k : string) (v : json) : list (string * json) :=
  if present then [(k, v)] else [].
Definition nonempty (s : string) : bool := match s with EmptyString => false | _ => true end.
Definition nonnil {A} (l : list A) : bool := match l with [] => false | _ => true end.

(** ** Lists *)

Lemma mapM_enc {A} (enc : A → json) (dec : json → option A) l :
  Forall (λ a, dec (enc a) = Some a) l → mapM dec (map enc l) = Some l.
Proof. induction 1 as [|a l Ha _ IH]; [done|]. simpl. by rewrite Ha, IH. Qed.

Lemma json_wf_list {A} (enc : A → json) l : Forall (λ a, json_wf (enc a)) l → json_wf (JArr (map enc l)).
Proof. intros Hl. apply json_wf_arr. induction Hl; by constructor. Qed.

Lemma strings_wf l : Forall utf8 l → json_wf (JArr (map JStr l)).
Proof. intros Hl. by apply json_wf_list. Qed.

Lemma dec_strings old l : dec_list (dec_string "") old (JArr (map JStr l)) = Some l.
Proof. apply mapM_enc. apply Forall_true. done. Qed.

#[global] Arguments dec_int : simpl never.
#[global] Arguments dec_time : simpl never.
#[global] Arguments dec_list : simpl never.
#[global] Arguments enc_int : simpl never.
#[global] Arguments enc_time : simpl never.
#[global] Opaque dec_time enc_time.

(** Reading back the fields a struct was written with. *)
Ltac dec_go :=
  repeat first [ rewrite dec_enc_int by assumption | rewrite dec_enc_time by assumption | rewrite dec_strings | progress simpl ].

(** One field at a time. *)
Lemma fill_field {A} (fs : list (field A)) k v l a set a' :
  find_field fs k = Some set → set a v = Some a' → fill fs ((k, v) :: l) a = fill fs l a'.
Proof. intros Hf Hs. simpl. by rewrite Hf, Hs. Qed.

Lemma fill_opt {A} (fs : list (field A)) present k v l a set a' :
  find_field fs k = Some set → set a v = Some a' → (present = false → a' = a) →
  fill fs (opt_field present k v ++ l) a = fill fs l a'.
Proof. intros Hf Hs Ha. destruct present; simpl; [by rewrite Hf, Hs|by rewrite Ha]. Qed.

Lemma nonempty_false s : nonempty s = false → s = "".
Proof. by destruct s. Qed.
Lemma nonnil_false {A} (l : list A) : nonnil l = false → l = [].
Proof. by destruct l. Qed.

Ltac fill_step :=
  lazymatch goal with
  | |- fill _ ((_, _) :: _) _ = _ => erewrite fill_field; [|reflexivity|by dec_go]
  | |- fill _ (opt_field _ _ _ ++ _) _ = _ =>
      erewrite fill_opt; [|reflexivity|by dec_go|
        intros Hempty; first [apply nonempty_false in Hempty | apply nonnil_false in Hempty | idtac]; by subst]
  end.

Lemma opt_wf present k v l :
  utf8 k → json_wf v → json_wf (JObj l) → json_wf (JObj (opt_field present k v ++ l)).
Proof. destruct present; done. Qed.
Lemma field_wf k v l : utf8 k → json_wf v → json_wf (JObj l) → json_wf (JObj ((k, v) :: l)).
Proof. done. Qed.
Ltac wf_step :=
  first [ apply opt_wf; [reflexivity|..] | apply field_wf; [reflexivity|..] | apply enc_int_wf | apply enc_time_wf
        | apply strings_wf; done | done ].
