(* ===== verification/Os.v ===== *)
(** * The operating system under vitvm: a file system with faults

    vitvm keeps everything in files (blobs, checkpoints, working directories),
    so the model has a file system: a finite map from absolute paths (lists of
    names) to nodes, the Linux path walk with its symbolic links, and the calls
    of Go's [os] and [path/filepath] packages the sources use.

    Every call may fail: the environment [OsEnv] gives, for the [n]-th call of
    a run, an error to inject (or none), how much of a failing write reaches
    the file, a random number (temporary names, identifiers), and the time.
    A theorem proved for every environment holds whatever calls fail.  The rest
    of the environment is fixed: the umask, the directory of temporary files,
    the environment variables, the device number, and what [stat] reports that
    the model does not keep (allocated blocks, the time of a link). *)

From S2P Require Import Prelude Sha256.
Open Scope Z_scope.

(** ** Nodes *)

(** A file's bytes, with holes: a [None] cell was never written (SEEK_HOLE
    finds it) and reads as zero. *)
Record file := File {
  f_mode : Z;
  f_cells : list (option byte);
  f_mtime : Z;
  f_ino : nat
}.

Inductive node :=
| NFile (f : file)
| NDir (mode : Z)
| NLink (target : string)
| NOther (mode : Z).  (* sockets, devices, pipes *)

Abbreviation path := (list string).
Abbreviation fs := (gmap (list string) node).

#[global] Instance file_eq_decision : EqDecision file.
Proof. solve_decision. Defined.
#[global] Instance node_eq_decision : EqDecision node.
Proof. solve_decision. Defined.

Definition contents (f : file) : bytes := default x00 <$> f_cells f.
Definition f_size (f : file) : Z := Z.of_nat (length (f_cells f)).

(** Permission bits the sources write in octal. *)
Definition o755 : Z := 0x1ed.
Definition o700 : Z := 0x1c0.
Definition o644 : Z := 0x1a4.
Definition o600 : Z := 0x180.

(** ** The environment and the world *)

Class OsEnv := {
  fault : nat → option errno;
  partial : nat → nat;
  entropy : nat → N;
  clock : nat → Z;
  umask : Z;
  tempdir : path;
  getenv : string → string;
  device : Z;
  st_blocks : path → node → Z;
  link_mtime : path → Z
}.

Record world := World {
  w_fs : fs;
  w_tick : nat;
  w_zero : gmap Z string  (* the process-wide memo zeroHashes of cas/chunked.go *)
}.

(** No call fails. *)
Definition quiet `{OsEnv} : Prop := ∀ n, fault n = None.

Definition set_fs (σ : fs) (w : world) : world := World σ (w_tick w) (w_zero w).
Definition tick (w : world) : world := World (w_fs w) (S (w_tick w)) (w_zero w).

(** One call: fail as the environment says, or run [op] on the files. *)
Definition sys `{OsEnv} {A} (op : nat → fs → (errno + A) * fs) : M world A := λ w,
  match fault (w_tick w) with
  | Some e => (Err (Errno e), tick w)
  | None =>
      let '(r, σ) := op (w_tick w) (w_fs w) in
      (match r with inl e => Err (Errno e) | inr a => Ok a end, tick (set_fs σ w))
  end.

(** A call that only reads. *)
Definition sys_read `{OsEnv} {A} (op : fs → errno + A) : M world A :=
  sys (λ _ σ, (op σ, σ)).

(** ** Paths *)

Definition slash : ascii := Ascii.ascii_of_byte x2f.

(** Lexical cleaning of the components after an already clean prefix
    ([filepath.Clean] of an absolute path). *)
Fixpoint clean_onto (acc : path) (cs : list string) : path :=
  match cs with
  | [] => acc
  | c :: cs' =>
      if decide (c = "" ∨ c = ".") then clean_onto acc cs'
      else if decide (c = "..") then clean_onto (removelast acc) cs'
      else clean_onto (acc ++ [c]) cs'
  end.

(** [filepath.Join(p, s)], [p] absolute and clean. *)
Definition join (p : path) (s : string) : path := clean_onto p (split_on slash s).

(** [filepath.Dir] and [filepath.Base] of a clean absolute path. *)
Definition dir_of (p : path) : path := removelast p.
Definition base_of (p : path) : string := default "/" (last p).

(** [filepath.Rel(root, p)] for [p] at or below [root]; [""] stands for ["."]. *)
Definition rel_of (root p : path) : string := join_with "/" (drop (length root) p).

(** The kernel's path walk.  [links] bounds the symbolic links followed
    (Linux gives up after 40); the last component may be absent. *)
Fixpoint namei (σ : fs) (links : nat) (follow : bool) {struct links} : path → path → errno + path :=
  fix go (cur todo : path) {struct todo} : errno + path :=
    match todo with
    | [] => inr cur
    | c :: rest =>
        if decide (c = "" ∨ c = ".") then go cur rest
        else if decide (c = "..") then go (removelast cur) rest
        else
          let p := cur ++ [c] in
          match σ !! p with
          | None => if decide (rest = []) then inr p else inl ENOENT
          | Some (NDir _) => go p rest
          | Some (NLink t) =>
              if bool_decide (rest = []) && negb follow then inr p
              else match links with
                   | O => inl ELOOP
                   | S k => namei σ k follow
                              (if has_prefix "/" t then [] else cur) (split_on slash t ++ rest)
                   end
          | Some _ => if decide (rest = []) then inr p else inl ENOTDIR
          end
    end.

#[global] Arguments namei : simpl never.

Definition max_links : nat := 40.
Definition resolve (σ : fs) (follow : bool) (p : path) : errno + path :=
  namei σ max_links follow [] p.

(** Resolve and look up; an absent node is ENOENT. *)
Definition find_node (σ : fs) (follow : bool) (p : path) : errno + (path * node) :=
  match resolve σ follow p with
  | inl e => inl e
  | inr q => match σ !! q with Some n => inr (q, n) | None => inl ENOENT end
  end.

(** ** Calls of package os *)

Section calls.
Context `{OsEnv}.

(** The mode a new file or directory gets: the nine permission bits of an
    [os.FileMode], less the umask.  (Its bits for setuid, setgid and sticky are
    not modelled.) *)
Definition perm (mode : Z) : Z := Z.land (Z.land mode 0x1ff) (Z.lnot umask).

Definition os_Stat (p : path) : M world node := sys_read (λ σ, snd <$> find_node σ true p).
Definition os_Lstat (p : path) : M world node := sys_read (λ σ, snd <$> find_node σ false p).

Definition os_Readlink (p : path) : M world string := sys_read (λ σ,
  match find_node σ false p with
  | inr (_, NLink t) => inr t
  | inr _ => inl EINVAL
  | inl e => inl e
  end).

Definition mkdir (p : path) (mode : Z) : M world unit := sys (λ _ σ,
  match resolve σ false p with
  | inl e => (inl e, σ)
  | inr q => match σ !! q with
             | Some _ => (inl EEXIST, σ)
             | None => (inr tt, <[q := NDir (perm mode)]> σ)
             end
  end).

Definition is_dir_node (n : node) : bool := match n with NDir _ => true | _ => false end.

(** [os.MkdirAll]: the path is given from its last component up. *)
Fixpoint mkdirAll_rev (rp : path) (mode : Z) : M world unit :=
  r ← attempt (os_Stat (reverse rp));
  match r with
  | inr (NDir _) => mret tt
  | inr _ => throw (Errno ENOTDIR)
  | inl _ =>
      match rp with
      | [] => mret tt
      | _ :: up => mkdirAll_rev up mode
      end;;
      r ← attempt (mkdir (reverse rp) mode);
      match r with
      | inr _ => mret tt
      | inl e =>
          d ← attempt (os_Lstat (reverse rp));
          match d with inr (NDir _) => mret tt | _ => throw e end
      end
  end.
Definition os_MkdirAll (p : path) (mode : Z) : M world unit := mkdirAll_rev (reverse p) mode.

(** [os.Open] for reading: the resolved path stands for the descriptor. *)
Definition os_Open (p : path) : M world path := sys_read (λ σ, fst <$> find_node σ true p).

Definition file_at (σ : fs) (q : path) : errno + file :=
  match σ !! q with
  | Some (NFile f) => inr f
  | Some (NDir _) => inl EISDIR
  | Some _ => inl EINVAL
  | None => inl ENOENT
  end.

(** Read a whole descriptor ([io.Copy] from it, [io.ReadAll]). *)
Definition fd_read (h : path) : M world bytes := sys_read (λ σ, contents <$> file_at σ h).
Definition fd_stat (h : path) : M world file := sys_read (λ σ, file_at σ h).

(** [f.ReadAt] of [n] bytes at [off]: short at the end of the file. *)
Definition fd_read_at (h : path) (n : nat) (off : nat) : M world bytes := sys_read (λ σ,
  (λ f, take n (drop off (contents f))) <$> file_at σ h).

(** [lseek] with SEEK_DATA and SEEK_HOLE: the first written byte at or after
    [off], the first hole (the end of the file counts as one). *)
Definition seek_data (cells : list (option byte)) (off : nat) : errno + nat :=
  match list_find is_Some (drop off cells) with
  | Some (k, _) => inr (off + k)%nat
  | None => inl ENXIO
  end.
Definition seek_hole (cells : list (option byte)) (off : nat) : errno + nat :=
  if decide (length cells ≤ off)%nat then inl ENXIO else
  match list_find (λ c, c = None) (drop off cells) with
  | Some (k, _) => inr (off + k)%nat
  | None => inr (length cells)
  end.
(** Data and holes to the byte, as a file system that keeps exact extents reports
    them; one that cannot is a call that fails.  [lseek(2)] also lets it round the
    data up to blocks, or report none of the holes. *)
Definition fd_seek_data (h : path) (off : Z) : M world Z := sys_read (λ σ,
  match file_at σ h with
  | inl e => inl e
  | inr f => Z.of_nat <$> seek_data (f_cells f) (Z.to_nat off)
  end).
Definition fd_seek_hole (h : path) (off : Z) : M world Z := sys_read (λ σ,
  match file_at σ h with
  | inl e => inl e
  | inr f => Z.of_nat <$> seek_hole (f_cells f) (Z.to_nat off)
  end).

Definition os_ReadFile (p : path) : M world bytes :=
  h ← os_Open p; fd_read h.

(** [os.OpenFile(p, O_CREATE|O_TRUNC|O_WRONLY, mode)]: a new file takes [mode]
    less the umask, an existing one keeps its own; a symbolic link is followed. *)
Definition os_Create (p : path) (mode : Z) : M world path := sys (λ t σ,
  match resolve σ true p with
  | inl e => (inl e, σ)
  | inr q =>
      match σ !! q with
      | Some (NFile f) => (inr q, <[q := NFile (File (f_mode f) [] (clock t) (f_ino f))]> σ)
      | Some (NDir _) => (inl EISDIR, σ)
      | Some _ => (inl ENXIO, σ)
      | None => (inr q, <[q := NFile (File (perm mode) [] (clock t) t)]> σ)
      end
  end).

Definition upd_file (q : path) (g : file → file) (σ : fs) : (errno + unit) * fs :=
  match file_at σ q with
  | inr f => (inr tt, <[q := NFile (g f)]> σ)
  | inl e => (inl e, σ)
  end.

Definition with_cells (cells : list (option byte)) (t : Z) (f : file) : file :=
  File (f_mode f) cells t (f_ino f).

(** Writing [data] at the end of a descriptor; a failing write leaves a prefix. *)
Definition fd_write (h : path) (data : bytes) : M world unit := λ w,
  match fault (w_tick w) with
  | Some e =>
      let '(_, σ) := upd_file h (λ f, with_cells (f_cells f ++ (Some <$> take (partial (w_tick w)) data))
                                       (clock (w_tick w)) f) (w_fs w) in
      (Err (Errno e), tick (set_fs σ w))
  | None =>
      let '(r, σ) := upd_file h (λ f, with_cells (f_cells f ++ (Some <$> data))
                                       (clock (w_tick w)) f) (w_fs w) in
      (match r with inl e => Err (Errno e) | inr _ => Ok tt end, tick (set_fs σ w))
  end.

(** [f.WriteAt]: past the end, the gap is a hole. *)
Definition splice (cells : list (option byte)) (off : nat) (data : bytes) : list (option byte) :=
  take off cells ++ replicate (off - length cells) None ++ (Some <$> data) ++ drop (off + length data) cells.

Definition fd_write_at (h : path) (data : bytes) (off : nat) : M world unit := sys (λ t,
  upd_file h (λ f, with_cells (splice (f_cells f) off data) (clock t) f)).

(** [f.Truncate]: growth is a hole, a negative size is refused. *)
Definition fd_truncate (h : path) (size : Z) : M world unit := sys (λ t σ,
  if decide (size < 0) then (inl EINVAL, σ) else
  upd_file h (λ f, with_cells (take (Z.to_nat size) (f_cells f) ++
                               replicate (Z.to_nat size - length (f_cells f)) None) (clock t) f) σ).

Definition fd_close (h : path) : M world unit := sys_read (λ _, inr tt).

Definition os_WriteFile (p : path) (data : bytes) (mode : Z) : M world unit :=
  h ← os_Create p mode;
  r ← attempt (fd_write h data);
  c ← attempt (fd_close h);
  of_sum (match r with inl e => inl e | inr _ => c end).

Definition os_Chmod (p : path) (mode : Z) : M world unit := sys (λ _ σ,
  match find_node σ true p with
  | inl e => (inl e, σ)
  | inr (q, NFile f) => (inr tt, <[q := NFile (File mode (f_cells f) (f_mtime f) (f_ino f))]> σ)
  | inr (q, NDir _) => (inr tt, <[q := NDir mode]> σ)
  | inr (q, NOther _) => (inr tt, <[q := NOther mode]> σ)
  | inr (q, NLink _) => (inl ELOOP, σ)
  end).

Definition os_Symlink (target : string) (p : path) : M world unit := sys (λ _ σ,
  match resolve σ false p with
  | inl e => (inl e, σ)
  | inr q => match σ !! q with
             | Some _ => (inl EEXIST, σ)
             | None => (inr tt, <[q := NLink target]> σ)
             end
  end).

(** The names directly under a directory. *)
Definition child_name (p : path) (kv : path * node) : option string :=
  match decide (dir_of (fst kv) = p), last (fst kv) with
  | left _, Some c => Some c
  | _, _ => None
  end.
Definition children (σ : fs) (p : path) : list string :=
  merge_sort String.le (omap (child_name p) (map_to_list σ)).

(** [os.Remove]: a file, a link, or an empty directory. *)
Definition os_Remove (p : path) : M world unit := sys (λ _ σ,
  match find_node σ false p with
  | inl e => (inl e, σ)
  | inr ([], _) => (inl EINVAL, σ)
  | inr (q, NDir _) => if decide (children σ q = []) then (inr tt, delete q σ) else (inl ENOTEMPTY, σ)
  | inr (q, _) => (inr tt, delete q σ)
  end).

(** Is [q] at or below [p]? *)
Definition below (p q : path) : Prop := p `prefix_of` q.
#[global] Instance below_dec p q : Decision (below p q) := _.

(** [os.RemoveAll]: the node and everything under it; absent is fine. *)
Definition os_RemoveAll (p : path) : M world unit := sys (λ _ σ,
  match find_node σ false p with
  | inl ENOENT => (inr tt, σ)
  | inl e => (inl e, σ)
  | inr (q, _) => (inr tt, filter (λ kv, ¬ below q kv.1) σ)
  end).

(** [os.Rename] of a file or a link over anything but a directory (the sources
    never rename a directory). *)
Definition os_Rename (old new : path) : M world unit := sys (λ _ σ,
  match find_node σ false old, resolve σ false new with
  | inl e, _ => (inl e, σ)
  | _, inl e => (inl e, σ)
  | inr (q, n), inr q' =>
      match n, σ !! q' with
      | NDir _, _ => (inl EINVAL, σ)
      | _, Some (NDir _) => (inl EEXIST, σ)
      | _, _ => (inr tt, <[q' := n]> (delete q σ))
      end
  end).

(** [os.CreateTemp(dir, prefix ++ "*")]: a name that does not exist, tried at
    most 10000 times. *)
Definition try_create_temp (p : path) : M world path := sys (λ t σ,
  match resolve σ false p with
  | inl e => (inl e, σ)
  | inr q => match σ !! q with
             | Some _ => (inl EEXIST, σ)
             | None => (inr q, <[q := NFile (File (perm o600) [] (clock t) t)]> σ)
             end
  end).
Definition temp_name (prefix : string) (t : nat) : string :=
  prefix +:+ pretty (entropy t mod 4294967296)%N.
Fixpoint create_temp (tries : nat) (d : path) (prefix : string) : M world path :=
  w ← get_state;
  r ← attempt (try_create_temp (d ++ [temp_name prefix (w_tick w)]));
  match r with
  | inr q => mret q
  | inl e =>
      match tries with
      | O => throw e
      | S k => if decide (e = Errno EEXIST) then create_temp k d prefix else throw e
      end
  end.
Definition os_CreateTemp (d : path) (prefix : string) : M world path := create_temp 9999 d prefix.

(** [os.MkdirTemp("", prefix)]: a fresh directory for the owner only. *)
Definition try_mkdir_temp (p : path) : M world unit := mkdir p o700.
Fixpoint mkdir_temp (tries : nat) (d : path) (prefix : string) : M world path :=
  w ← get_state;
  let p := d ++ [temp_name prefix (w_tick w)] in
  r ← attempt (try_mkdir_temp p);
  match r with
  | inr _ => mret p
  | inl e =>
      match tries with
      | O => throw e
      | S k => if decide (e = Errno EEXIST) then mkdir_temp k d prefix else throw e
      end
  end.
Definition os_MkdirTemp (prefix : string) : M world path := mkdir_temp 9999 tempdir prefix.

(** [time.Now] and [crypto/rand.Read] of [n] bytes; neither fails. *)
Definition time_Now : M world Z := λ w, (Ok (clock (w_tick w)), tick w).
Fixpoint n_bytes (n : nat) (x : N) : bytes :=
  match n with
  | O => []
  | S k => default x00 (Byte.of_N (x mod 256)) :: n_bytes k (x / 256)
  end.
Definition rand_Read (n : nat) : M world bytes := λ w, (Ok (n_bytes n (entropy (w_tick w))), tick w).

(** [os.Chtimes], the modification time. *)
Definition os_Chtimes (p : path) (t : Z) : M world unit := sys (λ _ σ,
  match find_node σ true p with
  | inl e => (inl e, σ)
  | inr (q, NFile f) => (inr tt, <[q := NFile (with_cells (f_cells f) t f)]> σ)
  | inr _ => (inr tt, σ)
  end).

(** [filepath.EvalSymlinks]. *)
Definition filepath_EvalSymlinks (p : path) : M world path := sys_read (λ σ, fst <$> find_node σ true p).

(** [os.ReadDir]: the entries of a directory sorted by name, each with whether
    it is a directory (a link is not). *)
Definition dirent : Type := string * bool.
Definition dirent_of (σ : fs) (q : path) (c : string) : dirent :=
  (c, match σ !! (q ++ [c]) with Some n => is_dir_node n | None => false end).
Definition os_ReadDir (p : path) : M world (list dirent) := sys_read (λ σ,
  match find_node σ true p with
  | inl e => inl e
  | inr (q, NDir _) => inr (dirent_of σ q <$> children σ q)
  | inr _ => inl ENOTDIR
  end).

(** [filepath.WalkDir].  The callback is given the path, whether it is a
    directory, and an error if the directory could not be read; it runs on the
    world and on its own variable of type [X].  [fuel] bounds the depth. *)
Section walk.
Context {X : Type} (fn : path → bool → option gerr → M (world * X) unit).

Definition skip_dir (isDir : bool) (e : gerr) : M (world * X) unit :=
  if bool_decide (e = SkipDir) && isDir then mret tt else throw e.

Fixpoint walk_dir (fuel : nat) (p : path) (isDir : bool) : M (world * X) unit :=
  match fuel with
  | O => panic
  | S k =>
      r ← attempt (fn p isDir None);
      match r with
      | inl e => skip_dir isDir e
      | inr _ =>
          if negb isDir then mret tt else
          ds ← attempt (on_fst (os_ReadDir p));
          match ds with
          | inl e =>
              r ← attempt (fn p isDir (Some e));
              match r with inl e' => skip_dir isDir e' | inr _ => mret tt end
          | inr l =>
              (fix go (l : list dirent) : M (world * X) unit :=
                 match l with
                 | [] => mret tt
                 | (c, d) :: l' =>
                     r ← attempt (walk_dir k (p ++ [c]) d);
                     match r with
                     | inl e => if decide (e = SkipDir) then mret tt else throw e
                     | inr _ => go l'
                     end
                 end) l
          end
      end
  end.

(** As deep as any path there is. *)
Definition depth (σ : fs) : nat := max_list (length <$> (map_to_list σ).*1).

Definition filepath_WalkDir (root : path) : M (world * X) unit :=
  w ← get_state;
  i ← attempt (on_fst (os_Lstat root));
  r ← attempt (match i with
               | inl e => fn root false (Some e)
               | inr n => walk_dir (S (depth (w_fs (fst w)))) root (is_dir_node n)
               end);
  match r with
  | inl e => if decide (e = SkipDir) then mret tt else throw e
  | inr _ => mret tt
  end.
End walk.

End calls.
