(* ===== verification/OsFacts.v ===== *)
(** * Facts about the file-system model

    A well-formed file system ([fs_wf]) has every node inside a directory.  The
    path walk on it, what each call of [os] does at a path whose parent is a
    real directory, and that every call keeps the file system well formed,
    whatever fails. *)

From S2P Require Import Prelude Sha256 Os.
Open Scope Z_scope.

Definition is_dir (σ : fs) (p : path) : Prop := ∃ m, σ !! p = Some (NDir m).
Definition good_name (c : string) : Prop := c ≠ "" ∧ c ≠ "." ∧ c ≠ "..".
Definition fs_wf (σ : fs) : Prop :=
  is_dir σ [] ∧ ∀ p c, is_Some (σ !! (p ++ [c])) → is_dir σ p ∧ good_name c.
Definition not_link (n : option node) : Prop := ∀ t, n ≠ Some (NLink t).

Create HintDb vitos.
#[export] Hint Unfold not_link : vitos.

(** ** Paths *)

Lemma path_case (p : path) : p = [] ∨ ∃ d c, p = d ++ [c].
Proof. destruct p as [|c d _] using rev_ind; eauto. Qed.

Lemma removelast_snoc {A} (l : list A) x : removelast (l ++ [x]) = l.
Proof. by rewrite removelast_app, app_nil_r. Qed.

Lemma prefix_snoc {A} (l k : list A) x :
  l `prefix_of` k ++ [x] → l = k ++ [x] ∨ l `prefix_of` k.
Proof.
  intros [s Hs]. destruct s as [|y s _] using rev_ind.
  - rewrite app_nil_r in Hs. by left.
  - right. rewrite app_assoc in Hs. apply app_inj_tail in Hs as [-> _]. by exists s.
Qed.

Lemma snoc_not_prefix {A} (l : list A) x : ¬ l ++ [x] `prefix_of` l.
Proof. intros [s Hs]. apply (f_equal length) in Hs. rewrite !length_app in Hs. simpl in Hs. lia. Qed.

Lemma clean_onto_good (p : path) cs :
  Forall good_name cs → clean_onto p cs = p ++ cs.
Proof.
  revert p. induction cs as [|c cs IH]; intros p Hc; simpl; [by rewrite app_nil_r|].
  inversion Hc as [|?? [Hc1 [Hc2 Hc3]] Hcs]; subst.
  rewrite decide_False by tauto. rewrite decide_False by done.
  rewrite IH by done. by rewrite <- app_assoc.
Qed.

Lemma join_good (p : path) s :
  has_char slash s = false → good_name s → join p s = p ++ [s].
Proof.
  intros Hs Hg. unfold join. rewrite split_on_no_sep by done.
  apply clean_onto_good. by apply Forall_singleton.
Qed.

(** ** Well-formedness *)

Lemma is_dir_not_link σ p : is_dir σ p → not_link (σ !! p).
Proof. intros [m Hm] t. rewrite Hm. done. Qed.
#[export] Hint Resolve is_dir_not_link : vitos.

Lemma fs_wf_up σ p q : fs_wf σ → q ≠ [] → is_Some (σ !! (p ++ q)) → is_dir σ p.
Proof.
  intros [_ Hwf]. revert p. induction q as [|c q IH] using rev_ind; [done|]. intros p _ Hs.
  rewrite app_assoc in Hs. apply Hwf in Hs as [[m Hm] _].
  destruct (path_case q) as [->|(q' & c' & ->)].
  - rewrite app_nil_r in Hm. by exists m.
  - apply IH; [by destruct q'|]. by rewrite Hm.
Qed.

Lemma fs_wf_dir_up σ p q : fs_wf σ → is_dir σ (p ++ q) → is_dir σ p.
Proof.
  intros Hwf [m Hm]. destruct (decide (q = [])) as [->|Hq].
  - rewrite app_nil_r in Hm. by exists m.
  - eapply fs_wf_up; eauto.
Qed.

Lemma fs_wf_names σ p q : fs_wf σ → is_Some (σ !! (p ++ q)) → Forall good_name q.
Proof.
  intros Hwf. induction q as [|c q IH] using rev_ind; [by constructor|].
  rewrite app_assoc. intros Hs. apply Hwf in Hs as [[m Hm] Hc].
  apply Forall_app. split; [apply IH; by rewrite Hm|by constructor].
Qed.

Lemma fs_wf_insert σ d c n :
  fs_wf σ → is_dir σ d → good_name c →
  (is_dir σ (d ++ [c]) → is_dir_node n = true) →
  fs_wf (<[d ++ [c] := n]> σ).
Proof.
  intros [Hroot Hwf] Hd Hc Hn. split.
  - destruct Hroot as [m Hm]. exists m. rewrite lookup_insert_ne by (by destruct d). done.
  - intros p c' Hs.
    assert (is_dir σ p → is_dir (<[d ++ [c]:=n]> σ) p) as Hkeep.
    { intros Hp. destruct (decide (d ++ [c] = p)) as [<-|Hne].
      - destruct n; try by specialize (Hn Hp). exists mode. apply lookup_insert_eq.
      - destruct Hp as [m Hm]. exists m. by rewrite lookup_insert_ne. }
    destruct (decide (d ++ [c] = p ++ [c'])) as [He|Hne].
    + apply app_inj_tail in He as [-> ->]. auto.
    + rewrite lookup_insert_ne in Hs by done. apply Hwf in Hs as [??]. auto.
Qed.

Lemma fs_wf_replace σ q n :
  fs_wf σ → is_Some (σ !! q) → (is_dir σ q → is_dir_node n = true) → fs_wf (<[q := n]> σ).
Proof.
  intros Hwf Hq Hn. destruct (path_case q) as [->|(d & c & ->)].
  - pose proof (proj1 Hwf) as Hroot. destruct n; try by specialize (Hn Hroot).
    split; [exists mode; apply lookup_insert_eq|]. intros p c Hs.
    rewrite lookup_insert_ne in Hs by (by destruct p). apply Hwf in Hs as [[m Hm] ?].
    split; [|done]. destruct (decide (p = [])) as [->|].
    + exists mode. apply lookup_insert_eq.
    + exists m. by rewrite lookup_insert_ne.
  - apply Hwf in Hq as Hq'. destruct Hq'. by apply fs_wf_insert.
Qed.

Lemma fs_wf_filter σ (P : path → Prop) `{∀ kv : path * node, Decision (P kv.1)} :
  fs_wf σ → P [] → (∀ p c, P (p ++ [c]) → P p) →
  fs_wf (filter (λ kv, P kv.1) σ).
Proof.
  intros [[m Hm] Hwf] Hr Hup. split.
  - exists m. by apply map_lookup_filter_Some.
  - intros p c [n [Hn HP]%map_lookup_filter_Some]. simpl in HP.
    destruct (Hwf p c) as [[m' Hm'] ?]; [by eexists|]. split; [|done].
    exists m'. apply map_lookup_filter_Some; simpl; eauto.
Qed.

Lemma fs_wf_delete σ q :
  fs_wf σ → q ≠ [] → (∀ c, σ !! (q ++ [c]) = None) → fs_wf (delete q σ).
Proof.
  intros [[m Hm] Hwf] Hq Hleaf. split.
  - exists m. by rewrite lookup_delete_ne.
  - intros p c Hs. destruct (decide (q = p ++ [c])) as [->|Hne].
    { rewrite lookup_delete_eq in Hs. by destruct Hs. }
    rewrite lookup_delete_ne in Hs by done.
    destruct (Hwf p c Hs) as [[m' Hm'] ?]. split; [|done].
    exists m'. rewrite lookup_delete_ne; [done|]. intros ->. rewrite Hleaf in Hs. by destruct Hs.
Qed.

(** ** The path walk *)

Lemma namei_unfold σ k follow cur todo :
  namei σ k follow cur todo =
  match todo with
  | [] => inr cur
  | c :: rest =>
      if decide (c = "" ∨ c = ".") then namei σ k follow cur rest
      else if decide (c = "..") then namei σ k follow (removelast cur) rest
      else
        match σ !! (cur ++ [c]) with
        | None => if decide (rest = []) then inr (cur ++ [c]) else inl ENOENT
        | Some (NDir _) => namei σ k follow (cur ++ [c]) rest
        | Some (NLink t) =>
            if bool_decide (rest = []) && negb follow then inr (cur ++ [c])
            else match k with
                 | O => inl ELOOP
                 | S k => namei σ k follow
                            (if has_prefix "/" t then [] else cur) (split_on slash t ++ rest)
                 end
        | Some _ => if decide (rest = []) then inr (cur ++ [c]) else inl ENOTDIR
        end
  end.
Proof. by destruct k, todo. Qed.

Lemma namei_good σ k follow cur c rest :
  good_name c →
  namei σ k follow cur (c :: rest) =
  match σ !! (cur ++ [c]) with
  | None => if decide (rest = []) then inr (cur ++ [c]) else inl ENOENT
  | Some (NDir _) => namei σ k follow (cur ++ [c]) rest
  | Some (NLink t) =>
      if bool_decide (rest = []) && negb follow then inr (cur ++ [c])
      else match k with
           | O => inl ELOOP
           | S k => namei σ k follow
                      (if has_prefix "/" t then [] else cur) (split_on slash t ++ rest)
           end
  | Some _ => if decide (rest = []) then inr (cur ++ [c]) else inl ENOTDIR
  end.
Proof.
  intros (H1 & H2 & H3). rewrite namei_unfold.
  rewrite decide_False by tauto. by rewrite decide_False.
Qed.

(** Walking through directories. *)
Lemma namei_dirs σ k follow cur p q :
  fs_wf σ → is_dir σ (cur ++ p) → namei σ k follow cur (p ++ q) = namei σ k follow (cur ++ p) q.
Proof.
  intros Hwf. revert cur. induction p as [|c p IH]; intros cur Hd; [by rewrite app_nil_r|].
  assert (Forall good_name (c :: p)) as Hgs.
  { destruct Hd as [m Hm]. apply (fs_wf_names σ cur); [done|by eexists]. }
  inversion Hgs as [|?? Hc _]; subst. simpl. rewrite namei_good by done.
  replace (cur ++ c :: p) with ((cur ++ [c]) ++ p) in * by by rewrite <- app_assoc.
  destruct (fs_wf_dir_up _ _ _ Hwf Hd) as [m Hm]. rewrite Hm. by apply IH.
Qed.

Lemma resolve_dir σ follow p : fs_wf σ → is_dir σ p → resolve σ follow p = inr p.
Proof.
  intros Hwf Hd. unfold resolve. rewrite <- (app_nil_r p) at 1.
  rewrite namei_dirs by done. by rewrite namei_unfold.
Qed.

Lemma resolve_child σ follow d c :
  fs_wf σ → is_dir σ d → good_name c →
  (follow = true → not_link (σ !! (d ++ [c]))) →
  resolve σ follow (d ++ [c]) = inr (d ++ [c]).
Proof.
  intros Hwf Hd Hc Hl. unfold resolve. rewrite namei_dirs by done. simpl app at 1.
  rewrite namei_good by done. destruct (σ !! (d ++ [c])) as [[]|] eqn:E; try done.
  destruct follow; [|done]. exfalso. by apply (Hl eq_refl target).
Qed.

Lemma resolve_node σ follow p n :
  fs_wf σ → σ !! p = Some n → (follow = true → not_link (Some n)) → resolve σ follow p = inr p.
Proof.
  intros Hwf Hp Hl. destruct (path_case p) as [->|(d & c & ->)].
  - apply resolve_dir, Hwf. done.
  - destruct (proj2 Hwf d c); [by eexists|]. apply resolve_child; try done. by rewrite Hp.
Qed.

Lemma find_node_some σ follow p n :
  fs_wf σ → σ !! p = Some n → (follow = true → not_link (Some n)) →
  find_node σ follow p = inr (p, n).
Proof. intros Hwf Hp Hl. unfold find_node. erewrite resolve_node by done. by rewrite Hp. Qed.

Lemma find_node_none σ follow d c :
  fs_wf σ → is_dir σ d → good_name c → σ !! (d ++ [c]) = None →
  find_node σ follow (d ++ [c]) = inl ENOENT.
Proof.
  intros Hwf Hd Hc Hn. unfold find_node. rewrite resolve_child by (done || by rewrite Hn).
  by rewrite Hn.
Qed.

(** Wherever the walk ends, symbolic links included, it ends inside a
    directory, at a proper name. *)
Definition placed (σ : fs) (q : path) : Prop :=
  is_dir σ q ∨ ∃ d c, q = d ++ [c] ∧ is_dir σ d ∧ good_name c.

Lemma removelast_dir σ p : fs_wf σ → is_dir σ p → is_dir σ (removelast p).
Proof.
  intros Hwf Hd. destruct (path_case p) as [->|(d & c & ->)]; [done|].
  rewrite removelast_snoc. by eapply fs_wf_dir_up.
Qed.

Lemma namei_placed σ k follow cur todo q :
  fs_wf σ → is_dir σ cur → namei σ k follow cur todo = inr q → placed σ q.
Proof.
  intros Hwf. revert cur todo. induction k as [k IHk] using (well_founded_induction lt_wf).
  intros cur todo. revert cur. induction todo as [|c rest IH]; intros cur Hcur;
    rewrite namei_unfold; [intros [= <-]; by left|].
  case_decide as H1; [by apply IH|]. case_decide as H2; [by apply IH, removelast_dir|].
  assert (good_name c) as Hc by (unfold good_name; tauto).
  assert (placed σ (cur ++ [c])) as Hp by (right; eauto).
  destruct (σ !! (cur ++ [c])) as [[f|m|t|m]|] eqn:E.
  - case_decide; [by intros [= <-]|done].
  - apply IH. by exists m.
  - destruct (bool_decide _ && _); [by intros [= <-]|]. destruct k as [|k]; [done|].
    apply IHk; [lia|]. destruct (has_prefix "/" t); [apply Hwf|done].
  - case_decide; [by intros [= <-]|done].
  - case_decide; [by intros [= <-]|done].
Qed.

Lemma resolve_placed σ follow p q : fs_wf σ → resolve σ follow p = inr q → placed σ q.
Proof. intros Hwf. apply namei_placed; [done|apply Hwf]. Qed.

Lemma placed_insert σ q n :
  fs_wf σ → placed σ q → (is_dir σ q → is_dir_node n = true) → fs_wf (<[q := n]> σ).
Proof.
  intros Hwf [Hd|(d & c & -> & Hd & Hc)] Hn.
  - destruct Hd as [m Hm]. apply fs_wf_replace; [done|by eexists|]. intros _. apply Hn. by exists m.
  - by apply fs_wf_insert.
Qed.

(** A file system with one directory. *)
Definition fs_root : fs := {[ [] := NDir o755 ]}.

Lemma fs_root_wf : fs_wf fs_root.
Proof.
  split; [by exists o755|]. intros p c [n Hn]. unfold fs_root in Hn.
  rewrite lookup_singleton_ne in Hn by (by destruct p). done.
Qed.

(** A host where no call fails, with the usual umask. *)
Definition calm : OsEnv :=
  {| fault := λ _, None; partial := λ _, 0%nat; entropy := N.of_nat; clock := λ _, 0; umask := 0x12;
     tempdir := ["tmp"]; getenv := λ _, ""; device := 1; st_blocks := λ _ _, 0; link_mtime := λ _, 0 |}.

Lemma calm_quiet : @quiet calm.
Proof. done. Qed.

(** ** What each call does *)

Definition lift_errno {A} (r : errno + A) : gerr + A :=
  match r with inl e => inl (Errno e) | inr a => inr a end.

Section specs.
Context `{OsEnv}.
Implicit Types (w : world) (σ : fs) (p q d : path).

Lemma wp_sys {A} (op : nat → fs → (errno + A) * fs) Q w :
  (∀ e, ¬ quiet → Q (inl (Errno e)) (tick w)) →
  Q (lift_errno (op (w_tick w) (w_fs w)).1) (tick (set_fs (op (w_tick w) (w_fs w)).2 w)) →
  wp (sys op) Q w.
Proof.
  intros Hf Hq. unfold wp, sys. destruct (fault (w_tick w)) as [e|] eqn:E.
  - apply Hf. intros Hquiet. by rewrite Hquiet in E.
  - destruct (op (w_tick w) (w_fs w)) as [[e|a] σ]; done.
Qed.

Lemma set_fs_id w : set_fs (w_fs w) w = w.
Proof. by destruct w. Qed.

Lemma wp_sys_read {A} (op : fs → errno + A) Q w :
  (∀ e, ¬ quiet → Q (inl (Errno e)) (tick w)) →
  Q (lift_errno (op (w_fs w))) (tick w) →
  wp (sys_read op) Q w.
Proof. intros Hf Hq. apply wp_sys; [done|]. simpl. by rewrite set_fs_id. Qed.

Lemma wp_Stat p Q w :
  (∀ e, ¬ quiet → Q (inl (Errno e)) (tick w)) →
  Q (lift_errno (snd <$> find_node (w_fs w) true p)) (tick w) →
  wp (os_Stat p) Q w.
Proof. intros. by apply wp_sys_read. Qed.

Lemma wp_Lstat p Q w :
  (∀ e, ¬ quiet → Q (inl (Errno e)) (tick w)) →
  Q (lift_errno (snd <$> find_node (w_fs w) false p)) (tick w) →
  wp (os_Lstat p) Q w.
Proof. intros. by apply wp_sys_read. Qed.

Lemma wp_close h Q w :
  (∀ e, ¬ quiet → Q (inl (Errno e)) (tick w)) → Q (inr tt) (tick w) → wp (fd_close h) Q w.
Proof. intros. by apply wp_sys_read. Qed.

Lemma wp_Open p n Q w :
  fs_wf (w_fs w) → w_fs w !! p = Some n → not_link (Some n) →
  (∀ e, ¬ quiet → Q (inl (Errno e)) (tick w)) → Q (inr p) (tick w) → wp (os_Open p) Q w.
Proof.
  intros Hwf Hp Hl Hf HQ. apply wp_sys_read; [done|].
  by rewrite (find_node_some _ _ _ n).
Qed.

Lemma wp_Open_none d c Q w :
  fs_wf (w_fs w) → is_dir (w_fs w) d → good_name c → w_fs w !! (d ++ [c]) = None →
  (∀ e, ¬ quiet → Q (inl (Errno e)) (tick w)) → Q (inl (Errno ENOENT)) (tick w) →
  wp (os_Open (d ++ [c])) Q w.
Proof.
  intros Hwf Hd Hc Hp Hf HQ. apply wp_sys_read; [done|]. by rewrite find_node_none.
Qed.

Lemma wp_read h f Q w :
  w_fs w !! h = Some (NFile f) →
  (∀ e, ¬ quiet → Q (inl (Errno e)) (tick w)) → Q (inr (contents f)) (tick w) →
  wp (fd_read h) Q w.
Proof. intros Hh Hf HQ. apply wp_sys_read; [done|]. unfold file_at. by rewrite Hh. Qed.

Lemma wp_read_at h f n off Q w :
  w_fs w !! h = Some (NFile f) →
  (∀ e, ¬ quiet → Q (inl (Errno e)) (tick w)) →
  Q (inr (take n (drop off (contents f)))) (tick w) →
  wp (fd_read_at h n off) Q w.
Proof. intros Hh Hf HQ. apply wp_sys_read; [done|]. unfold file_at. by rewrite Hh. Qed.

Lemma wp_fstat h f Q w :
  w_fs w !! h = Some (NFile f) →
  (∀ e, ¬ quiet → Q (inl (Errno e)) (tick w)) → Q (inr f) (tick w) →
  wp (fd_stat h) Q w.
Proof. intros Hh Hf HQ. apply wp_sys_read; [done|]. unfold file_at. by rewrite Hh. Qed.

Lemma wp_ReadFile p f Q w :
  fs_wf (w_fs w) → w_fs w !! p = Some (NFile f) →
  (∀ e w', w_fs w' = w_fs w → w_zero w' = w_zero w → ¬ quiet → Q (inl (Errno e)) w') →
  (∀ w', w_fs w' = w_fs w → w_zero w' = w_zero w → Q (inr (contents f)) w') →
  wp (os_ReadFile p) Q w.
Proof.
  intros Hwf Hp Hf HQ. unfold os_ReadFile. wp_step. eapply (wp_Open p (NFile f)); eauto.
  { by intros t. }
  eapply wp_read; simpl; eauto.
Qed.

Lemma wp_ReadFile_none d c Q w :
  fs_wf (w_fs w) → is_dir (w_fs w) d → good_name c → w_fs w !! (d ++ [c]) = None →
  (∀ e w', w_fs w' = w_fs w → w_zero w' = w_zero w → ¬ quiet → Q (inl (Errno e)) w') →
  (∀ w', w_fs w' = w_fs w → w_zero w' = w_zero w → Q (inl (Errno ENOENT)) w') →
  wp (os_ReadFile (d ++ [c])) Q w.
Proof. intros Hwf Hd Hc Hp Hf HQ. unfold os_ReadFile. wp_step. apply wp_Open_none; eauto. Qed.

(** *** Creating directories *)

Lemma wp_mkdir d c m Q w :
  fs_wf (w_fs w) → is_dir (w_fs w) d → good_name c →
  (∀ e, ¬ quiet → Q (inl (Errno e)) (tick w)) →
  (match w_fs w !! (d ++ [c]) with
   | Some _ => Q (inl (Errno EEXIST)) (tick w)
   | None => Q (inr tt) (tick (set_fs (<[d ++ [c] := NDir (perm m)]> (w_fs w)) w))
   end) →
  wp (mkdir (d ++ [c]) m) Q w.
Proof.
  intros Hwf Hd Hc Hf HQ. apply wp_sys; [done|]. rewrite resolve_child by done.
  destruct (w_fs w !! (d ++ [c])); simpl; [by rewrite set_fs_id|done].
Qed.

Lemma find_node_dir σ follow p m :
  fs_wf σ → σ !! p = Some (NDir m) → find_node σ follow p = inr (p, NDir m).
Proof. intros. apply find_node_some; [done..|]. intros _ t; done. Qed.

(** On a directory that exists [MkdirAll] changes nothing, and without faults
    it succeeds. *)
Lemma wp_MkdirAll_dir p m w :
  fs_wf (w_fs w) → is_dir (w_fs w) p →
  wp (os_MkdirAll p m) (λ r w', w_fs w' = w_fs w ∧ w_zero w' = w_zero w ∧
    match r with inl (Errno _) => ¬ quiet | inl _ => False | inr _ => True end) w.
Proof.
  intros Hwf Hd. unfold os_MkdirAll. rewrite <- (reverse_involutive p) in Hd.
  generalize dependent (reverse p). intros rp. clear p. revert w Hwf.
  induction rp as [|c up IH]; intros w Hwf Hd; simpl.
  all: wp_step; wp_step; destruct Hd as [md Hmd].
  all: apply wp_Stat; [intros e He | by rewrite (find_node_dir _ _ _ md) by done].
  - wp_step. wp_step. wp_step. wp_step. apply wp_sys; [intros e' He'|].
    + wp_step. wp_step. apply wp_Lstat; [intros e'' He''; done|].
      by rewrite (find_node_dir _ _ _ md) by done.
    + rewrite resolve_dir by (done || by exists md). simpl in *. rewrite Hmd. simpl.
      wp_step. wp_step. apply wp_Lstat; [intros e'' He''; done|].
      by rewrite (find_node_dir _ _ _ md) by done.
  - rewrite reverse_cons in *.
    assert (is_dir (w_fs (tick w)) (reverse up)) as Hup.
    { eapply fs_wf_dir_up; [done|]. by exists md. }
    wp_step. eapply wp_mono; [by apply IH|]. intros [e'|[]] w1 (Hfs & Hz & Hr).
    { by destruct e'. }
    simpl in Hfs, Hz. wp_step. wp_step.
    assert (good_name c) as Hc by (eapply Hwf; by eexists).
    apply wp_mkdir; rewrite ?Hfs; try done.
    + intros e'' He''. wp_step. wp_step. apply wp_Lstat; simpl; [done|].
      by rewrite Hfs, (find_node_dir _ _ _ md) by done.
    + rewrite Hmd. wp_step. wp_step. apply wp_Lstat; simpl; [done|].
      by rewrite Hfs, (find_node_dir _ _ _ md) by done.
Qed.

(** One new level under an existing directory. *)
Lemma wp_MkdirAll_child d c m w :
  fs_wf (w_fs w) → is_dir (w_fs w) d → good_name c → w_fs w !! (d ++ [c]) = None →
  wp (os_MkdirAll (d ++ [c]) m) (λ r w', w_zero w' = w_zero w ∧
    match r with
    | inl (Errno _) => ¬ quiet ∧ w_fs w' = w_fs w
    | inl _ => False
    | inr _ => w_fs w' = <[d ++ [c] := NDir (perm m)]> (w_fs w)
    end) w.
Proof.
  intros Hwf Hd Hc Hn.
  assert (∀ e w1, w_fs w1 = w_fs w → w_zero w1 = w_zero w → ¬ quiet →
    wp (d0 ← attempt (os_Lstat (d ++ [c])); match d0 with inr (NDir _) => mret tt | _ => throw (Errno e) end)
     (λ r w', w_zero w' = w_zero w ∧
       match r with
       | inl (Errno _) => ¬ quiet ∧ w_fs w' = w_fs w
       | inl _ => False
       | inr _ => w_fs w' = <[d ++ [c] := NDir (perm m)]> (w_fs w)
       end) w1) as HL.
  { intros e w1 Hfs Hz Hnq. wp_step. wp_step. apply wp_Lstat; simpl; [done|].
    by rewrite Hfs, find_node_none by done. }
  unfold os_MkdirAll. rewrite reverse_snoc. simpl. rewrite reverse_cons, reverse_involutive.
  assert (∀ w1, w_fs w1 = w_fs w → w_zero w1 = w_zero w →
    wp (mkdirAll_rev (reverse d) m;;
        r ← attempt (mkdir (d ++ [c]) m);
        match r with
        | inl e => d0 ← attempt (os_Lstat (d ++ [c]));
                   match d0 with inr (NDir _) => mret tt | _ => throw e end
        | inr _ => mret tt
        end)
     (λ r w', w_zero w' = w_zero w ∧
       match r with
       | inl (Errno _) => ¬ quiet ∧ w_fs w' = w_fs w
       | inl _ => False
       | inr _ => w_fs w' = <[d ++ [c] := NDir (perm m)]> (w_fs w)
       end) w1) as Hrest.
  { intros w1 Hfs Hz. wp_step. eapply wp_mono; [apply (wp_MkdirAll_dir d m); by rewrite Hfs|].
    intros [e|[]] w2 (Hfs2 & Hz2 & Hr); [destruct e; naive_solver congruence|].
    rewrite Hfs in Hfs2. rewrite Hz in Hz2. wp_step. wp_step.
    apply wp_mkdir; rewrite ?Hfs2; try done; [intros e He; by apply HL|].
    by rewrite Hn. }
  wp_step. wp_step. apply wp_Stat; [intros e He; by apply Hrest|].
  rewrite find_node_none by done. by apply Hrest.
Qed.

(** *** Files *)

Lemma wp_Create d c m Q w :
  fs_wf (w_fs w) → is_dir (w_fs w) d → good_name c →
  (∀ e, ¬ quiet → Q (inl (Errno e)) (tick w)) →
  match w_fs w !! (d ++ [c]) with
  | Some (NFile f) => ∀ t,
      Q (inr (d ++ [c])) (tick (set_fs (<[d ++ [c] := NFile (File (f_mode f) [] t (f_ino f))]> (w_fs w)) w))
  | None => ∀ t i,
      Q (inr (d ++ [c])) (tick (set_fs (<[d ++ [c] := NFile (File (perm m) [] t i)]> (w_fs w)) w))
  | _ => False
  end →
  wp (os_Create (d ++ [c]) m) Q w.
Proof.
  intros Hwf Hd Hc Hf HQ. apply wp_sys; [done|].
  rewrite resolve_child; try done.
  - destruct (w_fs w !! (d ++ [c])) as [[f|mo|tt|mo]|]; simpl; done.
  - intros _ t Ht. by rewrite Ht in HQ.
Qed.

(** A write that fails leaves some prefix of its data. *)
Lemma wp_write h f data Q w :
  w_fs w !! h = Some (NFile f) →
  (∀ e k t, ¬ quiet →
     Q (inl (Errno e)) (tick (set_fs (<[h := NFile (File (f_mode f) (f_cells f ++ (Some <$> take k data)) t (f_ino f))]> (w_fs w)) w))) →
  (∀ t, Q (inr tt) (tick (set_fs (<[h := NFile (File (f_mode f) (f_cells f ++ (Some <$> data)) t (f_ino f))]> (w_fs w)) w))) →
  wp (fd_write h data) Q w.
Proof.
  intros Hh Hf HQ. unfold wp, fd_write, upd_file, file_at. rewrite Hh.
  destruct (fault (w_tick w)) as [e|] eqn:E; simpl.
  - apply Hf. intros Hq. by rewrite Hq in E.
  - apply HQ.
Qed.

Lemma wp_write_at h f data off Q w :
  w_fs w !! h = Some (NFile f) →
  (∀ e, ¬ quiet → Q (inl (Errno e)) (tick w)) →
  (∀ t, Q (inr tt) (tick (set_fs (<[h := NFile (with_cells (splice (f_cells f) off data) t f)]> (w_fs w)) w))) →
  wp (fd_write_at h data off) Q w.
Proof.
  intros Hh Hf HQ. apply wp_sys; [done|]. unfold upd_file, file_at. rewrite Hh. simpl. apply HQ.
Qed.

Lemma wp_truncate_empty h f size Q w :
  w_fs w !! h = Some (NFile f) → f_cells f = [] → 0 ≤ size →
  (∀ e, ¬ quiet → Q (inl (Errno e)) (tick w)) →
  (∀ t, Q (inr tt) (tick (set_fs (<[h := NFile (with_cells (replicate (Z.to_nat size) None) t f)]> (w_fs w)) w))) →
  wp (fd_truncate h size) Q w.
Proof.
  intros Hh Hc Hs Hf HQ. apply wp_sys; [done|]. rewrite decide_False by lia.
  unfold upd_file, file_at. rewrite Hh, Hc, take_nil, Nat.sub_0_r. simpl. apply HQ.
Qed.

Lemma wp_Chmod p f m Q w :
  fs_wf (w_fs w) → w_fs w !! p = Some (NFile f) →
  (∀ e, ¬ quiet → Q (inl (Errno e)) (tick w)) →
  Q (inr tt) (tick (set_fs (<[p := NFile (File m (f_cells f) (f_mtime f) (f_ino f))]> (w_fs w)) w)) →
  wp (os_Chmod p m) Q w.
Proof.
  intros Hwf Hp Hf HQ. apply wp_sys; [done|].
  rewrite (find_node_some _ _ _ (NFile f)); [done..|]. intros _ t; done.
Qed.

Lemma children_leaf σ q : (∀ c, σ !! (q ++ [c]) = None) → q ≠ [] → children σ q = [].
Proof.
  intros Hleaf Hq. unfold children.
  enough (omap (child_name q) (map_to_list σ) = []) as -> by done.
  apply elem_of_nil_inv. intros c ([k n] & Hk%elem_of_map_to_list & Hc)%list_elem_of_omap.
  unfold child_name, dir_of in Hc. simpl in Hc. case_decide as Hd; [|done].
  destruct (path_case k) as [->|(d & c' & ->)]; [done|].
  rewrite removelast_snoc in Hd. subst. by rewrite Hleaf in Hk.
Qed.

Lemma wp_Remove_file p f Q w :
  fs_wf (w_fs w) → w_fs w !! p = Some (NFile f) →
  (∀ e, ¬ quiet → Q (inl (Errno e)) (tick w)) →
  Q (inr tt) (tick (set_fs (delete p (w_fs w)) w)) →
  wp (os_Remove p) Q w.
Proof.
  intros Hwf Hp Hf HQ. apply wp_sys; [done|].
  rewrite (find_node_some _ _ _ (NFile f)) by done.
  destruct p; [|done]. destruct Hwf as [[m Hm] _]. congruence.
Qed.

Lemma wp_Rename_file old f d c Q w :
  fs_wf (w_fs w) → w_fs w !! old = Some (NFile f) → is_dir (w_fs w) d → good_name c →
  ¬ is_dir (w_fs w) (d ++ [c]) →
  (∀ e, ¬ quiet → Q (inl (Errno e)) (tick w)) →
  Q (inr tt) (tick (set_fs (<[d ++ [c] := NFile f]> (delete old (w_fs w))) w)) →
  wp (os_Rename old (d ++ [c])) Q w.
Proof.
  intros Hwf Hp Hd Hc Hnd Hf HQ. apply wp_sys; [done|].
  rewrite (find_node_some _ _ _ (NFile f)) by done. rewrite resolve_child by done.
  destruct (w_fs w !! (d ++ [c])) as [[]|] eqn:E; try done.
  exfalso. apply Hnd. by exists mode.
Qed.

(** *** Whole files *)

(** Writing a file in place: whatever happens the directory keeps its other
    names, and a failure may leave any contents behind. *)
Lemma wp_WriteFile_cells d c data m w :
  fs_wf (w_fs w) → is_dir (w_fs w) d → good_name c →
  match w_fs w !! (d ++ [c]) with Some (NFile _) | None => True | _ => False end →
  wp (os_WriteFile (d ++ [c]) data m) (λ r w', w_zero w' = w_zero w ∧
    match r with
    | inl _ => ¬ quiet ∧ (w_fs w' = w_fs w ∨ ∃ f, w_fs w' = <[d ++ [c] := NFile f]> (w_fs w))
    | inr _ => ∃ f, f_cells f = Some <$> data ∧ w_fs w' = <[d ++ [c] := NFile f]> (w_fs w)
    end) w.
Proof.
  intros Hwf Hd Hc Hn. unfold os_WriteFile. wp_step.
  assert (∀ f w1, f_cells f = [] → w_zero w1 = w_zero w → w_fs w1 = <[d ++ [c] := NFile f]> (w_fs w) →
    wp (r ← attempt (fd_write (d ++ [c]) data); c0 ← attempt (fd_close (d ++ [c]));
        of_sum (match r with inl e => inl e | inr _ => c0 end))
      (λ r w', w_zero w' = w_zero w ∧ match r with
        | inl _ => ¬ quiet ∧ (w_fs w' = w_fs w ∨ ∃ f, w_fs w' = <[d ++ [c] := NFile f]> (w_fs w))
        | inr _ => ∃ f, f_cells f = Some <$> data ∧ w_fs w' = <[d ++ [c] := NFile f]> (w_fs w)
        end) w1) as Hrest.
  { intros f w1 Hf Hz Hfs. wp_step. wp_step.
    eapply (wp_write _ f); [by rewrite Hfs, lookup_insert_eq|..].
    all: intros; rewrite Hfs, insert_insert_eq; wp_step; wp_step; apply wp_close; [intros e' He'|].
    all: wp_step; simpl; split; [done|].
    1-3: split; [done|right; by eexists].
    eexists. split; [|done]. simpl. by rewrite Hf. }
  apply wp_Create; [done..|intros e He; split; eauto|].
  destruct (w_fs w !! (d ++ [c])) as [[f|?|?|?]|] eqn:E; try done; intros; (eapply Hrest; [|done|simpl; reflexivity]; done).
Qed.

Lemma wp_WriteFile d c data m w :
  fs_wf (w_fs w) → is_dir (w_fs w) d → good_name c →
  match w_fs w !! (d ++ [c]) with Some (NFile _) | None => True | _ => False end →
  wp (os_WriteFile (d ++ [c]) data m) (λ r w', w_zero w' = w_zero w ∧
    match r with
    | inl _ => ¬ quiet ∧ (w_fs w' = w_fs w ∨ ∃ f, w_fs w' = <[d ++ [c] := NFile f]> (w_fs w))
    | inr _ => ∃ f, contents f = data ∧ w_fs w' = <[d ++ [c] := NFile f]> (w_fs w)
    end) w.
Proof.
  intros Hwf Hd Hc Hn. eapply wp_mono; [by apply wp_WriteFile_cells|]. intros [e|u] w' [Hz Hv]; (split; [done|]); [done|].
  destruct Hv as (f & Hf & Hfs). exists f. split; [|done]. unfold contents. rewrite Hf, <- list_fmap_compose. apply (list_fmap_id data).
Qed.

(** [CreateTemp] makes an empty file under a name that was free; it fails only
    through a fault or because every name it tried was taken. *)
Lemma wp_CreateTemp d prefix w :
  fs_wf (w_fs w) → is_dir (w_fs w) d → (∀ t, good_name (temp_name prefix t)) →
  wp (os_CreateTemp d prefix) (λ r w', w_zero w' = w_zero w ∧
    match r with
    | inl (Errno _) => w_fs w' = w_fs w ∧
        (quiet → ∃ t, is_Some (w_fs w !! (d ++ [temp_name prefix t])))
    | inl _ => False
    | inr q => ∃ t mt ino, q = d ++ [temp_name prefix t] ∧ w_fs w !! q = None ∧
        w_fs w' = <[q := NFile (File (perm o600) [] mt ino)]> (w_fs w)
    end) w.
Proof.
  intros Hwf Hd Hg. unfold os_CreateTemp. generalize 9999%nat as tries.
  intros tries. revert w Hwf Hd. induction tries as [|k IH]; intros w Hwf Hd; simpl.
  all: wp_step; unfold wp at 1; simpl; wp_step; wp_step; apply wp_sys.
  - by intros e He.
  - rewrite resolve_child by done. destruct (w_fs w !! _) eqn:E; simpl.
    + split_and!; [done..|]. intros _. eexists. by rewrite E.
    + split; [done|]. by eexists _, _, _.
  - intros e He. case_decide as Hdec; [|done].
    eapply wp_mono; [by apply IH|]. by intros [[]|q] w'.
  - rewrite resolve_child by done. destruct (w_fs w !! _) eqn:E; simpl.
    + rewrite set_fs_id. eapply wp_mono; [by apply IH|]. by intros [[]|q] w'.
    + split; [done|]. by eexists _, _, _.
Qed.

(** [MkdirTemp] makes an empty directory under a name that was free. *)
Lemma wp_MkdirTemp prefix w :
  fs_wf (w_fs w) → is_dir (w_fs w) tempdir → (∀ t, good_name (temp_name prefix t)) →
  wp (os_MkdirTemp prefix) (λ r w', w_zero w' = w_zero w ∧
    match r with
    | inl (Errno _) => w_fs w' = w_fs w ∧
        (quiet → ∃ t, is_Some (w_fs w !! (tempdir ++ [temp_name prefix t])))
    | inl _ => False
    | inr q => ∃ t, q = tempdir ++ [temp_name prefix t] ∧ w_fs w !! q = None ∧
        w_fs w' = <[q := NDir (perm o700)]> (w_fs w)
    end) w.
Proof.
  intros Hwf Hd Hg. unfold os_MkdirTemp. generalize 9999%nat as tries.
  intros tries. revert w Hwf Hd. induction tries as [|k IH]; intros w Hwf Hd; simpl.
  all: wp_step; unfold wp at 1; simpl; wp_step; wp_step; apply wp_mkdir; [done|done|done|..].
  - by intros e He.
  - destruct (w_fs w !! _) eqn:E.
    + split_and!; [done..|]. intros _. eexists. by rewrite E.
    + wp_step. split; [done|]. by eexists.
  - intros e He. case_decide as Hdec; [|done].
    eapply wp_mono; [by apply IH|]. by intros [[]|q] w'.
  - destruct (w_fs w !! _) eqn:E.
    + rewrite decide_True by done. eapply wp_mono; [by apply IH|]. by intros [[]|q] w'.
    + wp_step. split; [done|]. by eexists.
Qed.

Lemma wp_Symlink d c t Q w :
  fs_wf (w_fs w) → is_dir (w_fs w) d → good_name c →
  (∀ e, ¬ quiet → Q (inl (Errno e)) (tick w)) →
  (match w_fs w !! (d ++ [c]) with
   | Some _ => Q (inl (Errno EEXIST)) (tick w)
   | None => Q (inr tt) (tick (set_fs (<[d ++ [c] := NLink t]> (w_fs w)) w))
   end) →
  wp (os_Symlink t (d ++ [c])) Q w.
Proof.
  intros Hwf Hd Hc Hf HQ. apply wp_sys; [done|]. rewrite resolve_child by done.
  destruct (w_fs w !! (d ++ [c])); simpl; [by rewrite set_fs_id|done].
Qed.

End specs.

(** ** Calls are counted

    A program never goes back in the count of calls, so what it draws from the
    environment comes from calls not made yet. *)

Definition forward {A} (m : M world A) : Prop := ∀ w, (w_tick w ≤ w_tick (m w).2)%nat.

Lemma forward_ret {A} (a : A) : forward (mret a).
Proof. intros w. simpl. lia. Qed.

Lemma forward_throw {A} e : forward (throw (A:=A) e).
Proof. intros w. simpl. lia. Qed.

Lemma forward_bind {A B} (m : M world A) (k : A → M world B) : forward m → (∀ a, forward (k a)) → forward (m ≫= k).
Proof.
  intros Hm Hk w. specialize (Hm w). unfold mbind, M_bind. destruct (m w) as [[a|e|] w']; simpl in *; [|done..].
  specialize (Hk a w'). lia.
Qed.

Lemma forward_attempt {A} (m : M world A) : forward m → forward (attempt m).
Proof. intros Hm w. specialize (Hm w). unfold attempt. by destruct (m w) as [[] w']. Qed.

Lemma forward_sys `{OsEnv} {A} (op : nat → fs → (errno + A) * fs) : forward (sys op).
Proof. intros w. unfold sys. destruct (fault _); [simpl; lia|]. destruct (op _ _) as [[] σ]; simpl; lia. Qed.

Lemma wp_forward {A} (m : M world A) Q w :
  forward m → wp m Q w → wp m (λ x w', Q x w' ∧ (w_tick w ≤ w_tick w')%nat) w.
Proof. intros Hf Hm. specialize (Hf w). unfold wp in *. by destruct (m w) as [[] w']. Qed.

Create HintDb forward discriminated.
#[export] Hint Resolve forward_ret forward_throw forward_bind forward_attempt forward_sys : forward.

(** [forward_solve] closes [forward] of a program without loops. *)
Ltac forward_solve :=
  repeat first
    [ progress intros
    | solve [auto with forward]
    | apply forward_bind
    | apply forward_attempt
    | match goal with |- forward (match ?x with _ => _ end) => destruct x end ].

Lemma forward_ReadFile `{OsEnv} p : forward (os_ReadFile p).
Proof. unfold os_ReadFile, os_Open, fd_read, sys_read. forward_solve. Qed.

#[export] Hint Resolve forward_ReadFile : forward.
