(* ===== verification/Cas.v ===== *)
(** * The content-addressed store (src/internal/cas/cas.go)

    [Store] is a directory of blobs, each in a file named by its SHA-256.  The
    operations below are those of the source, call by call, on the file system
    of [Os]; the abstract store they implement is the map [blob_of] from names
    to bytes. *)

From S2P Require Import Prelude Sha256 Os OsFacts.
Open Scope Z_scope.

Module Cas.

Section store.
Context `{OsEnv}.

(** [Open]. *)
Definition Open (dir : path) : M world path := os_MkdirAll dir o755;; mret dir.

(** [Store.path]: two characters of the hash, then the rest. *)
Definition blob_path (root : path) (hash : string) : path :=
  if decide (String.length hash < 2)%nat then join root hash
  else join (join root (String.substring 0 2 hash))
            (String.substring 2 (String.length hash - 2) hash).

Definition put_prefix : string := ".put-".

(** The second half of [Store.Put]: fill the temporary [f] and move it to [p];
    every failure removes the temporary. *)
Definition put_finish (f p : path) (b : bytes) (hash : string) : M world string :=
  cl ← attempt (fd_close f);
  match cl with
  | inl e => ignore (os_Remove f);; throw e
  | inr _ =>
      ignore (os_Chmod f o644);;
      rn ← attempt (os_Rename f p);
      match rn with
      | inl e => ignore (os_Remove f);; throw e
      | inr _ => mret hash
      end
  end.

(** [Store.Put]. *)
Definition Put (root : path) (b : bytes) : M world string :=
  let hash := hashOf b in
  let p := blob_path root hash in
  st ← attempt (os_Stat p);
  match st with
  | inr _ => mret hash
  | inl _ =>
      os_MkdirAll (dir_of p) o755;;
      f ← os_CreateTemp (dir_of p) put_prefix;
      wr ← attempt (fd_write f b);
      match wr with
      | inl e => ignore (fd_close f);; ignore (os_Remove f);; throw e
      | inr _ => put_finish f p b hash
      end
  end.

(** [Store.PutFile]: the file is hashed, then copied by a second pass over the
    same descriptor. *)
Definition PutFile (root : path) (src : path) : M world (string * Z) :=
  f ← os_Open src;
  b ← fd_read f;
  let n := Z.of_nat (length b) in
  let hash := hashOf b in
  let dst := blob_path root hash in
  st ← attempt (os_Stat dst);
  match st with
  | inr _ => mret (hash, n)
  | inl _ =>
      sys_read (λ _, inr tt);;  (* f.Seek(0, 0) *)
      os_MkdirAll (dir_of dst) o755;;
      tmp ← os_CreateTemp (dir_of dst) put_prefix;
      cp ← attempt (b' ← fd_read f; fd_write tmp b');
      match cp with
      | inl e => ignore (fd_close tmp);; throw e
      | inr _ =>
          ignore (fd_close tmp);;
          ignore (os_Chmod tmp o644);;
          os_Rename tmp dst;;
          mret (hash, n)
      end
  end.

(** [Store.Get]. *)
Definition Get (root : path) (hash : string) : M world bytes :=
  r ← attempt (os_ReadFile (blob_path root hash));
  match r with
  | inl e => throw (if errors_Is e (Errno ENOENT) then ErrNotFound else e)
  | inr b => mret b
  end.

(** [Store.OpenBlob]. *)
Definition OpenBlob (root : path) (hash : string) : M world path :=
  r ← attempt (os_Open (blob_path root hash));
  match r with
  | inl e => throw (if errors_Is e (Errno ENOENT) then ErrNotFound else e)
  | inr h => mret h
  end.

(** [Store.Has]. *)
Definition Has (root : path) (hash : string) : M world bool :=
  r ← attempt (os_Stat (blob_path root hash));
  mret (match r with inl _ => false | inr _ => true end).

End store.

(** ** The abstract store *)

(** Where a digest's blob is kept: [<root>/ab/cdef...]. *)
Definition shard (h : string) : string := String.substring 0 2 h.
Definition leaf (h : string) : string := String.substring 2 (String.length h - 2) h.
Definition slot (root : path) (h : string) : path := (root ++ [shard h]) ++ [leaf h].

(** The blob named [h], if there is one. *)
Definition blob_of (σ : fs) (root : path) (h : string) : option bytes :=
  match σ !! slot root h with Some (NFile f) => Some (contents f) | _ => None end.

(** A store: a directory whose blobs are plain files, each named by its
    digest.  Files under other names (leftover temporaries) may be there. *)
Record store_wf (σ : fs) (root : path) : Prop := {
  sw_fs : fs_wf σ;
  sw_root : is_dir σ root;
  sw_shard : ∀ h n, is_digest h = true → σ !! (root ++ [shard h]) = Some n → is_dir_node n = true;
  sw_slot : ∀ h n, is_digest h = true → σ !! slot root h = Some n →
            ∃ f, n = NFile f ∧ hashOf (contents f) = h
}.

(** No leftover temporary files. *)
Definition store_clean (σ : fs) (root : path) : Prop :=
  ∀ s k, σ !! ((root ++ [s]) ++ [put_prefix +:+ pretty (k : N)]) = None.

(** What a store operation may do to the rest of the file system: nothing. *)
Definition store_frame (root : path) (σ σ' : fs) : Prop :=
  ∀ q, ¬ below root q → σ' !! q = σ !! q.

(** Every blob is still there, unchanged. *)
Definition store_le (root : path) (σ σ' : fs) : Prop :=
  ∀ h, is_digest h = true → is_Some (blob_of σ root h) → blob_of σ' root h = blob_of σ root h.

(** The outcome of adding [b], in the abstract store: on success [b]'s digest
    names a blob (the one it named before, or [b]); on failure no blob was
    added or changed; without faults there is no failure. *)
Record put_post `{OsEnv} (root : path) (b : bytes) (σ σ' : fs) (ok : bool) : Prop := {
  pp_wf : store_wf σ' root;
  pp_frame : store_frame root σ σ';
  pp_other : ∀ h, is_digest h = true → h ≠ hashOf b → blob_of σ' root h = blob_of σ root h;
  pp_ok : ok = true → blob_of σ' root (hashOf b) = Some b ∨
            (is_Some (blob_of σ root (hashOf b)) ∧ blob_of σ' root (hashOf b) = blob_of σ root (hashOf b));
  pp_err : ok = false → blob_of σ' root (hashOf b) = blob_of σ root (hashOf b);
  pp_quiet : quiet → store_clean σ root → ok = true ∧ store_clean σ' root
}.

(** ** Names *)

Lemma all_hex_name s : all_hex s = true → s ≠ "" → has_char slash s = false ∧ good_name s.
Proof.
  intros Hs Hne. split.
  - clear Hne. induction s as [|c s IH]; [done|]. unfold all_hex in *. simpl in *.
    apply andb_true_iff in Hs as [Hc Hs]. rewrite IH by done. rewrite orb_false_r.
    apply bool_decide_eq_false. intros ->. by vm_compute in Hc.
  - split_and!; [done|intros -> ..]; by vm_compute in Hs.
Qed.

Lemma digest_cases h : is_digest h = true →
  ∃ a b r, h = String a (String b r) ∧ shard h = String a (String b "") ∧ leaf h = r ∧
    all_hex (shard h) = true ∧ all_hex (leaf h) = true ∧ leaf h ≠ "".
Proof.
  unfold is_digest. intros [Hl Hx]%andb_true_iff. apply bool_decide_eq_true in Hl.
  destruct h as [|a [|b r]]; try done. exists a, b, r. unfold shard, leaf. simpl in *.
  assert (String.substring 0 0 r = "") as -> by by destruct r.
  rewrite Nat.sub_0_r, substring_all. unfold all_hex in *. simpl in *.
  apply andb_true_iff in Hx as [Ha [Hb Hr]%andb_true_iff].
  rewrite Ha, Hb, Hr. split_and!; [done..|]. by intros ->.
Qed.

Lemma digest_shard_name h : is_digest h = true → has_char slash (shard h) = false ∧ good_name (shard h).
Proof.
  intros Hh. destruct (digest_cases h Hh) as (a & b & r & -> & Hs & _ & Hx & _).
  apply all_hex_name; [done|]. by rewrite Hs.
Qed.

Lemma digest_leaf_name h : is_digest h = true → has_char slash (leaf h) = false ∧ good_name (leaf h).
Proof.
  intros Hh. destruct (digest_cases h Hh) as (a & b & r & -> & _ & _ & _ & Hx & Hne).
  by apply all_hex_name.
Qed.

Lemma blob_path_slot root h : is_digest h = true → blob_path root h = slot root h.
Proof.
  intros Hh. unfold blob_path. rewrite decide_False.
  - fold (shard h) (leaf h). destruct (digest_shard_name h Hh), (digest_leaf_name h Hh).
    rewrite !join_good by done. done.
  - destruct (digest_cases h Hh) as (a & b & r & -> & _). simpl. lia.
Qed.

Lemma slot_inj root h h' :
  is_digest h = true → is_digest h' = true → slot root h = slot root h' → h = h'.
Proof.
  intros Hh Hh'. unfold slot. intros [He Hl]%app_inj_tail. apply app_inj_tail in He as [_ Hs].
  destruct (digest_cases h Hh) as (a & b & r & -> & Hs1 & Hl1 & _).
  destruct (digest_cases h' Hh') as (a' & b' & r' & -> & Hs2 & Hl2 & _).
  congruence.
Qed.

Lemma temp_name_dot t `{OsEnv} : good_name (temp_name put_prefix t).
Proof. by repeat split. Qed.

(** A temporary name is no digest's name. *)
Lemma temp_not_slot `{OsEnv} root d t h : is_digest h = true → d ++ [temp_name put_prefix t] ≠ slot root h.
Proof.
  intros Hh He. apply app_inj_tail in He as [_ He].
  destruct (digest_cases h Hh) as (a & b & r & _ & _ & _ & _ & Hx & _). rewrite <- He in Hx.
  unfold temp_name, put_prefix in Hx. by vm_compute in Hx.
Qed.

Lemma temp_not_shard `{OsEnv} root s t h :
  (root ++ [s]) ++ [temp_name put_prefix t] ≠ root ++ [shard h].
Proof. intros He. apply (f_equal length) in He. rewrite !length_app in He. simpl in He. lia. Qed.

Lemma slot_not_shard root h h' : slot root h ≠ root ++ [shard h'].
Proof. unfold slot. intros He. apply (f_equal length) in He. rewrite !length_app in He. simpl in He. lia. Qed.

Lemma below_slot root h : below root (slot root h).
Proof. unfold slot. exists [shard h; leaf h]. by rewrite <- app_assoc. Qed.

(** ** Steps that leave the abstract store alone *)

Record store_same (root : path) (σ σ' : fs) : Prop := {
  ss_wf : store_wf σ' root;
  ss_frame : store_frame root σ σ';
  ss_blobs : ∀ h, is_digest h = true → blob_of σ' root h = blob_of σ root h
}.

Lemma store_same_refl root σ : store_wf σ root → store_same root σ σ.
Proof. intros Hwf. by split. Qed.

Lemma store_same_trans root σ1 σ2 σ3 :
  store_same root σ1 σ2 → store_same root σ2 σ3 → store_same root σ1 σ3.
Proof.
  intros [_ Hf1 Hb1] [Hw2 Hf2 Hb2]. split; [done|..].
  - intros q Hq. by rewrite Hf2, Hf1.
  - intros h Hh. by rewrite Hb2, Hb1.
Qed.

(** Adding a node that is no digest's name: a shard directory, a temporary. *)
Lemma store_same_insert root σ d c n :
  store_wf σ root → is_dir σ d → below root d → good_name c →
  (∀ h, is_digest h = true → d ++ [c] ≠ slot root h) →
  (∀ h, is_digest h = true → d ++ [c] = root ++ [shard h] → is_dir_node n = true) →
  (is_dir σ (d ++ [c]) → is_dir_node n = true) →
  store_same root σ (<[d ++ [c] := n]> σ).
Proof.
  intros [Hfs [m Hm] Hsh Hsl] Hd Hb Hc Hns Hnsh Hkeep. split.
  - split.
    + by apply fs_wf_insert.
    + exists m. rewrite lookup_insert_ne; [done|]. intros <-. by apply snoc_not_prefix in Hb.
    + intros h n' Hh. rewrite lookup_insert. case_decide as He; [|by apply Hsh].
      intros [= <-]. by apply (Hnsh h).
    + intros h n' Hh. rewrite lookup_insert_ne by by apply Hns. by apply Hsl.
  - intros q Hq. rewrite lookup_insert_ne; [done|]. intros <-. apply Hq.
    unfold below in *. by apply prefix_app_r.
  - intros h Hh. unfold blob_of. by rewrite lookup_insert_ne by by apply Hns.
Qed.

Lemma store_same_temp `{OsEnv} root σ d t g :
  store_wf σ root → is_dir σ d → below root d → d ≠ root →
  σ !! (d ++ [temp_name put_prefix t]) = None →
  store_same root σ (<[d ++ [temp_name put_prefix t] := NFile g]> σ).
Proof.
  intros Hwf Hd Hb Hne Hn. apply store_same_insert; try done.
  - intros h Hh. by apply temp_not_slot.
  - intros h Hh [-> _]%app_inj_tail. done.
  - intros [m Hm]. congruence.
Qed.

Lemma store_same_shard root σ h m :
  store_wf σ root → is_digest h = true → σ !! (root ++ [shard h]) = None →
  store_same root σ (<[root ++ [shard h] := NDir m]> σ).
Proof.
  intros Hwf Hh Hn. pose proof (sw_root _ _ Hwf).
  apply store_same_insert; try done; [by apply digest_shard_name|].
  intros h' Hh' He. symmetry in He. by apply slot_not_shard in He.
Qed.

(** Publishing a file under its digest. *)
Lemma store_publish root σ h f :
  store_wf σ root → is_digest h = true → is_dir σ (root ++ [shard h]) → hashOf (contents f) = h →
  store_wf (<[slot root h := NFile f]> σ) root ∧
  store_frame root σ (<[slot root h := NFile f]> σ) ∧
  blob_of (<[slot root h := NFile f]> σ) root h = Some (contents f) ∧
  ∀ h', is_digest h' = true → h' ≠ h → blob_of (<[slot root h := NFile f]> σ) root h' = blob_of σ root h'.
Proof.
  intros [Hfs [m Hm] Hsh Hsl] Hh Hd Hf. split_and!.
  - split.
    + apply fs_wf_insert; try done; [by apply digest_leaf_name|].
      intros [m' Hm']. by destruct (Hsl h _ Hh Hm') as (? & ? & _).
    + exists m. rewrite lookup_insert_ne; [done|]. intros He. apply (f_equal length) in He.
      unfold slot in He. rewrite !length_app in He. simpl in He. lia.
    + intros h' n' Hh'. rewrite lookup_insert_ne by apply slot_not_shard. by apply Hsh.
    + intros h' n' Hh'. rewrite lookup_insert. case_decide as He; [|by apply Hsl].
      apply slot_inj in He; [|done..]. subst. intros [= <-]. eauto.
  - intros q Hq. rewrite lookup_insert_ne; [done|]. intros <-. by apply Hq, below_slot.
  - unfold blob_of. by rewrite lookup_insert_eq.
  - intros h' Hh' Hne. unfold blob_of. rewrite lookup_insert_ne; [done|].
    intros He. apply slot_inj in He; [|done..]. congruence.
Qed.

Section specs.
Context `{OsEnv}.
Implicit Types (w : world) (σ : fs) (root : path).

Lemma put_post_same root b σ σ' :
  store_same root σ σ' → (quiet → ¬ store_clean σ root) → put_post root b σ σ' false.
Proof. intros [Hw Hf Hb] Hq. split; try done; [by intros; apply Hb|intros; by apply Hb, hashOf_digest|naive_solver]. Qed.

Lemma put_post_present root b σ :
  store_wf σ root → is_Some (blob_of σ root (hashOf b)) → put_post root b σ σ true.
Proof. intros Hwf Hb. split; try done. naive_solver. Qed.

Lemma put_post_publish root b σ σ1 f :
  store_same root σ σ1 → is_dir σ1 (root ++ [shard (hashOf b)]) → contents f = b →
  (store_clean σ root → store_clean σ1 root) →
  put_post root b σ (<[slot root (hashOf b) := NFile f]> σ1) true.
Proof.
  intros [Hw Hf Hb] Hd Hc Hcl.
  destruct (store_publish root σ1 (hashOf b) f) as (Hw' & Hf' & Hs & Ho);
    [done|apply hashOf_digest|done|by rewrite Hc|].
  split; try done.
  - intros q Hq. by rewrite Hf', Hf.
  - intros h Hh Hne. by rewrite Ho, Hb.
  - intros _. left. by rewrite Hs, Hc.
  - intros _ Hclean. split; [done|]. intros s k. rewrite lookup_insert_ne; [by apply Hcl|].
    intros He. unfold slot in He. apply app_inj_tail in He as [_ He].
    destruct (digest_cases _ (hashOf_digest b)) as (? & ? & ? & _ & _ & _ & _ & Hx & _).
    rewrite He in Hx. unfold put_prefix in Hx. by vm_compute in Hx.
Qed.

(** The state once a temporary for [h] is open: [σ1] is the store with the
    shard directory in place. *)
Record staged root (h : string) (σ σ1 : fs) (tmp : path) : Prop := {
  sg_same : store_same root σ σ1;
  sg_dir : is_dir σ1 (root ++ [shard h]);
  sg_tmp : ∃ t, tmp = (root ++ [shard h]) ++ [temp_name put_prefix t];
  sg_free : σ1 !! tmp = None;
  sg_keep : ∀ q, is_Some (σ !! q) → σ1 !! q = σ !! q;
  sg_clean : store_clean σ root → store_clean σ1 root
}.

Lemma staged_same root h σ σ1 tmp g :
  staged root h σ σ1 tmp → store_same root σ (<[tmp := NFile g]> σ1).
Proof.
  intros [Hs Hd (t & ->) Hfree _ _]. eapply store_same_trans; [done|].
  apply store_same_temp; try done; [by apply Hs|by eexists|].
  intros He. apply (f_equal length) in He. rewrite length_app in He. simpl in He. lia.
Qed.

Lemma staged_fs_wf root h σ σ1 tmp g : staged root h σ σ1 tmp → fs_wf (<[tmp := NFile g]> σ1).
Proof. intros Hst. apply (ss_wf _ _ _ (staged_same _ _ _ _ _ g Hst)). Qed.

Lemma wp_stage {A} root h (k : path → M world A) Q w :
  store_wf (w_fs w) root → is_digest h = true →
  (∀ e w', w_zero w' = w_zero w → store_same root (w_fs w) (w_fs w') →
     (quiet → ¬ store_clean (w_fs w) root) → Q (inl e) w') →
  (∀ σ1 tmp g w', w_zero w' = w_zero w → staged root h (w_fs w) σ1 tmp →
     w_fs w' = <[tmp := NFile g]> σ1 → f_cells g = [] → wp (k tmp) Q w') →
  wp (os_MkdirAll (root ++ [shard h]) o755;; tmp ← os_CreateTemp (root ++ [shard h]) put_prefix; k tmp) Q w.
Proof.
  intros Hwf Hh Hfail Hok.
  assert (∀ σ1 w', w_zero w' = w_zero w → w_fs w' = σ1 → store_same root (w_fs w) σ1 →
    is_dir σ1 (root ++ [shard h]) → (∀ q, is_Some (w_fs w !! q) → σ1 !! q = w_fs w !! q) →
    (store_clean (w_fs w) root → store_clean σ1 root) →
    wp (tmp ← os_CreateTemp (root ++ [shard h]) put_prefix; k tmp) Q w') as Htemp.
  { intros σ1 w1 Hz Hfs Hsame Hd Hkeep Hcl. wp_step.
    eapply wp_mono; [apply wp_CreateTemp; rewrite ?Hfs; [apply Hsame|done|by intros; apply temp_name_dot]|].
    rewrite Hfs. intros [[e| | | | | ]|q] w2 [Hz2 Hr]; try done.
    - destruct Hr as [Hfs2 Ht]. apply Hfail; [congruence|congruence|].
      intros Hq Hclean. destruct (Ht Hq) as [t [n Hn]]. unfold temp_name in Hn. by rewrite Hcl in Hn.
    - destruct Hr as (t & mt & ino & -> & Hfree & Hfs2).
      eapply Hok; [congruence| |done|done]. split; eauto. }
  pose proof (ss_wf _ _ _ (store_same_refl root (w_fs w) Hwf)) as [Hfs Hroot Hshard _].
  wp_step. destruct (w_fs w !! (root ++ [shard h])) as [n|] eqn:E.
  - assert (is_dir (w_fs w) (root ++ [shard h])) as Hd.
    { specialize (Hshard h n Hh E). destruct n; try done. by exists mode. }
    eapply wp_mono; [by apply wp_MkdirAll_dir|]. intros [[]|[]] w1 (Hfs1 & Hz & Hr); try done.
    + apply Hfail; [done|rewrite Hfs1; by apply store_same_refl|by intros].
    + apply (Htemp (w_fs w)); eauto using store_same_refl.
  - eapply wp_mono; [apply wp_MkdirAll_child; try done; by apply digest_shard_name|].
    intros [[]|[]] w1 (Hz & Hr); try done.
    + destruct Hr as [Hnq Hfs1]. apply Hfail; [done|rewrite Hfs1; by apply store_same_refl|by intros].
    + eapply Htemp; [done|exact Hr|by apply store_same_shard|..].
      * eexists. apply lookup_insert_eq.
      * intros q [n Hq]. rewrite lookup_insert_ne; [done|]. intros <-. congruence.
      * intros Hcl s k'. rewrite lookup_insert_ne; [done|].
        intros He. apply (f_equal length) in He. rewrite !length_app in He. simpl in He. lia.
Qed.

(** Removing the temporary restores the staged state. *)
Lemma wp_cleanup root h σ σ1 tmp g e Q w :
  staged root h σ σ1 tmp → w_fs w = <[tmp := NFile g]> σ1 → ¬ quiet →
  (∀ w', w_zero w' = w_zero w → store_same root σ (w_fs w') → Q (inl e) w') →
  wp (ignore (os_Remove tmp);; throw (A:=string) e) Q w.
Proof.
  intros Hst Hfs Hnq HQ. wp_step. wp_step.
  eapply (wp_Remove_file tmp g); rewrite ?Hfs; [by eapply staged_fs_wf|by rewrite lookup_insert_eq|..].
  - intros e' _. wp_step. apply HQ; [done|]. simpl. rewrite Hfs. by eapply staged_same.
  - wp_step. apply HQ; [done|]. simpl. rewrite delete_insert_id; [|by eapply sg_free]. by eapply sg_same.
Qed.

Lemma staged_rename root b σ σ1 tmp f Q w :
  staged root (hashOf b) σ σ1 tmp → w_fs w = <[tmp := NFile f]> σ1 → contents f = b →
  (∀ e, ¬ quiet → Q (inl (Errno e)) (tick w)) →
  (∀ w', w_zero w' = w_zero w → put_post root b σ (w_fs w') true → Q (inr tt) w') →
  wp (os_Rename tmp (slot root (hashOf b))) Q w.
Proof.
  intros Hst Hfs Hc Hf HQ. pose proof (staged_same _ _ _ _ _ f Hst) as Hss.
  assert (slot root (hashOf b) ≠ tmp) as Hne.
  { destruct (sg_tmp _ _ _ _ _ Hst) as [t ->]. intros He. symmetry in He.
    by eapply temp_not_slot, He; apply hashOf_digest. }
  assert (is_dir (<[tmp:=NFile f]> σ1) (root ++ [shard (hashOf b)])) as [m Hm].
  { destruct (sg_dir _ _ _ _ _ Hst) as [m Hm]. exists m. rewrite lookup_insert_ne; [done|].
    destruct (sg_tmp _ _ _ _ _ Hst) as [t ->]. apply temp_not_shard. }
  apply (wp_Rename_file tmp f); rewrite ?Hfs; try done.
  - apply Hss.
  - by rewrite lookup_insert_eq.
  - by exists m.
  - intros [m' Hm']. by destruct (sw_slot _ _ (ss_wf _ _ _ Hss) _ _ (hashOf_digest b) Hm') as (? & ? & _).
  - apply HQ; [done|]. simpl. rewrite delete_insert_id by by eapply sg_free.
    apply put_post_publish; try done; apply Hst.
Qed.

Definition ok_of {A} (r : gerr + A) : bool := match r with inl _ => false | inr _ => true end.

Lemma blob_of_node root σ h n :
  store_wf σ root → is_digest h = true → σ !! slot root h = Some n → is_Some (blob_of σ root h).
Proof.
  intros Hwf Hh Hn. destruct (sw_slot _ _ Hwf h n Hh Hn) as (f & -> & _).
  unfold blob_of. rewrite Hn. by eexists.
Qed.

Lemma blob_of_slot root σ h : is_Some (blob_of σ root h) → is_Some (σ !! slot root h).
Proof. unfold blob_of. destruct (σ !! slot root h); [eauto|by intros []]. Qed.

(** Finding the slot of a digest on a well-formed store. *)
Lemma find_slot root σ follow h :
  store_wf σ root → is_digest h = true →
  find_node σ follow (slot root h) =
  match σ !! slot root h with Some n => inr (slot root h, n) | None => inl ENOENT end.
Proof.
  intros Hwf Hh. destruct (σ !! slot root h) as [n|] eqn:E.
  - apply find_node_some; [apply Hwf|done|]. intros _.
    destruct (sw_slot _ _ Hwf h n Hh E) as (f & -> & _). by intros t.
  - unfold find_node, resolve.
    assert (good_name (leaf h) ∧ good_name (shard h)) as [Hl Hs]
      by (split; [by apply digest_leaf_name|by apply digest_shard_name]).
    destruct (σ !! (root ++ [shard h])) as [n|] eqn:Es.
    + assert (is_dir σ (root ++ [shard h])) as Hd.
      { pose proof (sw_shard _ _ Hwf h n Hh Es). destruct n; try done. by exists mode. }
      pose proof (find_node_none σ follow _ _ (sw_fs _ _ Hwf) Hd Hl E) as Hf.
      by unfold find_node, resolve in Hf.
    + unfold slot. rewrite <- app_assoc. rewrite namei_dirs by apply Hwf. simpl.
      rewrite namei_good by done. by rewrite Es.
Qed.

(** Testing for a blob: present, absent, or a fault. *)
Lemma wp_stat_slot root h Q w :
  store_wf (w_fs w) root → is_digest h = true →
  (∀ n, w_fs w !! slot root h = Some n → Q (inr n) (tick w)) →
  (∀ e, (quiet → w_fs w !! slot root h = None) → Q (inl (Errno e)) (tick w)) →
  wp (os_Stat (slot root h)) Q w.
Proof.
  intros Hwf Hh Hs Hf. apply wp_Stat; [naive_solver|].
  rewrite find_slot by done. destruct (w_fs w !! slot root h); simpl; eauto.
Qed.

(** What [Put] guarantees, as a postcondition. *)
Definition put_result root b w (r : gerr + string) w' : Prop :=
  w_zero w' = w_zero w ∧ put_post root b (w_fs w) (w_fs w') (ok_of r) ∧ (∀ h, r = inr h → h = hashOf b).

Lemma put_result_fail root b w e w' :
  w_zero w' = w_zero w → store_same root (w_fs w) (w_fs w') → (quiet → ¬ store_clean (w_fs w) root) →
  put_result root b w (inl e) w'.
Proof. intros Hz Hs Hq. split_and!; [done|by apply put_post_same|done]. Qed.

Lemma wp_put_finish root b σ σ1 tmp g w0 w :
  σ = w_fs w0 → staged root (hashOf b) σ σ1 tmp → w_zero w = w_zero w0 →
  w_fs w = <[tmp := NFile g]> σ1 → contents g = b →
  wp (put_finish tmp (slot root (hashOf b)) b (hashOf b)) (put_result root b w0) w.
Proof.
  intros -> Hst Hz Hfs Hc.
  assert (∀ e g' w3, w_zero w3 = w_zero w0 → w_fs w3 = <[tmp:=NFile g']> σ1 → ¬ quiet →
    wp (ignore (os_Remove tmp);; throw e) (put_result root b w0) w3) as Hcleanup.
  { intros e g' w3 Hz3 Hfs3 Hnq. eapply wp_cleanup; [done..|]. intros w4 Hz4 Hs4.
    apply put_result_fail; [congruence|done|by intros]. }
  assert (∀ g' w3, w_zero w3 = w_zero w0 → w_fs w3 = <[tmp:=NFile g']> σ1 → contents g' = b →
    wp (rn ← attempt (os_Rename tmp (slot root (hashOf b)));
        match rn with inl e => ignore (os_Remove tmp);; throw e | inr _ => mret (hashOf b) end)
     (put_result root b w0) w3) as Hrename.
  { intros g' w3 Hz3 Hfs3 Hc'. wp_step. wp_step. eapply staged_rename; [done..| |].
    - intros e Hnq. by eapply Hcleanup.
    - intros w4 Hz4 Hp. wp_step. split_and!; [congruence|done|congruence]. }
  unfold put_finish. wp_step. wp_step. apply wp_close; [intros e Hnq; by eapply Hcleanup|].
  wp_step. wp_step. eapply (wp_Chmod tmp g); simpl; rewrite ?Hfs.
  - by eapply staged_fs_wf.
  - by rewrite lookup_insert_eq.
  - intros e _. by eapply Hrename.
  - eapply Hrename; [done|simpl; by rewrite insert_insert_eq|done].
Qed.

(** [Put] under any faults. *)
Lemma wp_Put root b w : store_wf (w_fs w) root → wp (Put root b) (put_result root b w) w.
Proof.
  intros Hwf. unfold Put. rewrite blob_path_slot by apply hashOf_digest.
  unfold dir_of. unfold slot at 2 3. rewrite removelast_snoc.
  wp_step. wp_step. eapply wp_stat_slot; [done|apply hashOf_digest|..].
  { intros n Hn. wp_step. split_and!; [done| |congruence]. apply put_post_present; [done|].
    eapply blob_of_node; [done|apply hashOf_digest|done]. }
  intros e _. apply wp_stage; [done|apply hashOf_digest|by intros; apply put_result_fail|].
  intros σ1 tmp g w2 Hz2 Hst Hfs2 Hg. wp_step. wp_step.
  eapply (wp_write tmp g); [by rewrite Hfs2, lookup_insert_eq|..].
  - intros e' n t Hnq. wp_step. wp_step. apply wp_close; [intros e'' _|].
    all: eapply wp_cleanup; [done|simpl; by rewrite Hfs2, insert_insert_eq|done|].
    all: intros w4 Hz4 Hs4; apply put_result_fail; [simpl in *; congruence|done|by intros].
  - intros t. eapply wp_put_finish; [done|done|done|simpl; by rewrite Hfs2, insert_insert_eq|].
    unfold contents. simpl. rewrite Hg. simpl. rewrite <- list_fmap_compose. by apply list_fmap_id.
Qed.

(** [PutFile] of a regular file: like [Put] of its contents, and the size. *)
Definition put_file_result root f w (r : gerr + (string * Z)) w' : Prop :=
  w_zero w' = w_zero w ∧ put_post root (contents f) (w_fs w) (w_fs w') (ok_of r) ∧
  (∀ h n, r = inr (h, n) → h = hashOf (contents f) ∧ n = Z.of_nat (length (contents f))).

Lemma put_file_fail root f w e w' :
  w_zero w' = w_zero w → store_same root (w_fs w) (w_fs w') → (quiet → ¬ store_clean (w_fs w) root) →
  put_file_result root f w (inl e) w'.
Proof. intros Hz Hs Hq. split_and!; [done|by apply put_post_same|done]. Qed.

Lemma wp_putfile_finish root f σ1 tmp g w0 w :
  staged root (hashOf (contents f)) (w_fs w0) σ1 tmp → w_zero w = w_zero w0 →
  w_fs w = <[tmp := NFile g]> σ1 → contents g = contents f →
  wp (ignore (fd_close tmp);; ignore (os_Chmod tmp o644);;
      os_Rename tmp (slot root (hashOf (contents f)));;
      mret (hashOf (contents f), Z.of_nat (length (contents f)))) (put_file_result root f w0) w.
Proof.
  intros Hst Hz Hfs Hc.
  assert (∀ g' w3, w_zero w3 = w_zero w0 → w_fs w3 = <[tmp:=NFile g']> σ1 → contents g' = contents f →
    wp (os_Rename tmp (slot root (hashOf (contents f)));;
        mret (hashOf (contents f), Z.of_nat (length (contents f)))) (put_file_result root f w0) w3) as Hrename.
  { intros g' w3 Hz3 Hfs3 Hc'. wp_step. eapply staged_rename; [done..| |].
    - intros e Hnq. apply put_file_fail; [done| |by intros]. simpl. rewrite Hfs3. by eapply staged_same.
    - intros w4 Hz4 Hp. wp_step. split_and!; [congruence|done|naive_solver]. }
  assert (∀ w3, w_zero w3 = w_zero w0 → w_fs w3 = w_fs w →
    wp (ignore (os_Chmod tmp o644);; os_Rename tmp (slot root (hashOf (contents f)));;
        mret (hashOf (contents f), Z.of_nat (length (contents f)))) (put_file_result root f w0) w3) as Hchmod.
  { intros w3 Hz3 Hfs3. wp_step. wp_step. eapply (wp_Chmod tmp g); rewrite ?Hfs3, ?Hfs.
    - by eapply staged_fs_wf.
    - by rewrite lookup_insert_eq.
    - intros e _. eapply (Hrename g); [done|simpl; congruence|done].
    - eapply Hrename; [done|simpl; by rewrite insert_insert_eq|done]. }
  wp_step. wp_step. apply wp_close; [intros e _|]; by apply Hchmod.
Qed.

Lemma wp_PutFile root src f w :
  store_wf (w_fs w) root → w_fs w !! src = Some (NFile f) →
  wp (PutFile root src) (put_file_result root f w) w.
Proof.
  intros Hwf Hsrc. unfold PutFile. wp_step.
  eapply (wp_Open src (NFile f)); [apply Hwf|done|by intros t|..].
  { intros e Hnq. by apply put_file_fail; [done|apply store_same_refl|intros]. }
  wp_step. eapply (wp_read src f); [done|..].
  { intros e Hnq. by apply put_file_fail; [done|apply store_same_refl|intros]. }
  rewrite blob_path_slot by apply hashOf_digest.
  unfold dir_of. unfold slot at 2 3. rewrite removelast_snoc.
  wp_step. wp_step. eapply wp_stat_slot; [done|apply hashOf_digest|..].
  { intros n Hn. wp_step. split_and!; [done| |naive_solver]. apply put_post_present; [done|].
    eapply blob_of_node; [done|apply hashOf_digest|done]. }
  intros e _. wp_step. apply wp_sys_read.
  { intros e' Hnq. by apply put_file_fail; [done|apply store_same_refl|intros]. }
  apply wp_stage; [done|apply hashOf_digest|by intros; apply put_file_fail|].
  intros σ1 tmp g w2 Hz2 Hst Hfs2 Hg. simpl in Hz2, Hst.
  assert (w_fs w2 !! src = Some (NFile f)) as Hsrc2.
  { rewrite Hfs2, lookup_insert_ne; [by rewrite (sg_keep _ _ _ _ _ Hst)|].
    intros ->. pose proof (sg_free _ _ _ _ _ Hst) as Hn. by rewrite (sg_keep _ _ _ _ _ Hst), Hsrc in Hn. }
  assert (∀ e' w3 g', w_zero w3 = w_zero w → w_fs w3 = <[tmp:=NFile g']> σ1 → ¬ quiet →
    wp (ignore (fd_close tmp);; throw e') (put_file_result root f w) w3) as Hfail.
  { intros e' w3 g' Hz3 Hfs3 Hnq. wp_step. wp_step. apply wp_close; [intros e'' _|]; wp_step.
    all: apply put_file_fail; [done| |by intros]; simpl; rewrite Hfs3; by eapply staged_same. }
  wp_step. wp_step. wp_step. eapply (wp_read src f); [done|..].
  { intros e' Hnq. by eapply Hfail. }
  eapply (wp_write tmp g); [simpl; by rewrite Hfs2, lookup_insert_eq|..].
  - intros e' n t Hnq. eapply Hfail; [done|simpl; by rewrite Hfs2, insert_insert_eq|done].
  - intros t. eapply wp_putfile_finish; [done|done|simpl; by rewrite Hfs2, insert_insert_eq|].
    unfold contents at 1. simpl. rewrite Hg. simpl. rewrite <- list_fmap_compose. by apply list_fmap_id.
Qed.

Lemma wp_Get root h Q w :
  store_wf (w_fs w) root → is_digest h = true →
  (∀ b w', w_fs w' = w_fs w → w_zero w' = w_zero w → blob_of (w_fs w) root h = Some b → Q (inr b) w') →
  (∀ e w', w_fs w' = w_fs w → w_zero w' = w_zero w →
     (quiet → blob_of (w_fs w) root h = None ∧ e = ErrNotFound) → Q (inl e) w') →
  wp (Get root h) Q w.
Proof.
  intros Hwf Hh Hok Herr. unfold Get. rewrite blob_path_slot by done. wp_step. wp_step.
  unfold os_ReadFile. wp_step. apply wp_sys_read.
  { intros e Hnq. simpl. case_match; wp_step; apply Herr; naive_solver. }
  rewrite find_slot by done. destruct (w_fs w !! slot root h) as [n|] eqn:E; simpl.
  - destruct (sw_slot _ _ Hwf h n Hh E) as (f & -> & _).
    eapply (wp_read _ f); [done|..]; simpl.
    + intros e Hnq. case_match; wp_step; apply Herr; naive_solver.
    + wp_step. apply Hok; try done. unfold blob_of. by rewrite E.
  - wp_step. apply Herr; try done. intros _. unfold blob_of. by rewrite E.
Qed.

Lemma wp_OpenBlob root h Q w :
  store_wf (w_fs w) root → is_digest h = true →
  (∀ f w', w_fs w' = w_fs w → w_zero w' = w_zero w → w_fs w !! slot root h = Some (NFile f) →
     Q (inr (slot root h)) w') →
  (∀ e w', w_fs w' = w_fs w → w_zero w' = w_zero w →
     (quiet → blob_of (w_fs w) root h = None ∧ e = ErrNotFound) → Q (inl e) w') →
  wp (OpenBlob root h) Q w.
Proof.
  intros Hwf Hh Hok Herr. unfold OpenBlob. rewrite blob_path_slot by done. wp_step. wp_step.
  apply wp_sys_read.
  { intros e Hnq. simpl. case_match; wp_step; apply Herr; naive_solver. }
  rewrite find_slot by done. destruct (w_fs w !! slot root h) as [n|] eqn:E; simpl.
  - destruct (sw_slot _ _ Hwf h n Hh E) as (f & -> & _). wp_step. by eapply Hok.
  - wp_step. apply Herr; try done. intros _. unfold blob_of. by rewrite E.
Qed.

Lemma wp_Has root h Q w :
  store_wf (w_fs w) root → is_digest h = true →
  (is_Some (blob_of (w_fs w) root h) → Q (inr true) (tick w)) →
  ((quiet → blob_of (w_fs w) root h = None) → Q (inr false) (tick w)) →
  wp (Has root h) Q w.
Proof.
  intros Hwf Hh Ht Hf. unfold Has. rewrite blob_path_slot by done. wp_step. wp_step.
  eapply wp_stat_slot; [done|done|..].
  - intros n Hn. wp_step. apply Ht. by eapply blob_of_node.
  - intros e He. wp_step. apply Hf. intros Hq. unfold blob_of. by rewrite He.
Qed.

(** Without faults, on a store without leftovers, [Put] succeeds. *)
Lemma put_succeeds root b w :
  quiet → store_wf (w_fs w) root → store_clean (w_fs w) root →
  ∃ w1, Put root b w = (Ok (hashOf b), w1) ∧ put_post root b (w_fs w) (w_fs w1) true ∧
        store_clean (w_fs w1) root ∧ w_zero w1 = w_zero w.
Proof.
  intros Hq Hwf Hcl. destruct (wp_exists _ _ _ (wp_Put root b w Hwf)) as (r & w1 & Hrun & Hz & Hp & Hh).
  destruct (pp_quiet _ _ _ _ _ Hp Hq Hcl) as [Hok Hcl']. destruct r as [e|h]; [done|].
  specialize (Hh h eq_refl) as ->. eauto.
Qed.

(** ** Properties *)

(** C6 (put_get): on a well-formed store without leftover temporaries, when no
    call fails, [Put b] returns [b]'s digest and [Get] of it then returns [b],
    or the blob the store already held under that digest (the same bytes, short
    of a SHA-256 collision). *)
Theorem put_get root b w :
  quiet → store_wf (w_fs w) root → store_clean (w_fs w) root →
  ∃ w1 w2 b', Put root b w = (Ok (hashOf b), w1) ∧ Get root (hashOf b) w1 = (Ok b', w2) ∧
    (b' = b ∨ blob_of (w_fs w) root (hashOf b) = Some b') ∧ hashOf b' = hashOf b.
Proof.
  intros Hq Hwf Hcl. destruct (put_succeeds root b w) as (w1 & Hrun & Hp & _); [done..|]. exists w1.
  pose proof (pp_ok _ _ _ _ _ Hp eq_refl) as Hok.
  assert (wp (Get root (hashOf b)) (λ r _, ∃ b', r = inr b' ∧ blob_of (w_fs w1) root (hashOf b) = Some b') w1) as Hget.
  { apply wp_Get; [apply Hp|apply hashOf_digest|eauto|]. intros e w' _ _ Hnone.
    destruct (Hnone Hq) as [Hb _]. destruct Hok as [Hb'|[[c Hc] Hb']]; congruence. }
  destruct (wp_exists _ _ _ Hget) as (r & w2 & Hrun2 & b' & -> & Hb'). exists w2, b'.
  split_and!; [done|done|..].
  - destruct Hok as [Hb|[_ Hb]]; [left|right]; congruence.
  - unfold blob_of in Hb'. destruct (w_fs w1 !! _) as [n|] eqn:E; [|done].
    destruct (sw_slot _ _ (pp_wf _ _ _ _ _ Hp) _ _ (hashOf_digest b) E) as (f & -> & Hf). congruence.
Qed.

(** C7 (put_atomic): whatever calls fail, [Put] does not panic, keeps the store
    well formed (every blob has the digest it is named by), touches nothing
    outside the store, changes no other blob, and when it returns an error the
    store has exactly the blobs it had. *)
Theorem put_atomic root b w :
  store_wf (w_fs w) root →
  ∃ r w', Put root b w = (match r with inl e => Err e | inr h => Ok h end, w') ∧
    store_wf (w_fs w') root ∧ store_frame root (w_fs w) (w_fs w') ∧
    (∀ h, is_digest h = true → h ≠ hashOf b → blob_of (w_fs w') root h = blob_of (w_fs w) root h) ∧
    match r with
    | inl _ => blob_of (w_fs w') root (hashOf b) = blob_of (w_fs w) root (hashOf b)
    | inr h => h = hashOf b ∧ is_Some (blob_of (w_fs w') root h)
    end.
Proof.
  intros Hwf. destruct (wp_exists _ _ _ (wp_Put root b w Hwf)) as (r & w' & Hrun & _ & Hp & Hh).
  exists r, w'. destruct Hp as [??? Hok Herr _]. split_and!; try done. destruct r as [e|h]; [by apply Herr|].
  specialize (Hh h eq_refl) as ->. split; [done|]. destruct (Hok eq_refl) as [->|[? ->]]; eauto.
Qed.

(** Storing the same bytes twice is a no-op: once [Put] has
    succeeded, a second [Put] of the same bytes returns the same digest and
    leaves every file as it is. *)
Theorem put_twice root b w h w1 :
  quiet → store_wf (w_fs w) root → Put root b w = (Ok h, w1) →
  Put root b w1 = (Ok h, tick w1).
Proof.
  intros Hq Hwf Hrun. pose proof (wp_run _ _ _ _ _ (wp_Put root b w Hwf) Hrun) as (_ & Hp & Hh).
  specialize (Hh h eq_refl) as ->. unfold Put at 1. rewrite blob_path_slot by apply hashOf_digest.
  unfold mbind, M_bind, attempt, os_Stat, sys_read, sys. rewrite (Hq (w_tick w1)).
  rewrite find_slot; [|apply Hp|apply hashOf_digest].
  assert (is_Some (w_fs w1 !! slot root (hashOf b))) as [n Hn].
  { apply blob_of_slot. destruct (pp_ok _ _ _ _ _ Hp eq_refl) as [->|[? ->]]; eauto. }
  rewrite Hn. simpl. by rewrite set_fs_id.
Qed.

(** Streaming a file into the store gives the digest of
    its contents and its size, and leaves the same blobs as [Put] of the
    contents (up to a collision), without touching the file. *)
Theorem put_file_agrees root src f w :
  quiet → store_wf (w_fs w) root → store_clean (w_fs w) root →
  w_fs w !! src = Some (NFile f) → ¬ below root src →
  ∃ w1 w2, PutFile root src w = (Ok (hashOf (contents f), f_size f), w1) ∧
    Put root (contents f) w = (Ok (hashOf (contents f)), w2) ∧
    w_fs w1 !! src = Some (NFile f) ∧
    ∀ h, is_digest h = true → h ≠ hashOf (contents f) ∨ blob_of (w_fs w) root h = None →
         blob_of (w_fs w1) root h = blob_of (w_fs w2) root h.
Proof.
  intros Hq Hwf Hcl Hsrc Hout.
  destruct (wp_exists _ _ _ (wp_PutFile root src f w Hwf Hsrc)) as (r1 & w1 & Hrun1 & _ & Hp1 & Hr1).
  destruct (wp_exists _ _ _ (wp_Put root (contents f) w Hwf)) as (r2 & w2 & Hrun2 & _ & Hp2 & Hr2).
  destruct (pp_quiet _ _ _ _ _ Hp1 Hq Hcl) as [Hok1 _], (pp_quiet _ _ _ _ _ Hp2 Hq Hcl) as [Hok2 _].
  destruct r1 as [|[h1 n1]], r2 as [|h2]; try done.
  destruct (Hr1 h1 n1 eq_refl) as [-> ->]. specialize (Hr2 h2 eq_refl) as ->.
  exists w1, w2. split_and!; [|done|by rewrite (pp_frame _ _ _ _ _ Hp1)|].
  { rewrite Hrun1. unfold f_size, contents. by rewrite length_fmap. }
  intros h Hh Hcase. destruct (decide (h = hashOf (contents f))) as [->|Hne].
  - destruct Hcase as [?|Hnone]; [done|].
    destruct (pp_ok _ _ _ _ _ Hp1 eq_refl) as [->|[[??] ?]], (pp_ok _ _ _ _ _ Hp2 eq_refl) as [->|[[??] ?]];
      congruence.
  - by rewrite (pp_other _ _ _ _ _ Hp1), (pp_other _ _ _ _ _ Hp2).
Qed.

(** [Get], [OpenBlob] and [Has] report the abstract store: on
    a digest with a blob they return its bytes, a reader on it, and true; on a
    digest without one they return [ErrNotFound], [ErrNotFound] and false; none
    changes a file. *)
Theorem lookup_spec root h w :
  quiet → store_wf (w_fs w) root → is_digest h = true →
  (∃ w', Get root h w = (match blob_of (w_fs w) root h with Some b => Ok b | None => Err ErrNotFound end, w') ∧ w_fs w' = w_fs w) ∧
  (∃ w', OpenBlob root h w = (match blob_of (w_fs w) root h with Some _ => Ok (slot root h) | None => Err ErrNotFound end, w') ∧ w_fs w' = w_fs w) ∧
  (∃ w', Has root h w = (Ok (bool_decide (is_Some (blob_of (w_fs w) root h))), w') ∧ w_fs w' = w_fs w).
Proof.
  intros Hq Hwf Hh. split_and!.
  - assert (wp (Get root h) (λ r w', w_fs w' = w_fs w ∧
      match r with inr b => blob_of (w_fs w) root h = Some b | inl e => blob_of (w_fs w) root h = None ∧ e = ErrNotFound end) w) as Hw.
    { apply wp_Get; eauto. }
    destruct (wp_exists _ _ _ Hw) as (r & w' & Hrun & Hfs & Hr). exists w'. split; [|done]. rewrite Hrun.
    destruct r as [e|b]; [by destruct Hr as [-> ->]|by rewrite Hr].
  - assert (wp (OpenBlob root h) (λ r w', w_fs w' = w_fs w ∧
      match r with inr q => q = slot root h ∧ is_Some (blob_of (w_fs w) root h)
      | inl e => blob_of (w_fs w) root h = None ∧ e = ErrNotFound end) w) as Hw.
    { apply wp_OpenBlob; try done; [|eauto]. intros f w' Hfs _ Hf. split_and!; try done.
      unfold blob_of. by rewrite Hf. }
    destruct (wp_exists _ _ _ Hw) as (r & w' & Hrun & Hfs & Hr). exists w'. split; [|done]. rewrite Hrun.
    destruct r as [e|q]; [by destruct Hr as [-> ->]|by destruct Hr as [-> [b ->]]].
  - assert (wp (Has root h) (λ r w', w_fs w' = w_fs w ∧ r = inr (bool_decide (is_Some (blob_of (w_fs w) root h)))) w) as Hw.
    { apply wp_Has; try done.
      - intros Hs. by rewrite bool_decide_eq_true_2.
      - intros Hn. rewrite (Hn Hq), bool_decide_eq_false_2; [done|]. by intros []. }
    destruct (wp_exists _ _ _ Hw) as (r & w' & Hrun & Hfs & ->). eauto.
Qed.

End specs.

(** ** A concrete store *)

Definition demo_root : path := ["blobs"].
Definition demo_file : file := File o644 (Some <$> to_bytes "hello") 0 0.
Definition demo_fs : fs := <[["in"] := NFile demo_file]> (<[demo_root := NDir o755]> fs_root).
Definition demo_world : world := World demo_fs 0 ∅.

Lemma store_wf_fresh σ root :
  fs_wf σ → is_dir σ root → (∀ c, σ !! (root ++ [c]) = None) → store_wf σ root ∧ store_clean σ root.
Proof.
  intros Hfs Hd Hn.
  assert (∀ a b, σ !! ((root ++ [a]) ++ [b]) = None) as Hn2.
  { intros a b. destruct (σ !! _) as [n|] eqn:E; [|done]. destruct (proj2 Hfs (root ++ [a]) b) as [[m Hm] _]; [by eexists|].
    by rewrite Hn in Hm. }
  split; [split; try done|].
  - intros h n _ Hh. by rewrite Hn in Hh.
  - intros h n _ Hh. unfold slot in Hh. by rewrite Hn2 in Hh.
  - intros s k. apply Hn2.
Qed.

Lemma demo_fs_wf : fs_wf demo_fs.
Proof.
  apply (fs_wf_insert _ [] "in"); [apply (fs_wf_insert _ [] "blobs")|..]; try done; try apply fs_root_wf.
  all: first [by eexists | by intros [? ?]].
Qed.

Lemma demo_store : store_wf demo_fs demo_root ∧ store_clean demo_fs demo_root.
Proof. apply store_wf_fresh; [apply demo_fs_wf|by eexists|]. intros c. unfold demo_fs, fs_root. by rewrite !lookup_insert_ne, lookup_singleton_ne by done. Qed.

(** C6 at a concrete input. *)
Lemma put_get_witness :
  ∃ w1 w2 b', @Put calm demo_root (to_bytes "hi") demo_world = (Ok (hashOf (to_bytes "hi")), w1) ∧
    @Get calm demo_root (hashOf (to_bytes "hi")) w1 = (Ok b', w2) ∧
    (b' = to_bytes "hi" ∨ blob_of demo_fs demo_root (hashOf (to_bytes "hi")) = Some b') ∧
    hashOf b' = hashOf (to_bytes "hi").
Proof. exact (@put_get calm demo_root (to_bytes "hi") demo_world calm_quiet (proj1 demo_store) (proj2 demo_store)). Defined.

(** C7 at a concrete input: the disk fills up while the blob is written. *)
Definition full_disk : OsEnv :=
  {| fault := λ n, if decide (n = 4%nat) then Some ENOSPC else None; partial := λ _, 1%nat;
     entropy := N.of_nat; clock := λ _, 0; umask := 0x12; tempdir := ["tmp"]; getenv := λ _, "";
     device := 1; st_blocks := λ _ _, 0; link_mtime := λ _, 0 |}.

Lemma put_atomic_witness :
  ∃ r w', @Put full_disk demo_root (to_bytes "hi") demo_world = (match r with inl e => Err e | inr h => Ok h end, w') ∧
    store_wf (w_fs w') demo_root ∧ store_frame demo_root demo_fs (w_fs w') ∧
    (∀ h, is_digest h = true → h ≠ hashOf (to_bytes "hi") → blob_of (w_fs w') demo_root h = blob_of demo_fs demo_root h) ∧
    match r with
    | inl _ => blob_of (w_fs w') demo_root (hashOf (to_bytes "hi")) = blob_of demo_fs demo_root (hashOf (to_bytes "hi"))
    | inr h => h = hashOf (to_bytes "hi") ∧ is_Some (blob_of (w_fs w') demo_root h)
    end.
Proof. exact (@put_atomic full_disk demo_root (to_bytes "hi") demo_world (proj1 demo_store)). Defined.

(** The same at a concrete input. *)
Lemma put_twice_witness :
  ∃ w1, @Put calm demo_root (to_bytes "hi") demo_world = (Ok (hashOf (to_bytes "hi")), w1) ∧
        @Put calm demo_root (to_bytes "hi") w1 = (Ok (hashOf (to_bytes "hi")), tick w1).
Proof.
  destruct (@put_succeeds calm demo_root (to_bytes "hi") demo_world calm_quiet (proj1 demo_store) (proj2 demo_store))
    as (w1 & Hrun & _).
  exists w1. split; [exact Hrun|].
  exact (@put_twice calm demo_root (to_bytes "hi") demo_world _ _ calm_quiet (proj1 demo_store) Hrun).
Defined.

(** [PutFile] at a concrete file. *)
Lemma put_file_agrees_witness :
  ∃ w1 w2, @PutFile calm demo_root ["in"] demo_world = (Ok (hashOf (contents demo_file), f_size demo_file), w1) ∧
    @Put calm demo_root (contents demo_file) demo_world = (Ok (hashOf (contents demo_file)), w2) ∧
    w_fs w1 !! ["in"] = Some (NFile demo_file) ∧
    ∀ h, is_digest h = true → h ≠ hashOf (contents demo_file) ∨ blob_of demo_fs demo_root h = None →
         blob_of (w_fs w1) demo_root h = blob_of (w_fs w2) demo_root h.
Proof.
  refine (@put_file_agrees calm demo_root ["in"] demo_file demo_world calm_quiet
    (proj1 demo_store) (proj2 demo_store) eq_refl _).
  intros [k Hk]. discriminate Hk.
Defined.

(** A digest the empty store lacks. *)
Lemma lookup_spec_witness :
  (∃ w', @Get calm demo_root (hashOf []) demo_world = (Err ErrNotFound, w') ∧ w_fs w' = demo_fs) ∧
  (∃ w', @OpenBlob calm demo_root (hashOf []) demo_world = (Err ErrNotFound, w') ∧ w_fs w' = demo_fs) ∧
  (∃ w', @Has calm demo_root (hashOf []) demo_world = (Ok false, w') ∧ w_fs w' = demo_fs).
Proof.
  exact (@lookup_spec calm demo_root (hashOf []) demo_world calm_quiet (proj1 demo_store) (hashOf_digest [])).
Defined.

End Cas.
