(* ===== verification/Parallel.v ===== *)
(** * The worker pool of the chunked store ([parallel], src/internal/cas/chunked.go)

    [parallel n fn] starts [min (GOMAXPROCS, n)] goroutines that take indices
    from a shared counter under a mutex, run [fn], and record the first error.
    [pool_step] is the goroutines' interleaving: a critical section is one step
    and a call of [fn] is one step, so any worker may move between any two.

    The rest of the development uses [parallel], which runs [fn] over the order
    in which the calls completed; [pool_complete] is the link: a run of the pool
    that ends without error is such a run, for a permutation of the indices. *)

From S2P Require Import Prelude.

Inductive worker :=
| Idle              (* about to take the lock at the top of the loop *)
| Busy (i : nat)    (* running fn(i) *)
| Failing (e : gerr) (* fn returned e, about to record it *)
| Exited.

#[global] Instance worker_eq_decision : EqDecision worker.
Proof. solve_decision. Defined.

Section pool.
Context {S : Type} (n : nat) (fn : nat → M S unit).

Record pool := Pool {
  p_state : S;
  p_next : nat;
  p_ferr : option gerr;
  p_workers : list worker;
  p_log : list (nat * option gerr)  (* the calls of fn so far, in order *)
}.

Definition set_worker (k : nat) (v : worker) (p : pool) : pool :=
  Pool (p_state p) (p_next p) (p_ferr p) (<[k := v]> (p_workers p)) (p_log p).

Inductive pool_step : pool → pool → Prop :=
| step_take p k :
    p_workers p !! k = Some Idle → (p_next p < n)%nat → p_ferr p = None →
    pool_step p (Pool (p_state p) (p_next p + 1) None
                      (<[k := Busy (p_next p)]> (p_workers p)) (p_log p))
| step_exit p k :
    p_workers p !! k = Some Idle → (n ≤ p_next p)%nat ∨ p_ferr p ≠ None →
    pool_step p (set_worker k Exited p)
| step_run p k i s :
    p_workers p !! k = Some (Busy i) → fn i (p_state p) = (Ok tt, s) →
    pool_step p (Pool s (p_next p) (p_ferr p) (<[k := Idle]> (p_workers p)) (p_log p ++ [(i, None)]))
| step_fail p k i e s :
    p_workers p !! k = Some (Busy i) → fn i (p_state p) = (Err e, s) →
    pool_step p (Pool s (p_next p) (p_ferr p) (<[k := Failing e]> (p_workers p)) (p_log p ++ [(i, Some e)]))
| step_record p k e :
    p_workers p !! k = Some (Failing e) →
    pool_step p (Pool (p_state p) (p_next p) (match p_ferr p with None => Some e | Some e' => Some e' end)
                      (<[k := Idle]> (p_workers p)) (p_log p)).

(** [workers] goroutines, capped at [n]. *)
Definition pool_init (procs : nat) (s : S) : pool :=
  Pool s 0 None (replicate (Nat.min procs n) Idle) [].

Definition pool_done (p : pool) : Prop := Forall (λ w, w = Exited) (p_workers p).

#[global] Instance pool_done_dec (p : pool) : Decision (pool_done p).
Proof. unfold pool_done. apply _. Defined.

Definition busy_of (w : worker) : option nat := match w with Busy i => Some i | _ => None end.
Definition failing_of (w : worker) : option gerr := match w with Failing e => Some e | _ => None end.

(** The indices in flight and the indices done are exactly those handed out;
    the state is that of the calls in the log; an error in the log is recorded
    or about to be. *)
Record pool_inv (s0 : S) (p : pool) : Prop := {
  pi_next : (p_next p ≤ n)%nat;
  pi_split : (p_log p).*1 ++ omap busy_of (p_workers p) ≡ₚ seq 0 (p_next p);
  pi_ok : (∀ i e, (i, e) ∈ p_log p → e = None) → for_each (p_log p).*1 fn s0 = (Ok tt, p_state p);
  pi_err : ∀ i e, (i, Some e) ∈ p_log p → p_ferr p ≠ None ∨ ∃ e', Failing e' ∈ p_workers p;
  pi_ferr : ∀ e, p_ferr p = Some e ∨ Failing e ∈ p_workers p → ∃ i, (i, Some e) ∈ p_log p;
  pi_exit : Exited ∈ p_workers p → (n ≤ p_next p)%nat ∨ p_ferr p ≠ None
}.

End pool.
Arguments Pool {S} _ _ _ _ _.
Arguments p_state {S} _.
Arguments p_next {S} _.
Arguments p_ferr {S} _.
Arguments p_workers {S} _.
Arguments p_log {S} _.

(** The completion order of the calls of one [parallel]. *)
Class Sched := {
  order : nat → list nat;
  order_perm : ∀ n, order n ≡ₚ seq 0 n
}.

(** [parallel], for its callers: the calls one after the other in the order they
    finish, up to the first error.  The pool itself, with its interleavings and
    the calls still running after an error, is the step relation above. *)
Definition parallel `{Sched} {S} (n : nat) (fn : nat → M S unit) : M S unit :=
  for_each (order n) fn.

#[refine] Definition in_order : Sched := {| order := seq 0 |}.
Proof. done. Defined.

(** ** Lists with one element replaced *)

Lemma omap_insert {A B} (f : A → option B) (l : list A) k x y :
  l !! k = Some x →
  omap f (<[k := y]> l) ++ option_list (f x) ≡ₚ omap f l ++ option_list (f y).
Proof.
  revert k. induction l as [|a l IH]; intros [|k]; simpl; try done.
  - intros [= ->]. destruct (f x), (f y); simpl; rewrite ?app_nil_r; try done.
    all: rewrite <- ?Permutation_cons_append; try done. apply perm_swap.
  - intros Hk. specialize (IH k Hk). destruct (f a); simpl; [by constructor|done].
Qed.

Lemma elem_of_insert {A} (l : list A) k x y z :
  l !! k = Some x → z ∈ <[k := y]> l → z = y ∨ z ∈ l.
Proof.
  intros Hk. rewrite !list_elem_of_lookup. intros [j Hj].
  destruct (decide (j = k)) as [->|Hne].
  - rewrite list_lookup_insert_eq in Hj; [|by eapply lookup_lt_Some]. left. congruence.
  - rewrite list_lookup_insert_ne in Hj by done. eauto.
Qed.

Lemma elem_of_insert_keep {A} (l : list A) k x y z :
  l !! k = Some x → z ∈ l → z ≠ x → z ∈ <[k := y]> l.
Proof.
  intros Hk Hz Hne. rewrite list_elem_of_lookup in *. destruct Hz as [j Hj]. exists j.
  rewrite list_lookup_insert_ne; [done|]. intros ->. congruence.
Qed.

Lemma elem_of_insert_new {A} (l : list A) k x y : l !! k = Some x → y ∈ <[k := y]> l.
Proof.
  intros Hk. apply list_elem_of_lookup. exists k.
  apply list_lookup_insert_eq. by eapply lookup_lt_Some.
Qed.

Lemma for_each_app {S A} (l1 l2 : list A) (f : A → M S unit) s :
  for_each (l1 ++ l2) f s = (for_each l1 f;; for_each l2 f) s.
Proof.
  revert s. induction l1 as [|x l1 IH]; intros s; simpl; [done|].
  unfold mbind, M_bind. destruct (f x s) as [[[]| |] s']; try done.
  all: try by rewrite IH.
Qed.

(** ** The invariant *)

Section facts.
Context {S : Type} (n : nat) (fn : nat → M S unit).

Lemma omap_busy_idle m : omap busy_of (replicate m Idle) = [].
Proof. by induction m. Qed.

Lemma pool_inv_init procs s : pool_inv n fn s (pool_init n procs s).
Proof.
  split; simpl; [lia| |done|by intros ?? ?%not_elem_of_nil|..].
  - by rewrite omap_busy_idle.
  - intros e [?|He]; [done|]. by apply elem_of_replicate in He as [? _].
  - intros He. by apply elem_of_replicate in He as [? _].
Qed.

Lemma pool_inv_step s0 p p' : pool_inv n fn s0 p → pool_step n fn p p' → pool_inv n fn s0 p'.
Proof.
  intros [Hn Hsp Hok Herr Hferr Hex] Hstep. destruct Hstep as [p k Hk Hlt Hnone|p k Hk Hc|p k i s Hk Hr|p k i e s Hk Hr|p k e Hk].
  all: pose proof (λ y, omap_insert busy_of _ k _ y Hk) as Hom.
  - split; simpl; [lia| |done|..].
    + specialize (Hom (Busy (p_next p))). simpl in Hom. rewrite app_nil_r in Hom.
      rewrite Hom, app_assoc, Hsp, seq_app. done.
    + intros i e Hi. destruct (Herr i e Hi) as [?|[e' He']]; [done|]. right. exists e'.
      by eapply elem_of_insert_keep.
    + intros e [?|He]; [done|]. apply (elem_of_insert _ _ _ _ _ Hk) in He as [?|He]; [done|]. eauto.
    + intros He. apply (elem_of_insert _ _ _ _ _ Hk) in He as [?|He]; [done|]. destruct (Hex He); [lia|done].
  - split; simpl; try done.
    + specialize (Hom Exited). simpl in Hom. rewrite !app_nil_r in Hom. by rewrite Hom.
    + intros i e Hi. destruct (Herr i e Hi) as [?|[e' He']]; [by left|]. right. exists e'.
      by eapply elem_of_insert_keep.
    + intros e [?|He]; [eauto|]. apply (elem_of_insert _ _ _ _ _ Hk) in He as [?|He]; [done|]. eauto.
  - split; simpl; try done.
    + specialize (Hom Idle). simpl in Hom. rewrite app_nil_r in Hom. rewrite <- Hsp, <- Hom.
      rewrite fmap_app, <- app_assoc. simpl. by rewrite Permutation_cons_append.
    + intros Hall. rewrite fmap_app, for_each_app. unfold mbind, M_bind. rewrite Hok.
      * simpl. unfold mbind, M_bind. by rewrite Hr.
      * intros i' e' Hi. apply (Hall i'). set_solver.
    + intros i' e Hi. apply elem_of_app in Hi as [Hi|Hi]; [|by apply list_elem_of_singleton in Hi].
      destruct (Herr i' e Hi) as [?|[e' He']]; [by left|]. right. exists e'. by eapply elem_of_insert_keep.
    + intros e He. enough (∃ i', (i', Some e) ∈ p_log p) as [i' ?] by (exists i'; set_solver).
      apply Hferr. destruct He as [?|He]; [by left|]. right.
      by apply (elem_of_insert _ _ _ _ _ Hk) in He as [?|He].
    + intros He. apply (elem_of_insert _ _ _ _ _ Hk) in He as [?|He]; [done|]. eauto.
  - split; simpl; try done.
    + specialize (Hom (Failing e)). simpl in Hom. rewrite app_nil_r in Hom. rewrite <- Hsp, <- Hom.
      rewrite fmap_app, <- app_assoc. simpl. by rewrite Permutation_cons_append.
    + intros Hall. exfalso. by specialize (Hall i (Some e) ltac:(set_solver)).
    + intros i' e' _. right. exists e. by eapply elem_of_insert_new.
    + intros e' He. destruct (decide (e' = e)) as [->|Hne]; [exists i; set_solver|].
      enough (∃ i', (i', Some e') ∈ p_log p) as [i' ?] by (exists i'; set_solver).
      apply Hferr. destruct He as [?|He]; [by left|]. right.
      apply (elem_of_insert _ _ _ _ _ Hk) in He as [?|He]; [congruence|done].
    + intros He. apply (elem_of_insert _ _ _ _ _ Hk) in He as [?|He]; [done|]. eauto.
  - split; simpl; try done.
    + specialize (Hom Idle). simpl in Hom. rewrite !app_nil_r in Hom. by rewrite Hom.
    + intros i' e' _. left. by destruct (p_ferr p).
    + intros e' He. destruct He as [He|He].
      * destruct (p_ferr p) eqn:E; injection He as ->; apply Hferr; [by left|]. right.
        apply list_elem_of_lookup. eauto.
      * apply (elem_of_insert _ _ _ _ _ Hk) in He as [?|He]; [done|]. eauto.
    + intros He. right. by destruct (p_ferr p).
Qed.

Lemma pool_step_length p p' : pool_step n fn p p' → length (p_workers p') = length (p_workers p).
Proof. destruct 1; simpl; apply length_insert. Qed.

Lemma pool_inv_reach s0 procs p :
  rtc (pool_step n fn) (pool_init n procs s0) p →
  pool_inv n fn s0 p ∧ length (p_workers p) = Nat.min procs n.
Proof.
  assert (pool_inv n fn s0 (pool_init n procs s0) ∧ length (p_workers (pool_init n procs s0)) = Nat.min procs n) as Hinit.
  { split; [apply pool_inv_init|apply length_replicate]. }
  intros Hr. revert Hinit. induction Hr as [|p1 p2 p3 Hs _ IH]; [done|]. intros [Hi Hl]. apply IH.
  split; [by eapply pool_inv_step|]. by rewrite (pool_step_length _ _ Hs).
Qed.

(** Work left: four units per index not handed out, and a worker's own. *)
Definition worker_load (w : worker) : nat :=
  match w with Idle => 1 | Busy _ => 3 | Failing _ => 2 | Exited => 0 end.
Definition pool_load (p : @pool S) : nat := 4 * (n - p_next p) + sum_list_with worker_load (p_workers p).

Lemma sum_list_with_insert {A} (f : A → nat) l k x y :
  l !! k = Some x → sum_list_with f (<[k := y]> l) + f x = sum_list_with f l + f y.
Proof.
  revert k. induction l as [|a l IH]; intros [|k]; simpl; try done.
  - intros [= ->]. lia.
  - intros Hk. specialize (IH k Hk). lia.
Qed.

Lemma pool_load_step p p' : pool_step n fn p p' → pool_load p' < pool_load p.
Proof.
  intros Hstep. destruct Hstep; unfold pool_load; simpl;
    match goal with H : p_workers _ !! _ = Some _ |- context [<[_ := ?v]> _] =>
      pose proof (sum_list_with_insert worker_load _ _ _ v H) as Hs; simpl in Hs end; lia.
Qed.

(** A worker that has not left can move. *)
Lemma pool_progress p :
  (∀ i s, (fn i s).1 ≠ Panic) → ¬ pool_done p → ∃ p', pool_step n fn p p'.
Proof.
  intros Hfn Hnd. apply not_Forall_Exists in Hnd; [|apply _].
  apply Exists_exists in Hnd as (w & [k Hk]%list_elem_of_lookup & Hw). destruct w as [|i|e|]; [..|by destruct Hw].
  - destruct (decide (p_next p < n ∧ p_ferr p = None)) as [[??]|Hn].
    + eexists. by eapply step_take.
    + eexists. eapply step_exit; [done|]. destruct (p_ferr p); [by right|]. left. destruct (decide (p_next p < n)); [tauto|lia].
  - specialize (Hfn i (p_state p)). destruct (fn i (p_state p)) as [[[]|e|] s] eqn:E; [..|done].
    + eexists. by eapply step_run.
    + eexists. by eapply step_fail.
  - eexists. by eapply step_record.
Qed.

(** ** Properties *)

(** C8 (pool_complete): however the goroutines of [parallel] interleave, a run
    that ends without an error has called [fn] exactly once for every index in
    [0, n), and its effect is that of the calls in the order they completed. *)
Theorem pool_complete s0 procs p :
  0 < procs → rtc (pool_step n fn) (pool_init n procs s0) p → pool_done p → p_ferr p = None →
  ∃ ord, ord ≡ₚ seq 0 n ∧ for_each ord fn s0 = (Ok tt, p_state p).
Proof.
  intros Hprocs Hr Hd Hnone. destruct (pool_inv_reach _ _ _ Hr) as [[Hn Hsp Hok Herr Hferr Hex] Hlen].
  unfold pool_done in Hd. rewrite Forall_forall in Hd.
  assert (omap busy_of (p_workers p) = []) as Hb.
  { apply elem_of_nil_inv. intros i (w & Hw & Hi)%list_elem_of_omap. by rewrite (Hd w Hw) in Hi. }
  rewrite Hb, app_nil_r in Hsp. exists (p_log p).*1. split.
  - rewrite Hsp. replace (p_next p) with n; [done|]. destruct (decide (n = 0)) as [->|Hn0]; [lia|].
    destruct (p_workers p) as [|w ws] eqn:E; [simpl in Hlen; lia|].
    assert (Exited ∈ w :: ws) as Hin by (rewrite <- (Hd w); left). destruct (Hex Hin); [lia|done].
  - apply Hok. intros i [e|] Hi; [|done]. exfalso. destruct (Herr i e Hi) as [?|[e' He']]; [done|].
    by apply Hd in He'.
Qed.

(** C9 (pool_terminates): [parallel] always returns: if [fn] never panics, every
    interleaving reaches the state where all goroutines have left, and does so
    within [4 n + GOMAXPROCS] steps of the pool. *)
Theorem pool_terminates s0 procs p :
  (∀ i s, (fn i s).1 ≠ Panic) → rtc (pool_step n fn) (pool_init n procs s0) p →
  (∃ p', rtc (pool_step n fn) p p' ∧ pool_done p') ∧
  (∀ k p', nsteps (pool_step n fn) k (pool_init n procs s0) p' → k ≤ 4 * n + procs).
Proof.
  intros Hfn _. split.
  - remember (pool_load p) as m eqn:Hm. revert p Hm. induction m as [m IH] using (well_founded_induction lt_wf).
    intros p ->. destruct (decide (pool_done p)) as [Hd|Hnd].
    { by exists p. }
    destruct (pool_progress p Hfn Hnd) as [p1 Hs]. pose proof (pool_load_step _ _ Hs) as Hlt.
    destruct (IH _ Hlt p1 eq_refl) as (p' & Hr & Hd). exists p'. split; [by eapply rtc_l|done].
  - assert (∀ k p1 p2, nsteps (pool_step n fn) k p1 p2 → k + pool_load p2 ≤ pool_load p1) as Hk.
    { induction 1 as [|k p1 p2 p3 Hs _ IH]; [lia|]. pose proof (pool_load_step _ _ Hs). lia. }
    intros k p' Hs. specialize (Hk _ _ _ Hs).
    assert (pool_load (pool_init n procs s0) ≤ 4 * n + procs); [|lia].
    unfold pool_load. simpl.
    enough (∀ m, sum_list_with worker_load (replicate m Idle) = m) as -> by lia.
    induction m; simpl; lia.
Qed.

(** C10 (pool_error): the error [parallel] returns is one that [fn] returned for
    an index below [n], no index was run twice, and an error of any call makes
    [parallel] return an error. *)
Theorem pool_error s0 procs p :
  rtc (pool_step n fn) (pool_init n procs s0) p → pool_done p →
  (∀ e, p_ferr p = Some e → ∃ i, i < n ∧ (i, Some e) ∈ p_log p) ∧
  NoDup (p_log p).*1 ∧
  (∀ i e, (i, Some e) ∈ p_log p → p_ferr p ≠ None).
Proof.
  intros Hr Hd. destruct (pool_inv_reach _ _ _ Hr) as [[Hn Hsp Hok Herr Hferr Hex] _].
  unfold pool_done in Hd. rewrite Forall_forall in Hd. split_and!.
  - intros e He. destruct (Hferr e (or_introl He)) as [i Hi]. exists i. split; [|done].
    assert (i ∈ seq 0 (p_next p)) as Hin.
    { rewrite <- Hsp, elem_of_app. left. apply list_elem_of_fmap. by exists (i, Some e). }
    apply elem_of_seq in Hin. lia.
  - assert (NoDup (seq 0 (p_next p))) as Hnd by apply NoDup_seq.
    rewrite <- Hsp in Hnd. by apply NoDup_app in Hnd as [? _].
  - intros i e Hi. destruct (Herr i e Hi) as [?|[e' He']]; [done|]. by apply Hd in He'.
Qed.

End facts.

(** A pool of two goroutines over three indices that add to a total. *)
Definition demo_fn (i : nat) : M nat unit := λ s, (Ok tt, s + i).
Definition demo_end : pool := Pool 3 3 None [Exited; Exited] [(0, None); (1, None); (2, None)].

Ltac pool_go c k := eapply rtc_l; [eapply (c _ _ _ _ k); simpl; (done || lia || (left; lia) || reflexivity)|simpl].

Lemma demo_run : rtc (pool_step 3 demo_fn) (pool_init 3 2 0) demo_end.
Proof.
  unfold pool_init; simpl.
  pool_go @step_take 0. pool_go @step_run 0. pool_go @step_take 1. pool_go @step_take 0.
  pool_go @step_run 1. pool_go @step_exit 1. pool_go @step_run 0. pool_go @step_exit 0.
  apply rtc_refl.
Qed.

(** C8 at a concrete input. *)
Lemma pool_complete_witness : ∃ ord, ord ≡ₚ seq 0 3 ∧ for_each ord demo_fn 0 = (Ok tt, 3).
Proof.
  apply (pool_complete 3 demo_fn 0 2 demo_end); [lia|exact demo_run| |reflexivity].
  by repeat constructor.
Defined.

(** C9 at a concrete input. *)
Lemma pool_terminates_witness :
  (∃ p', rtc (pool_step 3 demo_fn) (pool_init 3 2 0) p' ∧ pool_done p') ∧
  (∀ k p', nsteps (pool_step 3 demo_fn) k (pool_init 3 2 0) p' → k ≤ 14).
Proof. apply (pool_terminates 3 demo_fn 0 2 (pool_init 3 2 0)); [by intros|apply rtc_refl]. Defined.

(** C10 at a concrete input. *)
Lemma pool_error_witness :
  (∀ e, p_ferr demo_end = Some e → ∃ i, i < 3 ∧ (i, Some e) ∈ p_log demo_end) ∧
  NoDup (p_log demo_end).*1 ∧
  (∀ i e, (i, Some e) ∈ p_log demo_end → p_ferr demo_end ≠ None).
Proof. apply (pool_error 3 demo_fn 0 2 demo_end); [exact demo_run|]. by repeat constructor. Defined.
