(* ===== verification/Blobs.v ===== *)
(** * The blob store as its clients see it

    Clients of the store rely on three things: blobs are never lost or changed,
    a stored blob is found again under its digest, and nothing outside the
    store's directory moves.  They hold as long as the byte strings in play do
    not collide under SHA-256: [U] is the set of those strings, [NoCollision]
    says the digest separates them. *)

From S2P Require Import Prelude Sha256 Os OsFacts Cas.
Import Cas.
Open Scope Z_scope.

Class NoCollision (U : bytes → Prop) : Prop :=
  no_collision b c : U b → U c → hashOf b = hashOf c → b = c.

(** A healthy store holding strings of [U]. *)
Record store_inv (U : bytes → Prop) (root : path) (σ : fs) : Prop := {
  si_wf : store_wf σ root;
  si_in : ∀ h c, is_digest h = true → blob_of σ root h = Some c → U c
}.

(** From [σ] to [σ'] the store only grew, and only it changed. *)
Record store_step (U : bytes → Prop) (root : path) (σ σ' : fs) : Prop := {
  st_inv : store_inv U root σ';
  st_frame : store_frame root σ σ';
  st_keep : ∀ h c, is_digest h = true → blob_of σ root h = Some c → blob_of σ' root h = Some c
}.

(** [b] is in the store under its digest. *)
Definition stored (σ : fs) (root : path) (b : bytes) : Prop := blob_of σ root (hashOf b) = Some b.

#[global] Instance store_step_trans U root : Transitive (store_step U root).
Proof.
  intros σ1 σ2 σ3 [_ Hf1 Hk1] [Hi2 Hf2 Hk2]. split; [done|..].
  - intros q Hq. by rewrite Hf2, Hf1.
  - eauto.
Qed.

Lemma store_step_refl U root σ : store_inv U root σ → store_step U root σ σ.
Proof. intros Hi. by split. Qed.

Lemma stored_step U root σ σ' b : store_step U root σ σ' → stored σ root b → stored σ' root b.
Proof. intros Hs. apply (st_keep _ _ _ _ Hs). apply hashOf_digest. Qed.

Lemma store_wf_blob σ root h c :
  store_wf σ root → is_digest h = true → blob_of σ root h = Some c → hashOf c = h.
Proof.
  intros Hwf Hh Hb. unfold blob_of in Hb. destruct (σ !! slot root h) as [n|] eqn:E; [|done].
  destruct (sw_slot _ _ Hwf h n Hh E) as (f & -> & Hf). by injection Hb as <-.
Qed.

(** Two file systems that agree below the root hold the same store. *)
Lemma blob_of_agree σ σ' root h : (∀ q, below root q → σ' !! q = σ !! q) → blob_of σ' root h = blob_of σ root h.
Proof. intros Ha. unfold blob_of. by rewrite Ha by apply below_slot. Qed.

Lemma store_inv_agree U root σ σ' :
  store_inv U root σ → fs_wf σ' → (∀ q, below root q → σ' !! q = σ !! q) → store_inv U root σ'.
Proof.
  intros [[Hfs [m Hm] Hsh Hsl] Hin] Hfs' Ha. split; [split; [done|..]|].
  - exists m. by rewrite Ha.
  - intros h n Hh. rewrite Ha by by eexists. by apply Hsh.
  - intros h n Hh. rewrite Ha by apply below_slot. by apply Hsl.
  - intros h c Hh. rewrite (blob_of_agree σ) by done. by apply Hin.
Qed.

Lemma store_clean_agree root σ σ' :
  store_clean σ root → (∀ q, below root q → σ' !! q = σ !! q) → store_clean σ' root.
Proof. intros Hc Ha s k. rewrite Ha; [apply Hc|]. rewrite <- app_assoc. by eexists. Qed.

Section specs.
Context `{OsEnv} (U : bytes → Prop) {NC : NoCollision U}.
Implicit Types (w : world) (root : path).

(** Nothing fails, and no temporary is left over. *)
Definition live root w : Prop := quiet ∧ store_clean (w_fs w) root.

(** The process-wide memo of empty chunks holds their digests. *)
Definition memo_ok w : Prop := ∀ n h, w_zero w !! n = Some h → h = hashOf (replicate (Z.to_nat n) x00).

(** The shape of every store operation's outcome: the store grew, [Post] holds
    of the value, and with no faults there is a value. *)
Record grows {A} root w (Post : A → world → Prop) (r : gerr + A) w' : Prop := {
  gr_step : store_step U root (w_fs w) (w_fs w');
  gr_memo : memo_ok w → memo_ok w';
  gr_post : ∀ a, r = inr a → Post a w';
  gr_live : live root w → live root w' ∧ ∃ a, r = inr a
}.

Lemma grows_ret {A} root w (Post : A → world → Prop) a :
  store_inv U root (w_fs w) → Post a w → grows root w Post (inr a) w.
Proof. intros Hi Hp. split; [by apply store_step_refl|done|by intros ? [= <-]|eauto]. Qed.

Lemma grows_weaken {A} root w (Post Post' : A → world → Prop) r w' :
  grows root w Post r w' → (∀ a, r = inr a → Post a w' → Post' a w') → grows root w Post' r w'.
Proof. intros [Hs Hm Hp Hl] HP. split; eauto. Qed.

(** What runs next runs from where the first part stopped. *)
Lemma grows_trans {A B} root w w1 (Mid : A → world → Prop) a (Post : B → world → Prop) r w2 :
  grows root w Mid (inr a) w1 → grows root w1 Post r w2 → grows root w Post r w2.
Proof.
  intros [Hs Hm Hp Hl] [Hs2 Hm2 Hp2 Hl2]. split; [by etrans|auto|done|]. intros Hlive. apply Hl2, Hl, Hlive.
Qed.

Lemma grows_fail {A B} root w w1 (Mid : A → world → Prop) e e' (Post : B → world → Prop) :
  grows root w Mid (inl e) w1 → grows root w Post (inl e') w1.
Proof.
  intros [Hs Hm Hp Hl]. split; [done|done|done|]. intros Hlive. by destruct (Hl Hlive) as [_ [? ?]].
Qed.

Lemma grows_bind {A B} root (m : M world A) (k : A → M world B) (Mid : A → world → Prop) (Post : B → world → Prop) w :
  wp m (grows root w Mid) w →
  (∀ a w1, grows root w Mid (inr a) w1 → wp (k a) (grows root w1 Post) w1) →
  wp (m ≫= k) (grows root w Post) w.
Proof.
  intros Hm Hk. wp_step. eapply wp_mono; [exact Hm|]. intros [e|a] w1 Hg; [by eapply grows_fail|].
  eapply wp_mono; [by apply Hk|]. intros r w2. by apply grows_trans with (1 := Hg).
Qed.

Lemma blob_same root σ h c b :
  store_inv U root σ → U b → h = hashOf b → blob_of σ root h = Some c → c = b.
Proof.
  intros [Hwf Hin] Hb -> Hc. apply no_collision; [by eapply Hin, Hc; apply hashOf_digest|done|].
  eapply store_wf_blob; [done|apply hashOf_digest|done].
Qed.

Lemma put_post_step root b σ σ' ok :
  store_inv U root σ → U b → put_post root b σ σ' ok →
  store_step U root σ σ' ∧ (ok = true → stored σ' root b).
Proof.
  intros Hi Hb [Hwf Hf Ho Hok Herr _].
  assert (∀ c, blob_of σ root (hashOf b) = Some c → c = b) as Hsame by (intros; by eapply blob_same).
  assert (ok = true → stored σ' root b) as Hst.
  { intros ->. destruct (Hok eq_refl) as [?|[[c Hc] He]]; [done|]. unfold stored. rewrite He, Hc. f_equal. eauto. }
  split; [|done]. split; [split; [done|]|done|].
  - intros h c Hh Hc. destruct (decide (h = hashOf b)) as [->|Hne].
    + destruct ok; [unfold stored in Hst; rewrite Hst in Hc by done; by injection Hc as <-|].
      rewrite Herr in Hc by done. by eapply (si_in _ _ _ Hi).
    + rewrite Ho in Hc by done. by eapply (si_in _ _ _ Hi).
  - intros h c Hh Hc. destruct (decide (h = hashOf b)) as [->|Hne]; [|by rewrite Ho].
    rewrite (Hsame c Hc). destruct ok; [by apply Hst|]. rewrite Herr, Hc by done. by rewrite (Hsame c Hc).
Qed.

Lemma put_post_grows {A} root b w w' (r : gerr + A) (Post : A → world → Prop) :
  store_inv U root (w_fs w) → U b → put_post root b (w_fs w) (w_fs w') (ok_of r) → w_zero w' = w_zero w →
  (∀ a, r = inr a → stored (w_fs w') root b → Post a w') → grows root w Post r w'.
Proof.
  intros Hi Hb Hp Hz HP. destruct (put_post_step _ _ _ _ _ Hi Hb Hp) as [Hs Hst]. split; [done|..].
  - unfold memo_ok. by rewrite Hz.
  - intros a ->. by apply HP, Hst.
  - intros [Hq Hc]. destruct (pp_quiet _ _ _ _ _ Hp Hq Hc) as [Hok Hc']. split; [done|].
    destruct r; [done|eauto].
Qed.

Lemma grows_Put root b w :
  store_inv U root (w_fs w) → U b →
  wp (Put root b) (grows root w (λ h w', h = hashOf b ∧ stored (w_fs w') root b)) w.
Proof.
  intros Hi Hb. eapply wp_mono; [apply wp_Put, Hi|]. intros r w' (Hz & Hp & Hh).
  eapply put_post_grows; [done..|]. intros h -> Hst. eauto.
Qed.

Lemma grows_PutFile root src f w :
  store_inv U root (w_fs w) → U (contents f) → w_fs w !! src = Some (NFile f) →
  wp (PutFile root src) (grows root w (λ hn w', hn = (hashOf (contents f), f_size f) ∧
    stored (w_fs w') root (contents f))) w.
Proof.
  intros Hi Hb Hsrc. eapply wp_mono; [apply wp_PutFile; [apply Hi|done]|]. intros r w' (Hz & Hp & Hh).
  eapply put_post_grows; [done..|]. intros [h n] -> Hst. destruct (Hh h n eq_refl) as [-> ->].
  split_and!; try done. unfold f_size, contents. by rewrite length_fmap.
Qed.

(** An operation that changes no file. *)
Lemma grows_unchanged {A} root w w' (r : gerr + A) (Post : A → world → Prop) :
  store_inv U root (w_fs w) → w_fs w' = w_fs w → w_zero w' = w_zero w → (∀ a, r = inr a → Post a w') →
  (quiet → ∃ a, r = inr a) → grows root w Post r w'.
Proof.
  intros Hi Hfs Hz HP Hq. split; [rewrite Hfs; by apply store_step_refl|unfold memo_ok; by rewrite Hz|done|].
  intros [Hquiet Hc]. split; [split; [done|by rewrite Hfs]|by apply Hq].
Qed.

Lemma grows_Get root b w :
  store_inv U root (w_fs w) → stored (w_fs w) root b →
  wp (Get root (hashOf b)) (grows root w (λ b' w', b' = b ∧ w_fs w' = w_fs w)) w.
Proof.
  intros Hi Hst. apply wp_Get; [apply Hi|apply hashOf_digest|..].
  - intros b' w' Hfs Hz Hb. unfold stored in Hst. rewrite Hst in Hb. injection Hb as <-.
    apply grows_unchanged; try done; [by intros ? [= <-]|eauto].
  - intros e w' Hfs Hz Hq. apply grows_unchanged; try done. intros Hquiet.
    destruct (Hq Hquiet) as [Hn _]. unfold stored in Hst. congruence.
Qed.

Lemma grows_Has root h w :
  store_inv U root (w_fs w) → is_digest h = true →
  wp (Has root h) (grows root w (λ b w', w_fs w' = w_fs w ∧
    (b = true → is_Some (blob_of (w_fs w) root h)) ∧
    (b = false → quiet → blob_of (w_fs w) root h = None))) w.
Proof.
  intros Hi Hh. apply wp_Has; [apply Hi|done|..].
  all: intros Hb; apply grows_unchanged; try done; [|eauto].
  all: by intros ? [= <-].
Qed.

(** A read-only call. *)
Lemma grows_read {A} root (op : fs → errno + A) w :
  store_inv U root (w_fs w) → (∃ a, op (w_fs w) = inr a) →
  wp (sys_read op) (grows root w (λ a w', op (w_fs w) = inr a ∧ w_fs w' = w_fs w)) w.
Proof.
  intros Hi [a Ha]. apply wp_sys_read; [intros e Hq|rewrite Ha; simpl]; apply grows_unchanged; try done.
  - by intros ? [= <-].
  - eauto.
Qed.

End specs.
