(* ===== verification/Chunked.v ===== *)
(** * Chunked images (src/internal/cas/chunked.go)

    A VM's memory or disk image is cut into chunks of 1 MiB, each a blob, and
    described by a manifest blob.  [PutChunked] stores an image file,
    [PutChunkedOverlay] a sparse file laid over a stored image, [GetChunkedTo]
    writes an image back.  The specification is at the level of whole images:
    [stored_image] says a byte string is in the store as an image, [overlay]
    is the image a diff file means.

    Machine integers: sizes and offsets are [int64] in the source.  They are
    non-negative and bounded by the size of a file, so they are kept as [Z]. *)

From S2P Require Import Prelude Sha256 Os OsFacts Parallel Cas Blobs.
Import Cas.
Open Scope Z_scope.

Module Chunked.

Definition ChunkSize : Z := Z.shiftl 1 20.

Record Manifest := mkManifest {
  m_Chunked : Z;
  m_Size : Z;
  m_Chunk : Z;
  m_Chunks : list string
}.

Definition span : Type := Z * Z.

Definition max64 (a b : Z) : Z := if decide (a > b) then a else b.
Definition min64 (a b : Z) : Z := if decide (a < b) then a else b.

(** [overlaps]: does any span intersect [a, b)? *)
Fixpoint overlaps (spans : list span) (a b : Z) : bool :=
  match spans with
  | [] => false
  | (s, e) :: rest => if bool_decide (s < b) && bool_decide (e > a) then true else overlaps rest a b
  end.

(** The sum is an [int64] in the source: from 2^63 - 2^20 + 1 bytes on it is
    negative there and [make] panics.  No file system holds such a file, and the
    model adds in [Z]. *)
Definition chunkCount (size : Z) : Z := Z.quot (size + ChunkSize - 1) ChunkSize.

Definition chunkLen (size : Z) (i : Z) : Z :=
  let rem := size - i * ChunkSize in
  if decide (rem < ChunkSize) then rem else ChunkSize.

Definition zeros (n : Z) : bytes := replicate (Z.to_nat n) x00.

(** Copying [data] into a slice at index [k]. *)
Definition patch (b : bytes) (k : nat) (data : bytes) : bytes :=
  take k b ++ data ++ drop (k + length data) b.

(** What a sparse file means over an image of its size. *)
Definition overlay (base : bytes) (cells : list (option byte)) : bytes :=
  zip_with (λ b c, default b c) base cells.

(** [path + ".tmp"]. *)
Definition with_suffix (p : path) (s : string) : path :=
  match last p with None => [s] | Some c => removelast p ++ [c +:+ s] end.

Section chunked.
Context `{OsEnv, Sched, GoJSON Manifest}.

(** [Store.zeroHash], with the process-wide memo; [make] panics on a negative
    length. *)
Definition memo_zero (n : Z) (h : string) : M world unit := λ w,
  (Ok tt, World (w_fs w) (w_tick w) (<[n := h]> (w_zero w))).
Definition zero_put (root : path) (n : Z) : M world string :=
  if decide (n < 0) then panic else
  h ← Put root (zeros n);
  memo_zero n h;;
  mret h.
Definition zeroHash (root : path) (n : Z) : M world string :=
  w ← get_state;
  match w_zero w !! n with
  | Some h => b ← Has root h; if b : bool then mret h else zero_put root n
  | None => zero_put root n
  end.

(** [dataSpans].  The loop moves [off] forward, so [size] rounds are enough;
    running out of them would be a panic of the model. *)
Fixpoint data_spans (fuel : nat) (f : path) (size off : Z) (out : list span) : M world (list span) :=
  if decide (off < size) then
    match fuel with
    | O => panic
    | S k =>
        r ← attempt (fd_seek_data f off);
        match r with
        | inl e => if decide (e = Errno ENXIO) then mret out else mret [(0, size)]
        | inr start =>
            r2 ← attempt (fd_seek_hole f start);
            let end_ := match r2 with
                        | inl _ => size
                        | inr end_ => if decide (end_ > size) then size else end_
                        end in
            data_spans k f size end_ (out ++ [(start, end_)])
        end
    end
  else mret out.
Definition dataSpans (f : path) (size : Z) : M world (list span) :=
  data_spans (Z.to_nat size) f size 0 [].

(** [Store.storeChunk]: the hash, whether it was new, and the error. *)
Definition storeChunk (root : path) (b : bytes) : M world (string * bool * option gerr) :=
  let hash := hashOf b in
  has ← Has root hash;
  if has : bool then mret (hash, false, None) else
  r ← attempt (Put root b);
  mret (hash, true, match r with inl e => Some e | inr _ => None end).

Definition putManifest (root : path) (m : Manifest) : M world string :=
  Put root (json_Marshal m).

(** [Store.ReadManifest]. *)
Definition ReadManifest (root : path) (hash : string) : M world Manifest :=
  b ← Get root hash;
  match json_Unmarshal b with
  | Some m => if decide (m_Chunked m = 1) then mret m
              else throw (Errorf (hash +:+ " is not a chunked object"))
  | None => throw (Errorf (hash +:+ " is not a chunked object"))
  end.

(** ** Storing an image *)

(** The variables the goroutines of [putChunked] share: [m.Chunks] and the set
    [fresh] of digests this call added. *)
Definition shared : Type := list string * gset string.

Definition set_chunk (i : nat) (h : string) : M (world * shared) unit :=
  modify_snd (λ '(cs, fr), (<[i := h]> cs, fr)).

(** [h, isNew, err := s.storeChunk(b); m.Chunks[i] = h; ...; return err]. *)
Definition record_chunk (root : path) (i : nat) (b : bytes) : M (world * shared) unit :=
  r ← on_fst (storeChunk root b);
  let '(h, isNew, err) := r in
  set_chunk i h;;
  (if isNew : bool then modify_snd (λ '(cs, fr), (cs, {[h]} ∪ fr)) else mret tt);;
  match err with Some e => throw e | None => mret tt end.

(** The capacity of a slice from [os.ReadFile]: it allocates the file's size and
    one byte more, and no less than 512. *)
Definition read_cap (b : bytes) : nat := Nat.max 512 (S (length b)).

(** The dirty regions of a chunk, read over the base chunk [b].  The slice
    [b[a-off:e-off]] may reach past the length of [b] up to its capacity; what is
    read there is not part of [b]. *)
Definition overlay_spans (f : path) (off ln : Z) (spans : list span) (b : bytes) : M world bytes :=
  fold_m (λ b sp,
    let a := max64 (fst sp) off in
    let e := min64 (snd sp) (off + ln) in
    if decide (a < e) then
      if decide (Z.of_nat (read_cap b) < e - off) then panic  (* b[a-off:e-off] *)
      else data ← fd_read_at f (Z.to_nat (e - a)) (Z.to_nat a);
           mret (take (length b) (patch (b ++ replicate (read_cap b - length b) x00) (Z.to_nat (a - off)) data))
    else mret b) b spans.

(** The base chunk the code reuses: [base] is there, has an [i]-th chunk, and
    that chunk has the same length. *)
Definition base_chunk (base : option Manifest) (i : nat) (ln : Z) : option string :=
  m ← base; c ← m_Chunks m !! i;
  if decide (chunkLen (m_Size m) (Z.of_nat i) = ln) then Some c else None.

(** The function [putChunked] hands to [parallel]. *)
Definition put_chunk (root f : path) (size : Z) (spans : list span) (base : option Manifest)
    (i : nat) : M (world * shared) unit :=
  let off := Z.of_nat i * ChunkSize in
  let ln := chunkLen size (Z.of_nat i) in
  let touched := overlaps spans off (off + ln) in
  match base_chunk base i ln with
  | Some bc =>
      if negb touched then set_chunk i bc
      else
        r ← on_fst (attempt (Get root bc));
        match r with
        | inl e => throw (Wrap ("base chunk " +:+ pretty i) e)
        | inr b => b' ← on_fst (overlay_spans f off ln spans b); record_chunk root i b'
        end
  | None =>
      if negb touched then
        r ← on_fst (attempt (zeroHash root ln));
        match r with
        | inl e => set_chunk i "";; throw e
        | inr h => set_chunk i h
        end
      else
        data ← on_fst (fd_read_at f (Z.to_nat ln) (Z.to_nat off));
        record_chunk root i (patch (zeros ln) 0 data)
  end.

(** The body of [putChunked] once [f] is open. *)
Definition put_opened (root f : path) (base : option Manifest) : M world (string * Z) :=
  fi ← fd_stat f;
  let sz := f_size fi in
  spans ← dataSpans f sz;
  let n := Z.to_nat (chunkCount sz) in
  sh ← with_local (replicate n "", ∅) (parallel n (put_chunk root f sz spans base));
  hash ← putManifest root (mkManifest 1 sz ChunkSize (fst sh));
  mret (hash, Z.of_nat (size (snd sh))).

Definition putChunked (root p : path) (base : option Manifest) : M world (string * Z) :=
  f ← os_Open p;
  r ← attempt (put_opened root f base);
  ignore (fd_close f);;
  of_sum r.

Definition PutChunked (root p : path) : M world (string * Z) := putChunked root p None.

Definition PutChunkedOverlay (root p : path) (baseHash : string) : M world (string * Z) :=
  base ← ReadManifest root baseHash;
  putChunked root p (Some base).

(** ** Writing an image back *)

(** The function [GetChunkedTo] hands to [parallel]. *)
Definition get_chunk (root out : path) (hash : string) (m : Manifest) (zero : gset string)
    (i : nat) : M world unit :=
  match m_Chunks m !! i with
  | None => panic
  | Some c =>
      if decide (c ∈ zero) then mret tt else
      r ← attempt (Get root c);
      match r with
      | inl e => throw (if errors_Is e ErrNotFound
                        then Errorf ("chunk " +:+ c +:+ " of " +:+ hash +:+ " is missing") else e)
      | inr b => fd_write_at out b (Z.to_nat (Z.of_nat i * ChunkSize))
      end
  end.

(** The hashes of empty chunks; an error leaves the empty string. *)
Definition zero_names (root : path) (m : Manifest) : M world (gset string) :=
  if decide (m_Chunks m = []) then mret ∅ else
  z ← attempt (zeroHash root (chunkLen (m_Size m) 0));
  zl ← attempt (zeroHash root (chunkLen (m_Size m) (Z.of_nat (length (m_Chunks m)) - 1)));
  mret {[ match z with inl _ => "" | inr h => h end; match zl with inl _ => "" | inr h => h end ]}.

Definition GetChunkedTo (root : path) (hash : string) (p : path) : M world unit :=
  m ← ReadManifest root hash;
  zero ← zero_names root m;
  let tmp := with_suffix p ".tmp" in
  out ← os_Create tmp 0x1b6;
  t ← attempt (fd_truncate out (m_Size m));
  match t with
  | inl e => ignore (fd_close out);; throw e
  | inr _ =>
      r ← attempt (parallel (length (m_Chunks m)) (get_chunk root out hash m zero));
      c ← attempt (fd_close out);
      match (match r with inl e => inl e | inr _ => c end) with
      | inl e => ignore (os_Remove tmp);; throw e
      | inr _ => os_Rename tmp p
      end
  end.

End chunked.
End Chunked.
