(* ===== verification/ChunkedFacts.v ===== *)
(** * Correctness of chunked images

    The data regions [dataSpans] finds are exactly the written cells of the
    file; storing an image and writing it back gives the image; an overlay
    stores the base with the written cells laid over it. *)

From S2P Require Import Prelude Sha256 Os OsFacts Parallel Cas Blobs Chunked.
Import Cas Chunked.
Open Scope Z_scope.

Lemma ChunkSize_pos : 0 < ChunkSize.
Proof. done. Qed.
#[global] Opaque ChunkSize.

Definition csize : nat := Z.to_nat ChunkSize.
Lemma csize_Z : Z.of_nat csize = ChunkSize.
Proof. unfold csize. pose proof ChunkSize_pos. lia. Qed.
Lemma csize_pos : (0 < csize)%nat.
Proof. pose proof csize_Z. pose proof ChunkSize_pos. lia. Qed.
#[global] Opaque csize.

(** ** Images as lists of chunks *)

Definition chunk_at (img : bytes) (i : nat) : bytes := take csize (drop (i * csize) img).
Definition chunk_num (img : bytes) : nat := Z.to_nat (chunkCount (Z.of_nat (length img))).

(** The manifest of an image. *)
Definition manifest_of (img : bytes) : Manifest :=
  mkManifest 1 (Z.of_nat (length img)) ChunkSize (hashOf ∘ chunk_at img <$> seq 0 (chunk_num img)).

Lemma chunk_num_spec (n i : nat) :
  (i < Z.to_nat (chunkCount (Z.of_nat n)) ↔ i * csize < n)%nat.
Proof.
  pose proof csize_Z as Hc. pose proof ChunkSize_pos as Hp. unfold chunkCount.
  rewrite Z.quot_div_nonneg by lia.
  pose proof (Z.div_mod (Z.of_nat n + ChunkSize - 1) ChunkSize ltac:(lia)) as Hd.
  pose proof (Z.mod_pos_bound (Z.of_nat n + ChunkSize - 1) ChunkSize Hp) as Hm.
  set (q := (Z.of_nat n + ChunkSize - 1) / ChunkSize) in *.
  assert (0 ≤ q) by (apply Z.div_pos; lia).
  assert (Z.of_nat (i * csize) = Z.of_nat i * ChunkSize) as He by lia.
  split; intros Hi.
  - assert (Z.of_nat i + 1 ≤ q) by lia. nia.
  - assert (Z.of_nat i * ChunkSize < Z.of_nat n) by lia. assert (Z.of_nat i < q) by nia. lia.
Qed.

Lemma chunk_len_spec (n i : nat) :
  (i * csize < n)%nat → chunkLen (Z.of_nat n) (Z.of_nat i) = Z.of_nat (Nat.min csize (n - i * csize)).
Proof. pose proof csize_Z as Hc. intros Hi. unfold chunkLen. case_decide; nia. Qed.

Lemma chunk_at_lookup img i k :
  chunk_at img i !! k = if decide (k < csize)%nat then img !! (i * csize + k)%nat else None.
Proof.
  unfold chunk_at. case_decide.
  - by rewrite lookup_take_lt, lookup_drop.
  - by rewrite lookup_take_ge by lia.
Qed.

Lemma chunk_at_length img i : length (chunk_at img i) = Nat.min csize (length img - i * csize).
Proof. unfold chunk_at. by rewrite length_take, length_drop. Qed.

Lemma chunk_len_at img i :
  (i < chunk_num img)%nat → chunkLen (Z.of_nat (length img)) (Z.of_nat i) = Z.of_nat (length (chunk_at img i)).
Proof. intros Hi%chunk_num_spec. by rewrite chunk_len_spec, chunk_at_length. Qed.

Lemma manifest_chunk img i :
  (i < chunk_num img)%nat → m_Chunks (manifest_of img) !! i = Some (hashOf (chunk_at img i)).
Proof. intros Hi. simpl. rewrite list_lookup_fmap, lookup_seq_lt by done. done. Qed.

Lemma manifest_chunks_length img : length (m_Chunks (manifest_of img)) = chunk_num img.
Proof. simpl. by rewrite length_fmap, length_seq. Qed.

(** A position below the end lies in exactly one chunk. *)
Lemma chunk_of_pos img k :
  (k < length img)%nat → (k / csize < chunk_num img)%nat ∧ (k = (k / csize) * csize + k mod csize)%nat ∧ (k mod csize < csize)%nat.
Proof.
  pose proof csize_pos as Hc. intros Hk.
  pose proof (Nat.div_mod k csize ltac:(lia)) as Hd. pose proof (Nat.mod_upper_bound k csize ltac:(lia)) as Hm.
  split_and!; [|lia|done]. apply chunk_num_spec. lia.
Qed.

Lemma zeros_lookup n k : (k < Z.to_nat n)%nat → zeros n !! k = Some x00.
Proof. intros. unfold zeros. by apply lookup_replicate_2. Qed.

Lemma overlay_length base cells : length base = length cells → length (overlay base cells) = length cells.
Proof. intros He. unfold overlay. rewrite length_zip_with. lia. Qed.

Lemma overlay_lookup base cells k :
  overlay base cells !! k = (b ← base !! k; c ← cells !! k; Some (default b c)).
Proof. unfold overlay. apply lookup_zip_with. Qed.

Lemma overlay_zeros cells : overlay (zeros (Z.of_nat (length cells))) cells = default x00 <$> cells.
Proof.
  apply list_eq. intros k. rewrite overlay_lookup, list_lookup_fmap. unfold zeros. rewrite Nat2Z.id.
  destruct (cells !! k) as [c|] eqn:E; simpl.
  - apply lookup_lt_Some in E as Hk. rewrite lookup_replicate_2 by done. done.
  - by destruct (replicate _ _ !! k).
Qed.

Lemma patch_length b k data : (k + length data ≤ length b)%nat → length (patch b k data) = length b.
Proof. intros. unfold patch. rewrite !length_app, length_take, length_drop. lia. Qed.

(** A patch inside the slice does not depend on its capacity. *)
Lemma patch_within b t k data : (k + length data ≤ length b)%nat → take (length b) (patch (b ++ t) k data) = patch b k data.
Proof.
  intros Hk. unfold patch. rewrite (take_app_le b), (drop_app_le b) by lia.
  rewrite !app_assoc. apply take_app_length'. rewrite !length_app, length_take, length_drop. lia.
Qed.

Lemma patch_lookup b k data j :
  (k + length data ≤ length b)%nat →
  patch b k data !! j = if decide (k ≤ j < k + length data)%nat then data !! (j - k)%nat else b !! j.
Proof.
  intros Hk. unfold patch. case_decide as Hd.
  - rewrite lookup_app_r by (rewrite length_take; lia). rewrite length_take.
    rewrite lookup_app_l by lia. f_equal. lia.
  - destruct (decide (j < k)%nat).
    + rewrite lookup_app_l by (rewrite length_take; lia). by rewrite lookup_take_lt.
    + rewrite lookup_app_r by (rewrite length_take; lia). rewrite length_take.
      rewrite lookup_app_r by lia. rewrite lookup_drop. f_equal. lia.
Qed.

(** ** Data regions *)

Definition is_data (cells : list (option byte)) (k : Z) : Prop :=
  0 ≤ k ∧ ∃ b, cells !! Z.to_nat k = Some (Some b).
Definition in_spans (spans : list span) (k : Z) : Prop := ∃ sp, sp ∈ spans ∧ fst sp ≤ k < snd sp.

Record spans_ok (cells : list (option byte)) (spans : list span) (exact : Prop) : Prop := {
  so_bound : ∀ sp, sp ∈ spans → 0 ≤ fst sp ∧ fst sp < snd sp ∧ snd sp ≤ Z.of_nat (length cells);
  so_cover : ∀ k, is_data cells k → in_spans spans k;
  so_exact : exact → ∀ k, in_spans spans k → is_data cells k
}.

Lemma seek_data_spec cells off :
  match seek_data cells off with
  | inr s => (off ≤ s < length cells)%nat ∧ is_data cells (Z.of_nat s) ∧
             ∀ k, Z.of_nat off ≤ k < Z.of_nat s → ¬ is_data cells k
  | inl e => e = ENXIO ∧ ∀ k, Z.of_nat off ≤ k → ¬ is_data cells k
  end.
Proof.
  unfold seek_data. destruct (list_find is_Some (drop off cells)) as [[j c]|] eqn:E.
  - apply list_find_Some in E as (Hj & [b ->] & Hbefore). rewrite lookup_drop in Hj. split_and!.
    + lia.
    + by apply lookup_lt_Some in Hj.
    + split; [lia|]. exists b. by rewrite Nat2Z.id.
    + intros k Hk [_ [b' Hb']]. apply (Hbefore (Z.to_nat k - off)%nat (Some b')); [|lia|by eexists].
      rewrite lookup_drop, <- Hb'. f_equal. lia.
  - split; [done|]. intros k Hk [_ [b Hb]]. apply list_find_None in E. rewrite Forall_forall in E.
    apply (E (Some b)); [|by eexists]. apply list_elem_of_lookup. exists (Z.to_nat k - off)%nat.
    rewrite lookup_drop, <- Hb. f_equal. lia.
Qed.

Lemma seek_hole_spec cells off :
  (off < length cells)%nat → is_data cells (Z.of_nat off) →
  ∃ s, seek_hole cells off = inr s ∧ (off < s ≤ length cells)%nat ∧
    ∀ k, Z.of_nat off ≤ k < Z.of_nat s → is_data cells k.
Proof.
  intros Hoff [_ [b0 Hb0]]. rewrite Nat2Z.id in Hb0. unfold seek_hole. rewrite decide_False by lia.
  assert (∀ k c, cells !! k = Some c → c ≠ None → is_data cells (Z.of_nat k)) as Hd.
  { intros k [b|] Hk Hne; [|done]. split; [lia|]. exists b. by rewrite Nat2Z.id. }
  destruct (list_find (λ c, c = None) (drop off cells)) as [[j c]|] eqn:E.
  - apply list_find_Some in E as (Hj & -> & Hbefore). rewrite lookup_drop in Hj.
    apply lookup_lt_Some in Hj as Hlen. exists (off + j)%nat. split_and!; [done| |lia|].
    + destruct j; [|lia]. rewrite Nat.add_0_r in Hj. congruence.
    + intros k Hk. destruct (lookup_lt_is_Some_2 cells (Z.to_nat k)) as [c Hc]; [lia|].
      rewrite <- (Z2Nat.id k) by lia. eapply Hd; [done|]. apply (Hbefore (Z.to_nat k - off)%nat c); [|lia].
      rewrite lookup_drop, <- Hc. f_equal. lia.
  - exists (length cells). split_and!; [done|lia|lia|]. intros k Hk.
    destruct (lookup_lt_is_Some_2 cells (Z.to_nat k)) as [c Hc]; [lia|].
    rewrite <- (Z2Nat.id k) by lia. eapply Hd; [done|]. apply list_find_None in E.
    rewrite Forall_forall in E. apply E. apply list_elem_of_lookup. exists (Z.to_nat k - off)%nat.
    rewrite lookup_drop, <- Hc. f_equal. lia.
Qed.

Lemma overlaps_spec spans a b :
  overlaps spans a b = true ↔ ∃ sp, sp ∈ spans ∧ fst sp < b ∧ snd sp > a.
Proof.
  induction spans as [|[s e] spans IH]; simpl.
  - split; [done|]. intros (sp & Hsp & _). by apply not_elem_of_nil in Hsp.
  - destruct (bool_decide (s < b) && bool_decide (e > a)) eqn:E.
    + apply andb_true_iff in E as [?%bool_decide_eq_true ?%bool_decide_eq_true]. split; [|done].
      intros _. exists (s, e). split; [left|done].
    + rewrite IH. apply andb_false_iff in E. rewrite !bool_decide_eq_false in E.
      split; intros (sp & Hsp & ?); [exists sp; split; [by right|done]|].
      apply elem_of_cons in Hsp as [->|Hsp]; [simpl in *; lia|]. eauto.
Qed.

(** ENXIO only means what the kernel means by it. *)
Definition honest `{OsEnv} : Prop := ∀ n, fault n ≠ Some ENXIO.

Lemma quiet_honest `{OsEnv} : quiet → honest.
Proof. intros Hq n. by rewrite Hq. Qed.

Section specs.
Context `{OsEnv, Sched, GoJSON Manifest}.
Implicit Types (w : world) (σ : fs) (root : path).

Lemma wp_sys_read_fault {A} (op : fs → errno + A) Q w :
  (∀ e, fault (w_tick w) = Some e → Q (inl (Errno e)) (tick w)) →
  Q (lift_errno (op (w_fs w))) (tick w) → wp (sys_read op) Q w.
Proof.
  intros Hf Hq. unfold wp, sys_read, sys. destruct (fault (w_tick w)) as [e|] eqn:E; [by apply Hf|].
  rewrite set_fs_id. by destruct (op (w_fs w)).
Qed.

(** What the loop of [dataSpans] has established when it is at [off]. *)
Record spans_upto (cells : list (option byte)) (off : Z) (out : list span) : Prop := {
  su_bound : ∀ sp, sp ∈ out → 0 ≤ fst sp ∧ fst sp < snd sp ∧ snd sp ≤ Z.of_nat (length cells);
  su_cover : ∀ k, k < off → is_data cells k → in_spans out k;
  su_exact : quiet → ∀ k, in_spans out k → is_data cells k
}.

Lemma is_data_lt cells k : is_data cells k → k < Z.of_nat (length cells).
Proof. intros [? [b Hb]]. apply lookup_lt_Some in Hb. lia. Qed.

Lemma in_spans_snoc out sp k : in_spans (out ++ [sp]) k ↔ in_spans out k ∨ fst sp ≤ k < snd sp.
Proof.
  unfold in_spans. split.
  - intros (sp' & [?| ->%list_elem_of_singleton]%elem_of_app & ?); eauto.
  - intros [(sp' & ? & ?)|?]; [exists sp'|exists sp]; rewrite elem_of_app, list_elem_of_singleton; auto.
Qed.

Lemma spans_upto_end cells off out :
  spans_upto cells off out → (∀ k, off ≤ k → ¬ is_data cells k) → spans_ok cells out quiet.
Proof.
  intros [Hb Hc He] Hrest. split; try done. intros k Hk. destruct (decide (k < off)); [by apply Hc|].
  exfalso. by apply (Hrest k); [lia|].
Qed.

Lemma spans_upto_snoc cells off out (s e : Z) :
  spans_upto cells off out → 0 ≤ s < e → e ≤ Z.of_nat (length cells) →
  (∀ k, off ≤ k < s → ¬ is_data cells k) → (quiet → ∀ k, s ≤ k < e → is_data cells k) →
  spans_upto cells e (out ++ [(s, e)]).
Proof.
  intros [Hb Hc He] Hse Hlen Hgap Hdata. split.
  - intros sp [Hsp| ->%list_elem_of_singleton]%elem_of_app; [by apply Hb|]. simpl. lia.
  - intros k Hk Hd. apply in_spans_snoc. destruct (decide (k < off)); [left; by apply Hc|].
    right. simpl. destruct (decide (s ≤ k)); [lia|]. exfalso. by apply (Hgap k); [lia|].
  - intros Hq k [Hk|Hk]%in_spans_snoc; [by apply He|]. by apply Hdata.
Qed.

Lemma spans_ok_whole cells :
  ¬ quiet → cells ≠ [] → spans_ok cells [(0, Z.of_nat (length cells))] quiet.
Proof.
  intros Hnq Hne. assert (0 < length cells)%nat by (destruct cells; simpl; [done|lia]). split.
  - intros sp ->%list_elem_of_singleton. simpl. lia.
  - intros k Hk. exists (0, Z.of_nat (length cells)). split; [by apply list_elem_of_singleton|].
    simpl. split; [apply Hk|by apply is_data_lt].
  - done.
Qed.

Definition same_files w w' : Prop := w_fs w' = w_fs w ∧ w_zero w' = w_zero w.

Lemma wp_data_spans fuel f fl off out w :
  honest → w_fs w !! f = Some (NFile fl) → 0 ≤ off → (Z.to_nat (f_size fl - off) ≤ fuel)%nat →
  spans_upto (f_cells fl) off out →
  wp (data_spans fuel f (f_size fl) off out)
     (λ r w', same_files w w' ∧ ∃ spans, r = inr spans ∧ spans_ok (f_cells fl) spans quiet) w.
Proof.
  intros Hh. revert off out w. induction fuel as [|fuel IH]; intros off out w Hf Hoff Hfuel Hup; simpl.
  all: case_decide as Hlt; [|wp_step; split; [done|]; exists out; split; [done|];
    eapply spans_upto_end; [done|]; intros k Hk Hd%is_data_lt; unfold f_size in Hlt; lia].
  { lia. }
  assert (f_cells fl ≠ []) as Hne by (intros He; unfold f_size in Hlt; rewrite He in Hlt; simpl in Hlt; lia).
  wp_step. wp_step. apply wp_sys_read_fault.
  { intros e He. rewrite decide_False by (intros [= ->]; by apply (Hh (w_tick w))).
    wp_step. split; [done|]. eexists. split; [done|]. apply spans_ok_whole; [|done].
    intros Hq. by rewrite Hq in He. }
  unfold file_at. rewrite Hf. simpl. pose proof (seek_data_spec (f_cells fl) (Z.to_nat off)) as Hsd.
  destruct (seek_data (f_cells fl) (Z.to_nat off)) as [e|s]; simpl.
  { destruct Hsd as [-> Hsd]. rewrite decide_True by done. wp_step. split; [done|]. exists out. split; [done|].
    eapply spans_upto_end; [done|]. intros k Hk. apply Hsd. lia. }
  destruct Hsd as (Hs & Hds & Hgap). wp_step. wp_step.
  assert (∀ e w1, Z.of_nat s < e → e ≤ f_size fl →
    (quiet → ∀ k, Z.of_nat s ≤ k < e → is_data (f_cells fl) k) → same_files w w1 →
    wp (data_spans fuel f (f_size fl) e (out ++ [(Z.of_nat s, e)]))
     (λ r w', same_files w w' ∧ ∃ spans, r = inr spans ∧ spans_ok (f_cells fl) spans quiet) w1) as Hnext.
  { intros e w1 He1 He2 Hex [Hw1 Hz1]. eapply wp_mono; [apply IH|].
    - by rewrite Hw1.
    - lia.
    - lia.
    - eapply spans_upto_snoc; [done|lia|done| |done]. intros k Hk. apply Hgap. lia.
    - intros r w' [[??] Hr]. split; [split; congruence|done]. }
  apply wp_sys_read_fault.
  - intros e He. apply Hnext; [unfold f_size; lia|done| |done]. intros Hq. by rewrite Hq in He.
  - simpl. unfold file_at. rewrite Hf. simpl. rewrite Nat2Z.id.
    destruct (seek_hole_spec (f_cells fl) s) as (e & -> & He & Hex); [lia|done|]. simpl.
    rewrite decide_False by (unfold f_size; lia). apply Hnext; [lia|unfold f_size; lia| |done].
    intros _ k Hk. apply Hex. lia.
Qed.

Lemma wp_dataSpans f fl w :
  honest → w_fs w !! f = Some (NFile fl) →
  wp (dataSpans f (f_size fl))
     (λ r w', same_files w w' ∧ ∃ spans, r = inr spans ∧ spans_ok (f_cells fl) spans quiet) w.
Proof.
  intros Hh Hf. apply wp_data_spans; [done|done|lia|lia|]. split; [by intros sp ?%not_elem_of_nil|..].
  - intros k Hk [? _]. lia.
  - intros _ k (sp & Hsp%not_elem_of_nil & _). done.
Qed.

(** ** The contents of a chunk *)

Section content.
Context (fl : file) (cells : list (option byte)) (spans : list span) (base_img : bytes) (i : nat).
(** [cells] is a view of the file in which [spans] are the data: its own cells,
    or all of it where the holes cannot be told. *)
Context (Hview : contents fl = default x00 <$> cells) (Hok : spans_ok cells spans quiet).
Context (Hlen : length base_img = length cells) (Hi : (i < chunk_num base_img)%nat).
Let img := overlay base_img cells.
Let off := Z.of_nat i * ChunkSize.
Let ln := chunkLen (f_size fl) (Z.of_nat i).

Lemma view_size : f_size fl = Z.of_nat (length cells).
Proof. apply (f_equal length) in Hview. unfold contents in Hview. rewrite !length_fmap in Hview. unfold f_size. by rewrite Hview. Qed.

Lemma off_nat : off = Z.of_nat (i * csize).
Proof. unfold off. pose proof csize_Z. lia. Qed.

Lemma ln_nat : ln = Z.of_nat (length (chunk_at base_img i)) ∧ (length (chunk_at base_img i) ≤ csize)%nat ∧
  off + ln ≤ f_size fl ∧ 0 < ln.
Proof.
  unfold ln. rewrite view_size, <- Hlen, chunk_len_at by done. pose proof Hi as Hi'. apply chunk_num_spec in Hi'.
  rewrite off_nat, chunk_at_length. pose proof csize_pos. lia.
Qed.

Lemma img_chunk_length : length (chunk_at img i) = length (chunk_at base_img i).
Proof. rewrite !chunk_at_length. unfold img. by rewrite overlay_length, Hlen. Qed.

Lemma contents_lookup k : contents fl !! k = default x00 <$> cells !! k.
Proof. by rewrite Hview, list_lookup_fmap. Qed.

(** A cell of the image comes from the file where there is data, from the base
    elsewhere. *)
Lemma img_cell (k : nat) :
  (k < length (chunk_at base_img i))%nat →
  (is_data cells (off + Z.of_nat k) → chunk_at img i !! k = contents fl !! (i * csize + k)%nat) ∧
  (¬ is_data cells (off + Z.of_nat k) → chunk_at img i !! k = chunk_at base_img i !! k).
Proof.
  intros Hk. destruct ln_nat as (Hln & Hcs & Hsz & _). rewrite !chunk_at_lookup, !decide_True by lia.
  rewrite contents_lookup. unfold img. rewrite overlay_lookup. unfold is_data. rewrite off_nat.
  replace (Z.to_nat (Z.of_nat (i * csize) + Z.of_nat k)) with (i * csize + k)%nat by lia.
  assert (i * csize + k < length cells)%nat as Hlt by (rewrite off_nat, view_size in Hsz; lia).
  destruct (lookup_lt_is_Some_2 cells (i * csize + k)) as [c Hc]; [done|].
  destruct (lookup_lt_is_Some_2 base_img (i * csize + k)) as [b Hb]; [lia|]. rewrite Hc, Hb. simpl.
  split; [intros [_ [b' [= ->]]]; done|]. intros Hnd. destruct c as [b'|]; [|done].
  exfalso. apply Hnd. split; [lia|]. by exists b'.
Qed.

Lemma chunk_untouched : overlaps spans off (off + ln) = false → chunk_at img i = chunk_at base_img i.
Proof.
  intros Ho. destruct ln_nat as (Hln & _). apply list_eq. intros k.
  destruct (decide (k < length (chunk_at base_img i))%nat) as [Hk|Hk].
  - apply img_cell; [done|]. intros Hd. destruct (so_cover _ _ _ Hok _ Hd) as (sp & Hsp & Hin).
    apply not_true_iff_false in Ho. apply Ho, overlaps_spec. exists sp. split; [done|]. lia.
  - rewrite !lookup_ge_None_2; [done|lia|rewrite img_chunk_length; lia].
Qed.

Lemma chunk_read :
  chunk_at base_img i = zeros ln →
  patch (zeros ln) 0 (take (Z.to_nat ln) (drop (Z.to_nat off) (contents fl))) = chunk_at img i.
Proof.
  intros Hz. destruct ln_nat as (Hln & Hcs & Hsz & _).
  assert (length (contents fl) = length cells) as Hcl by (rewrite Hview; apply length_fmap).
  assert (length (take (Z.to_nat ln) (drop (Z.to_nat off) (contents fl))) = Z.to_nat ln) as Hl.
  { rewrite length_take, length_drop, Hcl. rewrite view_size in Hsz. rewrite off_nat in *. lia. }
  unfold patch. rewrite Hl, (drop_ge (zeros ln)), app_nil_r by (unfold zeros; rewrite length_replicate; lia). simpl.
  apply list_eq. intros k. destruct (decide (k < Z.to_nat ln)%nat) as [Hk|Hk].
  2:{ rewrite !lookup_ge_None_2; [done|rewrite img_chunk_length; lia|lia]. }
  destruct (img_cell k) as [Hd Hn]; [lia|]. rewrite lookup_take_lt, lookup_drop, off_nat, Nat2Z.id by done.
  rewrite off_nat, Hz, zeros_lookup in Hn by done. rewrite off_nat in Hd.
  destruct (cells !! (i * csize + k)%nat) as [[x|]|] eqn:E.
  - symmetry. apply Hd. split; [lia|]. exists x. rewrite <- E. f_equal. lia.
  - rewrite contents_lookup, E. symmetry. apply Hn. intros [_ [x Hx]]. replace (Z.to_nat (Z.of_nat (i * csize) + Z.of_nat k)) with (i * csize + k)%nat in Hx by lia. congruence.
  - apply lookup_ge_None in E. rewrite off_nat, view_size in Hsz. lia.
Qed.

End content.

Context (U : bytes → Prop) {NC : NoCollision U}.

Lemma grows_read_at root h f n off w :
  store_inv U root (w_fs w) → w_fs w !! h = Some (NFile f) →
  wp (fd_read_at h n off) (grows U root w (λ b w', b = take n (drop off (contents f)) ∧ same_files w w')) w.
Proof.
  intros Hi Hh. apply (wp_read_at h f); [done|intros e Hq|]; apply grows_unchanged; try done.
  - by intros ? [= <-].
  - eauto.
Qed.

(** The overlay loop rebuilds the chunk of the image. *)
Lemma grows_overlay_spans root f fl cells spans base_img i w :
  store_inv U root (w_fs w) → w_fs w !! f = Some (NFile fl) → quiet → contents fl = default x00 <$> cells →
  spans_ok cells spans quiet → length base_img = length cells → (i < chunk_num base_img)%nat →
  wp (overlay_spans f (Z.of_nat i * ChunkSize) (chunkLen (f_size fl) (Z.of_nat i)) spans (chunk_at base_img i))
     (grows U root w (λ b w', b = chunk_at (overlay base_img cells) i ∧ w_fs w' = w_fs w)) w.
Proof.
  intros Hi Hf Hq Hview Hok Hlen Hn. pose proof (view_size fl cells Hview) as Hvs.
  destruct (ln_nat fl cells base_img i Hview Hlen Hn) as (Hln & Hcs & Hsz & Hpos).
  assert (Z.of_nat i * ChunkSize = Z.of_nat (i * csize)) as Hoff by (pose proof csize_Z; lia). pose proof csize_Z as Hcz.
  set (off := Z.of_nat i * ChunkSize) in *. set (ln := chunkLen (f_size fl) (Z.of_nat i)) in *.
  eapply wp_fold_m with (I := λ done b w1, w_fs w1 = w_fs w ∧ w_zero w1 = w_zero w ∧
    length b = length (chunk_at base_img i) ∧ ∀ k, (k < length b)%nat →
      (in_spans done (off + Z.of_nat k) → b !! k = contents fl !! (i * csize + k)%nat) ∧
      (¬ in_spans done (off + Z.of_nat k) → b !! k = chunk_at base_img i !! k)).
  - split_and!; [done..|]. intros k Hk. split; [|intros _; reflexivity]. intros (sp & []%not_elem_of_nil & _).
  - intros dn sp todo b w1 Hspl (Hfs & Hz & Hbl & Hb). cbv beta zeta.
    destruct (so_bound _ _ _ Hok sp) as (Hs0 & Hse & He).
    { rewrite Hspl. apply elem_of_app. right. left. }
    assert (max64 (fst sp) off = Z.max (fst sp) off) as -> by (unfold max64; case_decide; lia).
    assert (min64 (snd sp) (off + ln) = Z.min (snd sp) (off + ln)) as -> by (unfold min64; case_decide; lia).
    case_decide as Ha; [rewrite decide_False by (unfold read_cap; lia)|].
    + wp_step. apply (wp_read_at f fl); [by rewrite Hfs|by intros e []|]. wp_step. split_and!; [done..| |].
      all: set (a := Z.max (fst sp) off) in *; set (e := Z.min (snd sp) (off + ln)) in *.
      all: assert (length (take (Z.to_nat (e - a)) (drop (Z.to_nat a) (contents fl))) = Z.to_nat (e - a)) as Hdl
        by (rewrite length_take, length_drop, Hview, length_fmap; lia).
      all: rewrite patch_within by lia.
      { rewrite patch_length; [done|]. lia. }
      rewrite patch_length by lia. intros k Hk. rewrite in_spans_snoc, patch_lookup, Hdl by lia.
      case_decide as Hin.
      * split; [intros _|intros []; right; lia]. rewrite lookup_take_lt, lookup_drop by lia. f_equal. lia.
      * destruct (Hb k Hk) as [Hb1 Hb2]. split; [intros [?|?]; [auto|lia]|]. intros Hno. apply Hb2. tauto.
    + wp_step. split_and!; [done..|]. intros k Hk. rewrite in_spans_snoc.
      destruct (Hb k Hk) as [Hb1 Hb2]. split; [intros [?|?]; [auto|lia]|]. intros Hno. apply Hb2. tauto.
  - intros b w1 (Hfs & Hz & Hbl & Hb). apply grows_unchanged; [exact Hi|exact Hfs|exact Hz| |eauto].
    intros ? [= <-]. split; [|exact Hfs]. apply list_eq. intros k. destruct (decide (k < length b)%nat) as [Hk|Hk].
    + destruct (Hb k Hk) as [Hb1 Hb2]. destruct (img_cell fl cells base_img i Hview Hlen Hn k) as [Hc1 Hc2]; [lia|].
      destruct (cells !! Z.to_nat (off + Z.of_nat k)) as [[c|]|] eqn:E.
      * assert (is_data cells (off + Z.of_nat k)) as Hd by (split; [lia|by exists c]).
        rewrite Hc1 by done. apply Hb1. by apply Hok.
      * assert (¬ is_data cells (off + Z.of_nat k)) as Hd by (intros [_ [? ?]]; congruence).
        rewrite Hc2 by done. apply Hb2. intros Hin. by apply Hd, Hok.
      * assert (¬ is_data cells (off + Z.of_nat k)) as Hd by (intros [_ [? ?]]; congruence).
        rewrite Hc2 by done. apply Hb2. intros Hin. by apply Hd, Hok.
    + rewrite !lookup_ge_None_2; [done|rewrite img_chunk_length by done; lia|lia].
Qed.

(** ** Storing one chunk *)

Lemma grows_zero_put root n w :
  store_inv U root (w_fs w) → 0 ≤ n → U (zeros n) →
  wp (zero_put root n) (grows U root w (λ h w', h = hashOf (zeros n) ∧ stored (w_fs w') root (zeros n))) w.
Proof.
  intros Hi Hn HU. unfold zero_put. rewrite decide_False by lia.
  eapply grows_bind; [by apply grows_Put|]. intros h w1 Hg.
  destruct (gr_post _ _ _ _ _ _ Hg h eq_refl) as [-> Hst]. pose proof (gr_step _ _ _ _ _ _ Hg) as [Hi1 _ _].
  unfold wp, memo_zero. simpl. split; simpl; [by apply store_step_refl| |by intros ? [= <-]|eauto].
  intros Hm k h. simpl. rewrite lookup_insert. case_decide as He; [intros [= <-]; by subst|apply Hm].
Qed.

Lemma grows_zeroHash root n w :
  store_inv U root (w_fs w) → memo_ok w → 0 ≤ n → U (zeros n) →
  wp (zeroHash root n) (grows U root w (λ h w', h = hashOf (zeros n) ∧ stored (w_fs w') root (zeros n))) w.
Proof.
  intros Hi Hm Hn HU. unfold zeroHash. wp_step. unfold wp at 1. simpl.
  destruct (w_zero w !! n) as [h|] eqn:E; [|by apply grows_zero_put].
  apply Hm in E as ->. eapply grows_bind; [apply grows_Has; [done|apply hashOf_digest]|].
  intros b w1 Hg. destruct (gr_post _ _ _ _ _ _ Hg b eq_refl) as (Hfs & Hyes & _). rewrite <- Hfs in Hi.
  destruct b; [|by apply grows_zero_put]. wp_step. apply grows_ret; [done|]. split; [done|].
  destruct (Hyes eq_refl) as [c Hc]. unfold stored. change (replicate _ _) with (zeros n) in Hc.
  rewrite Hfs, Hc. f_equal. rewrite Hfs in Hi. by eapply blob_same.
Qed.

(** [storeChunk] always returns; its error is a value. *)
Definition store_outcome root w b (r : gerr + (string * bool * option gerr)) w' : Prop :=
  ∃ isNew err, r = inr (hashOf b, isNew, err) ∧
    (isNew = true → quiet → blob_of (w_fs w) root (hashOf b) = None) ∧
    grows U root w (λ _ w', stored (w_fs w') root b)
      (match err with Some e => inl e | None => inr tt end) w'.

Lemma grows_tick {A} root w (Post : A → world → Prop) r w' :
  grows U root (tick w) Post r w' → grows U root w Post r w'.
Proof. by intros [Hs Hm Hp Hl]. Qed.

Lemma wp_storeChunk root b w :
  store_inv U root (w_fs w) → U b → wp (storeChunk root b) (store_outcome root w b) w.
Proof.
  intros Hi HU. unfold storeChunk. wp_step. apply wp_Has; [apply Hi|apply hashOf_digest|..].
  - intros [c Hc]. wp_step. exists false, None. split_and!; [done..|]. apply grows_tick, grows_ret; [done|].
    unfold stored. simpl. rewrite Hc. f_equal. by eapply blob_same.
  - intros Hnone. wp_step. wp_step. eapply wp_mono; [by apply grows_Put|]. intros [e|h] w1 Hg; wp_step.
    + exists true, (Some e). split_and!; [done..|]. by eapply grows_tick, grows_fail.
    + exists true, None. split_and!; [done..|]. apply grows_tick.
      destruct (gr_post _ _ _ _ _ _ Hg h eq_refl) as [_ Hst]. destruct Hg as [Hs Hm _ Hl].
      split; [done|done|done|]. intros Hlive. split; [by apply Hl|eauto].
Qed.

(** What a worker leaves in the shared variables for its chunk [b]. *)
Definition recorded root w (i : nat) (b : bytes) (cs : list string) (fr : gset string)
    (sh : shared) (w' : world) : Prop :=
  stored (w_fs w') root b ∧ fst sh = <[i := hashOf b]> cs ∧
  (snd sh = fr ∨ snd sh = {[hashOf b]} ∪ fr ∧ (quiet → blob_of (w_fs w) root (hashOf b) = None)).

Definition chunk_outcome root w i b cs fr (r : gerr + ()) (sx : world * shared) : Prop :=
  grows U root w (λ _ w', recorded root w i b cs fr (snd sx) w') r (fst sx).

Lemma wp_record_chunk root i b w cs fr :
  store_inv U root (w_fs w) → U b →
  wp (record_chunk root i b) (chunk_outcome root w i b cs fr) (w, (cs, fr)).
Proof.
  intros Hi HU. unfold record_chunk. wp_step. wp_step. eapply wp_mono; [by apply wp_storeChunk|].
  intros r w1 (isNew & err & -> & Hnew & Hg). wp_step. unfold set_chunk. wp_step. wp_step.
  assert (∀ fr', (fr' = fr ∨ fr' = {[hashOf b]} ∪ fr ∧ (quiet → blob_of (w_fs w) root (hashOf b) = None)) →
    wp (match err with Some e => throw e | None => mret tt end) (chunk_outcome root w i b cs fr)
      (w1, (<[i := hashOf b]> cs, fr'))) as Hend.
  { intros fr' Hfr. destruct err as [e|]; wp_step; [by eapply grows_fail|].
    eapply grows_weaken; [exact Hg|]. intros [] _ Hst. by split_and!. }
  destruct isNew; wp_step; apply Hend; [right|left]; auto.
Qed.

(** The base image a file of [n] bytes is laid over: the stored image if it is of
    that size; of a stored image of another size only the chunks that both have
    whole are kept, and the rest is zero. *)
Definition rebased (old : bytes) (n : nat) : bytes :=
  if decide (length old = n) then old
  else let k := (Nat.min n (length old) / csize * csize)%nat in take k old ++ replicate (n - k) x00.

Lemma rebased_same old : rebased old (length old) = old.
Proof. unfold rebased. by rewrite decide_True. Qed.

(** A base of another size that shares no whole chunk with the file is dropped. *)
Lemma rebased_small old n : length old ≠ n → (Nat.min n (length old) < csize)%nat → rebased old n = replicate n x00.
Proof. intros Hne Hs. unfold rebased. rewrite decide_False by done. cbv zeta. rewrite Nat.div_small by done. cbn [Nat.mul take app]. by rewrite Nat.sub_0_r. Qed.

Lemma whole_chunks n : (n / csize * csize ≤ n)%nat ∧ ∀ i, (i < n / csize ↔ S i * csize ≤ n)%nat.
Proof.
  pose proof csize_pos as Hp. pose proof (Nat.div_mod n csize ltac:(lia)) as Hd. pose proof (Nat.mod_upper_bound n csize ltac:(lia)) as Hm.
  split; [nia|]. intros i. split; nia.
Qed.

Lemma rebased_length old n : length (rebased old n) = n.
Proof.
  unfold rebased. case_decide; [done|]. cbv zeta. destruct (whole_chunks (Nat.min n (length old))) as [Hw _].
  rewrite length_app, length_take, length_replicate. lia.
Qed.

Lemma rebased_chunk old n i :
  (i < chunk_num (rebased old n))%nat →
  (i < chunk_num old)%nat → chunkLen (Z.of_nat (length old)) (Z.of_nat i) = chunkLen (Z.of_nat n) (Z.of_nat i) →
  chunk_at (rebased old n) i = chunk_at old i.
Proof.
  intros Hi Ho Hl. pose proof (rebased_length old n) as Hn. rewrite <- Hn in Hl. rewrite !chunk_len_at, !chunk_at_length, Hn in Hl by done.
  apply chunk_num_spec in Hi, Ho. rewrite Hn in Hi. unfold rebased. case_decide as Hne; [done|]. cbv zeta.
  destruct (whole_chunks (Nat.min n (length old))) as [Hw Hwi]. set (q := (Nat.min n (length old) / csize)%nat) in *.
  assert (S i * csize ≤ Nat.min n (length old))%nat as Hfull by lia. apply Hwi in Hfull.
  unfold chunk_at. rewrite drop_app_le by (rewrite length_take; nia). rewrite take_app_le by (rewrite length_drop, length_take; nia).
  rewrite !take_drop_commute, take_take. do 2 f_equal. nia.
Qed.

Lemma rebased_zero old n i :
  (i < chunk_num (rebased old n))%nat →
  ((i < chunk_num old)%nat → chunkLen (Z.of_nat (length old)) (Z.of_nat i) ≠ chunkLen (Z.of_nat n) (Z.of_nat i)) →
  chunk_at (rebased old n) i = zeros (chunkLen (Z.of_nat n) (Z.of_nat i)).
Proof.
  intros Hi Hl. pose proof (rebased_length old n) as Hn. rewrite <- Hn in Hl |- *. rewrite (chunk_len_at (rebased old n)) in Hl |- * by done.
  rewrite chunk_at_length, Hn in Hl |- *. unfold zeros. rewrite Nat2Z.id.
  destruct (decide (length old = n)) as [He|Hne].
  { exfalso. apply Hl; [|rewrite chunk_len_at, chunk_at_length, He; [done|]]; apply chunk_num_spec; apply chunk_num_spec in Hi; rewrite Hn in Hi; lia. }
  destruct (whole_chunks (Nat.min n (length old))) as [Hw Hwi].
  assert (Nat.min n (length old) / csize ≤ i)%nat as Hq.
  { apply Nat.nlt_ge. intros Hx. apply Hwi in Hx. apply Hl; [apply chunk_num_spec; pose proof csize_pos; nia|].
    rewrite chunk_len_at, chunk_at_length by (apply chunk_num_spec; pose proof csize_pos; nia). nia. }
  unfold rebased. rewrite decide_False by done. cbv zeta. set (q := (Nat.min n (length old) / csize)%nat) in *.
  unfold chunk_at. rewrite drop_app, drop_ge by (rewrite length_take; nia). cbn [app]. rewrite drop_replicate, take_replicate, length_take.
  f_equal. nia.
Qed.

(** The base image a [putChunked] works over: none (all zero), or a stored image
    in what the file's size leaves of it; the overlay of a base relies on exact
    data regions, so on a file system that reports them. *)
Definition base_rel σ root (fl : file) (cells : list (option byte)) (base : option Manifest) (base_img : bytes) : Prop :=
  length base_img = length cells ∧
  match base with
  | None => base_img = zeros (f_size fl)
  | Some m => quiet ∧ ∃ old, m = manifest_of old ∧ base_img = rebased old (length cells) ∧
      ∀ i, (i < chunk_num old)%nat → stored σ root (chunk_at old i)
  end.

Lemma base_rel_step root σ σ' fl cells base base_img :
  store_step U root σ σ' → base_rel σ root fl cells base base_img → base_rel σ' root fl cells base base_img.
Proof.
  intros Hs [Hl Hb]. split; [done|]. destruct base as [m|]; [|done]. destruct Hb as (Hq & old & Hm & Hr & Hst).
  split; [done|]. exists old. split_and!; [done..|]. intros i Hi. eapply stored_step; eauto.
Qed.

Lemma zeros_chunk n i : (i < chunk_num (zeros n))%nat → 
  chunk_at (zeros n) i = zeros (chunkLen (Z.of_nat (length (zeros n))) (Z.of_nat i)).
Proof.
  intros Hi. rewrite chunk_len_at by done. rewrite chunk_at_length. unfold chunk_at, zeros.
  rewrite drop_replicate, take_replicate, length_replicate, Nat2Z.id. done.
Qed.

Lemma base_chunk_rel σ root fl cells base base_img i :
  contents fl = default x00 <$> cells → base_rel σ root fl cells base base_img → (i < chunk_num base_img)%nat →
  match base_chunk base i (chunkLen (f_size fl) (Z.of_nat i)) with
  | Some h => h = hashOf (chunk_at base_img i) ∧ stored σ root (chunk_at base_img i) ∧ quiet
  | None => chunk_at base_img i = zeros (chunkLen (f_size fl) (Z.of_nat i))
  end.
Proof.
  intros Hview [Hl Hb] Hi. unfold base_chunk. rewrite (view_size fl cells Hview) in Hb |- *. destruct base as [m|]; simpl.
  2:{ subst base_img. rewrite zeros_chunk by done. by rewrite Hl. }
  destruct Hb as (Hq & old & -> & -> & Hst). destruct (decide (i < chunk_num old)%nat) as [Ho|Ho].
  - rewrite manifest_chunk by done. cbn [mbind option_bind m_Size manifest_of]. case_decide as He.
    + rewrite rebased_chunk by done. eauto.
    + by apply rebased_zero.
  - rewrite lookup_ge_None_2 by (rewrite ?manifest_chunks_length; lia). cbn [mbind option_bind]. by apply rebased_zero.
Qed.

(** One call of the function handed to [parallel]. *)
Lemma wp_put_chunk root f fl cells spans base base_img i w cs fr :
  let img := overlay base_img cells in
  contents fl = default x00 <$> cells →
  store_inv U root (w_fs w) → memo_ok w → w_fs w !! f = Some (NFile fl) →
  spans_ok cells spans quiet → base_rel (w_fs w) root fl cells base base_img →
  (i < chunk_num base_img)%nat → U (chunk_at img i) →
  wp (put_chunk root f (f_size fl) spans base i) (chunk_outcome root w i (chunk_at img i) cs fr) (w, (cs, fr)).
Proof.
  intros img Hview Hi Hm Hf Hok Hbase Hn HU. pose proof (base_chunk_rel _ _ _ _ _ _ _ Hview Hbase Hn) as Hbc.
  pose proof (proj1 Hbase) as Hlen. unfold put_chunk.
  destruct (base_chunk base i _) as [bc|].
  - destruct Hbc as (-> & Hst & Hq). destruct (overlaps spans _ _) eqn:Ho; simpl.
    + wp_step. wp_step. wp_step. eapply wp_mono; [by apply grows_Get|]. intros [e|b] w1 Hg; [by eapply grows_fail|].
      destruct (gr_post _ _ _ _ _ _ Hg b eq_refl) as [-> Hfs]. pose proof (st_inv _ _ _ _ (gr_step _ _ _ _ _ _ Hg)) as Hi1.
      wp_step. wp_step. eapply wp_mono; [eapply grows_overlay_spans; try done; by rewrite Hfs|].
      intros [e|b] w2 Hg2; [eapply grows_trans; [exact Hg|]; by eapply grows_fail|].
      destruct (gr_post _ _ _ _ _ _ Hg2 b eq_refl) as [-> Hfs2]. pose proof (st_inv _ _ _ _ (gr_step _ _ _ _ _ _ Hg2)) as Hi2.
      eapply wp_mono; [by apply wp_record_chunk|]. intros r [w3 sh] Hg3. unfold chunk_outcome in *.
      eapply grows_trans; [exact Hg|]. eapply grows_trans; [exact Hg2|]. simpl in *.
      eapply grows_weaken; [exact Hg3|]. intros a _ (H3 & H4 & H5). split_and!; [done..|]. by rewrite <- Hfs, <- Hfs2.
    + unfold set_chunk. wp_step. unfold chunk_outcome, img. simpl. rewrite (chunk_untouched fl cells spans) by done.
      apply grows_ret; [done|]. split_and!; [done..|]. by left.
  - destruct (overlaps spans _ _) eqn:Ho; simpl.
    + wp_step. wp_step. eapply wp_mono; [by apply grows_read_at|]. intros [e|b] w1 Hg; [by eapply grows_fail|].
      destruct (gr_post _ _ _ _ _ _ Hg b eq_refl) as [-> [Hfs _]]. pose proof (st_inv _ _ _ _ (gr_step _ _ _ _ _ _ Hg)) as Hi1.
      rewrite (chunk_read fl cells base_img) by done.
      eapply wp_mono; [by apply wp_record_chunk|]. intros r [w3 sh] Hg3. unfold chunk_outcome in *.
      eapply grows_trans; [exact Hg|]. simpl in *.
      eapply grows_weaken; [exact Hg3|]. intros a _ (H3 & H4 & H5). split_and!; [done..|]. by rewrite <- Hfs.
    + assert (chunk_at img i = zeros (chunkLen (f_size fl) (Z.of_nat i))) as Hz.
      { unfold img. by rewrite (chunk_untouched fl cells spans). }
      rewrite Hz in *. wp_step. wp_step. wp_step.
      eapply wp_mono; [apply grows_zeroHash; try done; rewrite (view_size fl cells Hview), <- Hlen, chunk_len_at by done; lia|].
      intros [e|h] w1 Hg; unfold set_chunk.
      * wp_step. wp_step. wp_step. by eapply grows_fail.
      * wp_step. destruct (gr_post _ _ _ _ _ _ Hg h eq_refl) as [-> Hst].
        destruct Hg as [Hs Hmm _ Hl]. split; simpl; [done|done| |].
        -- intros [] _. split_and!; [done..|]. by left.
        -- intros Hlive. split; [by apply Hl|eauto].
Qed.

(** ** Storing an image *)

Definition image_name (img : bytes) : string := hashOf (json_Marshal (manifest_of img)).
Definition stored_image σ root (img : bytes) : Prop :=
  stored σ root (json_Marshal (manifest_of img)) ∧
  ∀ i, (i < chunk_num img)%nat → stored σ root (chunk_at img i).
(** The byte strings an image puts in the store. *)
Definition image_in (img : bytes) : Prop :=
  U (json_Marshal (manifest_of img)) ∧ ∀ i, (i < chunk_num img)%nat → U (chunk_at img i).

(** [fr] are digests the store gained. *)
Definition gained root w w' (fr : gset string) : Prop :=
  ∀ d, d ∈ fr → is_digest d = true ∧ blob_of (w_fs w) root d = None ∧ is_Some (blob_of (w_fs w') root d).

(** The state between two calls of the function handed to [parallel]. *)
Record chunks_inv root img w0 (dn : list nat) (sx : world * shared) : Prop := {
  ci_grows : grows U root w0 (λ _ _, True) (inr tt) (fst sx);
  ci_len : length (fst (snd sx)) = chunk_num img;
  ci_done : ∀ i, i ∈ dn → fst (snd sx) !! i = Some (hashOf (chunk_at img i)) ∧
                          stored (w_fs (fst sx)) root (chunk_at img i);
  ci_fresh : quiet → gained root w0 (fst sx) (snd (snd sx))
}.

Lemma chunks_inv_step root img w0 dn w1 cs fr i w2 sh :
  chunks_inv root img w0 dn (w1, (cs, fr)) → (i < chunk_num img)%nat →
  chunk_outcome root w1 i (chunk_at img i) cs fr (inr ()) (w2, sh) →
  chunks_inv root img w0 (dn ++ [i]) (w2, sh).
Proof.
  intros [Hg Hl Hd Hfr] Hi Hc. unfold chunk_outcome in Hc. simpl in *.
  destruct (gr_post _ _ _ _ _ _ Hc () eq_refl) as (Hst & Hcs & Hsh). destruct sh as [cs' fr']. simpl in *. subst cs'.
  pose proof (gr_step _ _ _ _ _ _ Hc) as Hs. split; simpl.
  - eapply grows_trans; [exact Hg|]. by eapply grows_weaken.
  - by rewrite length_insert.
  - intros j [Hj| ->%list_elem_of_singleton]%elem_of_app.
    + destruct (Hd j Hj) as [Hj1 Hj2]. split; [|by eapply stored_step].
      destruct (decide (i = j)) as [->|Hne]; [|by rewrite list_lookup_insert_ne].
      apply list_lookup_insert_eq. lia.
    + split; [|done]. apply list_lookup_insert_eq. lia.
  - intros Hq d Hdin. specialize (Hfr Hq). specialize (Hfr d).
    assert (d = hashOf (chunk_at img i) ∧ blob_of (w_fs w1) root d = None ∨ d ∈ fr) as [[-> Hnew]|Hold].
    { destruct Hsh as [->|[-> Hnew]]; [by right|]. apply elem_of_union in Hdin as [->%elem_of_singleton|?]; [left|by right].
      split; [done|by apply Hnew]. }
    + split_and!; [apply hashOf_digest| |by eexists].
      destruct (blob_of (w_fs w0) root _) as [c|] eqn:E; [|done].
      apply (st_keep _ _ _ _ (gr_step _ _ _ _ _ _ Hg)) in E; [congruence|apply hashOf_digest].
    + destruct (Hfr Hold) as (Hdig & Hn & [c Hc']). split_and!; [done..|]. exists c. by apply (st_keep _ _ _ _ Hs).
Qed.

Lemma grows_frame_file root w w' {A} (Post : A → world → Prop) r f n :
  grows U root w Post r w' → ¬ below root f → w_fs w !! f = n → w_fs w' !! f = n.
Proof. intros Hg Hb <-. by apply (st_frame _ _ _ _ (gr_step _ _ _ _ _ _ Hg)). Qed.

Lemma chunk_num_len img img' : length img = length img' → chunk_num img = chunk_num img'.
Proof. unfold chunk_num. by intros ->. Qed.

Lemma wp_put_chunks root f fl cells spans base base_img w :
  let img := overlay base_img cells in
  let n := chunk_num img in
  contents fl = default x00 <$> cells →
  store_inv U root (w_fs w) → memo_ok w → w_fs w !! f = Some (NFile fl) → ¬ below root f →
  spans_ok cells spans quiet → base_rel (w_fs w) root fl cells base base_img →
  (∀ i, (i < n)%nat → U (chunk_at img i)) →
  wp (with_local (replicate n "", ∅) (parallel n (put_chunk root f (f_size fl) spans base)))
     (grows U root w (λ sh w', fst sh = m_Chunks (manifest_of img) ∧
        (∀ i, (i < n)%nat → stored (w_fs w') root (chunk_at img i)) ∧ (quiet → gained root w w' (snd sh)))) w.
Proof.
  intros img n Hview Hi Hm Hf Hnb Hok Hbase HU. pose proof (proj1 Hbase) as Hlen.
  assert (n = chunk_num base_img) as Hn by (apply chunk_num_len; unfold img; rewrite overlay_length; lia).
  wp_step. unfold parallel.
  eapply wp_for_each with (I := chunks_inv root img w).
  - split; simpl; [by apply grows_ret|apply length_replicate|by intros i ?%not_elem_of_nil|].
    by intros _ d ?%elem_of_empty.
  - intros dn i todo [w1 [cs fr]] Hord Hinv.
    assert (i < n)%nat as Hin.
    { assert (i ∈ order n) as Ho by (rewrite Hord; apply elem_of_app; right; left).
      rewrite order_perm in Ho. apply elem_of_seq in Ho. lia. }
    pose proof (ci_grows _ _ _ _ _ Hinv) as Hg. simpl in Hg. pose proof (gr_step _ _ _ _ _ _ Hg) as Hs.
    eapply wp_mono; [eapply (wp_put_chunk root f fl cells spans base base_img i w1 cs fr); try done|].
    + apply Hs.
    + by apply Hg.
    + by eapply grows_frame_file.
    + by eapply base_rel_step.
    + by rewrite <- Hn.
    + by apply HU.
    + intros [e|[]] [w2 sh] Hc; [|by eapply chunks_inv_step].
      simpl in *. eapply grows_trans; [exact Hg|]. by eapply grows_fail.
  - intros [w1 [cs fr]] [Hg Hl Hd Hfr]. simpl in *. destruct Hg as [Hs Hmm _ Hlv].
    assert (∀ i, (i < n)%nat → i ∈ order n) as Hall.
    { intros i Hi'. rewrite order_perm. apply elem_of_seq. lia. }
    split; [done|done| |].
    + intros ? [= <-]. simpl. split_and!; [|intros i Hi'; by apply Hd, Hall|done].
      apply list_eq. intros i. destruct (decide (i < n)%nat) as [Hi'|Hi'].
      * rewrite list_lookup_fmap, lookup_seq_lt by done. by apply Hd, Hall.
      * rewrite !lookup_ge_None_2; [done|rewrite length_fmap, length_seq; fold n; lia|fold n in Hl; lia].
    + intros Hlive. split; [by apply Hlv|eauto].
Qed.

Definition put_image_post root (img : bytes) w (hn : string * Z) w' : Prop :=
  hn.1 = image_name img ∧ stored_image (w_fs w') root img ∧
  (quiet → ∃ fr : gset string, hn.2 = Z.of_nat (size fr) ∧ gained root w w' fr).

Lemma wp_put_opened root f fl base base_img w :
  let img := overlay base_img (f_cells fl) in
  honest → store_inv U root (w_fs w) → memo_ok w → w_fs w !! f = Some (NFile fl) → ¬ below root f →
  base_rel (w_fs w) root fl (f_cells fl) base base_img → image_in img →
  wp (put_opened root f base) (grows U root w (put_image_post root img w)) w.
Proof.
  intros img Hh Hi Hm Hf Hnb Hbase [HUm HUc]. pose proof (proj1 Hbase) as Hlen.
  assert (length img = length (f_cells fl)) as Hil by (unfold img; rewrite overlay_length; lia).
  unfold put_opened. wp_step. apply (wp_fstat f fl); [done|intros e Hq; by apply grows_unchanged|].
  wp_step. eapply wp_mono; [apply wp_dataSpans; [done|exact Hf]|].
  intros r w1 ([Hfs Hz] & spans & -> & Hok). simpl in Hfs, Hz.
  assert (Z.to_nat (chunkCount (f_size fl)) = chunk_num img) as -> by (unfold chunk_num, f_size; by rewrite Hil).
  assert (grows U root w (λ _ _, True) (inr tt) w1) as Hg0 by (apply grows_unchanged; eauto).
  wp_step. eapply wp_mono; [eapply (wp_put_chunks root f fl (f_cells fl) spans base base_img w1)|].
  all: try rewrite Hfs; try done.
  { unfold memo_ok. by rewrite Hz. }
  intros [e|sh] w2 Hg; [eapply grows_trans; [exact Hg0|]; by eapply grows_fail|].
  destruct (gr_post _ _ _ _ _ _ Hg sh eq_refl) as (Hcs & Hst & Hgain).
  pose proof (st_inv _ _ _ _ (gr_step _ _ _ _ _ _ Hg)) as Hi2. unfold f_size. rewrite <- Hil, Hcs.
  change (mkManifest _ _ _ _) with (manifest_of img).
  wp_step. eapply wp_mono; [by apply grows_Put|]. intros [e|h] w3 Hg3.
  { eapply grows_trans; [exact Hg0|]. eapply grows_trans; [exact Hg|]. by eapply grows_fail. }
  destruct (gr_post _ _ _ _ _ _ Hg3 h eq_refl) as [-> Hst3]. pose proof (gr_step _ _ _ _ _ _ Hg3) as Hs3.
  wp_step. eapply grows_trans; [exact Hg0|]. eapply grows_trans; [exact Hg|]. eapply grows_trans; [exact Hg3|].
  apply grows_ret; [by apply Hs3|]. split_and!; [done| |].
  - split; [done|]. intros i Hi'. eapply stored_step; eauto.
  - intros Hq. exists (snd sh). split; [done|]. intros d Hd. destruct (Hgain Hq d Hd) as (Hdig & Hn & [c Hc]).
    split_and!; [done|by rewrite <- Hfs|]. exists c. by apply (st_keep _ _ _ _ Hs3).
Qed.

Lemma wp_putChunked root p fl base base_img w :
  let img := overlay base_img (f_cells fl) in
  honest → store_inv U root (w_fs w) → memo_ok w → w_fs w !! p = Some (NFile fl) → ¬ below root p →
  base_rel (w_fs w) root fl (f_cells fl) base base_img → image_in img →
  wp (putChunked root p base) (grows U root w (put_image_post root img w)) w.
Proof.
  intros img Hh Hi Hm Hf Hnb Hbase HU. unfold putChunked. wp_step.
  apply (wp_Open p (NFile fl)); [apply Hi|done|by intros t|intros e Hq; by apply grows_unchanged|].
  wp_step. wp_step. eapply wp_mono; [by apply (wp_put_opened root p fl base base_img)|].
  intros r w1 Hg%grows_tick. wp_step. wp_step.
  assert (∀ w2, w_fs w2 = w_fs w1 → w_zero w2 = w_zero w1 →
    wp (of_sum r) (grows U root w (put_image_post root img w)) w2) as Hend.
  { intros w2 Hfs Hz. wp_step. destruct Hg as [Hs Hmm Hp Hl]. split.
    - by rewrite Hfs.
    - unfold memo_ok. by rewrite Hz.
    - intros hn Hr. specialize (Hp hn Hr). unfold put_image_post, gained in *. by rewrite Hfs.
    - unfold live. by rewrite Hfs. }
  apply wp_close; [intros e Hq|]; by apply Hend.
Qed.

(** ** Reading an image back *)

Lemma grows_attempt {A} root (m : M world A) (Mid : A → world → Prop) w :
  wp m (grows U root w Mid) w →
  wp (attempt m) (grows U root w (λ r w', match r with inr a => Mid a w' | inl _ => ¬ live root w end)) w.
Proof.
  intros Hm. wp_step. eapply wp_mono; [exact Hm|]. intros r w1 [Hs Hmm Hp Hl].
  split; [done|done| |].
  - intros ? [= <-]. destruct r; [|by apply Hp]. intros Hlive. by destruct (Hl Hlive) as [_ [? ?]].
  - intros Hlive. split; [by apply Hl|eauto].
Qed.

Lemma grows_ReadManifest root img w :
  store_inv U root (w_fs w) → stored_image (w_fs w) root img → json_dom (manifest_of img) →
  wp (ReadManifest root (image_name img)) (grows U root w (λ m w', m = manifest_of img ∧ w_fs w' = w_fs w)) w.
Proof.
  intros Hi [Hst _] Hdom. unfold ReadManifest. eapply grows_bind; [by apply grows_Get|].
  intros b w1 Hg. destruct (gr_post _ _ _ _ _ _ Hg b eq_refl) as [-> Hfs].
  rewrite json_roundtrip by done. rewrite decide_True by done. wp_step.
  apply grows_ret; [by rewrite Hfs|done].
Qed.

(** The names taken for empty chunks: only empty chunks have them, and without
    faults all empty chunks do. *)
Definition zero_sound (img : bytes) (zero : gset string) : Prop :=
  ∀ i, (i < chunk_num img)%nat → hashOf (chunk_at img i) ∈ zero →
    chunk_at img i = replicate (length (chunk_at img i)) x00.
Definition zero_complete (img : bytes) (zero : gset string) : Prop :=
  ∀ i, (i < chunk_num img)%nat → chunk_at img i = replicate (length (chunk_at img i)) x00 →
    hashOf (chunk_at img i) ∈ zero.
Definition zeros_in (img : bytes) : Prop :=
  ∀ i, (i < chunk_num img)%nat → U (replicate (length (chunk_at img i)) x00).

Lemma chunk_zeros img i : (i < chunk_num img)%nat →
  zeros (chunkLen (Z.of_nat (length img)) (Z.of_nat i)) = replicate (length (chunk_at img i)) x00.
Proof. intros Hi. rewrite chunk_len_at by done. unfold zeros. by rewrite Nat2Z.id. Qed.

(** All chunks but the last have the length of the first. *)
Lemma chunk_lengths img i : (i < chunk_num img)%nat →
  length (chunk_at img i) = length (chunk_at img 0) ∨ i = (chunk_num img - 1)%nat.
Proof.
  intros Hi. destruct (decide (i = chunk_num img - 1)%nat) as [->|Hne]; [by right|left].
  rewrite !chunk_at_length. assert (i + 1 < chunk_num img)%nat as Hn by lia.
  apply chunk_num_spec in Hn. lia.
Qed.

Lemma zeros_inj_len img i n :
  U (chunk_at img i) → U (replicate n x00) → hashOf (chunk_at img i) = hashOf (replicate n x00) →
  chunk_at img i = replicate (length (chunk_at img i)) x00.
Proof. intros Hc Hr He. apply no_collision in He; [|done..]. by rewrite He, length_replicate. Qed.

Lemma digest_not_empty b : hashOf b ≠ "".
Proof. intros He. pose proof (hashOf_digest b) as Hd. rewrite He in Hd. by vm_compute in Hd. Qed.

Lemma grows_zero_names root img w :
  store_inv U root (w_fs w) → memo_ok w → image_in img → zeros_in img →
  wp (zero_names root (manifest_of img))
     (grows U root w (λ zero _, zero_sound img zero ∧ (live root w → zero_complete img zero))) w.
Proof.
  intros Hi Hm [_ HU] HUz. unfold zero_names. pose proof (manifest_chunks_length img) as Hlen.
  case_decide as Hnil.
  { wp_step. assert (chunk_num img = 0)%nat as Hzero by (rewrite <- Hlen, Hnil; done).
    apply grows_ret; [done|]. split; [|intros _]; intros i Hi'; lia. }
  assert (0 < chunk_num img)%nat as Hpos by (rewrite <- Hlen; destruct (m_Chunks _); simpl; [done|lia]).
  assert (0 ≤ chunkLen (Z.of_nat (length img)) (Z.of_nat 0)) as Hc0 by (rewrite chunk_len_at by done; lia).
  rewrite Hlen. set (l := (chunk_num img - 1)%nat). replace (Z.of_nat (chunk_num img) - 1) with (Z.of_nat l) by lia.
  assert (0 ≤ chunkLen (Z.of_nat (length img)) (Z.of_nat l)) as Hcl by (rewrite chunk_len_at by lia; lia).
  pose proof (chunk_zeros img 0 Hpos) as Hz0. pose proof (chunk_zeros img l ltac:(lia)) as Hzl.
  change (Z.of_nat 0) with 0 in Hz0, Hc0.
  eapply grows_bind; [apply grows_attempt, grows_zeroHash; try done; simpl; rewrite Hz0; by apply HUz|].
  intros z w1 Hg1. pose proof (gr_step _ _ _ _ _ _ Hg1) as Hs1.
  eapply grows_bind; [apply grows_attempt, grows_zeroHash; [apply Hs1|by apply Hg1|done|]; simpl; rewrite Hzl; apply HUz; lia|].
  intros zl w2 Hg2. pose proof (gr_step _ _ _ _ _ _ Hg2) as Hs2. wp_step. apply grows_ret; [apply Hs2|].
  pose proof (gr_post _ _ _ _ _ _ Hg1 z eq_refl) as Hp1. pose proof (gr_post _ _ _ _ _ _ Hg2 zl eq_refl) as Hp2.
  cbv beta in Hp1, Hp2. simpl m_Size in *. rewrite Hz0 in Hp1. rewrite Hzl in Hp2.
  split.
  - intros i Hi' Hin. rewrite elem_of_union, !elem_of_singleton in Hin. destruct Hin as [Hin|Hin].
    + destruct z as [e|h]; [by apply digest_not_empty in Hin|]. destruct Hp1 as [-> _].
      eapply zeros_inj_len; [| |exact Hin]; auto.
    + destruct zl as [e|h]; [by apply digest_not_empty in Hin|]. destruct Hp2 as [-> _].
      eapply zeros_inj_len; [| |exact Hin]; [auto|apply HUz; lia].
  - intros Hlive. destruct z as [e|h]; [tauto|]. destruct zl as [e|hl]; [exfalso; by apply Hp2, Hg1|].
    destruct Hp1 as [-> _], Hp2 as [-> _]. intros i Hi' Hz. rewrite elem_of_union, !elem_of_singleton.
    destruct (chunk_lengths img i Hi') as [He| ->]; [left|right]; [by rewrite Hz, He|by rewrite Hz].
Qed.

Lemma splice_length cells off data :
  (off + length data ≤ length cells)%nat → length (splice cells off data) = length cells.
Proof. intros. unfold splice. rewrite !length_app, length_take, length_replicate, length_fmap, length_drop. lia. Qed.

Lemma splice_lookup cells off data j :
  (off + length data ≤ length cells)%nat →
  splice cells off data !! j =
    if decide (off ≤ j < off + length data)%nat then Some <$> data !! (j - off)%nat else cells !! j.
Proof.
  intros Hk. unfold splice. replace (off - length cells)%nat with 0%nat by lia. simpl. case_decide as Hd.
  - rewrite lookup_app_r by (rewrite length_take; lia). rewrite length_take.
    rewrite lookup_app_l by (rewrite length_fmap; lia). rewrite list_lookup_fmap. do 2 f_equal. lia.
  - destruct (decide (j < off)%nat).
    + rewrite lookup_app_l by (rewrite length_take; lia). by rewrite lookup_take_lt.
    + rewrite lookup_app_r by (rewrite length_take; lia). rewrite length_take.
      rewrite lookup_app_r by (rewrite length_fmap; lia). rewrite lookup_drop, length_fmap. f_equal. lia.
Qed.

(** The cells of the output once the chunks in [dn] are done: a chunk with an
    empty chunk's name stays a hole. *)
Definition out_cell (img : bytes) (zero : gset string) (dn : list nat) (k : nat) : option byte :=
  if decide ((k / csize)%nat ∈ dn) then
    if decide (hashOf (chunk_at img (k / csize)) ∈ zero) then None else img !! k
  else None.
Definition out_cells (img : bytes) (zero : gset string) (dn : list nat) (cells : list (option byte)) : Prop :=
  length cells = length img ∧ ∀ k, (k < length img)%nat → cells !! k = Some (out_cell img zero dn k).

Lemma div_csize (i j : nat) : (j < csize)%nat → ((i * csize + j) / csize = i)%nat.
Proof. intros Hj. pose proof csize_pos. rewrite Nat.div_add_l by lia. rewrite Nat.div_small; lia. Qed.

Lemma chunk_range img i k : (i < chunk_num img)%nat → (k < length img)%nat →
  (i * csize ≤ k < i * csize + length (chunk_at img i) ↔ k / csize = i)%nat.
Proof.
  intros Hi Hk. pose proof csize_pos. destruct (chunk_of_pos img k Hk) as (_ & He & Hm).
  rewrite chunk_at_length. split.
  - intros Hr. replace k with (i * csize + (k - i * csize))%nat by lia. apply div_csize. lia.
  - intros <-. lia.
Qed.

Lemma out_cells_hole img zero dn i cells :
  (i < chunk_num img)%nat → hashOf (chunk_at img i) ∈ zero →
  out_cells img zero dn cells → out_cells img zero (dn ++ [i]) cells.
Proof.
  intros Hi Hz [Hl Hc]. split; [done|]. intros k Hk. rewrite Hc by done. f_equal. unfold out_cell.
  destruct (decide (k / csize = i)%nat) as [->|Hne].
  - rewrite (decide_True (P := i ∈ dn ++ [i])) by set_solver. rewrite (decide_True (P := hashOf _ ∈ _)) by done.
    by case_decide.
  - destruct (decide (k / csize ∈ dn)%nat); [rewrite (decide_True (P := _ ∈ dn ++ [i]))|rewrite (decide_False (P := _ ∈ dn ++ [i]))]; set_solver.
Qed.

Lemma out_cells_write img zero dn i cells :
  (i < chunk_num img)%nat → hashOf (chunk_at img i) ∉ zero → out_cells img zero dn cells →
  out_cells img zero (dn ++ [i]) (splice cells (i * csize) (chunk_at img i)).
Proof.
  intros Hi Hz [Hl Hc]. pose proof Hi as Hi'. apply chunk_num_spec in Hi'.
  assert (i * csize + length (chunk_at img i) ≤ length cells)%nat as Hr by (rewrite chunk_at_length; lia).
  split; [by rewrite splice_length|]. intros k Hk. rewrite splice_lookup by done. unfold out_cell.
  case_decide as Hin.
  - assert (k / csize = i)%nat as -> by by apply (chunk_range img).
    rewrite decide_True by set_solver. rewrite decide_False by done.
    rewrite chunk_at_lookup, decide_True by (rewrite chunk_at_length in Hin; lia).
    replace (i * csize + (k - i * csize))%nat with k by lia.
    destruct (lookup_lt_is_Some_2 img k) as [b ->]; done.
  - assert (k / csize ≠ i)%nat as Hne by (intros He; by apply Hin, chunk_range).
    rewrite Hc by done. f_equal. unfold out_cell.
    destruct (decide (k / csize ∈ dn)%nat); [rewrite (decide_True (P := _ ∈ dn ++ [i]))|rewrite (decide_False (P := _ ∈ dn ++ [i]))]; set_solver.
Qed.

(** When every chunk is done the file holds the image, and empty chunks are
    holes. *)
Lemma out_cells_done img zero dn f :
  zero_sound img zero → (∀ i, (i < chunk_num img)%nat → i ∈ dn) → out_cells img zero dn (f_cells f) →
  contents f = img ∧
  (zero_complete img zero → ∀ i k, (i < chunk_num img)%nat → chunk_at img i = replicate (length (chunk_at img i)) x00 →
     (k < length (chunk_at img i))%nat → f_cells f !! (i * csize + k)%nat = Some None).
Proof.
  intros Hz Hall [Hl Hc]. split.
  - apply list_eq. intros k. unfold contents. rewrite list_lookup_fmap.
    destruct (decide (k < length img)%nat) as [Hk|Hk].
    + destruct (chunk_of_pos img k Hk) as (Hi & He & Hm). rewrite Hc by done. unfold out_cell. rewrite decide_True by auto.
      destruct (lookup_lt_is_Some_2 img k) as [b Hb]; [done|]. rewrite Hb. case_decide as Hin; simpl; [|done].
      apply Hz in Hin; [|done]. f_equal.
      assert (chunk_at img (k / csize) !! (k mod csize)%nat = Some b) as Hcb.
      { rewrite chunk_at_lookup, decide_True by done. by rewrite <- He. }
      rewrite Hin in Hcb. by apply lookup_replicate in Hcb as [-> _].
    + rewrite !lookup_ge_None_2; [done|lia|lia].
  - intros Hzc i k Hi Hzero Hk. rewrite chunk_at_length in Hk. pose proof Hi as Hi'. apply chunk_num_spec in Hi'.
    rewrite Hc by lia. f_equal. unfold out_cell. rewrite div_csize by lia.
    rewrite decide_True by auto. by rewrite decide_True by by apply Hzc.
Qed.

(** ** Writing the image to [d/c], by way of [d/c.tmp] *)

Section target.
Context (root d : path) (c : string).
Let dst := d ++ [c].
Let tmp := d ++ [c +:+ ".tmp"].

(** The destination is a name in a directory outside the store; nothing but a
    file is in the way. *)
Record dst_ok σ : Prop := {
  do_dir : is_dir σ d;
  do_name : good_name c;
  do_out : ¬ below root dst;
  do_tmp_out : ¬ below root tmp;
  do_dst : ¬ is_dir σ dst;
  do_tmp : match σ !! tmp with None | Some (NFile _) => True | _ => False end
}.

Lemma tmp_name : good_name c → good_name (c +:+ ".tmp").
Proof.
  intros (Hc & _ & _). destruct c as [|a s]; [done|]. split_and!; try done; intros [= _ Hs].
  all: apply (f_equal String.length) in Hs; rewrite string_length_app in Hs; simpl in Hs; lia.
Qed.

Lemma with_suffix_tmp : with_suffix dst ".tmp" = tmp.
Proof. unfold with_suffix, dst. by rewrite last_snoc, removelast_snoc. Qed.

Lemma dst_not_tmp : dst ≠ tmp.
Proof.
  intros [_ He]%app_inj_tail. apply (f_equal String.length) in He. rewrite string_length_app in He. simpl in He. lia.
Qed.

Lemma tmp_not_d : tmp ≠ d.
Proof. intros He. apply (f_equal length) in He. unfold tmp in He. rewrite length_app in He. simpl in He. lia. Qed.

Lemma d_below q : below root d → below root (d ++ [q]).
Proof. unfold below. intros. by apply prefix_app_r. Qed.

Lemma dst_ok_frame σ σ' : dst_ok σ → store_frame root σ σ' → dst_ok σ'.
Proof.
  intros [[m Hm] Hn Ho Hto Hd Ht] Hf. split; try done.
  - exists m. rewrite Hf; [done|]. intros Hb. by apply Ho, d_below.
  - unfold is_dir. by rewrite Hf.
  - by rewrite Hf.
Qed.

(** Empty chunks are holes in the file. *)
Definition sparse_as (img : bytes) (f : file) : Prop :=
  ∀ i k, (i < chunk_num img)%nat → chunk_at img i = replicate (length (chunk_at img i)) x00 →
    (k < length (chunk_at img i))%nat → f_cells f !! (i * csize + k)%nat = Some None.

(** The outcome: the store only grew, nothing else moved but the destination,
    which holds the image on success and is untouched on failure. *)
Record get_outcome (img : bytes) w (r : gerr + ()) w' : Prop := {
  go_inv : store_inv U root (w_fs w');
  go_keep : ∀ h b, is_digest h = true → blob_of (w_fs w) root h = Some b → blob_of (w_fs w') root h = Some b;
  go_memo : memo_ok w → memo_ok w';
  go_frame : ∀ q, ¬ below root q → q ≠ dst → q ≠ tmp → w_fs w' !! q = w_fs w !! q;
  go_ok : r = inr () → w_fs w' !! tmp = None ∧
    ∃ f, w_fs w' !! dst = Some (NFile f) ∧ contents f = img ∧ (live root w → sparse_as img f);
  go_err : ∀ e, r = inl e → w_fs w' !! dst = w_fs w !! dst;
  go_live : live root w → live root w' ∧ r = inr ()
}.

Lemma get_outcome_mk {A} img w (Mid : A → world → Prop) a w2 r w' :
  dst_ok (w_fs w) → grows U root w Mid (inr a) w2 → fs_wf (w_fs w') → w_zero w' = w_zero w2 →
  (∀ q, q ≠ dst → q ≠ tmp → w_fs w' !! q = w_fs w2 !! q) →
  (r = inr () → w_fs w' !! tmp = None ∧
    ∃ f, w_fs w' !! dst = Some (NFile f) ∧ contents f = img ∧ (live root w → sparse_as img f)) →
  (∀ e, r = inl e → w_fs w' !! dst = w_fs w2 !! dst ∧ ¬ quiet) →
  get_outcome img w r w'.
Proof.
  intros [_ _ Ho Hto _ _] [Hs Hm _ Hl] Hwf Hz Hag Hok Herr.
  assert (∀ q, below root q → w_fs w' !! q = w_fs w2 !! q) as Hroot.
  { intros q Hq. apply Hag; by intros ->. }
  split.
  - eapply store_inv_agree; [apply Hs|done|done].
  - intros h b Hh Hb. rewrite (blob_of_agree (w_fs w2)) by done. by apply (st_keep _ _ _ _ Hs).
  - intros Hmw. unfold memo_ok. rewrite Hz. by apply Hm.
  - intros q Hq H2 H3. rewrite Hag by done. by apply (st_frame _ _ _ _ Hs).
  - done.
  - intros e He. rewrite (proj1 (Herr e He)). by apply (st_frame _ _ _ _ Hs).
  - intros Hlive. destruct (Hl Hlive) as [[Hq Hc] _]. split.
    + split; [done|]. by eapply store_clean_agree.
    + destruct r as [e|[]]; [|done]. by destruct (Herr e eq_refl).
Qed.

Lemma tmp_fs_wf σ g : fs_wf σ → dst_ok σ → fs_wf (<[tmp := NFile g]> σ).
Proof.
  intros Hwf [Hd Hn _ _ _ Ht]. apply fs_wf_insert; [done|done|by apply tmp_name|].
  intros [m Hm]. change (σ !! tmp = Some (NDir m)) in Hm. by rewrite Hm in Ht.
Qed.

Lemma tmp_leaf σ x : fs_wf σ → dst_ok σ → σ !! (tmp ++ [x]) = None.
Proof.
  intros Hwf [_ _ _ _ _ Ht]. destruct (σ !! (tmp ++ [x])) eqn:E; [|done].
  destruct (proj2 Hwf tmp x) as [[m Hm] _]; [by eexists|]. by rewrite Hm in Ht.
Qed.

Lemma tmp_gone_wf σ : fs_wf σ → dst_ok σ → fs_wf (delete tmp σ).
Proof. intros Hwf Hd. apply fs_wf_delete; [done|intros He; by apply app_nil in He as [_ ?]|]. intros x. by apply tmp_leaf. Qed.

(** The loop over the chunks keeps [σ] apart from the temporary. *)
Definition filling img zero σ (z : gmap Z string) (dn : list nat) w : Prop :=
  w_zero w = z ∧ ∃ g, w_fs w = <[tmp := NFile g]> σ ∧ out_cells img zero dn (f_cells g).

Lemma wp_get_chunk img zero i dn w σ z :
  fs_wf σ → dst_ok σ → store_inv U root σ → stored_image σ root img → (i < chunk_num img)%nat →
  filling img zero σ z dn w →
  wp (get_chunk root tmp (image_name img) (manifest_of img) zero i)
    (λ r w', match r with
             | inr _ => filling img zero σ z (dn ++ [i]) w'
             | inl _ => ¬ quiet ∧ filling img zero σ z dn w'
             end) w.
Proof.
  intros Hwf Hdst Hi [_ Hst] Hn (Hz & g & Hfs & Hcells). unfold get_chunk. rewrite manifest_chunk by done.
  assert (∀ q, below root q → w_fs w !! q = σ !! q) as Hag.
  { intros q Hq. rewrite Hfs, lookup_insert_ne; [done|]. intros <-. by apply (do_tmp_out _ Hdst). }
  assert (store_inv U root (w_fs w)) as Hi'.
  { eapply store_inv_agree; [done| |done]. rewrite Hfs. by apply tmp_fs_wf. }
  case_decide as Hzero.
  { wp_step. split; [done|]. exists g. split; [done|]. by apply out_cells_hole. }
  wp_step. wp_step. apply wp_Get; [apply Hi'|apply hashOf_digest|..].
  - intros b w1 Hfs1 Hz1 Hb. rewrite (blob_of_agree σ) in Hb by done.
    specialize (Hst i Hn). unfold stored in Hst. rewrite Hst in Hb. injection Hb as <-.
    apply (wp_write_at tmp g); [rewrite Hfs1, Hfs; apply lookup_insert_eq|..].
    + intros e Hq. split; [done|]. split; [simpl; congruence|]. exists g. split; [simpl; congruence|done].
    + intros mt. split; [simpl; congruence|]. eexists. split; [simpl; rewrite Hfs1, Hfs; apply insert_insert_eq|].
      simpl. replace (Z.to_nat (Z.of_nat i * ChunkSize)) with (i * csize)%nat by (pose proof csize_Z; lia).
      by apply out_cells_write.
  - intros e w1 Hfs1 Hz1 Hq. wp_step. split.
    + intros Hquiet. destruct (Hq Hquiet) as [Hn' _]. rewrite (blob_of_agree σ) in Hn' by done.
      specialize (Hst i Hn). unfold stored in Hst. congruence.
    + split; [congruence|]. exists g. split; [congruence|done].
Qed.

Lemma wp_get_chunks img zero w σ z :
  fs_wf σ → dst_ok σ → store_inv U root σ → stored_image σ root img →
  filling img zero σ z [] w →
  wp (parallel (chunk_num img) (get_chunk root tmp (image_name img) (manifest_of img) zero))
    (λ r w', ∃ dn, filling img zero σ z dn w' ∧
       match r with inr _ => ∀ i, (i < chunk_num img)%nat → i ∈ dn | inl _ => ¬ quiet end) w.
Proof.
  intros Hwf Hdst Hi Hst Hf. unfold parallel.
  eapply wp_for_each with (I := λ dn, filling img zero σ z dn); [done|..].
  - intros dn i todo w1 Hord Hf1.
    assert (i < chunk_num img)%nat as Hin.
    { assert (i ∈ order (chunk_num img)) as Ho by (rewrite Hord; apply elem_of_app; right; left).
      rewrite order_perm in Ho. apply elem_of_seq in Ho. lia. }
    eapply wp_mono; [by apply wp_get_chunk|]. intros [e|[]] w2; [|done]. intros [Hq Hf2]. by exists dn.
  - intros w1 Hf1. eexists. split; [done|]. intros i Hin. rewrite order_perm. apply elem_of_seq. lia.
Qed.

(** From the created temporary to the end. *)
Lemma wp_get_fill {A} img zero w (Mid : A → world → Prop) a w2 w3 g :
  dst_ok (w_fs w) → grows U root w Mid (inr a) w2 → stored_image (w_fs w2) root img →
  zero_sound img zero → (live root w → zero_complete img zero) →
  w_zero w3 = w_zero w2 → w_fs w3 = <[tmp := NFile g]> (w_fs w2) → out_cells img zero [] (f_cells g) →
  wp (r ← attempt (parallel (chunk_num img) (get_chunk root tmp (image_name img) (manifest_of img) zero));
      cl ← attempt (fd_close tmp);
      match (match r with inl e => inl e | inr _ => cl end) with
      | inl e => ignore (os_Remove tmp);; throw e
      | inr _ => os_Rename tmp dst
      end) (get_outcome img w) w3.
Proof.
  intros Hdst Hg Hst Hzs Hzc Hz3 Hfs3 Hcells. pose proof (gr_step _ _ _ _ _ _ Hg) as Hs.
  pose proof (dst_ok_frame _ _ Hdst (st_frame _ _ _ _ Hs)) as Hdst2.
  pose proof (sw_fs _ _ (si_wf _ _ _ (st_inv _ _ _ _ Hs))) as Hwf2.
  assert (∀ e w5 dn, filling img zero (w_fs w2) (w_zero w2) dn w5 → ¬ quiet →
    wp (ignore (os_Remove tmp);; throw e) (get_outcome img w) w5) as Hfail.
  { intros e w5 dn (Hz5 & g5 & Hfs5 & _) Hnq. wp_step. wp_step.
    apply (wp_Remove_file _ g5); [rewrite Hfs5; by apply tmp_fs_wf|rewrite Hfs5; apply lookup_insert_eq|intros e' _|];
      wp_step; eapply (get_outcome_mk img w Mid a w2); try done; simpl.
    - rewrite Hfs5. by apply tmp_fs_wf.
    - intros q _ Hq. by rewrite Hfs5, lookup_insert_ne.
    - intros ? _. split; [|done]. rewrite Hfs5, lookup_insert_ne by (intros ?; by apply dst_not_tmp). done.
    - rewrite Hfs5, delete_insert_eq. by apply tmp_gone_wf.
    - intros q _ Hq. by rewrite Hfs5, delete_insert_eq, lookup_delete_ne.
    - intros ? _. split; [|done]. rewrite Hfs5, delete_insert_eq, lookup_delete_ne by (intros ?; by apply dst_not_tmp). done. }
  wp_step. wp_step. eapply wp_mono; [eapply (wp_get_chunks img zero w3 (w_fs w2) (w_zero w2)); try done; [apply Hs|]|].
  { split; [done|]. eauto. }
  intros r w4 (dn & Hfill & Hr). wp_step. wp_step.
  assert (∀ w5, w_fs w5 = w_fs w4 → w_zero w5 = w_zero w4 → filling img zero (w_fs w2) (w_zero w2) dn w5) as Hfill5.
  { destruct Hfill as (Hz4 & g4 & Hfs4 & Hc4). intros w5 Hf5 Hz5. split; [congruence|]. exists g4. split; [congruence|done]. }
  apply wp_close; [intros e Hnq; destruct r; by eapply Hfail, Hnq; apply Hfill5|].
  destruct r as [e|[]]; [by eapply Hfail, Hr; apply Hfill5|]. clear Hfail.
  destruct (Hfill5 (tick w4) eq_refl eq_refl) as (Hz5 & g5 & Hfs5 & Hc5). pose proof Hdst2 as [Hd Hn Ho Hto Hnd Ht].
  simpl in Hfs5, Hz5. apply (wp_Rename_file _ g5); simpl; rewrite ?Hfs5.
  - by apply tmp_fs_wf.
  - apply lookup_insert_eq.
  - destruct Hd as [m Hm]. exists m. rewrite lookup_insert_ne; [done|]. apply tmp_not_d.
  - done.
  - intros [m Hm]. rewrite lookup_insert_ne in Hm by (intros ?; by apply dst_not_tmp). apply Hnd. by exists m.
  - intros e Hnq. eapply (get_outcome_mk img w Mid a w2); try done; simpl; rewrite ?Hfs5.
    + by apply tmp_fs_wf.
    + intros q _ Hq. by rewrite lookup_insert_ne.
    + intros ? _. split; [|done]. rewrite lookup_insert_ne by (intros ?; by apply dst_not_tmp). done.
  - rewrite delete_insert_eq. destruct (out_cells_done img zero dn g5 Hzs Hr Hc5) as [Himg Hsparse].
    eapply (get_outcome_mk img w Mid a w2); try done; simpl.
    + apply fs_wf_insert; [by apply tmp_gone_wf|..|done|].
      * destruct Hd as [m Hm]. exists m. rewrite lookup_delete_ne; [done|]. apply tmp_not_d.
      * intros [m Hm]. exfalso. rewrite lookup_delete_ne in Hm by (intros ?; by apply dst_not_tmp). apply Hnd. by exists m.
    + intros q Hq1 Hq2. rewrite lookup_insert_ne by done. by rewrite lookup_delete_ne.
    + intros _. split; [rewrite lookup_insert_ne by apply dst_not_tmp; apply lookup_delete_eq|].
      exists g5. split_and!; [apply lookup_insert_eq|done|]. intros Hlive. exact (Hsparse (Hzc Hlive)).
Qed.

Lemma wp_GetChunkedTo img w :
  store_inv U root (w_fs w) → memo_ok w → dst_ok (w_fs w) →
  stored_image (w_fs w) root img → json_dom (manifest_of img) → image_in img → zeros_in img →
  wp (GetChunkedTo root (image_name img) dst) (get_outcome img w) w.
Proof.
  intros Hi Hm Hdst Hst Hdom HU HUz. unfold GetChunkedTo. rewrite with_suffix_tmp.
  assert (∀ B (Mid : B → world → Prop) e w', grows U root w Mid (inl e) w' → get_outcome img w (inl e) w') as Hfail.
  { intros B Mid e w' [Hs Hmm Hp Hl]. split; try done; try apply Hs.
    - intros q Hq _ _. by apply (st_frame _ _ _ _ Hs).
    - intros ? _. apply (st_frame _ _ _ _ Hs). apply Hdst.
    - intros Hlive. by destruct (Hl Hlive) as [_ [? ?]]. }
  wp_step. eapply wp_mono; [by apply grows_ReadManifest|]. intros [e|m] w1 Hg1; [by eapply Hfail|].
  destruct (gr_post _ _ _ _ _ _ Hg1 m eq_refl) as [-> Hfs1]. pose proof (gr_step _ _ _ _ _ _ Hg1) as Hs1.
  wp_step. eapply wp_mono; [apply grows_zero_names; try done; [apply Hs1|by apply Hg1]|].
  intros [e|zero] w2 Hg2; [eapply (Hfail unit (λ _ _, True)), grows_trans; [exact Hg1|by eapply grows_fail]|].
  destruct (gr_post _ _ _ _ _ _ Hg2 zero eq_refl) as [Hzs Hzc].
  pose proof (grows_trans _ _ _ _ _ _ _ _ _ Hg1 Hg2) as Hg. pose proof (gr_step _ _ _ _ _ _ Hg) as Hs.
  assert (live root w → zero_complete img zero) as Hzc'.
  { intros Hlive. apply Hzc. by apply (gr_live _ _ _ _ _ _ Hg1). }
  pose proof (dst_ok_frame _ _ Hdst (st_frame _ _ _ _ Hs)) as Hdst2.
  pose proof (sw_fs _ _ (si_wf _ _ _ (st_inv _ _ _ _ Hs))) as Hwf2.
  assert (stored_image (w_fs w2) root img) as Hst2.
  { destruct Hst as [H2 H3]. split; [by eapply stored_step|]. intros i Hi'. eapply stored_step; eauto. }
  wp_step. assert (∀ g0, f_cells g0 = [] →
    wp (t ← attempt (fd_truncate tmp (m_Size (manifest_of img)));
        match t with
        | inl e => ignore (fd_close tmp);; throw e
        | inr _ =>
            r ← attempt (parallel (length (m_Chunks (manifest_of img))) (get_chunk root tmp (image_name img) (manifest_of img) zero));
            cl ← attempt (fd_close tmp);
            match (match r with inl e => inl e | inr _ => cl end) with
            | inl e => ignore (os_Remove tmp);; throw e
            | inr _ => os_Rename tmp dst
            end
        end) (get_outcome img w) (tick (set_fs (<[tmp := NFile g0]> (w_fs w2)) w2))) as Hrest.
  { intros g0 Hg0. wp_step. wp_step. eapply (wp_truncate_empty tmp g0).
    - apply lookup_insert_eq.
    - done.
    - simpl. lia.
    - intros e Hnq. wp_step. wp_step.
      apply wp_close; [intros e' _|]; wp_step; eapply get_outcome_mk with (2 := Hg); try done; simpl.
      all: first [by apply tmp_fs_wf|intros q _ Hq; by rewrite lookup_insert_ne|
        intros ? _; split; [|done]; rewrite lookup_insert_ne by (intros ?; by apply dst_not_tmp); done].
    - intros mt. rewrite manifest_chunks_length.
      eapply (wp_get_fill img zero w) with (2 := Hg); try done; simpl; [by rewrite insert_insert_eq|].
      split; simpl; [rewrite length_replicate; lia|]. intros k Hk. unfold out_cell.
      rewrite decide_False by apply not_elem_of_nil. apply lookup_replicate_2. lia. }
  apply (wp_Create d (c +:+ ".tmp")); [done|apply Hdst2|apply tmp_name, Hdst2|..].
  - intros e Hnq. eapply get_outcome_mk with (2 := Hg); try done.
  - pose proof (do_tmp _ Hdst2) as Ht. fold tmp. destruct (w_fs w2 !! tmp) as [[f|?|?|?]|]; try done.
    + intros mt. by apply Hrest.
    + intros mt ino. by apply Hrest.
Qed.

End target.

End specs.
