(* ===== verification/Tree.v ===== *)
(** * Trees (src/internal/tree/tree.go)

    A tree is a snapshot of a directory: a list of entries sorted by path, each
    file's contents in the blob store. *)

From S2P Require Import Prelude Sha256 Os.
Open Scope Z_scope.

Module Tree.

Record Entry := mkEntry {
  e_Path : string;
  e_Mode : Z;
  e_Size : Z;
  e_Hash : string;
  e_Link : string;
  e_Dir : bool
}.

#[global] Instance Entry_eq_decision : EqDecision Entry.
Proof. solve_decision. Defined.

Record Tree := mkTree { t_Entries : list Entry }.

(** [sort.Slice] by path: [Sorted] and the last step of [Snapshot]. *)
Definition path_le (a b : Entry) : Prop := String.le (e_Path a) (e_Path b).
#[global] Instance path_le_dec a b : Decision (path_le a b) := _.
Definition Sorted (entries : list Entry) : list Entry := merge_sort path_le entries.

(** The permission bits, [Mode().Perm()]; Linux reports a link as 0777. *)
Definition Perm (mode : Z) : Z := Z.land mode 0x1ff.
Definition node_mode (n : node) : Z :=
  match n with
  | NFile f => Perm (f_mode f)
  | NDir m => Perm m
  | NLink _ => 0x1ff
  | NOther m => Perm m
  end.

Section snapshot.
Context `{OsEnv}.
(** The [Blober] and the [Ignore] argument (no function ignores nothing). *)
Context (PutFile : path → M world (string * Z)) (ignore : option (string → bool → bool)).

Definition ignored (rel : string) (isDir : bool) : bool :=
  match ignore with Some f => f rel isDir | None => false end.

Definition add_entry (e : Entry) : M (world * list Entry) unit := modify_snd (λ es, es ++ [e]).

(** The callback of [Snapshot]. *)
Definition snapshot_fn (root : path) (p : path) (isDir : bool) (err : option gerr) : M (world * list Entry) unit :=
  match err with
  | Some e => throw e
  | None =>
      let rel := rel_of root p in
      if decide (rel = "") then mret tt else
      if ignored rel isDir then (if isDir then throw SkipDir else mret tt) else
      info ← on_fst (os_Lstat p);
      let mode := node_mode info in
      if isDir then add_entry (mkEntry rel mode 0 "" "" true) else
      match info with
      | NLink _ =>
          target ← on_fst (os_Readlink p);
          add_entry (mkEntry rel mode 0 "" target false)
      | NFile _ =>
          r ← on_fst (PutFile p);
          add_entry (mkEntry rel mode (snd r) (fst r) "" false)
      | _ => mret tt
      end
  end.

Definition Snapshot (root : path) : M world Tree :=
  entries ← with_local [] (filepath_WalkDir (snapshot_fn root) root);
  mret (mkTree (Sorted entries)).

End snapshot.

(** [Tree.Find]. *)
Definition Find (t : Tree) (path : string) : option Entry :=
  let path := trim_prefix "./" path in
  find (λ e, bool_decide (e_Path e = path)) (t_Entries t).

Inductive kind := added | modified | deleted.
#[global] Instance kind_eq_decision : EqDecision kind.
Proof. solve_decision. Defined.
Definition kind_string (k : kind) : string :=
  match k with added => "added" | modified => "modified" | deleted => "deleted" end.

Record Change := mkChange { c_Path : string; c_Kind : kind }.
#[global] Instance Change_eq_decision : EqDecision Change.
Proof. solve_decision. Defined.

Definition sameEntry (a b : Entry) : bool :=
  bool_decide (e_Mode a = e_Mode b) && bool_decide (e_Size a = e_Size b) &&
  bool_decide (e_Hash a = e_Hash b) && bool_decide (e_Link a = e_Link b) && bool_decide (e_Dir a = e_Dir b).

(** The map of the entries by path: a later entry overrides. *)
Definition by_path (es : list Entry) : gmap string Entry :=
  foldl (λ m e, <[e_Path e := e]> m) ∅ es.

Definition change_le (a b : Change) : Prop := String.le (c_Path a) (c_Path b).
#[global] Instance change_le_dec a b : Decision (change_le a b) := _.

(** [Diff]. *)
Definition new_change (oldByPath : gmap string Entry) (e : Entry) : option Change :=
  match oldByPath !! e_Path e with
  | None => Some (mkChange (e_Path e) added)
  | Some prev => if sameEntry prev e then None else Some (mkChange (e_Path e) modified)
  end.
Definition gone_change (newByPath : gmap string Entry) (e : Entry) : option Change :=
  match newByPath !! e_Path e with
  | None => Some (mkChange (e_Path e) deleted)
  | Some _ => None
  end.
Definition Diff (old : option Tree) (new : Tree) : list Change :=
  let oldByPath := match old with Some t => by_path (t_Entries t) | None => ∅ end in
  let newByPath := by_path (t_Entries new) in
  merge_sort change_le
    (omap (new_change oldByPath) (t_Entries new) ++
     match old with Some t => omap (gone_change newByPath) (t_Entries t) | None => [] end).

End Tree.
