(* ===== verification/WalkFacts.v ===== *)
(** * Walking a directory tree

    What [filepath.WalkDir] visits, for a callback that adds items to a list
    and may skip directories: the items of [walk_items], in order. *)

From S2P Require Import Prelude Sha256 Os OsFacts.
Open Scope Z_scope.

(** ** Directory listings *)

Lemma elem_of_children σ p c : c ∈ children σ p ↔ is_Some (σ !! (p ++ [c])).
Proof.
  unfold children. rewrite merge_sort_Permutation, list_elem_of_omap. split.
  - intros ([q n] & Hq%elem_of_map_to_list & Hc). unfold child_name, dir_of in Hc. simpl in Hc.
    case_decide as Hd; [|done]. destruct (path_case q) as [->|(d & c' & ->)]; [done|].
    rewrite removelast_snoc in Hd. rewrite last_snoc in Hc. simplify_eq. by rewrite Hq.
  - intros [n Hn]. exists (p ++ [c], n). split; [by apply elem_of_map_to_list|].
    unfold child_name, dir_of. simpl. rewrite removelast_snoc, last_snoc. by rewrite decide_True.
Qed.

Lemma NoDup_children σ p : NoDup (children σ p).
Proof.
  unfold children. rewrite merge_sort_Permutation.
  assert (∀ l : list (path * node), NoDup l.*1 → NoDup (omap (child_name p) l)) as Hl; [|apply Hl, NoDup_fst_map_to_list].
  induction l as [|[q n] l IH]; simpl; [constructor|]. intros [Hq Hl]%NoDup_cons. specialize (IH Hl).
  destruct (child_name p (q, n)) as [c|] eqn:E; [|done]. apply NoDup_cons. split; [|done].
  intros ([q' n'] & Hin & Hc)%list_elem_of_omap. apply Hq. apply list_elem_of_fmap. exists (q', n'). split; [|done].
  unfold child_name, dir_of in E, Hc. simpl in *. repeat case_decide; try done.
  destruct (path_case q) as [->|(d & x & ->)]; [done|]. destruct (path_case q') as [->|(d' & x' & ->)]; [done|].
  rewrite removelast_snoc in *. rewrite last_snoc in *. by simplify_eq.
Qed.

Lemma children_agree σ σ' p :
  (∀ c, is_Some (σ' !! (p ++ [c])) ↔ is_Some (σ !! (p ++ [c]))) → children σ' p = children σ p.
Proof.
  intros Ha. apply (StronglySorted_unique String.le).
  - apply StronglySorted_merge_sort; apply _.
  - apply StronglySorted_merge_sort; apply _.
  - apply NoDup_Permutation; [apply NoDup_children..|]. intros c. by rewrite !elem_of_children.
Qed.

(** [σ'] is [σ] with the trees at [ps] removed. *)
Definition under_any (ps : list path) (q : path) : Prop := ∃ p, p ∈ ps ∧ below p q.
Definition without (ps : list path) (σ σ' : fs) : Prop :=
  ∀ q, under_any ps q ∧ σ' !! q = None ∨ ¬ under_any ps q ∧ σ' !! q = σ !! q.

Lemma without_nil σ : without [] σ σ.
Proof. intros q. right. split; [|done]. by intros (p & ?%not_elem_of_nil & _). Qed.

Lemma without_snoc ps p σ σ' :
  without ps σ σ' → without (ps ++ [p]) σ (filter (λ kv, ¬ below p kv.1) σ').
Proof.
  intros Hlook q. assert (under_any (ps ++ [p]) q ↔ under_any ps q ∨ below p q) as Hu.
  { unfold under_any. setoid_rewrite elem_of_app. setoid_rewrite list_elem_of_singleton. naive_solver. }
  rewrite Hu. destruct (decide (below p q)) as [Hb|Hb].
  - left. split; [by right|]. apply map_lookup_filter_None. right. intros n _ Hn. by apply Hn.
  - destruct (Hlook q) as [[Hq Hnone]|[Hq Hsame]].
    + left. split; [by left|]. apply map_lookup_filter_None. by left.
    + right. split; [naive_solver|]. rewrite <- Hsame. destruct (σ' !! q) as [n|] eqn:E.
      * by apply map_lookup_filter_Some.
      * apply map_lookup_filter_None. by left.
Qed.

Section specs.
Context `{OsEnv}.

Lemma wp_ReadDir p m Q w :
  fs_wf (w_fs w) → w_fs w !! p = Some (NDir m) →
  (∀ e, ¬ quiet → Q (inl (Errno e)) (tick w)) →
  Q (inr (dirent_of (w_fs w) p <$> children (w_fs w) p)) (tick w) → wp (os_ReadDir p) Q w.
Proof. intros Hwf Hp Hf HQ. apply wp_sys_read; [done|]. by rewrite (find_node_dir _ _ _ m). Qed.

Lemma wp_Readlink p t Q w :
  fs_wf (w_fs w) → w_fs w !! p = Some (NLink t) →
  (∀ e, ¬ quiet → Q (inl (Errno e)) (tick w)) → Q (inr t) (tick w) → wp (os_Readlink p) Q w.
Proof. intros Hwf Hp Hf HQ. apply wp_sys_read; [done|]. by rewrite (find_node_some _ _ _ (NLink t)). Qed.

Lemma wp_Lstat_some p n Q w :
  fs_wf (w_fs w) → w_fs w !! p = Some n →
  (∀ e, ¬ quiet → Q (inl (Errno e)) (tick w)) → Q (inr n) (tick w) → wp (os_Lstat p) Q w.
Proof. intros Hwf Hp Hf HQ. apply wp_Lstat; [done|]. by rewrite (find_node_some _ _ _ n). Qed.

(** [RemoveAll] of a path whose parent is a directory: everything at or below
    it goes. *)
Lemma wp_RemoveAll d c Q w :
  fs_wf (w_fs w) → is_dir (w_fs w) d → good_name c →
  (∀ e, ¬ quiet → Q (inl (Errno e)) (tick w)) →
  Q (inr tt) (tick (set_fs (filter (λ kv, ¬ below (d ++ [c]) kv.1) (w_fs w)) w)) →
  wp (os_RemoveAll (d ++ [c])) Q w.
Proof.
  intros Hwf Hd Hc Hf HQ. apply wp_sys; [done|].
  destruct (w_fs w !! (d ++ [c])) as [n|] eqn:E.
  - by rewrite (find_node_some _ _ _ n).
  - rewrite find_node_none by done. simpl.
    enough (filter (λ kv, ¬ below (d ++ [c]) kv.1) (w_fs w) = w_fs w) as He by by rewrite He in HQ.
    apply map_eq. intros q. destruct (w_fs w !! q) as [n|] eqn:Eq.
    + apply map_lookup_filter_Some. split; [done|]. simpl. intros [k ->].
      destruct (decide (k = [])) as [->|Hk]; [rewrite app_nil_r in Eq; congruence|].
      destruct (fs_wf_up _ (d ++ [c]) k Hwf Hk) as [m Hm]; [by eexists|congruence].
    + apply map_lookup_filter_None. by left.
Qed.

Lemma fs_wf_remove σ p : fs_wf σ → p ≠ [] → fs_wf (filter (λ kv, ¬ below p kv.1) σ).
Proof.
  intros [[m Hm] Hwf] Hp. split.
  - exists m. apply map_lookup_filter_Some. split; [done|]. intros [k Hk]. symmetry in Hk. by apply app_nil in Hk as [? _].
  - intros q c [n [Hn Hb]%map_lookup_filter_Some]. destruct (Hwf q c) as [[m' Hm'] ?]; [by eexists|]. split; [|done].
    exists m'. apply map_lookup_filter_Some. split; [done|]. intros Hq. apply Hb. by apply prefix_app_r.
Qed.

(** ** The walk *)

Section walk.
Context {X : Type} (fn : path → bool → option gerr → M (world * list X) unit).
(** The files as they were when the walk began, below the directory walked. *)
Context (σ0 : fs) (work : path).
(** What the callback adds at a node, and whether it goes on below. *)
Context (visit : path → node → list X * bool).
Context (Inv : list X → world → Prop) (Fail : world → Prop).

Definition agree (σ : fs) : Prop := ∀ q, below work q → σ !! q = σ0 !! q.

Fixpoint walk_items (n : nat) (p : path) : list X :=
  match n with
  | O => []
  | S k =>
      match σ0 !! p with
      | None => []
      | Some nd =>
          fst (visit p nd) ++
          (if is_dir_node nd && snd (visit p nd) then children σ0 p ≫= (λ c, walk_items k (p ++ [c])) else [])
      end
  end.

Record walk_ok : Prop := {
  wo_wf : ∀ xs w, Inv xs w → fs_wf (w_fs w);
  wo_agree : ∀ xs w, Inv xs w → agree (w_fs w);
  wo_tick : ∀ xs w, Inv xs w → Inv xs (tick w);
  wo_fail : ∀ xs w, Inv xs w → ¬ quiet → Fail w;
  wo_visit : ∀ p nd xs w, below work p → σ0 !! p = Some nd → Inv xs w →
    wp (fn p (is_dir_node nd) None) (λ r sx, match r with
      | inr _ => Inv (snd sx) (fst sx) ∧ snd sx = xs ++ fst (visit p nd) ∧ (is_dir_node nd = true → snd (visit p nd) = true)
      | inl e => if decide (e = SkipDir)
                 then Inv (snd sx) (fst sx) ∧ snd sx = xs ++ fst (visit p nd) ∧ is_dir_node nd = true ∧ snd (visit p nd) = false
                 else Fail (fst sx)
      end) (w, xs);
  wo_err : ∀ p d xs e w, Inv xs w → ¬ quiet →
    wp (fn p d (Some (Errno e))) (λ r sx, ∃ e', r = inl e' ∧ e' ≠ SkipDir ∧ Fail (fst sx)) (w, xs)
}.

Definition walk_post (xs items : list X) (r : gerr + ()) (sx : world * list X) : Prop :=
  match r with
  | inr _ => Inv (snd sx) (fst sx) ∧ snd sx = xs ++ items
  | inl e => e ≠ SkipDir ∧ Fail (fst sx)
  end.

Lemma walk_post_app xs a b r sx : walk_post (xs ++ a) b r sx → walk_post xs (a ++ b) r sx.
Proof. unfold walk_post. destruct r; [done|]. by rewrite app_assoc. Qed.

Context (Hok : walk_ok).

Lemma depth_bound σ p n : σ !! p = Some n → (length p ≤ depth σ)%nat.
Proof.
  intros Hp. unfold depth. apply max_list_elem_of_le. apply list_elem_of_fmap. exists p. split; [done|].
  apply list_elem_of_fmap. exists (p, n). split; [done|]. by apply elem_of_map_to_list.
Qed.

Lemma wp_walk_dir n p nd xs w :
  below work p → σ0 !! p = Some nd → (depth σ0 < n + length p)%nat → Inv xs w →
  wp (walk_dir fn n p (is_dir_node nd)) (walk_post xs (walk_items n p)) (w, xs).
Proof.
  revert p nd xs w. induction n as [|k IH]; intros p nd xs w Hb Hp Hfuel HI.
  { apply depth_bound in Hp. lia. }
  cbn [walk_dir walk_items]. rewrite Hp. pose proof (wo_visit Hok p nd xs w Hb Hp HI) as Hv.
  wp_step. wp_step. eapply wp_mono; [exact Hv|]. clear Hv. intros [e|[]] [w1 xs1]; simpl.
  { case_decide as He.
    - intros (HI1 & -> & Hd & Hg). rewrite Hg, andb_false_r, app_nil_r.
      unfold skip_dir. rewrite Hd, bool_decide_eq_true_2 by done. simpl. wp_step. done.
    - intros Hf. unfold skip_dir. rewrite bool_decide_eq_false_2 by done. simpl. wp_step. done. }
  intros (HI1 & -> & Hg). destruct (is_dir_node nd) eqn:Hd; simpl; [|wp_step; simpl; by rewrite app_nil_r].
  rewrite Hg by done. destruct nd as [|m| |]; try done.
  assert (w_fs w1 !! p = Some (NDir m)) as Hp1 by (rewrite (wo_agree Hok _ _ HI1); done).
  wp_step. wp_step. wp_step. apply (wp_ReadDir p m); [by apply (wo_wf Hok _ _ HI1)|done|..].
  { intros e Hq. wp_step. wp_step. eapply wp_mono; [apply (wo_err Hok p _ _ e (tick w1)); [by apply (wo_tick Hok)|done]|].
    intros r [w2 xs2] (e' & -> & He' & Hf). simpl. unfold skip_dir. rewrite bool_decide_eq_false_2 by done. simpl. wp_step. done. }
  assert (children (w_fs w1) p = children σ0 p) as Hch.
  { apply children_agree. intros c. rewrite (wo_agree Hok _ _ HI1); [done|]. by apply prefix_app_r. }
  rewrite Hch. clear Hch.
  assert (∀ c, c ∈ children σ0 p → ∃ n', σ0 !! (p ++ [c]) = Some n' ∧ dirent_of (w_fs w1) p c = (c, is_dir_node n')) as Hent.
  { intros c [n' Hn']%elem_of_children. exists n'. split; [done|]. unfold dirent_of.
    rewrite (wo_agree Hok _ _ HI1), Hn'; [done|]. by apply prefix_app_r. }
  eapply wp_mono; [|intros r sx; apply walk_post_app]. apply (wo_tick Hok) in HI1.
  generalize dependent (tick w1). intros w2 HI2. generalize dependent (xs ++ fst (visit p (NDir m))). intros xs0 HI2.
  generalize dependent (children σ0 p). intros l Hent. revert w2 xs0 HI2.
  induction l as [|c l IHl]; intros w2 xs0 HI2.
  { simpl. wp_step. simpl. by rewrite app_nil_r. }
  destruct (Hent c) as (n' & Hn' & He'); [left|]. rewrite fmap_cons, He'.
  wp_step. wp_step. eapply wp_mono; [apply (IH _ n'); try done; [by apply prefix_app_r|rewrite length_app; simpl; lia]|].
  intros [e|[]] [w3 xs3]; simpl.
  - intros [He Hf]. rewrite decide_False by done. wp_step. done.
  - intros [HI3 ->]. eapply wp_mono; [apply IHl; [|done]|].
    + intros c' Hc'. apply Hent. by right.
    + intros [e|[]] [w4 xs4]; simpl; [done|]. intros [HI4 ->]. split; [done|].
      change ((c :: l) ≫= (λ c0, walk_items k (p ++ [c0]))) with (walk_items k (p ++ [c]) ++ (l ≫= (λ c0, walk_items k (p ++ [c0])))).
      by rewrite app_assoc.
Qed.

Lemma wp_WalkDir nd w :
  w_fs w = σ0 → σ0 !! work = Some nd → Inv [] w →
  wp (filepath_WalkDir fn work) (walk_post [] (walk_items (S (depth σ0)) work)) (w, []).
Proof.
  intros Hσ Hw HI. unfold filepath_WalkDir. wp_step. wp_step. cbv beta iota. cbn [fst]. rewrite Hσ. assert (depth σ0 < S (depth σ0))%nat as Hfuel by lia. generalize dependent (S (depth σ0)). intros fuel Hfuel. wp_step. wp_step. wp_step.
  apply (wp_Lstat_some work nd); [by apply (wo_wf Hok _ _ HI)|by rewrite Hσ|..].
  - intros e Hq. wp_step. wp_step. eapply wp_mono; [apply (wo_err Hok work false [] e (tick w)); [by apply (wo_tick Hok)|done]|].
    intros r [w1 xs1] (e' & -> & He' & Hf). rewrite decide_False by done. wp_step. done.
  - wp_step. wp_step. eapply wp_mono; [apply (wp_walk_dir _ work nd []); [done|done|lia|by apply (wo_tick Hok)]|].
    intros [e|[]] [w1 xs1]; simpl.
    + intros [He Hf]. rewrite decide_False by done. wp_step. done.
    + intros HI1. wp_step. done.
Qed.

(** The walk goes on below [q]. *)
Definition open_at (q : path) : bool :=
  match σ0 !! q with Some nd => is_dir_node nd && snd (visit q nd) | None => false end.
(** Every directory between [p] and [p ++ cs] is one the walk goes into. *)
Definition reached (p cs : path) : Prop := ∀ k c r, cs = k ++ c :: r → open_at (p ++ k) = true.

Lemma reached_nil p : reached p [].
Proof. intros k c r He. by destruct k. Qed.

Lemma reached_cons p c cs : reached p (c :: cs) ↔ open_at p = true ∧ reached (p ++ [c]) cs.
Proof.
  split.
  - intros Hr. split; [rewrite <- (app_nil_r p); by apply (Hr [] c cs)|].
    intros k c' r ->. rewrite <- app_assoc. by apply (Hr (c :: k) c' r).
  - intros [Ho Hr] k c' r He. destruct k as [|c0 k]; [by rewrite app_nil_r|].
    simpl in He. injection He as -> ->. replace (p ++ c0 :: k) with ((p ++ [c0]) ++ k) by by rewrite <- app_assoc.
    by eapply Hr.
Qed.

Lemma elem_of_walk_items n p x :
  (depth σ0 < n + length p)%nat →
  x ∈ walk_items n p ↔ ∃ cs nd, σ0 !! (p ++ cs) = Some nd ∧ reached p cs ∧ x ∈ fst (visit (p ++ cs) nd).
Proof.
  revert p. induction n as [|k IH]; intros p Hn; simpl.
  { split; [by intros ?%not_elem_of_nil|]. intros (cs & nd & Hp%depth_bound & _). rewrite length_app in Hp. lia. }
  destruct (σ0 !! p) as [nd|] eqn:E.
  - rewrite elem_of_app. assert (open_at p = is_dir_node nd && snd (visit p nd)) as Ho by (unfold open_at; by rewrite E).
    rewrite <- Ho. split.
    + intros [Hx|Hx]; [exists [], nd; rewrite app_nil_r; split_and!; [done|apply reached_nil|done]|].
      destruct (open_at p) eqn:Hopen; [|by apply not_elem_of_nil in Hx].
      apply list_elem_of_bind in Hx as (c & Hx & [n' Hc]%elem_of_children). apply IH in Hx as (cs & nd' & Hcs & Hr & Hx); [|rewrite length_app; simpl; lia].
      rewrite <- app_assoc in Hcs, Hx. exists (c :: cs), nd'. split_and!; [done| |done]. apply reached_cons. auto.
    + intros (cs & nd' & Hcs & Hr & Hx). destruct cs as [|c cs].
      { left. rewrite app_nil_r in *. by simplify_eq. }
      apply reached_cons in Hr as [Hopen Hr]. right. rewrite Hopen. apply list_elem_of_bind. exists c.
      replace (p ++ c :: cs) with ((p ++ [c]) ++ cs) in * by by rewrite <- app_assoc. split.
      * apply IH; [rewrite length_app; simpl; lia|]. eauto.
      * apply elem_of_children. destruct cs as [|c' cs]; [rewrite app_nil_r in Hcs; by eexists|].
        specialize (Hr [] c' cs eq_refl). rewrite app_nil_r in Hr. unfold open_at in Hr. destruct (σ0 !! (p ++ [c])); [by eexists|done].
  - split; [by intros ?%not_elem_of_nil|]. intros (cs & nd & Hcs & Hr & _). destruct cs as [|c cs].
    { rewrite app_nil_r in Hcs. congruence. }
    apply reached_cons in Hr as [Hr _]. unfold open_at in Hr. by rewrite E in Hr.
Qed.

(** If each item carries the path it was made for, no two are for the same. *)
Lemma walk_items_keys (key : X → path) n p :
  (∀ q nd, σ0 !! q = Some nd → below work q → (length (fst (visit q nd)) ≤ 1)%nat ∧ ∀ x, x ∈ fst (visit q nd) → key x = q) →
  below work p → NoDup (key <$> walk_items n p) ∧ ∀ x, x ∈ walk_items n p → below p (key x).
Proof.
  intros Hkey. revert p. induction n as [|k IH]; intros p Hp; simpl.
  { split; [constructor|]. by intros x ?%not_elem_of_nil. }
  destruct (σ0 !! p) as [nd|] eqn:E; [|split; [constructor|by intros x ?%not_elem_of_nil]].
  destruct (Hkey p nd E Hp) as [Hlen Hk].
  set (sub := children σ0 p ≫= (λ c, walk_items k (p ++ [c]))).
  assert (NoDup (key <$> sub) ∧ ∀ x, x ∈ sub → ∃ c, below (p ++ [c]) (key x)) as [Hnd Hsub].
  { unfold sub. pose proof (NoDup_children σ0 p) as Hc. generalize dependent (children σ0 p). intros l _ Hc.
    assert (∀ l' x, x ∈ l' ≫= (λ c, walk_items k (p ++ [c])) → ∃ c, c ∈ l' ∧ below (p ++ [c]) (key x)) as Hin.
    { intros l' x (c & Hx & Hcl)%list_elem_of_bind. exists c. split; [done|]. apply (IH (p ++ [c])); [by apply prefix_app_r|done]. }
    split; [|intros x Hx; destruct (Hin l x Hx) as (c & _ & ?); by exists c].
    induction Hc as [|c l Hc Hl IHl]; simpl; [constructor|].
    change (NoDup (key <$> (walk_items k (p ++ [c]) ++ (l ≫= (λ c0, walk_items k (p ++ [c0])))))).
    rewrite fmap_app. apply NoDup_app. split_and!; [apply IH; by apply prefix_app_r| |exact IHl].
    intros q (x & -> & Hx)%list_elem_of_fmap (y & He & Hy)%list_elem_of_fmap.
    apply (IH (p ++ [c])) in Hx; [|by apply prefix_app_r]. destruct (Hin l y Hy) as (c' & Hc' & Hy').
    rewrite He in Hx. destruct Hx as [k1 Hk1], Hy' as [k2 Hk2]. rewrite Hk1 in Hk2. rewrite <- !app_assoc in Hk2.
    apply app_inv_head in Hk2. simpl in Hk2. injection Hk2 as -> _. done. }
  assert (∀ x, x ∈ (if is_dir_node nd && snd (visit p nd) then sub else []) → x ∈ sub) as Hif by (destruct (_ && _); [done|by intros x ?%not_elem_of_nil]).
  split.
  - rewrite fmap_app. apply NoDup_app. split_and!.
    + destruct (fst (visit p nd)) as [|x [|y l]]; [constructor|apply NoDup_singleton|simpl in Hlen; lia].
    + intros q (x & -> & Hx)%list_elem_of_fmap (y & He & Hy%Hif)%list_elem_of_fmap. rewrite (Hk x Hx) in He.
      destruct (Hsub y Hy) as (c & [r Hr]). rewrite <- He in Hr. rewrite <- app_assoc in Hr.
      apply (f_equal length) in Hr. rewrite !length_app in Hr. simpl in Hr. lia.
    + destruct (_ && _); [done|constructor].
  - intros x [Hx|Hx%Hif]%elem_of_app; [by rewrite (Hk x Hx)|]. destruct (Hsub x Hx) as (c & [r Hr]).
    exists (c :: r). by rewrite Hr, <- app_assoc.
Qed.

End walk.
End specs.
