(* ===== verification/TreeFacts.v ===== *)
(** * Snapshots and differences are right

    [Snapshot] lists exactly the files, directories and links below a
    directory, less what is ignored, sorted, with every file's contents in the
    store.  [Diff] of two trees is the sorted list of the paths at which they
    differ. *)

From S2P Require Import Prelude Sha256 Os OsFacts Cas Blobs WalkFacts Tree.
Import Cas Tree.
Open Scope Z_scope.

(** ** Programs that never return [SkipDir] *)

Section no_skip.
Context `{OsEnv}.

Definition no_skip {A} (m : M world A) : Prop := ∀ w, wp m (λ r _, r ≠ inl SkipDir) w.

Lemma no_skip_ret {A} (a : A) : no_skip (mret a).
Proof. by intros w. Qed.
Lemma no_skip_throw {A} e : e ≠ SkipDir → no_skip (throw (A := A) e).
Proof. intros He w. apply wp_throw. by intros [= ->]. Qed.
Lemma no_skip_bind {A B} (m : M world A) (k : A → M world B) :
  no_skip m → (∀ a, no_skip (k a)) → no_skip (m ≫= k).
Proof. intros Hm Hk w. apply wp_bind. eapply wp_mono; [apply Hm|]. intros [e|a] w'; [|intros _; apply Hk]. congruence. Qed.
Lemma no_skip_attempt {A B} (m : M world A) (k : gerr + A → M world B) :
  no_skip m → (∀ r, r ≠ inl SkipDir → no_skip (k r)) → no_skip (attempt m ≫= k).
Proof. intros Hm Hk w. apply wp_bind, wp_attempt. eapply wp_mono; [apply Hm|]. intros r w' Hr. by apply Hk. Qed.
Lemma no_skip_ignore {A} (m : M world A) : no_skip m → no_skip (ignore m).
Proof. intros Hm w. apply wp_ignore. eapply wp_mono; [apply Hm|]. done. Qed.
Lemma no_skip_sys {A} (op : nat → fs → (errno + A) * fs) : no_skip (sys op).
Proof. intros w. apply wp_sys; [by intros|]. by destruct (op _ _).1. Qed.
Lemma no_skip_write h b : no_skip (fd_write h b).
Proof. intros w. unfold wp, fd_write. destruct (fault _); destruct (upd_file _ _ _) as [[] ?]; done. Qed.
Lemma no_skip_get : no_skip (get_state).
Proof. by intros w. Qed.

Lemma no_skip_mkdirAll p m : no_skip (os_MkdirAll p m).
Proof.
  unfold os_MkdirAll. generalize (reverse p). intros rp. induction rp as [|c up IH]; simpl.
  all: apply no_skip_attempt; [apply no_skip_sys|]; intros [e|[]] _; try apply no_skip_ret; try by apply no_skip_throw.
  all: apply no_skip_bind; [first [apply no_skip_ret|exact IH]|]; intros [].
  all: apply no_skip_attempt; [apply no_skip_sys|]; intros [e1|[]] He1; [|apply no_skip_ret].
  all: apply no_skip_attempt; [apply no_skip_sys|]; intros [e2|[]] He2; try apply no_skip_ret; apply no_skip_throw; congruence.
Qed.

Lemma no_skip_createTemp d pre : no_skip (os_CreateTemp d pre).
Proof.
  unfold os_CreateTemp. generalize 9999%nat. intros n. induction n as [|n IH]; simpl.
  all: apply no_skip_bind; [apply no_skip_get|]; intros w0.
  all: apply no_skip_attempt; [apply no_skip_sys|]; intros [e|q] He; [|apply no_skip_ret].
  - apply no_skip_throw. congruence.
  - case_decide; [exact IH|]. apply no_skip_throw. congruence.
Qed.

Lemma no_skip_PutFile root p : no_skip (PutFile root p).
Proof.
  unfold PutFile. apply no_skip_bind; [apply no_skip_sys|]. intros f. apply no_skip_bind; [apply no_skip_sys|]. intros b.
  apply no_skip_attempt; [apply no_skip_sys|]. intros [e|?] _; [|apply no_skip_ret].
  apply no_skip_bind; [apply no_skip_sys|]. intros []. apply no_skip_bind; [apply no_skip_mkdirAll|]. intros [].
  apply no_skip_bind; [apply no_skip_createTemp|]. intros tmp.
  apply no_skip_attempt.
  { apply no_skip_bind; [apply no_skip_sys|]. intros b'. apply no_skip_write. }
  intros [e1|?] He1; (apply no_skip_bind; [apply no_skip_ignore, no_skip_sys|]); intros [].
  - apply no_skip_throw. congruence.
  - apply no_skip_bind; [apply no_skip_ignore, no_skip_sys|]. intros [].
    apply no_skip_bind; [apply no_skip_sys|]. intros []. apply no_skip_ret.
Qed.
End no_skip.

(** ** What a snapshot lists *)

(** The entry of a node; sockets and devices have none. *)
Definition entry_of (rel : string) (n : node) : option Entry :=
  match n with
  | NDir _ => Some (mkEntry rel (node_mode n) 0 "" "" true)
  | NLink t => Some (mkEntry rel (node_mode n) 0 "" t false)
  | NFile f => Some (mkEntry rel (node_mode n) (f_size f) (hashOf (contents f)) "" false)
  | NOther _ => None
  end.

Section snapshot.
Context `{OsEnv} (U : bytes → Prop) {NC : NoCollision U}.
Context (ign : option (string → bool → bool)) (root work : path) (σ0 : fs).

Definition visit (p : path) (n : node) : list Entry * bool :=
  let rel := rel_of work p in
  if decide (rel = "") then ([], true)
  else if ignored ign rel (is_dir_node n) then ([], false)
  else (option_list (entry_of rel n), true).

(** The contents of a file entry are in the store. *)
Definition entry_stored (σ : fs) (e : Entry) : Prop :=
  e_Dir e = false → e_Link e = "" → ∃ b, e_Hash e = hashOf b ∧ e_Size e = Z.of_nat (length b) ∧ stored σ root b.

(** The directory walked and the store are apart. *)
Definition apart : Prop := ∀ q, below work q → ¬ below root q.

Definition snap_inv (w0 : world) (es : list Entry) (w : world) : Prop :=
  grows U root w0 (λ _ _, True) (inr tt) w ∧ Forall (entry_stored (w_fs w)) es.
Definition snap_fail (w0 : world) (w : world) : Prop :=
  store_step U root (w_fs w0) (w_fs w) ∧ (memo_ok w0 → memo_ok w) ∧ ¬ live root w0.

Lemma snap_inv_tick w0 es w : snap_inv w0 es w → snap_inv w0 es (tick w).
Proof.
  intros [Hg He]. split; [|done]. eapply grows_trans; [exact Hg|]. apply grows_unchanged; try done; [|eauto].
  apply (st_inv _ _ _ _ (gr_step _ _ _ _ _ _ Hg)).
Qed.

Lemma snap_inv_fail w0 es w : snap_inv w0 es w → ¬ quiet → snap_fail w0 w.
Proof. intros [[Hs Hm _ _] _] Hq. split_and!; [done..|]. by intros [? _]. Qed.

Lemma entry_stored_step σ σ' e : store_step U root σ σ' → entry_stored σ e → entry_stored σ' e.
Proof. intros Hs He Hd Hl. destruct (He Hd Hl) as (b & ? & ? & ?). exists b. split_and!; [done..|by eapply stored_step]. Qed.

Lemma snap_inv_step {A} w0 es w (Post : A → world → Prop) a w1 :
  snap_inv w0 es w → grows U root w Post (inr a) w1 → snap_inv w0 es w1.
Proof.
  intros [Hg He] Hg1. split; [eapply grows_trans; [exact Hg|]; destruct Hg1 as [H1 H2 H3 H4]; split; [done|done|done|]|].
  - intros Hl. destruct (H4 Hl). eauto.
  - eapply Forall_impl; [exact He|]. intros e. apply entry_stored_step, (gr_step _ _ _ _ _ _ Hg1).
Qed.

Lemma snap_fail_step {A} w0 es w (Post : A → world → Prop) e w1 :
  snap_inv w0 es w → grows U root w Post (inl e) w1 → snap_fail w0 w1.
Proof.
  intros [Hg _] Hg1. pose proof (grows_trans _ _ _ _ _ _ _ _ _ Hg Hg1) as [Hs Hm _ Hl]. split_and!; [done..|].
  intros Hlive. by destruct (Hl Hlive) as [_ [? ?]].
Qed.

Lemma snapshot_walk_ok w0 :
  w_fs w0 = σ0 → apart → (∀ q f, below work q → σ0 !! q = Some (NFile f) → U (contents f)) →
  (∀ q t, below work q → σ0 !! q = Some (NLink t) → t ≠ "") →
  walk_ok (snapshot_fn (PutFile root) ign work) σ0 work visit (snap_inv w0) (snap_fail w0).
Proof.
  intros Hσ Hap HU Hlinks.
  assert (∀ es w, snap_inv w0 es w → agree σ0 work (w_fs w)) as Hag.
  { intros es w [[Hs _ _ _] _] q Hq. rewrite (st_frame _ _ _ _ Hs), Hσ; [done|]. by apply Hap. }
  assert (∀ es w, snap_inv w0 es w → fs_wf (w_fs w)) as Hwf by (intros es w [[[Hi _ _] _ _ _] _]; apply Hi).
  split; try done.
  - intros. by apply snap_inv_tick.
  - intros. by eapply snap_inv_fail.
  - intros p nd es w Hp Hnd HI. unfold snapshot_fn, visit.
    assert (w_fs w !! p = Some nd) as Hw by (by rewrite (Hag es)).
    case_decide as Hrel.
    { wp_step. simpl. by rewrite app_nil_r. }
    destruct (ignored ign (rel_of work p) (is_dir_node nd)) eqn:Hign.
    { destruct (is_dir_node nd) eqn:Hd; wp_step; simpl; rewrite app_nil_r; done. }
    wp_step. wp_step. apply (wp_Lstat_some p nd); [by eapply Hwf|done|..].
    { intros e Hq. simpl. by eapply snap_inv_fail; [apply snap_inv_tick|]. }
    apply snap_inv_tick in HI. destruct nd as [f|m|t|m]; simpl.
    + wp_step. wp_step. eapply wp_mono; [apply wp_and; [apply (grows_PutFile U root p f)|apply no_skip_PutFile]|].
      { apply (st_inv _ _ _ _ (gr_step _ _ _ _ _ _ (proj1 HI))). }
      { by eapply HU. }
      { done. }
      intros [e|hn] w1 [Hg Hns].
      * rewrite decide_False by congruence. by eapply snap_fail_step.
      * destruct (gr_post _ _ _ _ _ _ Hg hn eq_refl) as [-> Hst]. unfold add_entry. wp_step. simpl.
        pose proof (snap_inv_step _ _ _ _ _ _ HI Hg) as [Hg1 He1]. split_and!; [|done|done]. split; [done|].
        apply Forall_app. split; [done|]. apply Forall_singleton. intros _ _. exists (contents f).
        split_and!; [done| |done]. unfold f_size, contents. by rewrite length_fmap.
    + unfold add_entry. wp_step. simpl. split_and!; [|done..]. destruct HI as [Hg He]. split; [done|].
      apply Forall_app. split; [done|]. apply Forall_singleton. intros Hd. done.
    + wp_step. wp_step. apply (wp_Readlink p t); [by eapply Hwf|done|..].
      { intros e Hq. simpl. by eapply snap_inv_fail; [apply snap_inv_tick|]. }
      apply snap_inv_tick in HI. unfold add_entry. wp_step. simpl. split_and!; [|done..]. destruct HI as [Hg He]. split; [done|].
      apply Forall_app. split; [done|]. apply Forall_singleton. intros _ Hl. by apply Hlinks in Hnd.
    + wp_step. simpl. by rewrite app_nil_r.
  - intros p d es e w HI Hq. simpl. wp_step. exists (Errno e). split_and!; [done..|]. by eapply snap_inv_fail.
Qed.

(** No directory on the way to [cs], nor [cs] itself, is ignored. *)
Definition visible (cs : path) : Prop :=
  ∀ k r nd, cs = k ++ r → k ≠ [] → σ0 !! (work ++ k) = Some nd → ignored ign (join_with "/" k) (is_dir_node nd) = false.

(** The directory as a snapshot sees it: names are names, links have targets,
    contents are in [U]. *)
Record snapshot_pre : Prop := {
  sp_apart : apart;
  sp_dir : is_dir σ0 work;
  sp_names : ∀ cs, is_Some (σ0 !! (work ++ cs)) → Forall (λ c, has_char slash c = false) cs;
  sp_links : ∀ q t, below work q → σ0 !! q = Some (NLink t) → t ≠ "";
  sp_U : ∀ q f, below work q → σ0 !! q = Some (NFile f) → U (contents f)
}.

(** What the tree of the directory must be. *)
Record snapshot_of (t : Tree) : Prop := {
  so_entries : ∀ e, e ∈ t_Entries t ↔
    ∃ cs nd, cs ≠ [] ∧ σ0 !! (work ++ cs) = Some nd ∧ visible cs ∧ entry_of (join_with "/" cs) nd = Some e;
  so_sorted : StronglySorted path_le (t_Entries t);
  so_nodup : NoDup (e_Path <$> t_Entries t)
}.

Lemma rel_of_app cs : rel_of work (work ++ cs) = join_with "/" cs.
Proof. unfold rel_of. by rewrite drop_app_length. Qed.

Lemma join_empty cs : Forall good_name cs → join_with "/" cs = "" → cs = [].
Proof. destruct cs as [|c [|d cs]]; [done|..]; intros Hg; inversion Hg as [|?? [Hc _] _]; subst; simpl; [done|]. by destruct c. Qed.

Lemma entry_of_path rel n e : entry_of rel n = Some e → e_Path e = rel.
Proof. destruct n; simpl; by intros [= <-]. Qed.

Lemma elem_of_visit cs nd e :
  fs_wf σ0 → σ0 !! (work ++ cs) = Some nd →
  e ∈ fst (visit (work ++ cs) nd) ↔
    cs ≠ [] ∧ ignored ign (join_with "/" cs) (is_dir_node nd) = false ∧ entry_of (join_with "/" cs) nd = Some e.
Proof.
  intros Hwf Hnd. unfold visit. rewrite rel_of_app.
  assert (Forall good_name cs) as Hg by (eapply fs_wf_names; [done|by eexists]).
  case_decide as Hrel.
  - apply join_empty in Hrel as ->; [|done]. simpl. rewrite elem_of_nil. tauto.
  - assert (cs ≠ []) by (intros ->; done). destruct (ignored ign _ _) eqn:Hi; simpl.
    + rewrite elem_of_nil. naive_solver.
    + destruct (entry_of _ nd) as [e'|]; simpl; rewrite ?elem_of_nil, ?list_elem_of_singleton; naive_solver.
Qed.

Lemma open_at_dir k :
  fs_wf σ0 → is_dir σ0 (work ++ k) →
  open_at σ0 visit (work ++ k) = true ↔
    (k ≠ [] → ∀ nd, σ0 !! (work ++ k) = Some nd → ignored ign (join_with "/" k) (is_dir_node nd) = false).
Proof.
  intros Hwf [m Hm]. unfold open_at. rewrite Hm. simpl. unfold visit. rewrite rel_of_app.
  assert (Forall good_name k) as Hg by (eapply fs_wf_names; [done|by eexists]).
  case_decide as Hrel.
  - apply join_empty in Hrel as ->; [|done]. simpl. naive_solver.
  - assert (k ≠ []) by (intros ->; done). simpl. destruct (ignored ign _ _) eqn:Hi; simpl; naive_solver.
Qed.

Lemma reached_visible cs nd :
  fs_wf σ0 → σ0 !! (work ++ cs) = Some nd →
  ignored ign (join_with "/" cs) (is_dir_node nd) = false → (reached σ0 visit work cs ↔ visible cs).
Proof.
  intros Hwf Hnd Hi. split.
  - intros Hr k r n -> Hk Hn. destruct r as [|c r]; [rewrite app_nil_r in Hnd, Hi; by simplify_eq|].
    assert (is_dir σ0 (work ++ k)) as Hd.
    { eapply (fs_wf_up _ _ (c :: r)); [done|done|]. rewrite <- app_assoc. by eexists. }
    specialize (Hr k c r eq_refl). by apply (proj1 (open_at_dir k Hwf Hd)).
  - intros Hv k c r ->. apply open_at_dir; [done| |].
    + eapply (fs_wf_up _ _ (c :: r)); [done|done|]. rewrite <- app_assoc. by eexists.
    + intros Hk n Hn. by eapply Hv.
Qed.

#[local] Instance path_le_trans : Transitive path_le.
Proof. intros a b c. unfold path_le. apply transitivity. Qed.
#[local] Instance path_le_total : Total path_le.
Proof. intros a b. unfold path_le. apply (total String.le). Qed.

Lemma elem_of_Sorted (es : list Entry) e : e ∈ Sorted es ↔ e ∈ es.
Proof. unfold Sorted. by rewrite merge_sort_Permutation. Qed.

Lemma snapshot_of_items :
  fs_wf σ0 → (∀ cs, is_Some (σ0 !! (work ++ cs)) → Forall (λ c, has_char slash c = false) cs) →
  snapshot_of (mkTree (Sorted (walk_items σ0 visit (S (depth σ0)) work))).
Proof.
  intros Hwf Hnames. split; cbn [t_Entries].
  - intros e. rewrite elem_of_Sorted. rewrite (elem_of_walk_items σ0 visit (S (depth σ0)) work e) by lia. split.
    + intros (cs & nd & Hnd & Hr & He). apply elem_of_visit in He as (Hne & Hi & He); [|done..].
      exists cs, nd. split_and!; [done..| |done]. by eapply reached_visible.
    + intros (cs & nd & Hne & Hnd & Hv & He).
      assert (ignored ign (join_with "/" cs) (is_dir_node nd) = false) as Hi by (eapply (Hv cs []); by rewrite ?app_nil_r).
      exists cs, nd. split_and!; [done|by eapply reached_visible|]. by apply elem_of_visit.
  - apply StronglySorted_merge_sort; apply _.
  - unfold Sorted. rewrite merge_sort_Permutation.
    apply (NoDup_fmap_1 (λ s, work ++ split_on slash s)). rewrite <- list_fmap_compose.
    apply (walk_items_keys σ0 work visit ((λ s, work ++ split_on slash s) ∘ e_Path)); [|done].
    intros q nd Hq [cs ->]. split.
    + unfold visit. repeat case_match; simpl; [lia..|]. destruct (entry_of _ nd); simpl; lia.
    + intros e He. apply elem_of_visit in He as (Hne & _ & He); [|done..]. simpl.
      apply entry_of_path in He as ->. change "/" with (String slash ""). rewrite split_join; [done|done|]. apply Hnames. by eexists.
Qed.

Lemma wp_Snapshot w0 :
  w_fs w0 = σ0 → store_inv U root σ0 → snapshot_pre →
  wp (Snapshot (PutFile root) ign work)
    (grows U root w0 (λ t w', snapshot_of t ∧ Forall (entry_stored (w_fs w')) (t_Entries t))) w0.
Proof.
  intros Hσ Hi Hpre. pose proof Hpre as [Hap [m Hdir] Hnames Hlinks HU]. unfold Snapshot. wp_step. wp_step.
  eapply wp_mono; [eapply (wp_WalkDir (snapshot_fn (PutFile root) ign work) σ0 work visit (snap_inv w0) (snap_fail w0))|].
  - by apply snapshot_walk_ok.
  - done.
  - done.
  - split; [apply grows_ret; [by rewrite Hσ|done]|constructor].
  - assert (fs_wf σ0) as Hwf by apply Hi. intros [e|[]] [w1 es]; simpl.
    + intros [_ (Hs & Hm & Hl)]. split; [done|done|done|]. done.
    + intros [[Hg Hst] ->]. wp_step. eapply grows_trans; [exact Hg|]. apply grows_ret; [apply (st_inv _ _ _ _ (gr_step _ _ _ _ _ _ Hg))|].
      split; [by apply snapshot_of_items|]. simpl. rewrite Forall_forall in Hst |- *. intros e He. apply Hst. by apply elem_of_Sorted.
Qed.

End snapshot.

(** ** Differences *)

Lemma by_path_snoc es e : by_path (es ++ [e]) = <[e_Path e := e]> (by_path es).
Proof. unfold by_path. by rewrite foldl_app. Qed.

Lemma by_path_spec es p e :
  NoDup (e_Path <$> es) → by_path es !! p = Some e ↔ e ∈ es ∧ e_Path e = p.
Proof.
  induction es as [|x es IH] using rev_ind; intros Hnd.
  { unfold by_path. simpl. rewrite lookup_empty, elem_of_nil. naive_solver. }
  rewrite fmap_app in Hnd. apply NoDup_app in Hnd as (Hes & Hx & _). specialize (IH Hes).
  rewrite by_path_snoc, elem_of_app, list_elem_of_singleton. destruct (decide (e_Path x = p)) as [<-|Hne].
  - rewrite lookup_insert_eq. split; [intros [= ->]; auto|]. intros [[He| ->] Hp]; [|done]. exfalso.
    apply (Hx (e_Path x)); [|by left]. rewrite <- Hp. by apply list_elem_of_fmap_2.
  - rewrite lookup_insert_ne, IH by done. split; [naive_solver|]. intros [[?| ->] ?]; [done|congruence].
Qed.

(** The change of one path. *)
Definition change_at (old new : option Entry) : option kind :=
  match old, new with
  | None, Some _ => Some added
  | Some a, Some b => if sameEntry a b then None else Some modified
  | Some _, None => Some deleted
  | None, None => None
  end.
Definition entries_at (t : option Tree) : gmap string Entry :=
  match t with Some t => by_path (t_Entries t) | None => ∅ end.
Definition tree_nodup (t : option Tree) : Prop :=
  match t with Some t => NoDup (e_Path <$> t_Entries t) | None => True end.

#[global] Instance change_le_trans : Transitive change_le.
Proof. intros a b c. unfold change_le. apply transitivity. Qed.
#[global] Instance change_le_total : Total change_le.
Proof. intros a b. unfold change_le. apply (total String.le). Qed.

Lemma elem_of_new_changes m es c :
  NoDup (e_Path <$> es) →
  c ∈ omap (new_change m) es ↔
  ∃ e, by_path es !! c_Path c = Some e ∧ change_at (m !! c_Path c) (Some e) = Some (c_Kind c).
Proof.
  intros Hnd. rewrite list_elem_of_omap. split.
  - intros (e & He & Hc). exists e. unfold new_change in Hc. destruct (m !! e_Path e) as [a|] eqn:E.
    + destruct (sameEntry a e) eqn:Es; [done|]. injection Hc as <-. simpl. split; [by apply by_path_spec|].
      rewrite E. simpl. by rewrite Es.
    + injection Hc as <-. simpl. split; [by apply by_path_spec|]. by rewrite E.
  - intros (e & [He Hp]%by_path_spec & Hc); [|done]. exists e. split; [done|]. unfold new_change. rewrite Hp.
    destruct c as [p k]. simpl in *. destruct (m !! p) as [a|]; simpl in Hc.
    + destruct (sameEntry a e); [done|]. by injection Hc as <-.
    + by injection Hc as <-.
Qed.

Lemma elem_of_gone_changes m es c :
  NoDup (e_Path <$> es) →
  c ∈ omap (gone_change m) es ↔
  ∃ e, by_path es !! c_Path c = Some e ∧ m !! c_Path c = None ∧ c_Kind c = deleted.
Proof.
  intros Hnd. rewrite list_elem_of_omap. split.
  - intros (e & He & Hc). exists e. unfold gone_change in Hc. destruct (m !! e_Path e) eqn:E; [done|].
    injection Hc as <-. simpl. split_and!; [by apply by_path_spec|done|done].
  - intros (e & [He Hp]%by_path_spec & Hm & Hk); [|done]. exists e. split; [done|]. unfold gone_change.
    rewrite Hp, Hm. destruct c. simpl in *. congruence.
Qed.

Lemma elem_of_Diff old new c :
  tree_nodup old → NoDup (e_Path <$> t_Entries new) →
  c ∈ Diff old new ↔ change_at (entries_at old !! c_Path c) (by_path (t_Entries new) !! c_Path c) = Some (c_Kind c).
Proof.
  intros Ho Hn. unfold Diff. rewrite merge_sort_Permutation, elem_of_app, elem_of_new_changes by done. fold (entries_at old).
  destruct old as [t|]; simpl in *.
  - rewrite elem_of_gone_changes by done.
    destruct (by_path (t_Entries new) !! c_Path c) as [e|], (by_path (t_Entries t) !! c_Path c) as [a|]; cbn [change_at].
    all: split; [intros [(e' & ? & ?)|(e' & ? & ? & ?)]; simplify_eq; congruence|].
    + intros ?. left. by exists e.
    + intros ?. left. by exists e.
    + intros [= <-]. right. by exists a.
    + done.
  - rewrite elem_of_nil, lookup_empty. destruct (by_path (t_Entries new) !! c_Path c) as [e|]; cbn [change_at].
    all: split; [intros [(e' & ? & ?)|[]]; simplify_eq; congruence|].
    + intros ?. left. by exists e.
    + done.
Qed.

Lemma NoDup_omap_path (f : Entry → option Change) es :
  (∀ e c, f e = Some c → c_Path c = e_Path e) → NoDup (e_Path <$> es) → NoDup (c_Path <$> omap f es).
Proof.
  intros Hf. induction es as [|e es IH]; simpl; [done|]. intros [He Hes]%NoDup_cons.
  destruct (f e) as [c|] eqn:E; simpl; [|by apply IH]. apply NoDup_cons. split; [|by apply IH].
  intros (c' & Hc' & (e' & He' & Hfe')%list_elem_of_omap)%list_elem_of_fmap. apply He.
  rewrite <- (Hf e c E), Hc', (Hf e' c' Hfe'). by apply list_elem_of_fmap_2.
Qed.

Lemma Diff_sorted old new : StronglySorted change_le (Diff old new).
Proof. apply StronglySorted_merge_sort; apply _. Qed.

Lemma Diff_nodup old new :
  tree_nodup old → NoDup (e_Path <$> t_Entries new) → NoDup (c_Path <$> Diff old new).
Proof.
  intros Ho Hn. unfold Diff. rewrite merge_sort_Permutation. fold (entries_at old). rewrite fmap_app. apply NoDup_app. split_and!.
  - apply NoDup_omap_path; [|done]. intros e c. unfold new_change. repeat case_match; by intros [= <-].
  - intros p (c & -> & Hc)%list_elem_of_fmap (c' & He & Hc')%list_elem_of_fmap.
    apply elem_of_new_changes in Hc; [|done]. destruct Hc as (e & He1 & _). destruct old as [t|]; [|by apply not_elem_of_nil in Hc'].
    apply elem_of_gone_changes in Hc' as (_ & _ & Hnone & _); [|done]. rewrite <- He in Hnone. congruence.
  - destruct old as [t|]; [|constructor]. apply NoDup_omap_path; [|done].
    intros e c. unfold gone_change. case_match; by intros [= <-].
Qed.

Lemma sameEntry_eq a b : e_Path a = e_Path b → sameEntry a b = true ↔ a = b.
Proof.
  intros Hp. unfold sameEntry. rewrite !andb_true_iff, !bool_decide_eq_true. destruct a, b. simpl in *. naive_solver.
Qed.

(** ** Properties *)

(** C15 (diff_exact): [Diff] of two trees without repeated paths is the sorted
    list, one element per path, of the paths whose entry was added, removed or
    changed; it is empty exactly when the two trees hold the same entries. *)
Theorem diff_exact old new :
  tree_nodup old → NoDup (e_Path <$> t_Entries new) →
  StronglySorted change_le (Diff old new) ∧ NoDup (c_Path <$> Diff old new) ∧
  (∀ p k, mkChange p k ∈ Diff old new ↔ change_at (entries_at old !! p) (by_path (t_Entries new) !! p) = Some k) ∧
  (Diff old new = [] ↔ entries_at old = by_path (t_Entries new)).
Proof.
  intros Ho Hn. split_and!; [apply Diff_sorted|by apply Diff_nodup|intros p k; by apply elem_of_Diff|]. split.
  - intros Hnil. apply map_eq. intros p. 
    assert (∀ k, change_at (entries_at old !! p) (by_path (t_Entries new) !! p) ≠ Some k) as Hno.
    { intros k Hk. apply (not_elem_of_nil (mkChange p k)). rewrite <- Hnil. by apply elem_of_Diff. }
    destruct (entries_at old !! p) as [a|] eqn:Ea, (by_path (t_Entries new) !! p) as [b|] eqn:Eb; simpl in Hno; try done.
    + destruct (sameEntry a b) eqn:E; [|by destruct (Hno modified)]. f_equal. apply sameEntry_eq; [|done].
      apply by_path_spec in Eb as [_ ->]; [|done]. destruct old as [t|]; [|done]. by apply by_path_spec in Ea as [_ ->].
    + by destruct (Hno deleted).
    + by destruct (Hno added).
  - intros He. apply elem_of_nil_inv. intros [p k] Hc. apply elem_of_Diff in Hc; [|done..]. simpl in Hc. rewrite He in Hc.
    destruct (by_path (t_Entries new) !! p) as [b|]; [|done]. simpl in Hc.
    rewrite (proj2 (sameEntry_eq b b eq_refl) eq_refl) in Hc. done.
Qed.

Definition demo_old : Tree := mkTree [mkEntry "a" o644 1 "x" "" false; mkEntry "b" o644 1 "y" "" false].
Definition demo_next : Tree := mkTree [mkEntry "b" o644 2 "z" "" false; mkEntry "c" o755 0 "" "" true].

Example demo_diff_ok :
  Diff (Some demo_old) demo_next = [mkChange "a" deleted; mkChange "b" modified; mkChange "c" added].
Proof. reflexivity. Qed.

(** C15 at a concrete input. *)
Lemma diff_exact_witness :
  StronglySorted change_le (Diff (Some demo_old) demo_next) ∧ NoDup (c_Path <$> Diff (Some demo_old) demo_next) ∧
  (∀ p k, mkChange p k ∈ Diff (Some demo_old) demo_next ↔
     change_at (entries_at (Some demo_old) !! p) (by_path (t_Entries demo_next) !! p) = Some k) ∧
  (Diff (Some demo_old) demo_next = [] ↔ entries_at (Some demo_old) = by_path (t_Entries demo_next)).
Proof. apply (diff_exact (Some demo_old) demo_next); apply (bool_decide_eq_true_1 (NoDup _)); reflexivity. Defined.
