(* ===== verification/Snap.v ===== *)
(** * Restoring a tree (src/internal/snap/restore.go)

    [Restore] lays a tree down in a directory: what the tree does not have is
    removed, directories are made, then files and links. *)

From S2P Require Import Prelude Sha256 Os Cas Tree.
Import Cas Tree.
Open Scope Z_scope.

Module Snap.

(** The [Blobs] interface: a blob is opened for reading, read to its end and
    closed. *)
Record Blobs := mkBlobs {
  Reader : Type;
  open_blob : string → M world Reader;
  reader_read : Reader → M world bytes;
  reader_close : Reader → M world unit
}.

(** The blobs of a store ([*cas.Store] as [Blobs]). *)
Definition StoreBlobs `{OsEnv} (root : path) : Blobs := mkBlobs path (OpenBlob root) fd_read fd_close.

Section restore.
Context `{OsEnv} (blobs : Blobs).

(** The callback of [clearExtra]: the paths to remove, topmost only. *)
Definition clear_fn (want : gset string) (dst : path) (p : path) (isDir : bool) (err : option gerr)
    : M (world * list path) unit :=
  match err with
  | Some _ => mret tt
  | None =>
      if decide (p = dst) then mret tt else
      if decide (rel_of dst p ∈ want) then mret tt else
      modify_snd (λ l, l ++ [p]);;
      if isDir then throw SkipDir else mret tt
  end.

Definition clearExtra (t : Tree) (dst : path) : M world unit :=
  let want : gset string := list_to_set (e_Path <$> t_Entries t) in
  toRemove ← with_local [] (ignore (filepath_WalkDir (clear_fn want dst) dst));
  for_each toRemove (λ p, ignore (os_RemoveAll p)).

(** [io.Copy] from an open blob to an open file. *)
Definition io_Copy (f : path) (rc : Reader blobs) : M world unit := b ← reader_read blobs rc; fd_write f b.

Definition writeBlob (hash : string) (dst : path) (mode : Z) : M world unit :=
  os_MkdirAll (dir_of dst) o755;;
  rc ← open_blob blobs hash;
  r ← attempt (
    f ← os_Create dst mode;
    c ← attempt (io_Copy f rc);
    match c with
    | inl e => ignore (fd_close f);; throw e
    | inr _ => fd_close f
    end);
  ignore (reader_close blobs rc);;
  of_sum r.

Definition restore_dir (dst : path) (e : Entry) : M world unit :=
  if e_Dir e then os_MkdirAll (join dst (e_Path e)) (e_Mode e) else mret tt.

Definition restore_file (dst : path) (e : Entry) : M world unit :=
  let p := join dst (e_Path e) in
  if e_Dir e then mret tt
  else if decide (e_Link e ≠ "") then
    ignore (os_Remove p);;
    os_MkdirAll (dir_of p) o755;;
    os_Symlink (e_Link e) p
  else writeBlob (e_Hash e) p (e_Mode e).

Definition Restore (t : Tree) (dst : path) : M world unit :=
  os_MkdirAll dst o755;;
  clearExtra t dst;;
  for_each (t_Entries t) (restore_dir dst);;
  for_each (t_Entries t) (restore_file dst).

End restore.
End Snap.
