(* ===== verification/SnapFacts.v ===== *)
(** * Restoring a tree makes the directory the tree

    On a healthy host, if no symbolic link stands where the tree has a file or a
    directory, [Restore] leaves under the destination exactly the paths of the
    tree: directories where it has directories, links with its targets, files with
    its contents; and it touches nothing else.  It fails exactly when something
    else of another kind is in the way, and then too only paths below the
    destination have changed. *)

From S2P Require Import Prelude Sha256 Os OsFacts Cas Blobs WalkFacts Tree TreeFacts Snap.
Import Cas Tree Snap.
Open Scope Z_scope.

(** ** Paths of entries *)

Definition cs_of (e : Entry) : path := split_on slash (e_Path e).

Record tree_ok (t : Tree) : Prop := {
  tk_sorted : StronglySorted path_le (t_Entries t);
  tk_nodup : NoDup (e_Path <$> t_Entries t);
  tk_names : ∀ e, e ∈ t_Entries t → Forall good_name (cs_of e);
  tk_parent : ∀ e k c, e ∈ t_Entries t → cs_of e = k ++ [c] → k ≠ [] →
    ∃ d, d ∈ t_Entries t ∧ cs_of d = k ∧ e_Dir d = true
}.

Lemma cs_of_path e : join_with "/" (cs_of e) = e_Path e.
Proof. apply (join_split slash). Qed.

Lemma cs_of_inj e e' : cs_of e = cs_of e' → e_Path e = e_Path e'.
Proof. intros He. by rewrite <- (cs_of_path e), <- (cs_of_path e'), He. Qed.

Lemma cs_of_not_nil e : cs_of e ≠ [].
Proof. apply split_on_not_nil. Qed.

Lemma tree_ok_inj t e e' :
  tree_ok t → e ∈ t_Entries t → e' ∈ t_Entries t → cs_of e = cs_of e' → e = e'.
Proof.
  intros Ht He He' Hc%cs_of_inj. apply list_elem_of_lookup in He as [i Hi]. apply list_elem_of_lookup in He' as [j Hj].
  assert (i = j) as ->; [|congruence]. eapply (NoDup_lookup (e_Path <$> t_Entries t)); [apply Ht|..].
  - by rewrite list_lookup_fmap, Hi.
  - rewrite list_lookup_fmap, Hj. simpl. by rewrite Hc.
Qed.

Lemma join_entry dst e t : tree_ok t → e ∈ t_Entries t → join dst (e_Path e) = dst ++ cs_of e.
Proof. intros Ht He. unfold join. apply clean_onto_good. by apply (tk_names t Ht). Qed.

Lemma snoc_ne {A} (l : list A) x : l ≠ l ++ [x].
Proof. intros He. apply (f_equal length) in He. rewrite length_app in He. simpl in He. lia. Qed.

Lemma ascii_compare_refl a : Ascii.compare a a = Eq.
Proof. apply N.compare_refl. Qed.

Lemma string_le_app s x : String.le s (s +:+ x).
Proof.
  unfold String.le, String.leb. induction s as [|a s IH]; simpl.
  - by destruct x.
  - by rewrite ascii_compare_refl.
Qed.

Lemma join_snoc k c : k ≠ [] → join_with "/" (k ++ [c]) = join_with "/" k +:+ String slash c.
Proof.
  induction k as [|x [|y k] IH]; [done|done|]. intros _.
  change (x +:+ ("/" +:+ join_with "/" ((y :: k) ++ [c])) = (x +:+ ("/" +:+ join_with "/" (y :: k))) +:+ String slash c).
  rewrite IH by done. by rewrite !string_app_assoc.
Qed.

Lemma sorted_after {A} (R : relation A) l x l' y : StronglySorted R (l ++ x :: l') → y ∈ l' → R x y.
Proof.
  induction l as [|a l IH]; simpl; intros [Hs Hf]%StronglySorted_inv Hy; [|by apply IH].
  rewrite Forall_forall in Hf. by apply Hf.
Qed.

(** A parent comes before its child. *)
Lemma parent_before t e d dn todo :
  tree_ok t → t_Entries t = dn ++ e :: todo → d ∈ t_Entries t →
  (∃ c, cs_of e = cs_of d ++ [c]) → d ∈ dn.
Proof.
  intros Ht Hl Hd [c Hc]. rewrite Hl in Hd. apply elem_of_app in Hd as [Hd|Hd]; [done|exfalso].
  assert (e_Path e = e_Path d +:+ String slash c) as Hp.
  { rewrite <- (cs_of_path e), Hc, join_snoc by apply cs_of_not_nil. by rewrite cs_of_path. }
  assert (String.le (e_Path d) (e_Path e)) as Hle by (rewrite Hp; apply string_le_app).
  assert (e_Path e = e_Path d) as He; [|rewrite Hp in He; apply (f_equal String.length) in He; rewrite string_length_app in He; simpl in He; lia].
  apply elem_of_cons in Hd as [->|Hd]; [done|]. pose proof (tk_sorted t Ht) as Hs. rewrite Hl in Hs.
  apply (anti_symm String.le); [|done]. by apply (sorted_after path_le dn e todo).
Qed.

Section clear.
Context `{OsEnv} (Hq : quiet) (t : Tree) (dst : path) (σ0 : fs).
Hypothesis Ht : tree_ok t.

Definition wanted (cs : path) : Prop := ∃ e, e ∈ t_Entries t ∧ cs_of e = cs.
Let want : gset string := list_to_set (e_Path <$> t_Entries t).

#[global] Instance wanted_dec cs : Decision (wanted cs).
Proof.
  refine (cast_if (decide (Exists (λ e, cs_of e = cs) (t_Entries t)))); unfold wanted; by rewrite <- Exists_exists.
Defined.

Lemma wanted_rel cs : Forall (λ c, has_char slash c = false) cs → cs ≠ [] → rel_of dst (dst ++ cs) ∈ want ↔ wanted cs.
Proof.
  intros Hs Hne. unfold rel_of, want, wanted. rewrite drop_app_length, elem_of_list_to_set, list_elem_of_fmap. split.
  - intros (e & He & Hin). exists e. split; [done|]. unfold cs_of. rewrite <- He. by apply (split_join slash).
  - intros (e & Hin & <-). exists e. split; [|done]. apply cs_of_path.
Qed.

Lemma wanted_prefix k r : k ≠ [] → wanted (k ++ r) → wanted k.
Proof.
  intros Hk. induction r as [|c r IH] using rev_ind; [by rewrite app_nil_r|].
  rewrite app_assoc. intros (e & He & Hc). apply IH.
  destruct (tk_parent t Ht e (k ++ r) c) as (d & Hd & Hcd & _); [done|done|by destruct k|]. by exists d.
Qed.

Hypothesis Hwf : fs_wf σ0.
Hypothesis Hdst : is_dir σ0 dst.
Hypothesis Hnames : ∀ cs, is_Some (σ0 !! (dst ++ cs)) → Forall (λ c, has_char slash c = false) cs.

Definition clear_visit (p : path) (n : node) : list path * bool :=
  if decide (p = dst) then ([], true) else if decide (rel_of dst p ∈ want) then ([], true) else ([p], false).

Lemma clear_walk_ok z :
  walk_ok (clear_fn want dst) σ0 dst clear_visit (λ _ w, w_fs w = σ0 ∧ w_zero w = z) (λ _, False).
Proof.
  split.
  - by intros xs w [-> _].
  - by intros xs w [-> _] q _.
  - done.
  - by intros xs w _ ?.
  - intros p nd xs w Hb Hp HI. unfold clear_fn, clear_visit. case_decide.
    { wp_step. simpl. by rewrite app_nil_r. }
    case_decide.
    { wp_step. simpl. by rewrite app_nil_r. }
    wp_step. wp_step. destruct (is_dir_node nd) eqn:Hd; wp_step; simpl; done.
  - by intros p d xs e w _ ?.
Qed.

Definition extras : list path := walk_items σ0 clear_visit (S (depth σ0)) dst.

Lemma elem_of_extras p :
  p ∈ extras ↔ ∃ k c, p = (dst ++ k) ++ [c] ∧ is_Some (σ0 !! p) ∧ ¬ wanted (k ++ [c]) ∧ (k ≠ [] → wanted k).
Proof.
  unfold extras. rewrite (elem_of_walk_items σ0 clear_visit (S (depth σ0)) dst p) by lia.
  assert (∀ cs nd, σ0 !! (dst ++ cs) = Some nd →
    p ∈ fst (clear_visit (dst ++ cs) nd) ↔ p = dst ++ cs ∧ cs ≠ [] ∧ ¬ wanted cs) as Hv.
  { intros cs nd Hnd. unfold clear_visit. destruct (decide (dst ++ cs = dst)) as [He|Hne].
    { assert (cs = []) as -> by (apply (app_inv_head dst); by rewrite app_nil_r). simpl. rewrite elem_of_nil. tauto. }
    assert (cs ≠ []) as Hcs by (intros ->; by rewrite app_nil_r in Hne).
    assert (rel_of dst (dst ++ cs) ∈ want ↔ wanted cs) as Hw by (apply wanted_rel; [apply Hnames; by eexists|done]).
    case_decide; simpl; rewrite ?elem_of_nil, ?list_elem_of_singleton; tauto. }
  assert (∀ k nd, σ0 !! (dst ++ k) = Some nd → snd (clear_visit (dst ++ k) nd) = true ↔ (k ≠ [] → wanted k)) as Hg.
  { intros k nd Hnd. unfold clear_visit. destruct (decide (dst ++ k = dst)) as [He|Hne].
    { assert (k = []) as -> by (apply (app_inv_head dst); by rewrite app_nil_r). simpl. tauto. }
    assert (k ≠ []) as Hk by (intros ->; by rewrite app_nil_r in Hne).
    assert (rel_of dst (dst ++ k) ∈ want ↔ wanted k) as Hw by (apply wanted_rel; [apply Hnames; by eexists|done]).
    case_decide; simpl; naive_solver. }
  split.
  - intros (cs & nd & Hnd & Hr & Hp). apply (Hv cs nd Hnd) in Hp as (-> & Hne & Hnw).
    destruct (path_case cs) as [->|(k & c & ->)]; [done|]. exists k, c. rewrite app_assoc. split_and!; [done|by rewrite <- app_assoc; eexists|done|].
    specialize (Hr k c [] eq_refl). unfold open_at in Hr. destruct (σ0 !! (dst ++ k)) as [nd'|] eqn:E; [|done].
    apply andb_true_iff in Hr as [_ Hr]. by apply (Hg k nd' E).
  - intros (k & c & -> & [nd Hnd] & Hnw & Hk). rewrite <- app_assoc in *. exists (k ++ [c]), nd. split_and!; [done| |].
    + intros k' c' r He. assert (k' `prefix_of` k) as [s ->].
      { destruct r as [|c2 r _] using rev_ind.
        - apply app_inj_tail in He as [-> _]. done.
        - exists (c' :: r). rewrite app_comm_cons, app_assoc in He. by apply app_inj_tail in He as [-> _]. }
      assert (is_dir σ0 (dst ++ k')) as [m Hm].
      { eapply (fs_wf_up _ _ (s ++ [c])); [done|by destruct s|]. rewrite <- !app_assoc in *. by eexists. }
      unfold open_at. rewrite Hm. simpl. apply (Hg k' _ Hm). intros Hne. eapply wanted_prefix; [done|]. apply Hk. by destruct k'.
    + apply (Hv _ _ Hnd). split_and!; [done|by destruct k|done].
Qed.

(** A path is at or below something to remove exactly when it is not wanted. *)
Lemma extras_cover cs :
  cs ≠ [] → is_Some (σ0 !! (dst ++ cs)) → ((∃ p, p ∈ extras ∧ below p (dst ++ cs)) ↔ ¬ wanted cs).
Proof.
  intros Hne Hs. split.
  - intros (p & Hp & [r Hr]) Hw. apply elem_of_extras in Hp as (k & c & -> & _ & Hnw & _). apply Hnw.
    apply (wanted_prefix (k ++ [c]) r); [by destruct k|]. rewrite <- !app_assoc in *. apply app_inv_head in Hr. by rewrite <- Hr.
  - revert Hs Hne. induction cs as [|c k IH] using rev_ind; [done|]. intros Hs _ Hnw.
    destruct (decide (k = [])) as [->|Hk].
    { exists (dst ++ [c]). split; [|done]. apply elem_of_extras. exists [], c. rewrite app_nil_r. split_and!; done. }
    destruct (decide (wanted k)) as [Hw|Hw].
    + exists (dst ++ k ++ [c]). split; [|done]. apply elem_of_extras. exists k, c. rewrite <- app_assoc. split_and!; done.
    + destruct IH as (p & Hp & Hb); [|done|done|].
      { destruct (fs_wf_up _ (dst ++ k) [c] Hwf) as [m Hm]; [done|by rewrite <- app_assoc|]. by eexists. }
      exists p. split; [done|]. rewrite app_assoc. by apply prefix_app_r.
Qed.

Lemma wp_clearExtra w :
  w_fs w = σ0 →
  wp (clearExtra t dst) (λ r w', r = inr tt ∧ w_zero w' = w_zero w ∧ fs_wf (w_fs w') ∧
    ∀ q, (∃ cs, cs ≠ [] ∧ q = dst ++ cs ∧ ¬ wanted cs) ∧ w_fs w' !! q = None ∨
         ¬ (∃ cs, cs ≠ [] ∧ q = dst ++ cs ∧ ¬ wanted cs) ∧ w_fs w' !! q = σ0 !! q) w.
Proof.
  intros Hσ. unfold clearExtra. fold want. wp_step. wp_step. wp_step. destruct Hdst as [m Hm].
  eapply wp_mono; [eapply (wp_WalkDir _ σ0 dst clear_visit _ _ (clear_walk_ok (w_zero w)) (NDir m)); [done|done|done]|].
  intros [e|[]] [w1 rm]; [by intros [_ []]|]. intros [[Hfs1 Hz1] Hrm]. cbn [fst snd] in *. subst rm. rewrite app_nil_l.
  change (walk_items σ0 clear_visit (S (depth σ0)) dst) with extras.
  eapply wp_for_each with (I := λ dn w2, w_zero w2 = w_zero w ∧ fs_wf (w_fs w2) ∧ without dn σ0 (w_fs w2)).
  - split_and!; [done|by rewrite Hfs1|]. rewrite Hfs1. apply without_nil.
  - intros dn x todo w2 Hl (Hz2 & Hwf2 & Hlook).
    assert (x ∈ extras) as Hx by (rewrite Hl; apply elem_of_app; right; left).
    assert (∀ p, p ∈ dn → p ∈ extras) as Hdn by (intros p Hp; rewrite Hl; apply elem_of_app; by left).
    apply elem_of_extras in Hx as (k & c & -> & Hs & Hnw & Hk).
    assert (is_dir σ0 (dst ++ k)) as [m' Hm'] by (by eapply (fs_wf_up _ _ [c])).
    assert (is_dir (w_fs w2) (dst ++ k)) as Hpd.
    { exists m'. destruct (Hlook (dst ++ k)) as [[(p & Hp & Hb) _]|[_ ->]]; [|done]. exfalso.
      destruct (decide (k = [])) as [->|Hkne].
      - apply Hdn, elem_of_extras in Hp as (k' & c' & -> & _). rewrite app_nil_r in Hb. destruct Hb as [r Hr].
        apply (f_equal length) in Hr. rewrite !length_app in Hr. simpl in Hr. lia.
      - apply (proj1 (extras_cover k Hkne ltac:(by eexists))); [by exists p; split; [apply Hdn|]|by apply Hk]. }
    wp_step. apply wp_RemoveAll; [done|done|by apply (fs_wf_names σ0 (dst ++ k) [c] Hwf) in Hs; inversion Hs|by intros e ?|].
    simpl. split_and!; [done|by apply fs_wf_remove; [|by destruct (dst ++ k)]|by apply without_snoc].
  - intros w2 (Hz2 & Hwf2 & Hlook). split_and!; [done..|]. intros q.
    assert (¬ (∃ cs, cs ≠ [] ∧ q = dst ++ cs ∧ ¬ wanted cs) ∨ (∃ cs, cs ≠ [] ∧ q = dst ++ cs ∧ ¬ wanted cs)) as [Hno|Hyes].
    { destruct (decide (below dst q)) as [[cs ->]|Hb].
      - destruct (decide (cs = [])) as [->|Hne]; [left; intros (cs & Hc & He & _); symmetry in He; apply (app_inv_head dst) in He; by subst|].
        destruct (decide (wanted cs)) as [Hw|Hw]; [left|right; by exists cs].
        intros (cs' & _ & He%(app_inv_head dst) & Hnw). by subst.
      - left. intros (cs & _ & -> & _). apply Hb. by eexists. }
    + right. split; [done|]. destruct (Hlook q) as [[(p & Hp & Hb) Hnone]|[_ Hsame]]; [|done]. exfalso. apply Hno.
      apply elem_of_extras in Hp as (k & c & -> & _ & Hnw & _). destruct Hb as [r ->].
      exists (k ++ [c] ++ r). split_and!; [by destruct k|by rewrite <- !app_assoc|]. intros Hw. apply Hnw.
      apply (wanted_prefix (k ++ [c]) r); [by destruct k|]. by rewrite <- app_assoc.
    + left. split; [done|]. destruct Hyes as (cs & Hne & -> & Hnw).
      destruct (Hlook (dst ++ cs)) as [[_ Hnone]|[Hno Hsame]]; [done|]. rewrite Hsame.
      destruct (σ0 !! (dst ++ cs)) eqn:E; [|done]. exfalso. apply Hno. apply extras_cover; [done|by rewrite E|done].
Qed.

End clear.

(** ** Making the directories *)

(** What stands at an entry's path and stops [Restore]: something that is no
    directory where the tree has a directory, something that is no file where it
    has a file.  A link is replaced whatever is there. *)
Definition clash (e : Entry) (n : option node) : Prop :=
  match n with
  | None => False
  | Some nd => if e_Dir e then is_dir_node nd = false
               else if decide (e_Link e ≠ "") then False
               else match nd with NFile _ => False | _ => True end
  end.

(** A symbolic link stands where the tree has a file or a directory: [Restore]
    would follow it. *)
Definition link_in_way (e : Entry) (n : option node) : Prop :=
  match n with Some (NLink _) => e_Dir e = true ∨ e_Link e = "" | _ => False end.

(** What may be at an entry's path before it is restored. *)
Definition kind_ok (e : Entry) (n : option node) : Prop :=
  match n with
  | None => True
  | Some nd => if e_Dir e then is_dir_node nd = true
               else if decide (e_Link e ≠ "") then is_dir_node nd = false
               else ∃ f, nd = NFile f
  end.

Lemma kind_ok_clear e n : kind_ok e n → ¬ clash e n ∧ ¬ link_in_way e n.
Proof.
  destruct n as [nd|]; [|intros _; split; by intros []]. unfold kind_ok, clash, link_in_way. destruct (e_Dir e).
  - intros Hd. rewrite Hd. split; [done|]. destruct nd; try done; by intros [].
  - case_decide as Hl.
    + intros _. split; [by intros []|]. destruct nd; [by intros []..| |by intros []]. by intros [|].
    + intros [f ->]. split; by intros [].
Qed.

(** On something that is neither a directory nor a link [MkdirAll] fails and does
    nothing. *)
Lemma wp_MkdirAll_clash `{OsEnv} p m n w :
  quiet → fs_wf (w_fs w) → w_fs w !! p = Some n → is_dir_node n = false → (∀ l, n ≠ NLink l) →
  wp (os_MkdirAll p m) (λ r w', r = inl (Errno ENOTDIR) ∧ w_fs w' = w_fs w ∧ w_zero w' = w_zero w) w.
Proof.
  intros Hq Hwf Hp Hn Hl. unfold os_MkdirAll. rewrite <- (reverse_involutive p) in Hp. destruct (reverse p) as [|c rp] eqn:E; cbn [mkdirAll_rev].
  all: wp_step; wp_step; apply wp_sys_read; [by intros ? ?|]; rewrite (find_node_some _ _ _ n) by (done || (intros _; destruct n; try done; intros l [= ->]; by apply (Hl l))); simpl.
  all: destruct n; try done; by wp_step.
Qed.

Section phases.
Context `{OsEnv} (Hq : quiet) (t : Tree) (dst : path).
Hypothesis Ht : tree_ok t.

Definition dir_after (e : Entry) (old : option node) : node :=
  match old with Some (NDir m) => NDir m | _ => NDir (perm (e_Mode e)) end.

(** The entries of [dn] for which [sel] holds are laid down over [σ]. *)
Definition laid (sel : Entry → bool) (ok : Entry → option node → Prop) (σ : fs) (dn : list Entry) (σ' : fs) : Prop :=
  fs_wf σ' ∧
  (∀ q, (∀ e, e ∈ dn → sel e = true → q ≠ dst ++ cs_of e) → σ' !! q = σ !! q) ∧
  (∀ e, e ∈ dn → sel e = true → ok e (σ' !! (dst ++ cs_of e))).

Definition dir_ok (σ : fs) (e : Entry) (n : option node) : Prop := n = Some (dir_after e (σ !! (dst ++ cs_of e))).

Lemma laid_skip sel ok σ dn e σ' : laid sel ok σ dn σ' → sel e = false → laid sel ok σ (dn ++ [e]) σ'.
Proof.
  intros (Hwf & Hs & Ho) Hn. split_and!; [done|..].
  - intros q Hqq. apply Hs. intros e' He'. apply Hqq. apply elem_of_app. by left.
  - intros e' [He'| ->%list_elem_of_singleton]%elem_of_app Hsel; [by apply Ho|congruence].
Qed.

(** One more entry: only its own path changed. *)
Lemma laid_step sel ok σ dn e σ1 σ2 :
  laid sel ok σ dn σ1 → sel e = true → (∀ x, x ∈ dn → x ∈ t_Entries t) → e ∈ t_Entries t → e ∉ dn → fs_wf σ2 →
  (∀ q, q ≠ dst ++ cs_of e → σ2 !! q = σ1 !! q) → ok e (σ2 !! (dst ++ cs_of e)) → laid sel ok σ (dn ++ [e]) σ2.
Proof.
  intros (Hwf & Hs & Ho) Hsel Hdn He Hnew Hwf2 Hsame Hok. split_and!; [done|..].
  - intros q Hqq. rewrite Hsame; [|apply Hqq; [apply elem_of_app; right; left|done]].
    apply Hs. intros e' He'. apply Hqq. apply elem_of_app. by left.
  - intros e' [He'| ->%list_elem_of_singleton]%elem_of_app Hsel'; [|done].
    rewrite Hsame; [by apply Ho|]. intros Hc%app_inv_head. apply Hnew.
    assert (e' = e) as <-; [|done]. apply (tree_ok_inj t); auto.
Qed.

Lemma laid_init sel ok σ : fs_wf σ → laid sel ok σ [] σ.
Proof. intros Hwf. split_and!; [done|done|]. by intros e ?%not_elem_of_nil. Qed.

Lemma entry_split dn e todo :
  t_Entries t = dn ++ e :: todo → e ∈ t_Entries t ∧ e ∉ dn ∧ ∀ x, x ∈ dn → x ∈ t_Entries t.
Proof.
  intros Hl. split_and!.
  - rewrite Hl. apply elem_of_app. right. left.
  - pose proof (NoDup_fmap_1 _ _ (tk_nodup t Ht)) as Hnd. rewrite Hl in Hnd.
    apply NoDup_app in Hnd as (_ & Hd & _). intros Hin. apply (Hd e Hin). left.
  - intros x Hx. rewrite Hl. apply elem_of_app. by left.
Qed.

(** The parent of an entry's path is a directory once the directories of
    earlier entries are there. *)
Lemma parent_dir σ σ' dn e todo k c :
  t_Entries t = dn ++ e :: todo → cs_of e = k ++ [c] → is_dir σ dst →
  laid e_Dir (dir_ok σ) σ dn σ' → is_dir σ' (dst ++ k).
Proof.
  intros Hl Hc [m Hm] (_ & Hs & Ho). destruct (entry_split _ _ _ Hl) as (He & _ & Hdn).
  destruct (decide (k = [])) as [->|Hk].
  - rewrite app_nil_r. exists m. rewrite Hs; [done|]. intros e' _ _ Heq.
    assert (cs_of e' = []) as Hnil by (apply (app_inv_head dst); by rewrite app_nil_r). by apply cs_of_not_nil in Hnil.
  - destruct (tk_parent t Ht e k c He Hc Hk) as (d & Hd & Hdk & Hdd).
    assert (d ∈ dn) as Hddn by (eapply parent_before; [done|done|done|exists c; by rewrite Hc, Hdk]).
    specialize (Ho d Hddn Hdd). rewrite Hdk in Ho. unfold dir_ok, dir_after in Ho. rewrite Hdk in Ho.
    destruct (σ !! (dst ++ k)) as [[]|]; by eexists.
Qed.

(** A loop over the entries that stopped: some entry has something in its way, and
    the paths of entries are all that changed. *)
Definition blocked (σ : fs) : Prop := ∃ e, e ∈ t_Entries t ∧ clash e (σ !! (dst ++ cs_of e)).
Definition only_entries (σ σ' : fs) : Prop := fs_wf σ' ∧ ∀ q, (∀ e, e ∈ t_Entries t → q ≠ dst ++ cs_of e) → σ' !! q = σ !! q.

(** Nothing is in the way of the entries of [dn] for which [sel] holds. *)
Definition unblocked (sel : Entry → bool) (σ : fs) (dn : list Entry) : Prop :=
  ∀ e, e ∈ dn → sel e = true → ¬ clash e (σ !! (dst ++ cs_of e)).
Lemma unblocked_snoc sel σ dn e : unblocked sel σ dn → (sel e = true → ¬ clash e (σ !! (dst ++ cs_of e))) → unblocked sel σ (dn ++ [e]).
Proof. intros Hu He e' [He'| ->%list_elem_of_singleton]%elem_of_app; [by apply Hu|done]. Qed.

Lemma laid_only sel ok σ dn σ' : (∀ x, x ∈ dn → x ∈ t_Entries t) → laid sel ok σ dn σ' → only_entries σ σ'.
Proof. intros Hdn (Hwf & Hs & _). split; [done|]. intros q Hn. apply Hs. intros e He _. by apply Hn, Hdn. Qed.

Lemma wp_restore_dirs w :
  fs_wf (w_fs w) → is_dir (w_fs w) dst →
  (∀ e, e ∈ t_Entries t → ¬ link_in_way e (w_fs w !! (dst ++ cs_of e))) →
  wp (for_each (t_Entries t) (restore_dir dst)) (λ r w', w_zero w' = w_zero w ∧
    match r with
    | inr _ => laid e_Dir (dir_ok (w_fs w)) (w_fs w) (t_Entries t) (w_fs w') ∧ unblocked e_Dir (w_fs w) (t_Entries t)
    | inl _ => blocked (w_fs w) ∧ only_entries (w_fs w) (w_fs w')
    end) w.
Proof.
  intros Hwf Hdst Hkind. set (σ := w_fs w) in *.
  eapply wp_for_each with (I := λ dn w1, w_zero w1 = w_zero w ∧ laid e_Dir (dir_ok σ) σ dn (w_fs w1) ∧ unblocked e_Dir σ dn).
  - split_and!; [done|by apply laid_init|by intros e ?%not_elem_of_nil].
  - intros dn e todo w1 Hl (Hz1 & Hlaid & Hub). destruct (entry_split _ _ _ Hl) as (He & Hnew & Hdn).
    unfold restore_dir. destruct (e_Dir e) eqn:Hd; [|wp_step; split_and!; [done|by apply laid_skip|by apply unblocked_snoc; [|congruence]]].
    rewrite (join_entry dst e t) by done. destruct (path_case (cs_of e)) as [Hnil|(k & c & Hc)]; [by apply cs_of_not_nil in Hnil|].
    pose proof (parent_dir _ _ _ _ _ _ _ Hl Hc Hdst Hlaid) as Hpd.
    assert (good_name c) as Hgc.
    { pose proof (tk_names t Ht e He) as Hg. rewrite Hc in Hg. apply Forall_app in Hg as [_ Hg]. by inversion Hg. }
    assert (w_fs w1 !! (dst ++ cs_of e) = σ !! (dst ++ cs_of e)) as Hold.
    { apply Hlaid. intros e' He' _ Heq%app_inv_head. apply Hnew. assert (e = e') as ->; [|done]. apply (tree_ok_inj t); auto. }
    specialize (Hkind e He). destruct (σ !! (dst ++ cs_of e)) as [nd|] eqn:E.
    + destruct (is_dir_node nd) eqn:Hdn'.
      * destruct nd as [|m| |]; try done.
        eapply wp_mono; [apply wp_MkdirAll_dir; [apply Hlaid|by exists m]|].
        intros [e0|[]] w2 (Hfs2 & Hz2 & Hr); [by destruct e0|]. split_and!; [congruence| |apply unblocked_snoc; [done|]; intros _; rewrite E; unfold clash; by rewrite Hd].
        eapply laid_step; try done; rewrite ?Hfs2; try done; [apply Hlaid|]. unfold dir_ok. by rewrite E, Hold.
      * eapply wp_mono; [apply (wp_MkdirAll_clash _ _ nd); [done|apply Hlaid|done|done|intros l ->; apply Hkind; by left]|].
        intros r w2 (-> & Hfs2 & Hz2). split; [congruence|]. split; [exists e; split; [done|]; rewrite E; unfold clash; by rewrite Hd|].
        rewrite Hfs2. by eapply laid_only.
    + rewrite Hc, app_assoc in Hold |- *. eapply wp_mono; [apply wp_MkdirAll_child; [apply Hlaid|done|done|done]|].
      intros [e0|[]] w2 (Hz2 & Hr); [by destruct e0; destruct Hr|]. split_and!; [congruence| |apply unblocked_snoc; [done|]; intros _; rewrite E; by intros []].
      eapply laid_step; try done; rewrite ?Hr.
      * apply fs_wf_insert; [apply Hlaid|done|done|]. by intros _.
      * intros q Hne. rewrite lookup_insert_ne; [done|]. intros <-. apply Hne. by rewrite Hc, app_assoc.
      * unfold dir_ok. rewrite E. rewrite Hc, app_assoc. simpl. apply lookup_insert_eq.
  - by intros w1 HI.
Qed.

(** ** Laying down files and links *)

(** Removing a node with nothing below it. *)
Lemma wp_Remove_leaf p n Q w :
  fs_wf (w_fs w) → p ≠ [] → w_fs w !! p = Some n → (∀ x, w_fs w !! (p ++ [x]) = None) →
  (∀ e, ¬ quiet → Q (inl (Errno e)) (tick w)) →
  Q (inr tt) (tick (set_fs (delete p (w_fs w)) w)) → wp (os_Remove p) Q w.
Proof.
  intros Hwf Hne Hp Hn Hf HQ. apply wp_sys; [done|]. rewrite (find_node_some _ _ _ n) by done.
  destruct p as [|c p]; [done|]. destruct n; try done. by rewrite children_leaf, decide_True.
Qed.

Context (U : bytes → Prop) (root : path).

Definition file_ok (σ : fs) (e : Entry) (n : option node) : Prop :=
  if decide (e_Link e ≠ "") then n = Some (NLink (e_Link e))
  else ∃ f, n = Some (NFile f) ∧ hashOf (contents f) = e_Hash e ∧ blob_of σ root (e_Hash e) = Some (contents f) ∧
            (σ !! (dst ++ cs_of e) = None → f_mode f = perm (e_Mode e)).
Definition is_file (e : Entry) : bool := negb (e_Dir e).

(** The state while files are laid down over [σ]: the directories of the tree
    are there, and the store is as it was. *)
Record fill_pre (σ : fs) : Prop := {
  fp_store : store_inv U root σ;
  fp_apart : ∀ cs, ¬ below root (dst ++ cs);
  fp_dst : is_dir σ dst;
  fp_dirs : ∀ e, e ∈ t_Entries t → e_Dir e = true → is_dir σ (dst ++ cs_of e);
  fp_link : ∀ e, e ∈ t_Entries t → ¬ link_in_way e (σ !! (dst ++ cs_of e));
  fp_only : ∀ cs, cs ≠ [] → is_Some (σ !! (dst ++ cs)) → wanted t cs;
  fp_blobs : ∀ e, e ∈ t_Entries t → entry_stored root σ e
}.

Lemma laid_agree σ dn σ' : fill_pre σ → laid is_file (file_ok σ) σ dn σ' → ∀ q, below root q → σ' !! q = σ !! q.
Proof. intros Hp (_ & Hs & _) q Hb. apply Hs. intros e _ _ ->. by apply (fp_apart _ Hp) in Hb. Qed.

Lemma laid_parent σ dn σ' e k c :
  fill_pre σ → laid is_file (file_ok σ) σ dn σ' → (∀ x, x ∈ dn → x ∈ t_Entries t) →
  e ∈ t_Entries t → cs_of e = k ++ [c] → is_dir σ' (dst ++ k).
Proof.
  intros Hp (_ & Hs & _) Hdn He Hc.
  assert (∀ k', (∀ x, x ∈ t_Entries t → e_Dir x = false → cs_of x ≠ k') → is_dir σ (dst ++ k') → is_dir σ' (dst ++ k')) as Hkeep.
  { intros k' Hk' [m Hm]. exists m. rewrite Hs; [done|]. intros x Hx Hf Heq%app_inv_head. unfold is_file in Hf.
    apply (Hk' x); [by apply Hdn|by destruct (e_Dir x)|done]. }
  destruct (decide (k = [])) as [->|Hk].
  - apply Hkeep; [intros x _ _; apply cs_of_not_nil|]. rewrite app_nil_r. apply Hp.
  - destruct (tk_parent t Ht e k c He Hc Hk) as (d & Hd & <- & Hdd). apply Hkeep; [|by apply (fp_dirs _ Hp)].
    intros x Hx Hxd Heq. assert (x = d) as ->; [by apply (tree_ok_inj t)|congruence].
Qed.

(** A link: whatever was there goes, then the link is made. *)
Lemma wp_restore_link e d c w :
  fs_wf (w_fs w) → is_dir (w_fs w) d → good_name c →
  (∀ x, w_fs w !! ((d ++ [c]) ++ [x]) = None) →
  wp (ignore (os_Remove (d ++ [c]));; os_MkdirAll (dir_of (d ++ [c])) o755;; os_Symlink (e_Link e) (d ++ [c]))
    (λ r w', r = inr tt ∧ w_zero w' = w_zero w ∧ fs_wf (w_fs w') ∧
       (∀ q, q ≠ d ++ [c] → w_fs w' !! q = w_fs w !! q) ∧ w_fs w' !! (d ++ [c]) = Some (NLink (e_Link e))) w.
Proof.
  intros Hwf Hd Hc Hold. unfold dir_of. rewrite removelast_snoc.
  assert (∀ w1, w_zero w1 = w_zero w → fs_wf (w_fs w1) → (∀ q, q ≠ d ++ [c] → w_fs w1 !! q = w_fs w !! q) →
    w_fs w1 !! (d ++ [c]) = None →
    wp (os_MkdirAll d o755;; os_Symlink (e_Link e) (d ++ [c]))
    (λ r w', r = inr tt ∧ w_zero w' = w_zero w ∧ fs_wf (w_fs w') ∧
       (∀ q, q ≠ d ++ [c] → w_fs w' !! q = w_fs w !! q) ∧ w_fs w' !! (d ++ [c]) = Some (NLink (e_Link e))) w1) as Hrest.
  { intros w1 Hz1 Hwf1 Hs1 Hn1.
    assert (is_dir (w_fs w1) d) as Hd1.
    { destruct Hd as [m Hm]. exists m. rewrite Hs1; [done|]. apply snoc_ne. }
    wp_step. eapply wp_mono; [by apply wp_MkdirAll_dir|]. intros [e0|[]] w2 (Hfs2 & Hz2 & Hr); [by destruct e0|].
    apply wp_Symlink; rewrite ?Hfs2; [done|done|done|by intros ? ?|]. rewrite Hn1. simpl.
    rewrite ?Hfs2. split_and!; [done|congruence| | |apply lookup_insert_eq].
    - apply fs_wf_insert; [done..|]. intros [m Hm]. congruence.
    - intros q Hne. rewrite lookup_insert_ne by done. by apply Hs1. }
  wp_step. wp_step. destruct (w_fs w !! (d ++ [c])) as [n|] eqn:E.
  - apply (wp_Remove_leaf _ n); [done|by destruct d|done|done|by intros ? ?|]. apply Hrest; simpl; [done|..].
    + apply fs_wf_delete; [done|by destruct d|done].
    + intros q Hne. by rewrite lookup_delete_ne.
    + apply lookup_delete_eq.
  - apply wp_sys; [by intros ? ?|]. rewrite find_node_none by done. simpl. rewrite set_fs_id. by apply Hrest.
Qed.

(** A file: opened for writing, filled from the blob. *)
Lemma wp_writeBlob b mode d c w :
  fs_wf (w_fs w) → is_dir (w_fs w) d → good_name c → ¬ below root (d ++ [c]) → store_wf (w_fs w) root →
  stored (w_fs w) root b →
  match w_fs w !! (d ++ [c]) with None => True | Some n => ∃ f, n = NFile f end →
  wp (writeBlob (StoreBlobs root) (hashOf b) (d ++ [c]) mode)
    (λ r w', r = inr tt ∧ w_zero w' = w_zero w ∧ fs_wf (w_fs w') ∧
       (∀ q, q ≠ d ++ [c] → w_fs w' !! q = w_fs w !! q) ∧
       ∃ f, w_fs w' !! (d ++ [c]) = Some (NFile f) ∧ contents f = b ∧
            (w_fs w !! (d ++ [c]) = None → f_mode f = perm mode)) w.
Proof.
  intros Hwf Hd Hc Hout Hst Hb Hold. unfold writeBlob, dir_of. rewrite removelast_snoc. wp_step.
  eapply wp_mono; [by apply wp_MkdirAll_dir|]. intros [e0|[]] w1 (Hfs1 & Hz1 & Hr); [by destruct e0|].
  wp_step. apply wp_OpenBlob; [by rewrite Hfs1|apply hashOf_digest|..].
  2:{ intros e w2 Hfs2 Hz2 Hnone. exfalso. destruct (Hnone Hq) as [Hn _]. rewrite Hfs1 in Hn. unfold stored in Hb. congruence. }
  intros fb w2 Hfs2 Hz2 Hslot. rewrite Hfs1 in Hslot, Hfs2. rewrite Hz1 in Hz2.
  assert (contents fb = b) as Hfb by (unfold stored, blob_of in Hb; rewrite Hslot in Hb; by injection Hb).
  assert (slot root (hashOf b) ≠ d ++ [c]) as Hns by (intros He; apply Hout; rewrite <- He; apply below_slot).
  wp_step. wp_step.
  assert (∀ g, f_cells g = [] → (w_fs w !! (d ++ [c]) = None → f_mode g = perm mode) →
    wp (cp ← attempt (io_Copy (StoreBlobs root) (d ++ [c]) (slot root (hashOf b)));
        match cp with inl e => ignore (fd_close (d ++ [c]));; throw e | inr _ => fd_close (d ++ [c]) end)
     (λ r w', wp (ignore (reader_close (StoreBlobs root) (slot root (hashOf b)));; of_sum r)
       (λ r w', r = inr tt ∧ w_zero w' = w_zero w ∧ fs_wf (w_fs w') ∧
         (∀ q, q ≠ d ++ [c] → w_fs w' !! q = w_fs w !! q) ∧
         ∃ f, w_fs w' !! (d ++ [c]) = Some (NFile f) ∧ contents f = b ∧
            (w_fs w !! (d ++ [c]) = None → f_mode f = perm mode)) w')
     (tick (set_fs (<[d ++ [c] := NFile g]> (w_fs w)) w2))) as Hfill.
  { intros g Hg Hmode.
    wp_step. wp_step. unfold io_Copy. wp_step. apply (wp_read _ fb).
    { simpl. by rewrite lookup_insert_ne by done. }
    { by intros ? ?. }
    apply (wp_write _ g); [simpl; apply lookup_insert_eq|by intros ? ? ? ?|]. intros mt. simpl. rewrite insert_insert_eq.
    apply wp_close; [by intros ? ?|]. wp_step. wp_step. apply wp_close; [by intros ? ?|]. wp_step. simpl. split_and!; [done|congruence| | |].
    - apply fs_wf_insert; [done|done|done|]. intros [m Hm]. rewrite Hm in Hold. by destruct Hold.
    - intros q Hne. by rewrite lookup_insert_ne.
    - eexists. split; [apply lookup_insert_eq|]. split; [|done]. unfold contents at 1. simpl. rewrite Hg, Hfb. simpl.
      rewrite <- list_fmap_compose. apply list_fmap_id. }
  wp_step. apply wp_Create; rewrite ?Hfs2; [done|done|done|by intros ? ?|].
  destruct (w_fs w !! (d ++ [c])) as [n|] eqn:E.
  - destruct Hold as [f ->]. intros mt. by apply Hfill.
  - intros mt ino. by apply Hfill.
Qed.

(** Nothing is below the path of a link. *)
Lemma link_leaf σ dn σ' e k c x :
  fill_pre σ → laid is_file (file_ok σ) σ dn σ' → (∀ y, y ∈ dn → y ∈ t_Entries t) → e ∈ t_Entries t → e_Dir e = false → cs_of e = k ++ [c] →
  ¬ is_Some (σ' !! (dst ++ k ++ [c; x])).
Proof.
  intros Hp (_ & Hs & _) Hdn He Hd Hc Hx.
  assert (wanted t (k ++ [c; x])) as (y & Hy & Hcy).
  { destruct (decide (wanted t (k ++ [c; x]))) as [Hw|Hw]; [done|]. apply (fp_only _ Hp); [by destruct k|].
    rewrite <- Hs; [done|]. intros y Hy _ Heq%app_inv_head. apply Hw. exists y. split; [by apply Hdn|done]. }
  destruct (tk_parent t Ht y (k ++ [c]) x Hy) as (d & Hdd & Hcd & Hdir); [by rewrite Hcy, <- app_assoc|by destruct k|].
  assert (d = e) as ->; [apply (tree_ok_inj t); try done; congruence|congruence].
Qed.

(** A file that cannot be opened for writing. *)
Lemma wp_writeBlob_clash b mode d c n w :
  fs_wf (w_fs w) → is_dir (w_fs w) d → good_name c → store_wf (w_fs w) root → stored (w_fs w) root b →
  w_fs w !! (d ++ [c]) = Some n → match n with NDir _ | NOther _ => True | _ => False end →
  wp (writeBlob (StoreBlobs root) (hashOf b) (d ++ [c]) mode) (λ r w', (∃ e, r = inl e) ∧ w_zero w' = w_zero w ∧ w_fs w' = w_fs w) w.
Proof.
  intros Hwf Hd Hc Hst Hb Hp Hn. unfold writeBlob, dir_of. rewrite removelast_snoc. wp_step.
  eapply wp_mono; [by apply wp_MkdirAll_dir|]. intros [e0|[]] w1 (Hfs1 & Hz1 & Hr); [by destruct e0|].
  wp_step. apply wp_OpenBlob; [by rewrite Hfs1|apply hashOf_digest|..].
  2:{ intros e w2 Hfs2 Hz2 Hnone. exfalso. destruct (Hnone Hq) as [Hn' _]. rewrite Hfs1 in Hn'. unfold stored in Hb. congruence. }
  intros fb w2 Hfs2 Hz2 _. rewrite Hfs1 in Hfs2. rewrite Hz1 in Hz2. wp_step. wp_step. wp_step. apply wp_sys; [by intros ? ?|]. rewrite Hfs2.
  rewrite resolve_child by (try done; rewrite Hp; intros _ l; by destruct n). rewrite Hp.
  destruct n; try done; simpl; wp_step; wp_step; (apply wp_close; [by intros ? ?|]); wp_step; cbn [w_zero w_fs tick set_fs]; (split_and!; [by eexists|congruence|congruence]).
Qed.

Lemma wp_restore_files w :
  fill_pre (w_fs w) →
  wp (for_each (t_Entries t) (restore_file (StoreBlobs root) dst)) (λ r w', w_zero w' = w_zero w ∧
    match r with
    | inr _ => laid is_file (file_ok (w_fs w)) (w_fs w) (t_Entries t) (w_fs w') ∧ unblocked is_file (w_fs w) (t_Entries t)
    | inl _ => blocked (w_fs w) ∧ only_entries (w_fs w) (w_fs w')
    end) w.
Proof.
  intros Hp. set (σ := w_fs w) in *.
  assert (fs_wf σ) as Hwf by apply (fp_store _ Hp).
  eapply wp_for_each with (I := λ dn w1, w_zero w1 = w_zero w ∧ laid is_file (file_ok σ) σ dn (w_fs w1) ∧ unblocked is_file σ dn).
  - split_and!; [done|by apply laid_init|by intros e ?%not_elem_of_nil].
  - intros dn e todo w1 Hl (Hz1 & Hlaid & Hub). destruct (entry_split _ _ _ Hl) as (He & Hnew & Hdn).
    unfold restore_file. destruct (e_Dir e) eqn:Hd.
    { wp_step. split_and!; [done|apply laid_skip; [done|unfold is_file; by rewrite Hd]|apply unblocked_snoc; [done|]; unfold is_file; by rewrite Hd]. }
    assert (is_file e = true) as Hf by (unfold is_file; by rewrite Hd).
    rewrite (join_entry dst e t) by done. destruct (path_case (cs_of e)) as [Hnil|(k & c & Hc)]; [by apply cs_of_not_nil in Hnil|].
    pose proof (laid_parent _ _ _ _ _ _ Hp Hlaid Hdn He Hc) as Hpd.
    assert (good_name c) as Hgc.
    { pose proof (tk_names t Ht e He) as Hg. rewrite Hc in Hg. apply Forall_app in Hg as [_ Hg]. by inversion Hg. }
    assert (w_fs w1 !! (dst ++ cs_of e) = σ !! (dst ++ cs_of e)) as Hold.
    { apply Hlaid. intros e' He' _ Heq%app_inv_head. apply Hnew. assert (e = e') as ->; [|done]. apply (tree_ok_inj t); auto. }
    pose proof (fp_link _ Hp e He) as Hlk. pose proof (fp_blobs _ Hp e He Hd) as Hblob.
    assert (store_inv U root (w_fs w1)) as Hst1.
    { eapply store_inv_agree; [apply Hp|apply Hlaid|]. by eapply laid_agree. }
    pose proof (fp_apart _ Hp (cs_of e)) as Hout. rewrite Hc, app_assoc in Hold, Hout |- *.
    destruct (decide (e_Link e ≠ "")) as [Hlink|Hlink].
    + eapply wp_mono; [apply wp_restore_link; [apply Hlaid|done|done|]|].
      { intros x. rewrite <- app_assoc, <- app_assoc. cbn [app]. apply eq_None_not_Some. intros Hx. by apply (link_leaf σ dn (w_fs w1) e k c x). }
      intros r w2 (-> & Hz2 & Hwf2 & Hs2 & Hn2). split_and!; [congruence| |].
      2:{ apply unblocked_snoc; [done|]. intros _. unfold clash. destruct (σ !! (dst ++ cs_of e)); [rewrite Hd, decide_True by done|]; by intros []. }
      eapply laid_step; try done; [rewrite Hc, app_assoc; done|]. unfold file_ok. rewrite decide_True by done. by rewrite Hc, app_assoc.
    + apply dec_stable in Hlink. destruct (Hblob Hlink) as (b & Hh & _ & Hb). rewrite Hh.
      assert (stored (w_fs w1) root b) as Hb1 by (unfold stored; rewrite (blob_of_agree σ); [done|]; by eapply laid_agree).
      destruct (σ !! ((dst ++ k) ++ [c])) as [nd|] eqn:E.
      * destruct nd as [fl|m|l|m].
        2,4: (eapply wp_mono; [eapply (wp_writeBlob_clash b); [apply Hlaid|done|done|apply Hst1|done|exact Hold|done]|];
          intros r w2 ([er ->] & Hz2 & Hfs2); split; [congruence|]; split; [|rewrite Hfs2; by eapply laid_only];
          exists e; split; [done|]; unfold clash; rewrite Hc, app_assoc, E, Hd, decide_False by (rewrite Hlink; tauto); done).
        2:{ exfalso. apply Hlk. rewrite Hc, app_assoc, E. by right. }
        eapply wp_mono; [apply (wp_writeBlob b); [apply Hlaid|done|done|done|apply Hst1|done|rewrite Hold; by eexists]|].
        intros r w2 (-> & Hz2 & Hwf2 & Hs2 & f & Hf2 & Hcf & Hmode). split_and!; [congruence| |].
        2:{ apply unblocked_snoc; [done|]. intros _. unfold clash. rewrite Hc, app_assoc, E, ?Hd. rewrite ?decide_False by (rewrite Hlink; tauto). by intros []. }
        eapply laid_step; try done; [rewrite Hc, app_assoc; done|]. unfold file_ok. rewrite decide_False by (rewrite Hlink; tauto).
        exists f. rewrite Hc, app_assoc. split_and!; [done|by rewrite Hcf|by rewrite Hh, Hcf|]. by rewrite E.
      * eapply wp_mono; [apply (wp_writeBlob b); [apply Hlaid|done|done|done|apply Hst1|done|by rewrite Hold]|].
        intros r w2 (-> & Hz2 & Hwf2 & Hs2 & f & Hf2 & Hcf & Hmode). split_and!; [congruence| |].
        2:{ apply unblocked_snoc; [done|]. intros _. unfold clash. rewrite Hc, app_assoc, E, ?Hd. rewrite ?decide_False by (rewrite Hlink; tauto). by intros []. }
        eapply laid_step; try done; [rewrite Hc, app_assoc; done|]. unfold file_ok. rewrite decide_False by (rewrite Hlink; tauto).
        exists f. rewrite Hc, app_assoc. split_and!; [done|by rewrite Hcf|by rewrite Hh, Hcf|]. intros _. by apply Hmode.
  - by intros w1 HI.
Qed.

End phases.

(** ** The whole restore *)

Section whole.
Context `{OsEnv} (U : bytes → Prop) (root dst : path) (t : Tree).

(** The destination is a directory apart from the store, or a new name in a
    directory; no link is in the way of a file or a directory; the blobs are
    stored. *)
Record restore_able (σ : fs) : Prop := {
  ra_tree : tree_ok t;
  ra_store : store_inv U root σ;
  ra_apart : ∀ cs, ¬ below root (dst ++ cs);
  ra_dst : is_dir σ dst ∨ ∃ d c, dst = d ++ [c] ∧ is_dir σ d ∧ good_name c ∧ σ !! dst = None;
  ra_names : ∀ cs, is_Some (σ !! (dst ++ cs)) → Forall (λ c, has_char slash c = false) cs;
  ra_link : ∀ e, e ∈ t_Entries t → ¬ link_in_way e (σ !! (dst ++ cs_of e));
  ra_blobs : ∀ e, e ∈ t_Entries t → entry_stored root σ e
}.

(** Moreover nothing of another kind is in the way. *)
Record restore_pre (σ : fs) : Prop := {
  rp_tree : tree_ok t;
  rp_store : store_inv U root σ;
  rp_apart : ∀ cs, ¬ below root (dst ++ cs);
  rp_dst : is_dir σ dst ∨ ∃ d c, dst = d ++ [c] ∧ is_dir σ d ∧ good_name c ∧ σ !! dst = None;
  rp_names : ∀ cs, is_Some (σ !! (dst ++ cs)) → Forall (λ c, has_char slash c = false) cs;
  rp_kind : ∀ e, e ∈ t_Entries t → kind_ok e (σ !! (dst ++ cs_of e));
  rp_blobs : ∀ e, e ∈ t_Entries t → entry_stored root σ e
}.

Lemma restore_pre_able σ : restore_pre σ → restore_able σ ∧ ¬ blocked t dst σ.
Proof.
  intros [? ? ? ? ? Hk ?]. split; [split; try done; intros e He; by apply kind_ok_clear, Hk|].
  intros (e & He & Hc). by destruct (kind_ok_clear e _ (Hk e He)).
Qed.

Lemma able_pre σ : restore_able σ → (∀ e, e ∈ t_Entries t → kind_ok e (σ !! (dst ++ cs_of e))) → restore_pre σ.
Proof. by intros [] ?; split. Qed.

(** The node an entry becomes; a node that is made gets the entry's mode less
    the umask. *)
Definition node_matches (σ : fs) (e : Entry) (n : option node) : Prop :=
  if e_Dir e then ∃ m, n = Some (NDir m) ∧ (σ !! (dst ++ cs_of e) = None → m = perm (e_Mode e))
  else if decide (e_Link e ≠ "") then n = Some (NLink (e_Link e))
  else ∃ f, n = Some (NFile f) ∧ blob_of σ root (e_Hash e) = Some (contents f) ∧
            (σ !! (dst ++ cs_of e) = None → f_mode f = perm (e_Mode e)).

Record restored (σ σ' : fs) : Prop := {
  rs_wf : fs_wf σ';
  rs_dst : is_dir σ' dst;
  rs_entries : ∀ e, e ∈ t_Entries t → node_matches σ e (σ' !! (dst ++ cs_of e));
  rs_only : ∀ cs, cs ≠ [] → is_Some (σ' !! (dst ++ cs)) → ∃ e, e ∈ t_Entries t ∧ cs_of e = cs;
  rs_frame : ∀ q, ¬ below dst q → σ' !! q = σ !! q
}.

Lemma cs_of_below e : below dst (dst ++ cs_of e).
Proof. by eexists. Qed.

Lemma dst_off cs : cs ≠ [] → dst ++ cs ≠ dst.
Proof. intros Hne He. apply Hne. apply (app_inv_head dst). by rewrite app_nil_r. Qed.
Lemma not_below_dst q : ¬ below dst q → q ≠ dst.
Proof. intros Hb ->. apply Hb. by exists []; rewrite app_nil_r. Qed.

(** First the destination. *)
Lemma wp_make_dst w :
  quiet → restore_able (w_fs w) →
  wp (os_MkdirAll dst o755) (λ r w1, r = inr tt ∧ w_zero w1 = w_zero w ∧ fs_wf (w_fs w1) ∧ is_dir (w_fs w1) dst ∧
    ∀ q, q ≠ dst → w_fs w1 !! q = w_fs w !! q) w.
Proof.
  intros Hq [_ Hst _ Hdst _ _ _]. assert (fs_wf (w_fs w)) as Hwf by apply Hst. destruct Hdst as [Hd|(d & c & Hdc & Hd & Hc & Hnone)].
  - eapply wp_mono; [by apply wp_MkdirAll_dir|]. intros [e0|[]] w1 (Hfs & Hz & Hr); [by destruct e0|]. by rewrite Hfs.
  - rewrite Hdc in Hnone |- *. eapply wp_mono; [by apply wp_MkdirAll_child|].
    intros [e0|[]] w1 (Hz & Hr); [by destruct e0; destruct Hr|]. rewrite Hr. split_and!; [done|done| | |].
    + by apply fs_wf_insert.
    + eexists. apply lookup_insert_eq.
    + intros q Hne. by rewrite lookup_insert_ne.
Qed.

(** Then what is not in the tree goes. *)
Record cleared (σ σ' : fs) : Prop := {
  cl_wf : fs_wf σ';
  cl_dst : is_dir σ' dst;
  cl_entries e : e ∈ t_Entries t → σ' !! (dst ++ cs_of e) = σ !! (dst ++ cs_of e);
  cl_only cs : cs ≠ [] → is_Some (σ' !! (dst ++ cs)) → wanted t cs;
  cl_frame q : ¬ below dst q → σ' !! q = σ !! q
}.

Lemma wp_clear_dst σ w :
  quiet → restore_able σ → fs_wf (w_fs w) → is_dir (w_fs w) dst → (∀ q, q ≠ dst → w_fs w !! q = σ !! q) →
  wp (clearExtra t dst) (λ r w', r = inr tt ∧ w_zero w' = w_zero w ∧ cleared σ (w_fs w')) w.
Proof.
  intros Hq Hp Hwf Hd Hs. eapply wp_mono; [apply (wp_clearExtra Hq t dst (w_fs w) (ra_tree _ Hp) Hwf Hd); [|done]|].
  { intros cs Hx. destruct (decide (cs = [])) as [->|Hne]; [done|]. apply (ra_names _ Hp). by rewrite <- Hs by by apply dst_off. }
  intros r w' (-> & Hz & Hwf' & Hl). split_and!; [done|done|]. split; [done|..].
  - destruct Hd as [m Hm]. exists m. destruct (Hl dst) as [[(cs & Hne & He & _) _]|[_ ->]]; [|done]. symmetry in He. by apply dst_off in He.
  - intros e He. rewrite <- (Hs (dst ++ cs_of e)) by (apply dst_off, cs_of_not_nil).
    destruct (Hl (dst ++ cs_of e)) as [[(cs & Hne & Hc%app_inv_head & Hnw) _]|[_ ->]]; [|done]. exfalso. apply Hnw. subst cs. by exists e.
  - intros cs Hne Hx. destruct (decide (wanted t cs)) as [Hw|Hw]; [done|]. exfalso.
    destruct (Hl (dst ++ cs)) as [[_ Hn]|[Hno _]]; [rewrite Hn in Hx; by destruct Hx|]. apply Hno. by exists cs.
  - intros q Hb. rewrite <- Hs by by apply not_below_dst. destruct (Hl q) as [[(cs & Hne & -> & _) _]|[_ ->]]; [|done].
    exfalso. apply Hb. by eexists.
Qed.

(** Then the directories are made, and the files can be written. *)
Record floored (σ σ' : fs) : Prop := {
  fo_fill : fill_pre t dst U root σ';
  fo_dirs e : e ∈ t_Entries t → e_Dir e = true → σ' !! (dst ++ cs_of e) = Some (dir_after e (σ !! (dst ++ cs_of e)));
  fo_files e : e ∈ t_Entries t → e_Dir e = false → σ' !! (dst ++ cs_of e) = σ !! (dst ++ cs_of e);
  fo_only cs : cs ≠ [] → is_Some (σ' !! (dst ++ cs)) → wanted t cs;
  fo_frame q : ¬ below dst q → σ' !! q = σ !! q
}.

Lemma floor_fill σ σ' :
  restore_able σ → fs_wf σ' → is_dir σ' dst → (∀ q, ¬ below dst q → σ' !! q = σ !! q) →
  (∀ cs, cs ≠ [] → is_Some (σ' !! (dst ++ cs)) → wanted t cs) →
  (∀ e, e ∈ t_Entries t → e_Dir e = true → σ' !! (dst ++ cs_of e) = Some (dir_after e (σ !! (dst ++ cs_of e)))) →
  (∀ e, e ∈ t_Entries t → e_Dir e = false → σ' !! (dst ++ cs_of e) = σ !! (dst ++ cs_of e)) → fill_pre t dst U root σ'.
Proof.
  intros [Ht Hst Hap _ _ Hkind Hblobs] Hwf Hd Hfr Honly Hdirs Hfiles.
  assert (∀ q, below root q → σ' !! q = σ !! q) as Hroot by (intros q Hb; apply Hfr; intros [cs ->]; by apply Hap in Hb). split.
  - by eapply store_inv_agree.
  - done.
  - done.
  - intros e He Hde. unfold is_dir. rewrite (Hdirs e He Hde). unfold dir_after. destruct (σ !! _) as [[]|]; by eexists.
  - intros e He. destruct (e_Dir e) eqn:Hde; [|rewrite Hfiles by done; by apply Hkind].
    rewrite (Hdirs e He Hde). unfold link_in_way, dir_after. destruct (σ !! _) as [[]|]; by intros [].
  - done.
  - intros e He Hde Hl. destruct (Hblobs e He Hde Hl) as (b & Hh & Hsz & Hb). exists b. split_and!; [done..|].
    unfold stored. by rewrite (blob_of_agree σ).
Qed.

(** A restore that stopped: something is in the way, and nothing outside the
    destination changed. *)
Record contained (σ σ' : fs) : Prop := {
  ct_wf : fs_wf σ';
  ct_dst : is_dir σ' dst;
  ct_frame q : ¬ below dst q → σ' !! q = σ !! q
}.

Lemma only_contained σ σ1 σ' :
  is_dir σ1 dst → (∀ q, ¬ below dst q → σ1 !! q = σ !! q) → only_entries t dst σ1 σ' → contained σ σ'.
Proof.
  intros [m Hm] Hfr [Hwf Hs]. split; [done|..].
  - exists m. rewrite Hs; [done|]. intros e _ He. symmetry in He. by apply dst_off in He; [|apply cs_of_not_nil].
  - intros q Hb. rewrite Hs; [by apply Hfr|]. intros e _ ->. apply Hb. by eexists.
Qed.

Lemma wp_make_dirs σ w :
  quiet → restore_able σ → cleared σ (w_fs w) →
  wp (for_each (t_Entries t) (restore_dir dst)) (λ r w', w_zero w' = w_zero w ∧
    match r with inr _ => floored σ (w_fs w') ∧ unblocked dst e_Dir σ (t_Entries t) | inl _ => blocked t dst σ ∧ contained σ (w_fs w') end) w.
Proof.
  intros Hq Hp Hcl. pose proof (ra_tree _ Hp) as Ht.
  eapply wp_mono; [apply (wp_restore_dirs Hq t dst Ht w (cl_wf _ _ Hcl) (cl_dst _ _ Hcl))|].
  { intros e He. rewrite (cl_entries _ _ Hcl) by done. by apply (ra_link _ Hp). }
  intros [er|[]] w' [Hz Hr].
  { destruct Hr as [(e & He & Hc) Ho]. split_and!; [done| |eapply only_contained; [apply Hcl|apply Hcl|exact Ho]].
    exists e. split; [done|]. by rewrite <- (cl_entries _ _ Hcl). }
  destruct Hr as [(Hwf & Hs & Hok) Hub]. unfold dir_ok in Hok.
  assert (∀ q, (∀ e, e ∈ t_Entries t → q ≠ dst ++ cs_of e) → w_fs w' !! q = w_fs w !! q) as Hoff by (intros q Hx; apply Hs; intros e He _; by apply Hx).
  assert (∀ e, e ∈ t_Entries t → e_Dir e = true → w_fs w' !! (dst ++ cs_of e) = Some (dir_after e (σ !! (dst ++ cs_of e)))) as Hdirs.
  { intros e He Hd. by rewrite (Hok e He Hd), (cl_entries _ _ Hcl). }
  assert (∀ e, e ∈ t_Entries t → e_Dir e = false → w_fs w' !! (dst ++ cs_of e) = σ !! (dst ++ cs_of e)) as Hfiles.
  { intros e He Hd. rewrite Hs, (cl_entries _ _ Hcl); [done|done|]. intros e' He' Hd' Heq%app_inv_head.
    assert (e = e') as ->; [by apply (tree_ok_inj t)|congruence]. }
  assert (∀ q, ¬ below dst q → w_fs w' !! q = σ !! q) as Hfr.
  { intros q Hb. rewrite Hoff, (cl_frame _ _ Hcl); [done|done|]. intros e _ ->. apply Hb. by eexists. }
  assert (∀ cs, cs ≠ [] → is_Some (w_fs w' !! (dst ++ cs)) → wanted t cs) as Honly.
  { intros cs Hne Hx. destruct (decide (wanted t cs)) as [Hw|Hw]; [done|]. apply (cl_only _ _ Hcl); [done|]. rewrite <- Hoff; [done|].
    intros e He Heq%app_inv_head. apply Hw. by exists e. }
  split_and!; [done| |intros e He; rewrite <- (cl_entries _ _ Hcl) by done; by apply Hub]. split; [|done|done|done|done].
  apply (floor_fill σ); try done. destruct (cl_dst _ _ Hcl) as [m Hm]. exists m. rewrite Hoff; [done|]. intros e _ He. symmetry in He. by apply dst_off in He; [|apply cs_of_not_nil].
Qed.

(** What is in the way of a file now was there before. *)
Lemma floored_blocked σ σ' : floored σ σ' → blocked t dst σ' → blocked t dst σ.
Proof.
  intros Hfl (e & He & Hc). exists e. split; [done|]. destruct (e_Dir e) eqn:Hd; [|by rewrite <- (fo_files _ _ Hfl)].
  rewrite (fo_dirs _ _ Hfl) in Hc by done. unfold clash in Hc. rewrite Hd in Hc. unfold dir_after in Hc. by destruct (σ !! _) as [[]|].
Qed.

(** Last the files and links, and the destination is the tree. *)
Lemma floored_restored σ σ3 σ4 :
  restore_able σ → floored σ σ3 → laid dst is_file (file_ok dst root σ3) σ3 (t_Entries t) σ4 → restored σ σ4.
Proof.
  intros [Ht Hst Hap _ _ _ _] [Hfill Hdirs Hfiles Honly Hfr] (Hwf & Hs & Hok).
  assert (∀ q, below root q → σ3 !! q = σ !! q) as Hroot by (intros q Hb; apply Hfr; intros [cs ->]; by apply Hap in Hb). split.
  - done.
  - destruct (fp_dst _ _ _ _ _ Hfill) as [m Hm]. exists m. rewrite Hs; [done|]. intros e He _ Heq. symmetry in Heq. by apply dst_off in Heq; [|apply cs_of_not_nil].
  - intros e He. unfold node_matches. destruct (e_Dir e) eqn:Hd.
    + rewrite Hs.
      * rewrite (Hdirs e He Hd). unfold dir_after. destruct (σ !! (dst ++ cs_of e)) as [[|m| |]|]; by eexists.
      * intros e' He' Hf' Heq%app_inv_head. assert (e = e') as ->; [by apply (tree_ok_inj t)|]. unfold is_file in Hf'. by rewrite Hd in Hf'.
    + specialize (Hok e He). unfold is_file, file_ok in Hok. rewrite Hd in Hok. specialize (Hok eq_refl).
      case_decide as Hl; [done|]. destruct Hok as (f & Hf & _ & Hb & Hm). exists f. split_and!; [done| |].
      * by rewrite (blob_of_agree σ) in Hb.
      * intros Hn. apply Hm. by rewrite Hfiles.
  - intros cs Hne Hx. destruct (decide (wanted t cs)) as [Hw|Hw]; [done|]. apply Honly; [done|]. rewrite <- Hs; [done|].
    intros e He _ Heq%app_inv_head. apply Hw. by exists e.
  - intros q Hb. rewrite Hs; [by apply Hfr|]. intros e _ _ ->. apply Hb. by eexists.
Qed.

(** The destination becomes the tree; or something of another kind is in the way,
    and what changed is below the destination. *)
Lemma wp_Restore_able w :
  quiet → restore_able (w_fs w) →
  wp (Restore (StoreBlobs root) t dst) (λ r w', w_zero w' = w_zero w ∧
    match r with inr _ => ¬ blocked t dst (w_fs w) ∧ restored (w_fs w) (w_fs w') | inl _ => blocked t dst (w_fs w) ∧ contained (w_fs w) (w_fs w') end) w.
Proof.
  intros Hq Hp. unfold Restore. wp_step. eapply wp_mono; [by apply wp_make_dst|]. intros r w1 (-> & Hz1 & Hwf1 & Hd1 & Hs1).
  wp_step. eapply wp_mono; [by apply (wp_clear_dst (w_fs w))|]. intros r w2 (-> & Hz2 & Hcl).
  wp_step. eapply wp_mono; [by apply (wp_make_dirs (w_fs w))|]. intros [e|[]] w3 [Hz3 Hfl]; [by split; [congruence|]|]. destruct Hfl as [Hfl Hub].
  eapply wp_mono; [by apply (wp_restore_files Hq t dst (ra_tree _ Hp) U root), Hfl|].
  intros [e|[]] w4 [Hz4 Hl]; (split; [congruence|]).
  2:{ destruct Hl as [Hl Hub2]. split; [|by eapply floored_restored]. intros (e & He & Hc). destruct (e_Dir e) eqn:Hd; [by apply (Hub e He Hd)|].
      apply (Hub2 e He); [unfold is_file; by rewrite Hd|]. by rewrite (fo_files _ _ Hfl). }
  destruct Hl as [Hb Ho]. split; [by eapply floored_blocked|]. eapply only_contained; [apply Hfl|apply Hfl|exact Ho].
Qed.

Lemma wp_Restore w :
  quiet → restore_pre (w_fs w) →
  wp (Restore (StoreBlobs root) t dst) (λ r w', r = inr tt ∧ w_zero w' = w_zero w ∧ restored (w_fs w) (w_fs w')) w.
Proof.
  intros Hq Hp. destruct (restore_pre_able _ Hp) as [Ha Hnb]. eapply wp_mono; [by apply wp_Restore_able|].
  intros [e|[]] w' (Hz & Hb & Hr); [done|by split_and!].
Qed.

End whole.
