(* ===== verification/SnapProps.v ===== *)
(** * The promises of trees and restores *)

From S2P Require Import Prelude Sha256 Os OsFacts Cas Blobs WalkFacts Tree TreeFacts Snap SnapFacts.
Import Cas Tree Snap.
Open Scope Z_scope.

Section props.
Context `{OsEnv} (U : bytes → Prop) {NC : NoCollision U}.
Implicit Types (w : world) (root work dst : path) (t : Tree).

Lemma visible_prefix ign work σ k r : visible ign work σ (k ++ r) → visible ign work σ k.
Proof. intros Hv k' r' nd -> Hk Hnd. eapply (Hv k' (r' ++ r)); [by rewrite app_assoc|done|done]. Qed.

(** The names below a directory are single components. *)
Definition slashless work (σ : fs) : Prop := ∀ cs, is_Some (σ !! (work ++ cs)) → Forall (λ c, has_char slash c = false) cs.

(** An entry of a snapshot and the node it stands for. *)
Lemma snapshot_node ign work σ t e :
  slashless work σ → snapshot_of ign work σ t → e ∈ t_Entries t →
  ∃ nd, cs_of e ≠ [] ∧ σ !! (work ++ cs_of e) = Some nd ∧ visible ign work σ (cs_of e) ∧
    entry_of (e_Path e) nd = Some e.
Proof.
  intros Hn Hs He. apply (so_entries _ _ _ _ Hs) in He as (cs & nd & Hne & Hnd & Hv & He).
  assert (cs_of e = cs) as Hcs.
  { unfold cs_of. rewrite (entry_of_path _ _ _ He). change "/" with (String slash ""). apply split_join; [done|].
    apply Hn. by eexists. }
  exists nd. rewrite Hcs. split_and!; [done..|]. by rewrite (entry_of_path _ _ _ He).
Qed.

Lemma snapshot_entry ign root work σ t e :
  fs_wf σ → snapshot_pre U root work σ → snapshot_of ign work σ t → e ∈ t_Entries t →
  ∃ nd, cs_of e ≠ [] ∧ σ !! (work ++ cs_of e) = Some nd ∧ visible ign work σ (cs_of e) ∧
    entry_of (e_Path e) nd = Some e.
Proof. intros _ Hpre. apply snapshot_node. exact (sp_names _ _ _ _ Hpre). Qed.

Lemma snapshot_shape ign work σ t : fs_wf σ → slashless work σ → snapshot_of ign work σ t → tree_ok t.
Proof.
  intros Hwf Hn Hs. split.
  - apply Hs.
  - apply Hs.
  - intros e He. destruct (snapshot_node _ _ _ _ _ Hn Hs He) as (nd & _ & Hnd & _).
    eapply fs_wf_names; [done|by eexists].
  - intros e k c He Hc Hk. destruct (snapshot_node _ _ _ _ _ Hn Hs He) as (nd & _ & Hnd & Hv & _).
    rewrite Hc in Hnd, Hv. rewrite app_assoc in Hnd.
    destruct (fs_wf_up _ (work ++ k) [c] Hwf) as [m Hm]; [done|by eexists|].
    set (d := mkEntry (join_with "/" k) (node_mode (NDir m)) 0 "" "" true). exists d. split_and!.
    + apply (so_entries _ _ _ _ Hs). exists k, (NDir m). split_and!; [done|done|by eapply visible_prefix|done].
    + unfold cs_of. simpl. apply (split_join slash); [done|]. apply Hn. by eexists.
    + done.
Qed.

Lemma snapshot_tree_ok ign root work σ t :
  fs_wf σ → snapshot_pre U root work σ → snapshot_of ign work σ t → tree_ok t.
Proof. intros Hwf Hpre. apply snapshot_shape; [done|]. exact (sp_names _ _ _ _ Hpre). Qed.

(** C16 (snapshot_exact): when [Snapshot] returns a tree, it has exactly one
    entry, in path order, for each file, directory and link below the
    directory that no ignore rule hides, with the file's digest and size, and
    the contents of every file are in the store; an I/O failure makes it return
    an error, never a partial tree; nothing outside the store changes. *)
Theorem snapshot_exact ign root work w :
  store_inv U root (w_fs w) → snapshot_pre U root work (w_fs w) →
  ∃ r w', Snapshot (PutFile root) ign work w = (match r with inl e => Err e | inr t => Ok t end, w') ∧
    store_step U root (w_fs w) (w_fs w') ∧
    (∀ t, r = inr t → snapshot_of ign work (w_fs w) t ∧ Forall (entry_stored root (w_fs w')) (t_Entries t)) ∧
    (live root w → ∃ t, r = inr t).
Proof.
  intros Hi Hpre. destruct (wp_exists _ _ _ (wp_Snapshot U ign root work (w_fs w) w eq_refl Hi Hpre)) as (r & w' & Hrun & [Hs _ Hp Hl]).
  exists r, w'. split_and!; [done..|]. intros Hlive. by apply Hl.
Qed.


(** What a snapshot and a restore make of a node, where [was] stood before: the
    same kind with the same contents; a node that is made also has the mode,
    less the umask. *)
Definition restored_as (was n n' : option node) : Prop :=
  match n with
  | Some (NFile f) => ∃ f', n' = Some (NFile f') ∧ contents f' = contents f ∧
      (was = None → f_mode f' = perm (Perm (f_mode f)))
  | Some (NDir m) => ∃ m', n' = Some (NDir m') ∧ (was = None → m' = perm (Perm m))
  | Some (NLink l) => n' = Some (NLink l)
  | Some (NOther _) | None => n' = None
  end.
(** In a new directory. *)
Definition copied (n n' : option node) : Prop := restored_as None n n'.

(** A directory whose tree says all of it: names are names, links have targets,
    contents do not collide. *)
Record listable work (σ : fs) : Prop := {
  ls_wf : fs_wf σ;
  ls_names : slashless work σ;
  ls_links : ∀ q l, below work q → σ !! q = Some (NLink l) → l ≠ "";
  ls_U : ∀ q f, below work q → σ !! q = Some (NFile f) → U (contents f)
}.

Lemma pre_listable root work σ : fs_wf σ → snapshot_pre U root work σ → listable work σ.
Proof. intros Hwf [_ _ Hn Hl HU]. by split. Qed.

Lemma entry_restored ign root work dst σ σ1 σ2 t cs :
  listable work σ → snapshot_of ign work σ t →
  (∀ b, stored σ1 root b → U b) → (∀ e, e ∈ t_Entries t → entry_stored root σ1 e) →
  restored root dst t σ1 σ2 → cs ≠ [] → visible ign work σ cs →
  restored_as (σ1 !! (dst ++ cs)) (σ !! (work ++ cs)) (σ2 !! (dst ++ cs)).
Proof.
  intros [Hwf Hnames Hlinks HUc] Hs HU Hblobs Hr Hne Hv.
  assert (∀ nd e, σ !! (work ++ cs) = Some nd → entry_of (join_with "/" cs) nd = Some e → e ∈ t_Entries t ∧ cs_of e = cs) as Hent.
  { intros nd e Hnd He. assert (e ∈ t_Entries t) as Hin by (apply (so_entries _ _ _ _ Hs); by exists cs, nd). split; [done|].
    unfold cs_of. rewrite (entry_of_path _ _ _ He). apply (split_join slash); [done|]. apply Hnames. by eexists. }
  assert (∀ nd, σ !! (work ++ cs) = Some nd → entry_of (join_with "/" cs) nd = None → σ2 !! (dst ++ cs) = None) as Hno.
  { intros nd Hnd He. destruct (σ2 !! (dst ++ cs)) as [n2|] eqn:E; [|done]. exfalso.
    destruct (rs_only _ _ _ _ _ Hr cs Hne) as (e & He' & Hc); [by rewrite E|].
    destruct (snapshot_node _ _ _ _ _ Hnames Hs He') as (nd' & _ & Hnd' & _ & Hnd2).
    rewrite Hc in Hnd'. rewrite <- (cs_of_path e), Hc in Hnd2. congruence. }
  destruct (σ !! (work ++ cs)) as [nd|] eqn:E; simpl.
  - destruct nd as [f|m|l|m]; simpl.
    + destruct (Hent _ _ eq_refl eq_refl) as [He Hc]. pose proof (rs_entries _ _ _ _ _ Hr _ He) as Hm.
      unfold node_matches in Hm. rewrite Hc in Hm. simpl in Hm. destruct Hm as (f' & Hf' & Hb & Hmode).
      exists f'. split_and!; [done| |exact Hmode].
      destruct (Hblobs _ He eq_refl eq_refl) as (b & Hh & _ & Hst). simpl in Hh. unfold stored in Hst. rewrite <- Hh, Hb in Hst.
      injection Hst as Hfb. apply no_collision; [|eapply HUc; [by eexists|exact E]|by rewrite Hh, Hfb].
      rewrite Hfb. apply HU. unfold stored. by rewrite <- Hh, Hb, Hfb.
    + destruct (Hent _ _ eq_refl eq_refl) as [He Hc]. pose proof (rs_entries _ _ _ _ _ Hr _ He) as Hm.
      unfold node_matches in Hm. rewrite Hc in Hm. simpl in Hm. destruct Hm as (m' & -> & Hmode).
      exists m'. split; [done|]. exact Hmode.
    + destruct (Hent _ _ eq_refl eq_refl) as [He Hc]. pose proof (rs_entries _ _ _ _ _ Hr _ He) as Hm.
      unfold node_matches in Hm. rewrite Hc in Hm. simpl in Hm. rewrite decide_True in Hm; [done|].
      eapply Hlinks; [by eexists|exact E].
    + by apply (Hno _ eq_refl).
  - destruct (σ2 !! (dst ++ cs)) as [n2|] eqn:E2; [|done]. exfalso.
    destruct (rs_only _ _ _ _ _ Hr cs Hne) as (e & He' & Hc); [by rewrite E2|].
    destruct (snapshot_node _ _ _ _ _ Hnames Hs He') as (nd' & _ & Hnd' & _). rewrite Hc in Hnd'. congruence.
Qed.

Lemma entry_copied ign root work dst σ σ1 σ2 t cs :
  fs_wf σ → snapshot_pre U root work σ → snapshot_of ign work σ t →
  (∀ b, stored σ1 root b → U b) → (∀ e, e ∈ t_Entries t → entry_stored root σ1 e) →
  restored root dst t σ1 σ2 → cs ≠ [] → visible ign work σ cs →
  restored_as (σ1 !! (dst ++ cs)) (σ !! (work ++ cs)) (σ2 !! (dst ++ cs)).
Proof. intros Hwf Hpre. apply entry_restored. by eapply pre_listable. Qed.

(** C18 (snapshot_restore): snapshotting a directory and restoring the tree
    under a new name gives a copy: every visible file with the same bytes,
    every directory, every link with the same target, and nothing else. *)
Theorem snapshot_restore ign root work d c w :
  live root w → store_inv U root (w_fs w) → snapshot_pre U root work (w_fs w) →
  is_dir (w_fs w) d → good_name c → (∀ cs, ¬ below root ((d ++ [c]) ++ cs)) → ¬ below root d → w_fs w !! (d ++ [c]) = None →
  ∃ t w1 w2, Snapshot (PutFile root) ign work w = (Ok t, w1) ∧
    Restore (StoreBlobs root) t (d ++ [c]) w1 = (Ok (), w2) ∧
    (∀ cs, cs ≠ [] → visible ign work (w_fs w) cs →
       copied (w_fs w !! (work ++ cs)) (w_fs w2 !! ((d ++ [c]) ++ cs))) ∧
    (∀ cs, cs ≠ [] → is_Some (w_fs w2 !! ((d ++ [c]) ++ cs)) →
       visible ign work (w_fs w) cs ∧ is_Some (w_fs w !! (work ++ cs))).
Proof.
  intros Hlive Hi Hpre Hd Hc Hap Hnd Hnone. set (dst := d ++ [c]) in *. set (σ := w_fs w) in *.
  assert (fs_wf σ) as Hwf by apply Hi.
  destruct (wp_exists _ _ _ (wp_Snapshot U ign root work σ w eq_refl Hi Hpre)) as (r & w1 & Hrun & [Hs _ Hp Hl]).
  destruct (Hl Hlive) as [[Hq _] [t ->]]. destruct (Hp t eq_refl) as [Hof Hst]. fold σ in Hs.
  assert (∀ cs, w_fs w1 !! (dst ++ cs) = None) as Hfresh.
  { intros cs. rewrite (st_frame _ _ _ _ Hs) by apply Hap. destruct (decide (cs = [])) as [->|Hne]; [by rewrite app_nil_r|].
    destruct (σ !! (dst ++ cs)) eqn:E; [|done]. destruct (fs_wf_up _ dst cs Hwf Hne) as [m Hm]; [by eexists|congruence]. }
  assert (restore_pre U root dst t (w_fs w1)) as Hrp.
  { split.
    - by eapply snapshot_tree_ok.
    - apply Hs.
    - done.
    - right. exists d, c. split_and!; [done| |done|].
      + destruct Hd as [m Hm]. exists m. by rewrite (st_frame _ _ _ _ Hs).
      + specialize (Hfresh []). by rewrite app_nil_r in Hfresh.
    - intros cs [n Hn]. congruence.
    - intros e He. by rewrite Hfresh.
    - by apply Forall_forall. }
  destruct (wp_exists _ _ _ (wp_Restore U root dst t w1 Hq Hrp)) as (r & w2 & Hrun2 & -> & _ & Hres).
  exists t, w1, w2. split_and!; [done..| |].
  - intros cs Hne Hv. unfold copied. rewrite <- (Hfresh cs). eapply entry_copied; try done; [|by apply Forall_forall].
    intros b Hb. eapply (si_in _ _ _ (st_inv _ _ _ _ Hs)); [apply hashOf_digest|exact Hb].
  - intros cs Hne Hsome. destruct (rs_only _ _ _ _ _ Hres cs Hne Hsome) as (e & He & <-).
    destruct (snapshot_entry _ _ _ _ _ _ Hwf Hpre Hof He) as (nd & _ & Hndd & Hv & _). split; [done|by eexists].
Qed.

End props.

(** ** A small directory *)

Definition tiny_file : file := File o644 (Some <$> to_bytes "hi") 0 0.
Definition tiny_fs : fs :=
  <[["w"; "d"; "l"] := NLink "../a"]> (<[["w"; "d"] := NDir o755]> (<[["w"; "a"] := NFile tiny_file]>
  (<[["w"] := NDir o755]> (<[["blobs"] := NDir o755]> fs_root)))).
Definition tiny_world : world := World tiny_fs 0 ∅.
Definition tiny_U (b : bytes) : Prop := b = contents tiny_file.

#[global] Instance tiny_no_collision : NoCollision tiny_U.
Proof. by intros b c -> ->. Qed.

Lemma tiny_nodes q n : tiny_fs !! q = Some n →
  (q = [] ∧ n = NDir o755) ∨ (q = ["blobs"] ∧ n = NDir o755) ∨ (q = ["w"] ∧ n = NDir o755) ∨
  (q = ["w"; "a"] ∧ n = NFile tiny_file) ∨ (q = ["w"; "d"] ∧ n = NDir o755) ∨ (q = ["w"; "d"; "l"] ∧ n = NLink "../a").
Proof.
  unfold tiny_fs, fs_root. rewrite !lookup_insert_Some, lookup_singleton_Some. naive_solver.
Qed.

Lemma tiny_wf : fs_wf tiny_fs.
Proof.
  split; [by eexists|]. intros p c [n Hn]. apply tiny_nodes in Hn.
  destruct_or! Hn; destruct Hn as [Hp _]; destruct p as [|a [|b [|e p]]]; simplify_eq/=;
    try (split; [by eexists|by repeat split]); by destruct p.
Qed.

Lemma tiny_blobs_empty c : tiny_fs !! (["blobs"] ++ [c]) = None.
Proof. destruct (tiny_fs !! _) eqn:E; [|done]. apply tiny_nodes in E. naive_solver. Qed.

Lemma tiny_store : store_inv tiny_U ["blobs"] tiny_fs ∧ store_clean tiny_fs ["blobs"].
Proof.
  destruct (store_wf_fresh tiny_fs ["blobs"] tiny_wf ltac:(by eexists) tiny_blobs_empty) as [Hwf Hc]. split; [|done].
  split; [done|]. intros h c Hh Hb. unfold blob_of in Hb. destruct (tiny_fs !! slot ["blobs"] h) as [n|] eqn:E; [|done].
  apply tiny_nodes in E. unfold slot in E. naive_solver.
Qed.

Lemma tiny_pre : snapshot_pre tiny_U ["blobs"] ["w"] tiny_fs.
Proof.
  split.
  - by intros q [k ->] [k' Hk].
  - by eexists.
  - intros cs [n Hn]. apply tiny_nodes in Hn. destruct_or! Hn; destruct Hn as [Hp _]; simplify_eq/=; by repeat constructor.
  - intros q l _ Hn. apply tiny_nodes in Hn. destruct_or! Hn; destruct Hn as [_ Hn]; simplify_eq/=; done.
  - intros q f _ Hn. apply tiny_nodes in Hn. destruct_or! Hn; destruct Hn as [_ Hn]; simplify_eq/=; done.
Qed.

#[local] Existing Instance calm.

Lemma tiny_live : live ["blobs"] tiny_world.
Proof. split; [apply calm_quiet|apply tiny_store]. Qed.

(** C16 at a concrete input. *)
Lemma snapshot_exact_witness :
  ∃ r w', Snapshot (PutFile ["blobs"]) None ["w"] tiny_world = (match r with inl e => Err e | inr t => Ok t end, w') ∧
    store_step tiny_U ["blobs"] tiny_fs (w_fs w') ∧
    (∀ t, r = inr t → snapshot_of None ["w"] tiny_fs t ∧ Forall (entry_stored ["blobs"] (w_fs w')) (t_Entries t)) ∧
    (live ["blobs"] tiny_world → ∃ t, r = inr t).
Proof. exact (snapshot_exact tiny_U None ["blobs"] ["w"] tiny_world (proj1 tiny_store) tiny_pre). Defined.




(** C18 at a concrete input. *)
Lemma snapshot_restore_witness :
  ∃ t w1 w2, Snapshot (PutFile ["blobs"]) None ["w"] tiny_world = (Ok t, w1) ∧
    Restore (StoreBlobs ["blobs"]) t ["copy"] w1 = (Ok (), w2) ∧
    (∀ cs, cs ≠ [] → visible None ["w"] tiny_fs cs →
       copied (tiny_fs !! (["w"] ++ cs)) (w_fs w2 !! (["copy"] ++ cs))) ∧
    (∀ cs, cs ≠ [] → is_Some (w_fs w2 !! (["copy"] ++ cs)) →
       visible None ["w"] tiny_fs cs ∧ is_Some (tiny_fs !! (["w"] ++ cs))).
Proof.
  refine (snapshot_restore tiny_U None ["blobs"] ["w"] [] "copy" tiny_world tiny_live (proj1 tiny_store) tiny_pre _ _ _ _ eq_refl).
  - by eexists.
  - by repeat split.
  - by intros cs [k Hk].
  - by intros [k Hk].
Defined.
