(* ===== verification/SnapFaults.v ===== *)
(** * Restoring what is not a snapshot, and over what is in the way

    [restore_exact] asks for a [tree_ok]: names without dots, parents listed as
    directories.  A tree that was pulled, or listed by a guest, is whatever the
    other side wrote, and [Restore] does not look: in these runs it writes
    outside the directory it restores into.  It does so too with a good tree,
    when a link stands where the tree has a file. *)

From S2P Require Import Prelude Sha256 Os OsFacts Cas Tree Snap SnapFacts.
Import Cas Tree Snap.
Open Scope Z_scope.

#[local] Existing Instance calm.

Definition owned : bytes := to_bytes "owned".

(** A store with one blob, a working directory, and a file elsewhere. *)
Definition host_fs : fs := Eval vm_compute in list_to_map (
  [([], NDir o755); (["blobs"], NDir o755); (["blobs"; shard (hashOf owned)], NDir o755);
   (slot ["blobs"] (hashOf owned), NFile (File o644 (Some <$> owned) 0 0));
   (["work"], NDir o755); (["etc"], NDir o755); (["etc"; "passwd"], NFile (File o644 (Some <$> to_bytes "root") 0 0))]).

Definition passwd_after (t : Tree) : option bytes :=
  match w_fs (Restore (StoreBlobs ["blobs"]) t ["work"] (World host_fs 0 ∅)).2 !! ["etc"; "passwd"] with
  | Some (NFile f) => Some (contents f)
  | _ => None
  end.

Definition a_file (p : string) : Entry := mkEntry p o644 5 (hashOf owned) "" false.

(** A file of the tree whose path has a parent component. *)
Lemma restore_follows_parent : passwd_after (mkTree [a_file "../etc/passwd"]) = Some owned.
Proof. vm_compute. reflexivity. Qed.

(** A file of the tree below a link of the tree. *)
Lemma restore_follows_link :
  passwd_after (mkTree [mkEntry "a" 0x1ff 0 "" "/etc" false; a_file "a/passwd"]) = Some owned.
Proof. vm_compute. reflexivity. Qed.

(** Neither is the tree of a directory. *)
Lemma hostile_not_ok :
  ¬ tree_ok (mkTree [a_file "../etc/passwd"]) ∧
  ¬ tree_ok (mkTree [mkEntry "a" 0x1ff 0 "" "/etc" false; a_file "a/passwd"]).
Proof.
  split.
  - intros Ht. assert (a_file "../etc/passwd" ∈ t_Entries (mkTree [a_file "../etc/passwd"])) as He by left.
    apply (tk_names _ Ht) in He. change (Forall good_name [".."; "etc"; "passwd"]) in He.
    apply Forall_cons in He as [Hg _]. unfold good_name in Hg. naive_solver.
  - set (t := mkTree _). intros Ht. assert (a_file "a/passwd" ∈ t_Entries t) as He by (right; left).
    destruct (tk_parent _ Ht _ ["a"] "passwd" He) as (d & Hd & Hcs & Hdir); [reflexivity|discriminate|].
    apply elem_of_cons in Hd as [->|Hd]; [discriminate Hdir|]. apply list_elem_of_singleton in Hd as ->. discriminate Hcs.
Qed.

(** ** What a command may leave in the way *)

(** The same host with [n] at the path of the tree's file. *)
Definition restore_over (n : node) : res unit * world :=
  Restore (StoreBlobs ["blobs"]) (mkTree [a_file "out"]) ["work"] (World (<[["work"; "out"] := n]> host_fs) 0 ∅).

(** A tree that is the tree of a directory, into a directory where a link stands
    at the path of a file: the file the link leads to is overwritten, outside the
    directory, and the link stays. *)
Lemma restore_through_link :
  let '(x, w) := restore_over (NLink "../etc/passwd") in
  x = Ok tt ∧ w_fs w !! ["work"; "out"] = Some (NLink "../etc/passwd") ∧
  match w_fs w !! ["etc"; "passwd"] with Some (NFile f) => contents f = owned | _ => False end.
Proof. vm_compute. done. Qed.

(** Where a directory stands at the path of a file, the restore fails. *)
Lemma restore_over_directory : (restore_over (NDir o755)).1 = Err (Errno EISDIR).
Proof. vm_compute. reflexivity. Qed.
