(* ===== verification/Model.v ===== *)
(** * Sandboxes and checkpoints (src/internal/engine/model.go) *)

From S2P Require Import Prelude.
Open Scope Z_scope.

Module Model.

(** Times are nanoseconds since 1970, UTC. *)
Record Sandbox := mkSandbox {
  s_ID : string;
  s_Name : string;
  s_Backend : string;
  s_Head : string;
  s_ForkedFrom : string;
  s_Created : Z;
  s_Steps : Z
}.

Record Checkpoint := mkCheckpoint {
  c_ID : string;
  c_Sandbox : string;
  c_Seq : Z;
  c_Parent : string;
  c_TreeHash : string;
  c_Command : list string;
  c_ExitCode : Z;
  c_Created : Z;
  c_Added : Z;
  c_Modified : Z;
  c_Deleted : Z;
  c_Note : string;
  c_MemHash : string;
  c_StateHash : string;
  c_DiskHash : string;
  c_BaseHash : string
}.

#[global] Instance Sandbox_eq_decision : EqDecision Sandbox.
Proof. solve_decision. Defined.
#[global] Instance Checkpoint_eq_decision : EqDecision Checkpoint.
Proof. solve_decision. Defined.

(** [Checkpoint.HasMemory]. *)
Definition HasMemory (c : Checkpoint) : bool :=
  bool_decide (c_MemHash c ≠ "") && bool_decide (c_StateHash c ≠ "").

End Model.
