(* ===== verification/Codecs.v ===== *)
(** * The JSON form of the program's records

    The struct tags of the sources ([omitempty] included) as codecs, with the
    round trip of each: the interface [GoJSON] holds of the real documents. *)

From S2P Require Import Prelude Json JsonFacts GoTime Codec Chunked Tree Model.
Import Json Chunked Tree Model.
Open Scope Z_scope.

(** A goal about a struct whose optional fields may be absent: split on each
    being empty, then compute. *)
Ltac opt_split :=
  repeat match goal with
         | |- context [nonempty ?s] => destruct s eqn:?; simpl
         | |- context [nonnil ?l] => destruct l eqn:?; simpl
         | |- context [opt_field ?b _ _] => destruct b eqn:?; simpl
         end.

(** ** cas.Manifest *)

Definition manifest_fields : list (field Manifest) :=
  [("chunked", λ m j, (λ v, mkManifest v (m_Size m) (m_Chunk m) (m_Chunks m)) <$> dec_int int64 (m_Chunked m) j);
   ("size", λ m j, (λ v, mkManifest (m_Chunked m) v (m_Chunk m) (m_Chunks m)) <$> dec_int int64 (m_Size m) j);
   ("chunk", λ m j, (λ v, mkManifest (m_Chunked m) (m_Size m) v (m_Chunks m)) <$> dec_int int64 (m_Chunk m) j);
   ("chunks", λ m j, (λ v, mkManifest (m_Chunked m) (m_Size m) (m_Chunk m) v) <$> dec_list (dec_string "") (m_Chunks m) j)].

#[global] Program Instance manifest_codec : Codec Manifest := {|
  to_json m := JObj [("chunked", enc_int (m_Chunked m)); ("size", enc_int (m_Size m));
                     ("chunk", enc_int (m_Chunk m)); ("chunks", JArr (map JStr (m_Chunks m)))];
  of_json := dec_struct (mkManifest 0 0 0 []) manifest_fields;
  codec_dom m := int64 (m_Chunked m) ∧ int64 (m_Size m) ∧ int64 (m_Chunk m) ∧ Forall utf8 (m_Chunks m)
|}.
Next Obligation.
  intros [c s k l] (Hc & Hs & Hk & Hl). simpl in *. split.
  - split_and!; try done; [apply enc_int_wf..|by apply strings_wf].
  - unfold dec_struct. by dec_go.
Qed.

(** ** tree.Entry and tree.Tree *)

Definition entry_fields : list (field Entry) :=
  [("path", λ x j, (λ v, mkEntry v (e_Mode x) (e_Size x) (e_Hash x) (e_Link x) (e_Dir x)) <$> dec_string (e_Path x) j);
   ("mode", λ x j, (λ v, mkEntry (e_Path x) v (e_Size x) (e_Hash x) (e_Link x) (e_Dir x)) <$> dec_int uint32 (e_Mode x) j);
   ("size", λ x j, (λ v, mkEntry (e_Path x) (e_Mode x) v (e_Hash x) (e_Link x) (e_Dir x)) <$> dec_int int64 (e_Size x) j);
   ("hash", λ x j, (λ v, mkEntry (e_Path x) (e_Mode x) (e_Size x) v (e_Link x) (e_Dir x)) <$> dec_string (e_Hash x) j);
   ("link", λ x j, (λ v, mkEntry (e_Path x) (e_Mode x) (e_Size x) (e_Hash x) v (e_Dir x)) <$> dec_string (e_Link x) j);
   ("dir", λ x j, (λ v, mkEntry (e_Path x) (e_Mode x) (e_Size x) (e_Hash x) (e_Link x) v) <$> dec_bool (e_Dir x) j)].

#[global] Program Instance entry_codec : Codec Entry := {|
  to_json x := JObj (
    ("path", JStr (e_Path x)) ::
    ("mode", enc_int (e_Mode x)) ::
    ("size", enc_int (e_Size x)) ::
    opt_field (nonempty (e_Hash x)) "hash" (JStr (e_Hash x)) ++
    opt_field (nonempty (e_Link x)) "link" (JStr (e_Link x)) ++
    opt_field (e_Dir x) "dir" (JBool (e_Dir x)) ++ []);
  of_json := dec_struct (mkEntry "" 0 0 "" "" false) entry_fields;
  codec_dom x := utf8 (e_Path x) ∧ uint32 (e_Mode x) ∧ int64 (e_Size x) ∧ utf8 (e_Hash x) ∧ utf8 (e_Link x)
|}.
Next Obligation.
  intros x Hx. destruct x. cbn [e_Path e_Mode e_Size e_Hash e_Link e_Dir] in Hx. destruct_and! Hx. split.
  - cbn [e_Path e_Mode e_Size e_Hash e_Link e_Dir]. repeat wf_step.
  - unfold dec_struct. cbn [e_Path e_Mode e_Size e_Hash e_Link e_Dir]. do 6 fill_step. done.
Qed.

(** A nil slice is [null]; no tree the program writes has an empty slice that
    is not nil. *)
Definition tree_fields : list (field Tree) :=
  [("entries", λ t j, mkTree <$> dec_list of_json (t_Entries t) j)].

Definition enc_entries (l : list Entry) : json :=
  match l with [] => JNull | _ => JArr (map to_json l) end.

#[global] Program Instance tree_codec : Codec Tree := {|
  to_json t := JObj [("entries", enc_entries (t_Entries t))];
  of_json := dec_struct (mkTree []) tree_fields;
  codec_dom t := Forall codec_dom (t_Entries t)
|}.
Next Obligation.
  intros [es] Hes. simpl in Hes. cbn [t_Entries]. split.
  - apply field_wf; [done| |done]. destruct es as [|e es]; [done|]. apply json_wf_list.
    eapply Forall_impl; [exact Hes|]. intros x Hx. by apply codec_ok.
  - unfold dec_struct. erewrite fill_field; [|reflexivity|]; [done|]. destruct es as [|e es]; [done|].
    assert (mapM of_json (map to_json (e :: es)) = Some (e :: es)) as Hm.
    { apply mapM_enc. eapply Forall_impl; [exact Hes|]. intros x Hx. by apply codec_ok. }
    unfold enc_entries, dec_list. cbn [t_Entries]. by rewrite Hm.
Qed.

(** ** engine.Sandbox and engine.Checkpoint *)

(** The zero [time.Time]: the first of January of year 1. *)
Definition zero_time : Z := -62135596800 * 10 ^ 9.

Definition sandbox_fields : list (field Sandbox) :=
  [("id", λ x j, (λ v, mkSandbox v (s_Name x) (s_Backend x) (s_Head x) (s_ForkedFrom x) (s_Created x) (s_Steps x)) <$> dec_string (s_ID x) j);
   ("name", λ x j, (λ v, mkSandbox (s_ID x) v (s_Backend x) (s_Head x) (s_ForkedFrom x) (s_Created x) (s_Steps x)) <$> dec_string (s_Name x) j);
   ("backend", λ x j, (λ v, mkSandbox (s_ID x) (s_Name x) v (s_Head x) (s_ForkedFrom x) (s_Created x) (s_Steps x)) <$> dec_string (s_Backend x) j);
   ("head", λ x j, (λ v, mkSandbox (s_ID x) (s_Name x) (s_Backend x) v (s_ForkedFrom x) (s_Created x) (s_Steps x)) <$> dec_string (s_Head x) j);
   ("forked_from", λ x j, (λ v, mkSandbox (s_ID x) (s_Name x) (s_Backend x) (s_Head x) v (s_Created x) (s_Steps x)) <$> dec_string (s_ForkedFrom x) j);
   ("created", λ x j, (λ v, mkSandbox (s_ID x) (s_Name x) (s_Backend x) (s_Head x) (s_ForkedFrom x) v (s_Steps x)) <$> dec_time (s_Created x) j);
   ("steps", λ x j, (λ v, mkSandbox (s_ID x) (s_Name x) (s_Backend x) (s_Head x) (s_ForkedFrom x) (s_Created x) v) <$> dec_int int64 (s_Steps x) j)].

#[global] Program Instance sandbox_codec : Codec Sandbox := {|
  to_json x := JObj (
    ("id", JStr (s_ID x)) ::
    ("name", JStr (s_Name x)) ::
    ("backend", JStr (s_Backend x)) ::
    opt_field (nonempty (s_Head x)) "head" (JStr (s_Head x)) ++
    opt_field (nonempty (s_ForkedFrom x)) "forked_from" (JStr (s_ForkedFrom x)) ++
    ("created", enc_time (s_Created x)) ::
    ("steps", enc_int (s_Steps x)) :: []);
  of_json := dec_struct (mkSandbox "" "" "" "" "" zero_time 0) sandbox_fields;
  codec_dom x := utf8 (s_ID x) ∧ utf8 (s_Name x) ∧ utf8 (s_Backend x) ∧ utf8 (s_Head x) ∧ utf8 (s_ForkedFrom x) ∧ GoTime.in_range (s_Created x) ∧ int64 (s_Steps x)
|}.
Next Obligation.
  intros x Hx. destruct x. cbn [s_ID s_Name s_Backend s_Head s_ForkedFrom s_Created s_Steps] in Hx. destruct_and! Hx. split.
  - cbn [s_ID s_Name s_Backend s_Head s_ForkedFrom s_Created s_Steps]. repeat wf_step.
  - unfold dec_struct. cbn [s_ID s_Name s_Backend s_Head s_ForkedFrom s_Created s_Steps]. do 7 fill_step. done.
Qed.

Definition checkpoint_fields : list (field Checkpoint) :=
  [("id", λ x j, (λ v, mkCheckpoint v (c_Sandbox x) (c_Seq x) (c_Parent x) (c_TreeHash x) (c_Command x) (c_ExitCode x) (c_Created x) (c_Added x) (c_Modified x) (c_Deleted x) (c_Note x) (c_MemHash x) (c_StateHash x) (c_DiskHash x) (c_BaseHash x)) <$> dec_string (c_ID x) j);
   ("sandbox", λ x j, (λ v, mkCheckpoint (c_ID x) v (c_Seq x) (c_Parent x) (c_TreeHash x) (c_Command x) (c_ExitCode x) (c_Created x) (c_Added x) (c_Modified x) (c_Deleted x) (c_Note x) (c_MemHash x) (c_StateHash x) (c_DiskHash x) (c_BaseHash x)) <$> dec_string (c_Sandbox x) j);
   ("seq", λ x j, (λ v, mkCheckpoint (c_ID x) (c_Sandbox x) v (c_Parent x) (c_TreeHash x) (c_Command x) (c_ExitCode x) (c_Created x) (c_Added x) (c_Modified x) (c_Deleted x) (c_Note x) (c_MemHash x) (c_StateHash x) (c_DiskHash x) (c_BaseHash x)) <$> dec_int int64 (c_Seq x) j);
   ("parent", λ x j, (λ v, mkCheckpoint (c_ID x) (c_Sandbox x) (c_Seq x) v (c_TreeHash x) (c_Command x) (c_ExitCode x) (c_Created x) (c_Added x) (c_Modified x) (c_Deleted x) (c_Note x) (c_MemHash x) (c_StateHash x) (c_DiskHash x) (c_BaseHash x)) <$> dec_string (c_Parent x) j);
   ("tree_hash", λ x j, (λ v, mkCheckpoint (c_ID x) (c_Sandbox x) (c_Seq x) (c_Parent x) v (c_Command x) (c_ExitCode x) (c_Created x) (c_Added x) (c_Modified x) (c_Deleted x) (c_Note x) (c_MemHash x) (c_StateHash x) (c_DiskHash x) (c_BaseHash x)) <$> dec_string (c_TreeHash x) j);
   ("command", λ x j, (λ v, mkCheckpoint (c_ID x) (c_Sandbox x) (c_Seq x) (c_Parent x) (c_TreeHash x) v (c_ExitCode x) (c_Created x) (c_Added x) (c_Modified x) (c_Deleted x) (c_Note x) (c_MemHash x) (c_StateHash x) (c_DiskHash x) (c_BaseHash x)) <$> dec_list (dec_string "") (c_Command x) j);
   ("exit_code", λ x j, (λ v, mkCheckpoint (c_ID x) (c_Sandbox x) (c_Seq x) (c_Parent x) (c_TreeHash x) (c_Command x) v (c_Created x) (c_Added x) (c_Modified x) (c_Deleted x) (c_Note x) (c_MemHash x) (c_StateHash x) (c_DiskHash x) (c_BaseHash x)) <$> dec_int int64 (c_ExitCode x) j);
   ("created", λ x j, (λ v, mkCheckpoint (c_ID x) (c_Sandbox x) (c_Seq x) (c_Parent x) (c_TreeHash x) (c_Command x) (c_ExitCode x) v (c_Added x) (c_Modified x) (c_Deleted x) (c_Note x) (c_MemHash x) (c_StateHash x) (c_DiskHash x) (c_BaseHash x)) <$> dec_time (c_Created x) j);
   ("added", λ x j, (λ v, mkCheckpoint (c_ID x) (c_Sandbox x) (c_Seq x) (c_Parent x) (c_TreeHash x) (c_Command x) (c_ExitCode x) (c_Created x) v (c_Modified x) (c_Deleted x) (c_Note x) (c_MemHash x) (c_StateHash x) (c_DiskHash x) (c_BaseHash x)) <$> dec_int int64 (c_Added x) j);
   ("modified", λ x j, (λ v, mkCheckpoint (c_ID x) (c_Sandbox x) (c_Seq x) (c_Parent x) (c_TreeHash x) (c_Command x) (c_ExitCode x) (c_Created x) (c_Added x) v (c_Deleted x) (c_Note x) (c_MemHash x) (c_StateHash x) (c_DiskHash x) (c_BaseHash x)) <$> dec_int int64 (c_Modified x) j);
   ("deleted", λ x j, (λ v, mkCheckpoint (c_ID x) (c_Sandbox x) (c_Seq x) (c_Parent x) (c_TreeHash x) (c_Command x) (c_ExitCode x) (c_Created x) (c_Added x) (c_Modified x) v (c_Note x) (c_MemHash x) (c_StateHash x) (c_DiskHash x) (c_BaseHash x)) <$> dec_int int64 (c_Deleted x) j);
   ("note", λ x j, (λ v, mkCheckpoint (c_ID x) (c_Sandbox x) (c_Seq x) (c_Parent x) (c_TreeHash x) (c_Command x) (c_ExitCode x) (c_Created x) (c_Added x) (c_Modified x) (c_Deleted x) v (c_MemHash x) (c_StateHash x) (c_DiskHash x) (c_BaseHash x)) <$> dec_string (c_Note x) j);
   ("mem_hash", λ x j, (λ v, mkCheckpoint (c_ID x) (c_Sandbox x) (c_Seq x) (c_Parent x) (c_TreeHash x) (c_Command x) (c_ExitCode x) (c_Created x) (c_Added x) (c_Modified x) (c_Deleted x) (c_Note x) v (c_StateHash x) (c_DiskHash x) (c_BaseHash x)) <$> dec_string (c_MemHash x) j);
   ("state_hash", λ x j, (λ v, mkCheckpoint (c_ID x) (c_Sandbox x) (c_Seq x) (c_Parent x) (c_TreeHash x) (c_Command x) (c_ExitCode x) (c_Created x) (c_Added x) (c_Modified x) (c_Deleted x) (c_Note x) (c_MemHash x) v (c_DiskHash x) (c_BaseHash x)) <$> dec_string (c_StateHash x) j);
   ("disk_hash", λ x j, (λ v, mkCheckpoint (c_ID x) (c_Sandbox x) (c_Seq x) (c_Parent x) (c_TreeHash x) (c_Command x) (c_ExitCode x) (c_Created x) (c_Added x) (c_Modified x) (c_Deleted x) (c_Note x) (c_MemHash x) (c_StateHash x) v (c_BaseHash x)) <$> dec_string (c_DiskHash x) j);
   ("base_hash", λ x j, (λ v, mkCheckpoint (c_ID x) (c_Sandbox x) (c_Seq x) (c_Parent x) (c_TreeHash x) (c_Command x) (c_ExitCode x) (c_Created x) (c_Added x) (c_Modified x) (c_Deleted x) (c_Note x) (c_MemHash x) (c_StateHash x) (c_DiskHash x) v) <$> dec_string (c_BaseHash x) j)].

#[global] Program Instance checkpoint_codec : Codec Checkpoint := {|
  to_json x := JObj (
    ("id", JStr (c_ID x)) ::
    ("sandbox", JStr (c_Sandbox x)) ::
    ("seq", enc_int (c_Seq x)) ::
    opt_field (nonempty (c_Parent x)) "parent" (JStr (c_Parent x)) ++
    ("tree_hash", JStr (c_TreeHash x)) ::
    opt_field (nonnil (c_Command x)) "command" (JArr (map JStr (c_Command x))) ++
    ("exit_code", enc_int (c_ExitCode x)) ::
    ("created", enc_time (c_Created x)) ::
    ("added", enc_int (c_Added x)) ::
    ("modified", enc_int (c_Modified x)) ::
    ("deleted", enc_int (c_Deleted x)) ::
    opt_field (nonempty (c_Note x)) "note" (JStr (c_Note x)) ++
    opt_field (nonempty (c_MemHash x)) "mem_hash" (JStr (c_MemHash x)) ++
    opt_field (nonempty (c_StateHash x)) "state_hash" (JStr (c_StateHash x)) ++
    opt_field (nonempty (c_DiskHash x)) "disk_hash" (JStr (c_DiskHash x)) ++
    opt_field (nonempty (c_BaseHash x)) "base_hash" (JStr (c_BaseHash x)) ++ []);
  of_json := dec_struct (mkCheckpoint "" "" 0 "" "" [] 0 zero_time 0 0 0 "" "" "" "" "") checkpoint_fields;
  codec_dom x := utf8 (c_ID x) ∧ utf8 (c_Sandbox x) ∧ int64 (c_Seq x) ∧ utf8 (c_Parent x) ∧ utf8 (c_TreeHash x) ∧ Forall utf8 (c_Command x) ∧ int64 (c_ExitCode x) ∧ GoTime.in_range (c_Created x) ∧ int64 (c_Added x) ∧ int64 (c_Modified x) ∧ int64 (c_Deleted x) ∧ utf8 (c_Note x) ∧ utf8 (c_MemHash x) ∧ utf8 (c_StateHash x) ∧ utf8 (c_DiskHash x) ∧ utf8 (c_BaseHash x)
|}.
Next Obligation.
  intros x Hx. destruct x. cbn [c_ID c_Sandbox c_Seq c_Parent c_TreeHash c_Command c_ExitCode c_Created c_Added c_Modified c_Deleted c_Note c_MemHash c_StateHash c_DiskHash c_BaseHash] in Hx. destruct_and! Hx. split.
  - cbn [c_ID c_Sandbox c_Seq c_Parent c_TreeHash c_Command c_ExitCode c_Created c_Added c_Modified c_Deleted c_Note c_MemHash c_StateHash c_DiskHash c_BaseHash]. repeat wf_step.
  - unfold dec_struct. cbn [c_ID c_Sandbox c_Seq c_Parent c_TreeHash c_Command c_ExitCode c_Created c_Added c_Modified c_Deleted c_Note c_MemHash c_StateHash c_DiskHash c_BaseHash]. do 16 fill_step. done.
Qed.
