(* ===== verification/ChunkedProps.v ===== *)
(** * The promises of the chunked store

    The theorems of chunked images for the real manifest documents, each with
    an instance on a small store. *)

From S2P Require Import Prelude Sha256 Os OsFacts Parallel Cas Blobs Chunked ChunkedFacts Json JsonFacts Codec Codecs.
Import Cas Chunked.
Open Scope Z_scope.

(** Digests are ASCII. *)
Lemma hex_char_ascii c : is_hex_char c = true → (Json.bN (Ascii.byte_of_ascii c) <? 0x80)%N = true.
Proof. intros Hc. destruct c as [[] [] [] [] [] [] [] []]; first [reflexivity|by vm_compute in Hc]. Qed.

Lemma all_hex_utf8 s : all_hex s = true → utf8 s.
Proof.
  intros Hs. unfold utf8. apply ascii_valid. unfold all_hex, to_bytes, String.list_byte_of_string in *.
  induction s as [|c s IH]; simpl in *; [done|]. apply andb_true_iff in Hs as [Hc Hs].
  constructor; [by apply hex_char_ascii|by apply IH].
Qed.

Lemma hashOf_utf8 b : utf8 (hashOf b).
Proof. apply all_hex_utf8. pose proof (hashOf_digest b) as Hd. unfold is_digest in Hd. by apply andb_true_iff in Hd as [_ ?]. Qed.

(** The manifest of any image that can be a file is a document that reads back. *)
Lemma manifest_dom img : Z.of_nat (length img) < 2 ^ 63 → json_dom (manifest_of img).
Proof.
  intros Hl. simpl. unfold int64. split_and!; try lia; try done.
  apply Forall_fmap, Forall_true. intros i. apply hashOf_utf8.
Qed.

Section props.
Context `{OsEnv, Sched} (U : bytes → Prop) {NC : NoCollision U}.
Implicit Types (w : world) (root : path).

(** Storing a file, and storing it over a base of its size. *)
Lemma grows_PutChunked root p fl w :
  honest → store_inv U root (w_fs w) → memo_ok w → w_fs w !! p = Some (NFile fl) → ¬ below root p →
  image_in U (contents fl) →
  wp (PutChunked root p) (grows U root w (put_image_post root (contents fl) w)) w.
Proof.
  intros Hh Hi Hm Hf Hb HU. pose proof (overlay_zeros (f_cells fl)) as Hov. fold (contents fl) in Hov.
  rewrite <- Hov in HU |- *. apply (wp_putChunked U); try done. split; [|done].
  unfold zeros. rewrite length_replicate. lia.
Qed.

Lemma grows_put_overlay root p fl base w :
  let img := overlay (rebased base (length (f_cells fl))) (f_cells fl) in
  quiet → store_inv U root (w_fs w) → memo_ok w → w_fs w !! p = Some (NFile fl) → ¬ below root p →
  stored_image (w_fs w) root base → Z.of_nat (length base) < 2 ^ 63 → image_in U img →
  wp (PutChunkedOverlay root p (image_name base))
    (grows U root w (λ hn w', hn.1 = image_name img ∧ stored_image (w_fs w') root img)) w.
Proof.
  intros img Hq Hi Hm Hf Hb Hst Hsz HU. unfold PutChunkedOverlay. eapply grows_bind.
  { eapply grows_ReadManifest; try done. by apply manifest_dom. }
  intros m w1 Hg. destruct (gr_post _ _ _ _ _ _ Hg m eq_refl) as [-> Hfs]. rewrite <- Hfs in Hi, Hf, Hst.
  eapply wp_mono; [eapply (wp_putChunked U root p fl (Some (manifest_of base)) (rebased base (length (f_cells fl)))); try done|].
  - by apply quiet_honest.
  - by apply Hg.
  - split; [apply rebased_length|]. split; [done|]. exists base. split_and!; [done|done|apply Hst].
  - intros r w2 Hg2. eapply grows_weaken; [exact Hg2|]. intros hn _ (? & ? & _). done.
Qed.

Lemma grows_PutChunkedOverlay root p fl base w :
  quiet → store_inv U root (w_fs w) → memo_ok w → w_fs w !! p = Some (NFile fl) → ¬ below root p →
  stored_image (w_fs w) root base → length base = length (f_cells fl) → f_size fl < 2 ^ 63 →
  image_in U (overlay base (f_cells fl)) →
  wp (PutChunkedOverlay root p (image_name base))
    (grows U root w (λ hn w', hn.1 = image_name (overlay base (f_cells fl)) ∧
       stored_image (w_fs w') root (overlay base (f_cells fl)))) w.
Proof.
  intros Hq Hi Hm Hf Hb Hst Hlen Hsz HU. pose proof (grows_put_overlay root p fl base w Hq Hi Hm Hf Hb Hst) as Hw.
  rewrite <- Hlen, rebased_same in Hw. apply Hw; [|done]. rewrite Hlen. exact Hsz.
Qed.

(** C11 (data_spans_exact): [dataSpans] returns on every file, whatever its
    holes, and without faults its regions are exactly the positions of the file
    that were written, each region inside the file and not empty. *)
Theorem data_spans_exact f fl w :
  quiet → w_fs w !! f = Some (NFile fl) →
  ∃ spans w', dataSpans f (f_size fl) w = (Ok spans, w') ∧ w_fs w' = w_fs w ∧
    (∀ k, in_spans spans k ↔ is_data (f_cells fl) k) ∧
    (∀ s e, (s, e) ∈ spans → 0 ≤ s < e ∧ e ≤ f_size fl).
Proof.
  intros Hq Hf. destruct (wp_exists _ _ _ (wp_dataSpans f fl w (quiet_honest Hq) Hf))
    as (r & w' & Hrun & [Hfs _] & spans & -> & [Hb Hc He]).
  exists spans, w'. split_and!; [done|done|..].
  - intros k. split; [by apply He|by apply Hc].
  - intros s e Hse. destruct (Hb _ Hse) as (? & ? & ?). simpl in *. unfold f_size. lia.
Qed.

(** When [PutChunked] of a file returns a hash, the
    file's whole contents are in the store under that hash as an image, and the
    count it returns is the number of digests, of those the call added, that it
    reports; whatever fails, the store only grows and nothing outside it
    changes; without faults it succeeds. *)
Theorem put_chunked_stores root p fl w :
  honest → store_inv U root (w_fs w) → memo_ok w → w_fs w !! p = Some (NFile fl) → ¬ below root p →
  image_in U (contents fl) →
  ∃ r w', PutChunked root p w = (match r with inl e => Err e | inr hn => Ok hn end, w') ∧
    store_step U root (w_fs w) (w_fs w') ∧
    (∀ h n, r = inr (h, n) →
       h = image_name (contents fl) ∧ stored_image (w_fs w') root (contents fl) ∧
       (quiet → ∃ fr : gset string, n = Z.of_nat (size fr) ∧ gained root w w' fr)) ∧
    (live root w → ∃ hn, r = inr hn).
Proof.
  intros Hh Hi Hm Hf Hb HU. pose proof (grows_PutChunked root p fl w Hh Hi Hm Hf Hb HU) as Hw.
  destruct (wp_exists _ _ _ Hw) as (r & w' & Hrun & [Hs _ Hp Hl]). exists r, w'. split_and!; [done..| |].
  - intros h n Hr. apply (Hp _ Hr).
  - intros Hlive. by apply Hl.
Qed.

(** C12 (put_overlay_stores): laying a sparse file over a stored image, on a healthy
    host whose file system reports holes exactly, stores the image that has the
    file's bytes where the file was written and the base's bytes elsewhere, if
    the base is of the file's size; of a base of another size the chunks both
    have whole are kept, and all other bytes the file did not write are zero. *)
Theorem put_overlay_stores root p fl base w :
  let img := overlay (rebased base (length (f_cells fl))) (f_cells fl) in
  live root w → store_inv U root (w_fs w) → memo_ok w → w_fs w !! p = Some (NFile fl) → ¬ below root p →
  stored_image (w_fs w) root base → Z.of_nat (length base) < 2 ^ 63 → image_in U img →
  (length base = length (f_cells fl) → img = overlay base (f_cells fl)) ∧
  ∃ n w', PutChunkedOverlay root p (image_name base) w = (Ok (image_name img, n), w') ∧
    stored_image (w_fs w') root img ∧ stored_image (w_fs w') root base ∧
    store_step U root (w_fs w) (w_fs w').
Proof.
  intros img Hlive Hi Hm Hf Hb Hst Hsz HU. split; [intros Hlen; unfold img; by rewrite <- Hlen, rebased_same|].
  pose proof (grows_put_overlay root p fl base w (proj1 Hlive) Hi Hm Hf Hb Hst Hsz HU) as Hw.
  destruct (wp_exists _ _ _ Hw) as (r & w' & Hrun & [Hs _ Hp Hl]).
  destruct (Hl Hlive) as [_ [[h n] ->]]. destruct (Hp _ eq_refl) as [Hh Hst']. simpl in Hh. subst h.
  exists n, w'. split_and!; [done..| |done]. destruct Hst as [Hst1 Hst2]. split; [by eapply stored_step|].
  intros i Hi'. eapply stored_step; [done|]. by apply Hst2.
Qed.

(** C13 (get_chunked_atomic): [GetChunkedTo] of a stored image, under any I/O
    failures: on success the destination holds exactly the image and no
    temporary is left, on failure the destination is as it was; either way
    nothing but the destination, its temporary and the growing store changes.
    Without faults it succeeds and the image's empty chunks are holes. *)
Theorem get_chunked_atomic root d c img w :
  store_inv U root (w_fs w) → memo_ok w → dst_ok root d c (w_fs w) →
  stored_image (w_fs w) root img → image_in U img → zeros_in U img → Z.of_nat (length img) < 2 ^ 63 →
  ∃ r w', GetChunkedTo root (image_name img) (d ++ [c]) w = (match r with inl e => Err e | inr u => Ok u end, w') ∧
    get_outcome U root d c img w r w'.
Proof.
  intros Hi Hm Hd Hst HU HUz Hl. apply wp_exists. apply wp_GetChunkedTo; try done. by apply manifest_dom.
Qed.

(** C14 (chunked_roundtrip): a file stored with [PutChunked] and written back
    with [GetChunkedTo] is the same file contents, on a healthy host. *)
Theorem chunked_roundtrip root p fl d c w :
  live root w → store_inv U root (w_fs w) → memo_ok w → w_fs w !! p = Some (NFile fl) → ¬ below root p →
  dst_ok root d c (w_fs w) → image_in U (contents fl) → zeros_in U (contents fl) → f_size fl < 2 ^ 63 →
  ∃ h n w1 w2 f, PutChunked root p w = (Ok (h, n), w1) ∧ GetChunkedTo root h (d ++ [c]) w1 = (Ok (), w2) ∧
    w_fs w2 !! (d ++ [c]) = Some (NFile f) ∧ contents f = contents fl.
Proof.
  intros Hlive Hi Hm Hf Hb Hd HU HUz Hsz.
  pose proof (grows_PutChunked root p fl w (quiet_honest (proj1 Hlive)) Hi Hm Hf Hb HU) as Hw.
  destruct (wp_exists _ _ _ Hw) as (r & w1 & Hrun & [Hs Hmm Hp Hl]).
  destruct (Hl Hlive) as [Hlive1 [[h n] ->]]. destruct (Hp _ eq_refl) as (Hh & Hst & _). simpl in Hh. subst h.
  assert (wp (GetChunkedTo root (image_name (contents fl)) (d ++ [c])) (get_outcome U root d c (contents fl) w1) w1) as Hw2.
  { apply wp_GetChunkedTo; try done; [apply Hs|by apply Hmm| |].
    - eapply dst_ok_frame; [done|apply Hs].
    - apply manifest_dom. unfold contents. rewrite length_fmap. exact Hsz. }
  destruct (wp_exists _ _ _ Hw2) as (r & w2 & Hrun2 & Hgo).
  destruct (go_live _ _ _ _ _ _ _ _ Hgo Hlive1) as [_ ->].
  destruct (go_ok _ _ _ _ _ _ _ _ Hgo eq_refl) as (_ & f & Hf2 & Hc & _). by eexists _, _, w1, w2, f.
Qed.

(** Where the file system cannot tell data from holes, [dataSpans] takes the
    whole file as data... *)
Lemma data_spans_fallback f fl w e :
  fault (w_tick w) = Some e → e ≠ ENXIO → f_cells fl ≠ [] →
  dataSpans f (f_size fl) w = (Ok [(0, f_size fl)], tick w).
Proof.
  intros Hf He Hne. unfold dataSpans. assert (0 < f_size fl) as Hs by (unfold f_size; destruct (f_cells fl); [done|simpl; lia]).
  destruct (Z.to_nat (f_size fl)) as [|k] eqn:Hk; [lia|]. simpl. rewrite decide_True by done.
  unfold mbind, M_bind, attempt, fd_seek_data, sys_read, sys. rewrite Hf. simpl.
  rewrite decide_False by congruence. done.
Qed.

(** ... and an overlay over a base then records the file's own bytes for the
    chunk, zeros for the holes, instead of the base's bytes under the holes. *)
Lemma overlay_fallback_loses_base root f fl base i w cs fr :
  quiet → store_inv U root (w_fs w) → memo_ok w → w_fs w !! f = Some (NFile fl) →
  stored_image (w_fs w) root base → length base = length (f_cells fl) → f_cells fl ≠ [] → (i < chunk_num base)%nat →
  U (chunk_at (contents fl) i) →
  wp (put_chunk root f (f_size fl) [(0, f_size fl)] (Some (manifest_of base)) i)
    (chunk_outcome U root w i (chunk_at (contents fl) i) cs fr) (w, (cs, fr)).
Proof.
  intros Hq Hi Hm Hf [_ Hst] Hlen Hne Hn HU. set (cells := Some <$> contents fl).
  assert (length cells = length (f_cells fl)) as Hcl by (unfold cells, contents; by rewrite !length_fmap).
  assert (overlay base cells = contents fl) as Hov.
  { apply list_eq. intros k. rewrite overlay_lookup. unfold cells. rewrite list_lookup_fmap.
    destruct (contents fl !! k) eqn:E; [|by destruct (base !! k)]. apply lookup_lt_Some in E.
    unfold contents in E. rewrite length_fmap in E. destruct (lookup_lt_is_Some_2 base k) as [b' ->]; [lia|done]. }
  rewrite <- Hov in HU |- *. apply (wp_put_chunk U root f fl cells); try done.
  - unfold cells. rewrite <- list_fmap_compose. symmetry. apply list_fmap_id.
  - assert (0 < length (f_cells fl))%nat by (destruct (f_cells fl); [done|simpl; lia]). split.
    + intros sp ->%list_elem_of_singleton. rewrite Hcl. unfold f_size. simpl. lia.
    + intros k Hk. exists (0, f_size fl). split; [by apply list_elem_of_singleton|]. apply is_data_lt in Hk as ?.
      unfold f_size. rewrite <- Hcl. destruct Hk. simpl. lia.
    + intros _ k (sp & ->%list_elem_of_singleton & Hk). simpl in Hk. split; [lia|]. unfold cells.
      rewrite list_lookup_fmap. unfold f_size in Hk. rewrite <- Hcl in Hk. unfold cells in Hk. rewrite length_fmap in Hk.
      destruct (lookup_lt_is_Some_2 (contents fl) (Z.to_nat k)) as [b ->]; [lia|]. by exists b.
  - split; [by rewrite Hlen, Hcl|]. split; [done|]. exists base. split_and!; [done| |done]. by rewrite Hcl, <- Hlen, rebased_same.
Qed.

End props.

(** ** A small store *)

Lemma no_collision_list (l : list bytes) : NoDup (hashOf <$> l) → NoCollision (λ b, b ∈ l).
Proof.
  intros Hnd b c Hb Hc He. apply list_elem_of_lookup in Hb as [i Hi]. apply list_elem_of_lookup in Hc as [j Hj].
  assert (i = j) as ->; [|congruence]. eapply (NoDup_lookup (hashOf <$> l)); [done|..].
  - by rewrite list_lookup_fmap, Hi.
  - rewrite list_lookup_fmap, Hj. simpl. by rewrite He.
Qed.

(** An image of one chunk. *)
Lemma small_csize (img : bytes) : (0 < length img ≤ 1024)%nat → (length img ≤ csize)%nat.
Proof. intros Hl. pose proof csize_Z as Hc. assert (1024 ≤ ChunkSize) by done. lia. Qed.

Lemma small_num (img : bytes) : (0 < length img ≤ 1024)%nat → chunk_num img = 1%nat.
Proof.
  intros Hl. pose proof (small_csize img Hl) as Hc. unfold chunk_num.
  pose proof (chunk_num_spec (length img) 0) as [_ H0]. pose proof (chunk_num_spec (length img) 1) as [H1 _]. lia.
Qed.

Lemma small_chunk (img : bytes) : (0 < length img ≤ 1024)%nat → chunk_at img 0 = img.
Proof. intros Hl. unfold chunk_at. simpl. rewrite take_ge; [done|]. by apply small_csize. Qed.

Lemma small_manifest (img : bytes) : (0 < length img ≤ 1024)%nat →
  manifest_of img = mkManifest 1 (Z.of_nat (length img)) ChunkSize [hashOf img].
Proof. intros Hl. unfold manifest_of. rewrite small_num by done. simpl. by rewrite small_chunk. Qed.

Lemma small_in (U : bytes → Prop) (img : bytes) : (0 < length img ≤ 1024)%nat →
  U (json_Marshal (mkManifest 1 (Z.of_nat (length img)) ChunkSize [hashOf img])) → U img → image_in U img.
Proof.
  intros Hl Hm Hi. split; [by rewrite small_manifest|]. rewrite small_num by done. intros [|i]; [|lia].
  by rewrite small_chunk.
Qed.

Lemma small_zeros (U : bytes → Prop) (img : bytes) : (0 < length img ≤ 1024)%nat →
  U (replicate (length img) x00) → zeros_in U img.
Proof. intros Hl Hz. unfold zeros_in. rewrite small_num by done. intros [|i]; [|lia]. by rewrite small_chunk. Qed.

(** The file [in] holds [hello]; [diff] has one written byte, in the middle of
    holes. *)
Definition demo_img : bytes := contents demo_file.
Definition demo_diff : file := File o600 [None; Some x21; None; None; None] 0 0.
Definition demo_new : bytes := overlay demo_img (f_cells demo_diff).
Definition demo_fs2 : fs := <[["diff"] := NFile demo_diff]> demo_fs.
Definition demo_world2 : world := World demo_fs2 0 ∅.

Definition small_text (img : bytes) : bytes :=
  json_Marshal (mkManifest 1 (Z.of_nat (length img)) ChunkSize [hashOf img]).
Definition demo_texts : list bytes :=
  [demo_img; small_text demo_img; replicate 5 x00; demo_new; small_text demo_new].
Definition demo_U (b : bytes) : Prop := b ∈ demo_texts.

#[global] Instance demo_no_collision : NoCollision demo_U.
Proof. apply no_collision_list. apply (bool_decide_eq_true_1 (NoDup (hashOf <$> demo_texts))). vm_compute. reflexivity. Qed.

Lemma demo_fs2_wf : fs_wf demo_fs2.
Proof. apply (fs_wf_insert _ [] "diff"); [apply demo_fs_wf|by eexists|done|by intros [? ?]]. Qed.

Lemma demo_store2 : store_inv demo_U demo_root demo_fs2 ∧ store_clean demo_fs2 demo_root.
Proof.
  assert (∀ c, demo_fs2 !! (demo_root ++ [c]) = None) as Hn.
  { intros c. unfold demo_fs2, demo_fs, fs_root. by rewrite !lookup_insert_ne, lookup_singleton_ne by done. }
  destruct (store_wf_fresh demo_fs2 demo_root demo_fs2_wf ltac:(by eexists) Hn) as [Hwf Hc]. split; [|done].
  split; [done|]. intros h c Hh Hb. unfold blob_of in Hb. destruct (demo_fs2 !! slot demo_root h) as [n|] eqn:E; [|done].
  destruct (proj2 demo_fs2_wf (demo_root ++ [shard h]) (leaf h)) as [[m Hm] _]; [by eexists|]. by rewrite Hn in Hm.
Qed.

Lemma demo_in_img : image_in demo_U demo_img ∧ zeros_in demo_U demo_img ∧ image_in demo_U demo_new.
Proof.
  assert (∀ i b, demo_texts !! i = Some b → demo_U b) as Hin by (intros i b Hb; by eapply list_elem_of_lookup_2).
  split_and!.
  - apply small_in; [simpl; lia|by apply (Hin 1%nat)|by apply (Hin 0%nat)].
  - apply small_zeros; [simpl; lia|by apply (Hin 2%nat)].
  - apply small_in; [simpl; lia|by apply (Hin 4%nat)|by apply (Hin 3%nat)].
Qed.

Lemma demo_live : @live calm demo_root demo_world2.
Proof. split; [apply calm_quiet|apply demo_store2]. Qed.
Lemma demo_out p : (∃ c l, p = c :: l ∧ c ≠ "blobs") → ¬ below demo_root p.
Proof. intros (c & l & -> & Hc) [k Hk]. by injection Hk. Qed.
Lemma demo_dst : dst_ok demo_root [] "out" demo_fs2.
Proof.
  split; try done; [by eexists|apply demo_out; by eexists _, _|apply demo_out; by eexists _, _|by intros [? ?]].
Qed.

(** C11 at a concrete input. *)
Lemma data_spans_exact_witness :
  ∃ spans w', @dataSpans calm ["diff"] 5 demo_world2 = (Ok spans, w') ∧ w_fs w' = demo_fs2 ∧
    (∀ k, in_spans spans k ↔ is_data (f_cells demo_diff) k) ∧
    (∀ s e, (s, e) ∈ spans → 0 ≤ s < e ∧ e ≤ f_size demo_diff).
Proof. exact (@data_spans_exact calm ["diff"] demo_diff demo_world2 calm_quiet eq_refl). Defined.

(** [PutChunked] of a concrete file. *)
Lemma put_chunked_stores_witness :
  ∃ r w', @PutChunked calm in_order _ demo_root ["in"] demo_world2 = (match r with inl e => Err e | inr hn => Ok hn end, w') ∧
    store_step demo_U demo_root demo_fs2 (w_fs w') ∧
    (∀ h n, r = inr (h, n) →
       h = image_name demo_img ∧ stored_image (w_fs w') demo_root demo_img ∧
       (@quiet calm → ∃ fr : gset string, n = Z.of_nat (size fr) ∧ gained demo_root demo_world2 w' fr)) ∧
    (@live calm demo_root demo_world2 → ∃ hn, r = inr hn).
Proof.
  refine (@put_chunked_stores calm in_order demo_U _ demo_root ["in"] demo_file demo_world2 _ (proj1 demo_store2) _ eq_refl _ _).
  - apply quiet_honest, calm_quiet.
  - intros n h Hh. discriminate Hh.
  - apply demo_out. by eexists _, _.
  - exact (proj1 demo_in_img).
Defined.

#[local] Existing Instance calm.
#[local] Existing Instance in_order.

Lemma demo_memo : memo_ok demo_world2.
Proof. intros n h Hh. discriminate Hh. Qed.

(** The store once [in] is in it. *)
Lemma demo_put : ∃ hn w1, PutChunked demo_root ["in"] demo_world2 = (Ok hn, w1) ∧
  live demo_root w1 ∧ store_step demo_U demo_root demo_fs2 (w_fs w1) ∧ memo_ok w1 ∧ stored_image (w_fs w1) demo_root demo_img.
Proof.
  assert (wp (PutChunked demo_root ["in"])
    (grows demo_U demo_root demo_world2 (put_image_post demo_root demo_img demo_world2)) demo_world2) as Hw.
  { pose proof (overlay_zeros (f_cells demo_file)) as Hov. change (default x00 <$> f_cells demo_file) with demo_img in Hov.
    rewrite <- Hov. apply (wp_putChunked demo_U).
    - apply quiet_honest, calm_quiet.
    - exact (proj1 demo_store2).
    - apply demo_memo.
    - reflexivity.
    - apply demo_out. by eexists _, _.
    - split; reflexivity.
    - rewrite Hov. exact (proj1 demo_in_img). }
  destruct (wp_exists _ _ _ Hw) as (r & w1 & Hrun & [Hs Hmm Hp Hl]). destruct (Hl demo_live) as [Hlive1 [hn ->]].
  destruct (Hp _ eq_refl) as (_ & Hst & _). exists hn, w1. split_and!; [done..|by apply Hmm, demo_memo|done].
Qed.

(** C12 at a concrete input: the diff over the stored [hello]. *)
Lemma put_overlay_stores_witness :
  ∃ w1 n w2, PutChunkedOverlay demo_root ["diff"] (image_name demo_img) w1 = (Ok (image_name demo_new, n), w2) ∧
    stored_image (w_fs w2) demo_root demo_new ∧ stored_image (w_fs w2) demo_root demo_img ∧
    store_step demo_U demo_root (w_fs w1) (w_fs w2).
Proof.
  destruct demo_put as (hn & w1 & _ & Hlive & Hs & Hm & Hst). exists w1.
  refine (proj2 (put_overlay_stores demo_U demo_root ["diff"] demo_diff demo_img w1 Hlive (st_inv _ _ _ _ Hs) Hm _ _ Hst eq_refl _)).
  - rewrite (st_frame _ _ _ _ Hs); [reflexivity|]. apply demo_out. by eexists _, _.
  - apply demo_out. by eexists _, _.
  - exact (proj2 (proj2 demo_in_img)).
Defined.

(** C13 at a concrete input. *)
Lemma get_chunked_atomic_witness :
  ∃ w1 r w2, GetChunkedTo demo_root (image_name demo_img) ["out"] w1 =
      (match r with inl e => Err e | inr u => Ok u end, w2) ∧
    get_outcome demo_U demo_root [] "out" demo_img w1 r w2.
Proof.
  destruct demo_put as (hn & w1 & _ & Hlive & Hs & Hm & Hst). exists w1.
  refine (get_chunked_atomic demo_U demo_root [] "out" demo_img w1 (st_inv _ _ _ _ Hs) Hm _ Hst
    (proj1 demo_in_img) (proj1 (proj2 demo_in_img)) eq_refl).
  eapply dst_ok_frame; [exact demo_dst|apply Hs].
Defined.

(** C14 at a concrete input. *)
Lemma chunked_roundtrip_witness :
  ∃ h n w1 w2 f, PutChunked demo_root ["in"] demo_world2 = (Ok (h, n), w1) ∧
    GetChunkedTo demo_root h ["out"] w1 = (Ok (), w2) ∧
    w_fs w2 !! ["out"] = Some (NFile f) ∧ contents f = contents demo_file.
Proof.
  refine (chunked_roundtrip demo_U demo_root ["in"] demo_file [] "out" demo_world2
    demo_live (proj1 demo_store2) demo_memo eq_refl _ demo_dst (proj1 demo_in_img) (proj1 (proj2 demo_in_img)) eq_refl).
  apply demo_out. by eexists _, _.
Defined.

(** A base that is not of the file's size loses the bytes of the chunk where the
    two end: over the stored [hello], a sparse file of six bytes with nothing
    written is six zeros. *)
Lemma overlay_other_size : overlay (rebased demo_img 6) (replicate 6 None) = replicate 6 x00.
Proof.
  rewrite rebased_small; [reflexivity|done|]. pose proof (small_csize (replicate 6 x00)) as Hc.
  change (length demo_img) with 5%nat. rewrite length_replicate in Hc. lia.
Qed.
