(* ===== verification/Repo.v ===== *)
(** * The repository (src/internal/engine/repo.go)

    A repository is a directory: blobs, one JSON document per sandbox and per
    checkpoint, and the working directories. *)

From S2P Require Import Prelude Sha256 Os OsFacts Cas Tree Model.
Import Tree Model.
Open Scope Z_scope.

Module Repo.

Record Repo := mkRepo { r_root : path; r_cas : path }.

(** [%q] of a name: quoted, with the quote and the backslash escaped (names
    with control characters print differently in Go; the text is not used). *)
Definition dquote : ascii := Ascii.ascii_of_byte x22.
Definition backslash : ascii := Ascii.ascii_of_byte x5c.
Fixpoint escape_q (s : string) : string :=
  match s with
  | EmptyString => EmptyString
  | String a s' => if decide (a = dquote ∨ a = backslash) then String backslash (String a (escape_q s'))
                   else String a (escape_q s')
  end.
Definition fmt_q (s : string) : string := String dquote (escape_q s +:+ String dquote "").

(** [trimJSON]: the name without its last five bytes; slicing a shorter name
    panics. *)
Definition trimJSON (name : string) : option string :=
  if decide (String.length name < 5)%nat then None
  else Some (String.substring 0 (String.length name - 5) name).

(** [sort.Slice(out, Created.After)]: newest first. *)
Definition newer (a b : Sandbox) : Prop := s_Created b ≤ s_Created a.
#[global] Instance newer_dec a b : Decision (newer a b) := decide (s_Created b ≤ s_Created a).

Section repo.
Context `{OsEnv, GoJSON Sandbox, GoJSON Checkpoint}.

Definition OpenRepo (root : path) : M world Repo :=
  for_each ["blobs"; "sandboxes"; "checkpoints"; "work"] (λ d, os_MkdirAll (join root d) o755);;
  store ← Cas.Open (join root "blobs");
  mret (mkRepo root store).

Definition WorkDir (r : Repo) (sandboxID : string) : path := join (join (r_root r) "work") sandboxID.

(** Six random bytes in hexadecimal. *)
Definition newID (prefix : string) : M world string :=
  b ← rand_Read 6; mret (prefix +:+ hex_EncodeToString b).

Definition doc_path (r : Repo) (dir id : string) : path := join (join (r_root r) dir) (id +:+ ".json").

(** [json.MarshalIndent] fails only on a time outside the years 0 to 9999, which
    no clock of the engine gives; that path of the source is left out. *)
Definition putJSON {A} `{GoJSON A} (r : Repo) (dir id : string) (v : A) : M world unit :=
  os_WriteFile (doc_path r dir id) (json_MarshalIndent v) o644.

Definition getJSON {A} `{GoJSON A} (r : Repo) (dir id : string) : M world A :=
  b ← os_ReadFile (doc_path r dir id);
  match json_Unmarshal b with
  | Some v => mret v
  | None => throw (Errorf "json: cannot unmarshal")
  end.

Definition SaveSandbox (r : Repo) (s : Sandbox) : M world unit := putJSON r "sandboxes" (s_ID s) s.

(** The loop of [Sandboxes]: a document that does not load is left out. *)
Definition load_sandbox (r : Repo) (out : list Sandbox) (e : dirent) : M world (list Sandbox) :=
  match trimJSON (fst e) with
  | None => panic
  | Some id =>
      s ← attempt (getJSON r "sandboxes" id);
      mret (match s with inr s => out ++ [s] | inl _ => out end)
  end.

Definition Sandboxes (r : Repo) : M world (list Sandbox) :=
  entries ← attempt (os_ReadDir (join (r_root r) "sandboxes"));
  out ← fold_m (load_sandbox r) [] (match entries with inl _ => [] | inr l => l end);
  mret (merge_sort newer out).

Definition GetSandbox (r : Repo) (idOrName : string) : M world Sandbox :=
  s ← attempt (getJSON r "sandboxes" idOrName);
  match s with
  | inr s => mret s
  | inl _ =>
      all ← Sandboxes r;
      match list_find (λ sb, s_Name sb = idOrName) all with
      | Some (_, sb) => mret sb
      | None => throw (Errorf ("no sandbox " +:+ fmt_q idOrName))
      end
  end.

Definition SaveCheckpoint (r : Repo) (c : Checkpoint) : M world unit := putJSON r "checkpoints" (c_ID c) c.

Definition GetCheckpoint (r : Repo) (id : string) : M world Checkpoint :=
  c ← attempt (getJSON r "checkpoints" id);
  match c with
  | inr c => mret c
  | inl _ => throw (Errorf ("no checkpoint " +:+ fmt_q id))
  end.

(** The loop of [History].  A chain that comes back to itself never ends; every
    other visits each file at most once, so the number of files is fuel
    enough ([chain_bounded]). *)
Fixpoint history_loop (fuel : nat) (r : Repo) (id : string) : M world (list Checkpoint) :=
  if decide (id = "") then mret [] else
  match fuel with
  | O => panic
  | S k => c ← GetCheckpoint r id; chain ← history_loop k r (c_Parent c); mret (c :: chain)
  end.

Definition History (r : Repo) (sandboxID : string) : M world (list Checkpoint) :=
  s ← GetSandbox r sandboxID;
  w ← get_state;
  history_loop (size (w_fs w)) r (s_Head s).

End repo.
End Repo.
