(* ===== verification/RepoFacts.v ===== *)
(** * Facts about the repository *)

From S2P Require Import Prelude Sha256 Os OsFacts WalkFacts Cas Blobs Tree Model Repo.
Import Cas Tree Model Repo.
Open Scope Z_scope.

(** ** Documents *)

(** An identifier that names one file. *)
Definition good_id (id : string) : Prop := has_char slash id = false.

Definition repo_dirs : list string := ["blobs"; "sandboxes"; "checkpoints"; "work"].
Definition doc_dirs : list string := ["sandboxes"; "checkpoints"].

Definition doc_file (r : Repo) (dir id : string) : path := (r_root r ++ [dir]) ++ [id +:+ ".json"].

(** The document [id] of directory [dir], and what it decodes to. *)
Definition doc (σ : fs) (r : Repo) (dir id : string) : option bytes :=
  match σ !! doc_file r dir id with Some (NFile f) => Some (contents f) | _ => None end.
Definition load {A} `{GoJSON A} (σ : fs) (r : Repo) (dir id : string) : option A :=
  doc σ r dir id ≫= json_Unmarshal.

(** A repository: its directories are there, and the documents are files with
    the names the program gives them. *)
Record repo_wf (r : Repo) (σ : fs) : Prop := {
  rw_fs : fs_wf σ;
  rw_cas : r_cas r = r_root r ++ ["blobs"];
  rw_dirs : ∀ d, d ∈ repo_dirs → is_dir σ (r_root r ++ [d]);
  rw_docs : ∀ d c n, d ∈ doc_dirs → σ !! ((r_root r ++ [d]) ++ [c]) = Some n →
              ∃ f id, n = NFile f ∧ c = id +:+ ".json" ∧ good_id id
}.

Lemma doc_dirs_sub d : d ∈ doc_dirs → d ∈ repo_dirs.
Proof. unfold doc_dirs, repo_dirs. set_solver. Qed.

Lemma has_char_app c s t : has_char c (s +:+ t) = has_char c s || has_char c t.
Proof.
  induction s as [|a s IH]; [done|]. simpl. rewrite <- orb_assoc. f_equal. exact IH.
Qed.

Lemma json_name_good id : good_id id → has_char slash (id +:+ ".json") = false ∧ good_name (id +:+ ".json").
Proof.
  intros Hid. split; [rewrite has_char_app, Hid; reflexivity|].
  assert (String.length (id +:+ ".json") = (String.length id + 5)%nat) as Hl by apply string_length_app.
  split_and!; intros He; rewrite He in Hl; simpl in Hl; lia.
Qed.

Lemma json_name_inj id id' : id +:+ ".json" = id' +:+ ".json" → id = id'.
Proof.
  intros He. pose proof (f_equal String.length He) as Hl. rewrite !string_length_app in Hl. simpl in Hl.
  assert (String.length id = String.length id') as Hl' by lia. clear Hl. revert id' He Hl'.
  induction id as [|a id IH]; intros [|b id'] He Hl; try done. simpl in Hl.
  change (String a (id +:+ ".json") = String b (id' +:+ ".json")) in He. injection He as -> He.
  f_equal. apply IH; [done|lia].
Qed.

Lemma doc_file_inj r d id d' id' : doc_file r d id = doc_file r d' id' → d = d' ∧ id = id'.
Proof.
  unfold doc_file. intros [He Hn]%app_inj_tail. apply app_inj_tail in He as [_ ->].
  split; [done|]. by apply json_name_inj.
Qed.

Lemma repo_dir_name d : d ∈ repo_dirs → has_char slash d = false ∧ good_name d.
Proof. unfold repo_dirs. rewrite !elem_of_cons, elem_of_nil. intros [->|[->|[->|[->|[]]]]]; by repeat split. Qed.

Lemma join_dir r d : d ∈ repo_dirs → join (r_root r) d = r_root r ++ [d].
Proof. intros Hd. apply join_good; by apply repo_dir_name. Qed.

Lemma doc_path_file r d id : d ∈ doc_dirs → good_id id → doc_path r d id = doc_file r d id.
Proof.
  intros Hd Hid. unfold doc_path. rewrite join_dir by by apply doc_dirs_sub. by apply join_good; apply json_name_good.
Qed.

Lemma trimJSON_json id : trimJSON (id +:+ ".json") = Some id.
Proof.
  unfold trimJSON. rewrite string_length_app. cbn [String.length]. rewrite decide_False by lia. f_equal.
  replace (String.length id + 5 - 5)%nat with (String.length id) by lia.
  induction id as [|a id IH]; [done|]. change (String a id +:+ ".json") with (String a (id +:+ ".json")). simpl.
  by rewrite IH.
Qed.

Lemma repo_blobs_disjoint r d c : d ∈ doc_dirs → ¬ below (r_root r ++ ["blobs"]) ((r_root r ++ [d]) ++ [c]).
Proof.
  intros Hd [k Hk]. rewrite <- !app_assoc in Hk. apply app_inv_head in Hk. simpl in Hk. injection Hk as -> _.
  unfold doc_dirs in Hd. set_solver.
Qed.

(** Writing a document keeps the repository. *)
Lemma repo_wf_doc r σ d id f :
  repo_wf r σ → d ∈ doc_dirs → good_id id → repo_wf r (<[doc_file r d id := NFile f]> σ).
Proof.
  intros [Hfs Hcas Hdirs Hdocs] Hd Hid. split; [|done|..].
  - apply fs_wf_insert; try done; [by apply Hdirs, doc_dirs_sub|by apply json_name_good|].
    intros [m Hm]. destruct (Hdocs d (id +:+ ".json") (NDir m)) as (f' & _ & Hn & _); try done.
  - intros d' Hd'. destruct (Hdirs d' Hd') as [m Hm]. exists m. rewrite lookup_insert_ne; [done|].
    unfold doc_file. intros He. apply (f_equal length) in He. rewrite !length_app in He. simpl in He. lia.
  - intros d' c n Hd'. rewrite lookup_insert. case_decide as He; [|by apply Hdocs].
    apply app_inj_tail in He as [_ <-]. intros [= <-]. by exists f, id.
Qed.

Lemma doc_insert r σ d id f d' id' :
  doc (<[doc_file r d id := NFile f]> σ) r d' id' =
    if decide (d = d' ∧ id = id') then Some (contents f) else doc σ r d' id'.
Proof.
  unfold doc. case_decide as He.
  - destruct He as [-> ->]. by rewrite lookup_insert_eq.
  - rewrite lookup_insert_ne; [done|]. intros Hp. by apply doc_file_inj in Hp.
Qed.

(** The repository only grew in its blobs. *)
Lemma repo_wf_store U r σ σ' : repo_wf r σ → store_step U (r_cas r) σ σ' → repo_wf r σ'.
Proof.
  intros [Hfs Hcas Hdirs Hdocs] Hs. pose proof (st_inv _ _ _ _ Hs) as [Hwf _]. split; [apply Hwf|done|..].
  - intros d Hd. destruct (decide (d = "blobs")) as [->|Hne].
    + rewrite <- Hcas. apply Hwf.
    + destruct (Hdirs d Hd) as [m Hm]. exists m. rewrite (st_frame _ _ _ _ Hs); [done|]. rewrite Hcas.
      intros [k Hk]. rewrite <- app_assoc in Hk. apply app_inv_head in Hk. by simplify_eq/=.
  - intros d c n Hd. rewrite (st_frame _ _ _ _ Hs); [by apply Hdocs|]. rewrite Hcas. by apply repo_blobs_disjoint.
Qed.

Lemma doc_store U r σ σ' d id :
  r_cas r = r_root r ++ ["blobs"] → d ∈ doc_dirs → store_step U (r_cas r) σ σ' → doc σ' r d id = doc σ r d id.
Proof.
  intros Hcas Hd Hs. unfold doc. rewrite (st_frame _ _ _ _ Hs); [done|]. rewrite Hcas. by apply repo_blobs_disjoint.
Qed.

(** ** Reading and writing documents *)

Section specs.
Context `{OsEnv, GoJSON Sandbox, GoJSON Checkpoint}.
Implicit Types (w : world) (r : Repo).

Lemma wp_putJSON {A} `{GoJSON A} r d id (v : A) w :
  repo_wf r (w_fs w) → d ∈ doc_dirs → good_id id →
  wp (putJSON r d id v) (λ x w', w_zero w' = w_zero w ∧
    match x with
    | inl _ => ¬ quiet ∧ (w_fs w' = w_fs w ∨ ∃ f, w_fs w' = <[doc_file r d id := NFile f]> (w_fs w))
    | inr _ => ∃ f, contents f = json_MarshalIndent v ∧ w_fs w' = <[doc_file r d id := NFile f]> (w_fs w)
    end) w.
Proof.
  intros Hwf Hd Hid. unfold putJSON. rewrite doc_path_file by done. unfold doc_file. apply wp_WriteFile.
  - apply Hwf.
  - by apply Hwf, doc_dirs_sub.
  - by apply json_name_good.
  - destruct (w_fs w !! _) as [n|] eqn:E; [|done]. destruct (rw_docs _ _ Hwf _ _ _ Hd E) as (f & _ & -> & _). done.
Qed.

Lemma wp_getJSON {A} `{GoJSON A} r d id w :
  repo_wf r (w_fs w) → d ∈ doc_dirs → good_id id →
  wp (getJSON r d id) (λ (x : gerr + A) w', w_fs w' = w_fs w ∧ w_zero w' = w_zero w ∧
    match x with
    | inl _ => quiet → load (A:=A) (w_fs w) r d id = None
    | inr v => load (w_fs w) r d id = Some v
    end) w.
Proof.
  intros Hwf Hd Hid. unfold getJSON. rewrite doc_path_file by done. wp_step.
  assert (∀ x, w_fs w !! doc_file r d id = x →
    match x with Some (NFile _) | None => True | _ => False end) as Hsh.
  { intros [n|] E; [|done]. destruct (rw_docs _ _ Hwf _ _ _ Hd E) as (f & _ & -> & _). done. }
  destruct (w_fs w !! doc_file r d id) as [[f|?|?|?]|] eqn:E; try by (specialize (Hsh _ eq_refl)).
  - eapply (wp_ReadFile _ f); [apply Hwf|done|..]; [by intros; split_and!|].
    intros w' Hfs Hz. unfold load, doc. rewrite E. simpl.
    destruct (json_Unmarshal (contents f)) as [v|] eqn:Ev; wp_step; by split_and!.
  - unfold doc_file in *. eapply wp_ReadFile_none; [apply Hwf|by apply Hwf, doc_dirs_sub|by apply json_name_good|done|..].
    + by intros; split_and!.
    + intros w' Hfs Hz. split_and!; try done. intros _. unfold load, doc, doc_file. by rewrite E.
Qed.

Lemma wp_GetCheckpoint r id w :
  repo_wf r (w_fs w) → good_id id →
  wp (GetCheckpoint r id) (λ x w', w_fs w' = w_fs w ∧ w_zero w' = w_zero w ∧
    match x with
    | inl _ => quiet → load (A:=Checkpoint) (w_fs w) r "checkpoints" id = None
    | inr c => load (w_fs w) r "checkpoints" id = Some c
    end) w.
Proof.
  intros Hwf Hid. unfold GetCheckpoint. wp_step. wp_step.
  wp_use wp_getJSON; [done|by right; left|done|]. intros [e|c] w' (Hfs & Hz & Hr); wp_step; by split_and!.
Qed.

(** ** Listing the sandboxes *)

Definition sandbox_of (σ : fs) r (c : string) : option Sandbox := trimJSON c ≫= load σ r "sandboxes".
Definition all_sandboxes (σ : fs) r : list Sandbox :=
  merge_sort newer (omap (sandbox_of σ r) (children σ (r_root r ++ ["sandboxes"]))).

Lemma wp_Sandboxes r w :
  quiet → repo_wf r (w_fs w) →
  wp (Sandboxes r) (λ x w', w_fs w' = w_fs w ∧ w_zero w' = w_zero w ∧ x = inr (all_sandboxes (w_fs w) r)) w.
Proof.
  intros Hq Hwf. unfold Sandboxes. wp_step. wp_step. rewrite join_dir by by right; left.
  assert ("sandboxes" ∈ doc_dirs) as Hd by left.
  destruct (rw_dirs _ _ Hwf "sandboxes") as [m Hm]; [by right; left|].
  eapply wp_ReadDir; [apply Hwf|done|by intros e Hn|]. wp_step.
  eapply (wp_fold_m _ _ _ (λ done out w', w_fs w' = w_fs w ∧ w_zero w' = w_zero w ∧
    out = omap (sandbox_of (w_fs w) r) done.*1)); [by split_and!|..].
  - intros done x todo out w1 Hl (Hfs & Hz & ->).
    assert (x.1 ∈ children (w_fs w) (r_root r ++ ["sandboxes"])) as Hx.
    { assert (x.1 ∈ (dirent_of (w_fs w) (r_root r ++ ["sandboxes"]) <$> children (w_fs w) (r_root r ++ ["sandboxes"])).*1) as Hin.
      { rewrite Hl, fmap_app, fmap_cons. apply elem_of_app. right. by left. }
      rewrite <- list_fmap_compose in Hin. by rewrite (list_fmap_id (children _ _)) in Hin. }
    apply elem_of_children in Hx as [n Hn]. destruct (rw_docs _ _ Hwf _ _ _ Hd Hn) as (f & id & -> & Hc & Hid).
    unfold load_sandbox. rewrite Hc, trimJSON_json. wp_step. wp_step.
    wp_use wp_getJSON; [by rewrite Hfs|done|done|]. rewrite Hfs. intros v w2 (Hfs2 & Hz2 & Hv). wp_step.
    split_and!; [congruence..|]. rewrite fmap_app, omap_app. simpl. rewrite Hc. unfold sandbox_of. rewrite trimJSON_json. simpl.
    destruct v as [e|s]; [rewrite Hv by done; by rewrite app_nil_r|by rewrite Hv].
  - intros out w' (Hfs & Hz & ->). wp_step. split_and!; try done. f_equal. unfold all_sandboxes. f_equal.
    rewrite <- list_fmap_compose. by rewrite (list_fmap_id (children _ _)).
Qed.

(** The sandbox an id or a name stands for. *)
Definition sandbox_named (σ : fs) r (idOrName : string) : option Sandbox :=
  match load σ r "sandboxes" idOrName with
  | Some s => Some s
  | None => snd <$> list_find (λ sb, s_Name sb = idOrName) (all_sandboxes σ r)
  end.

Lemma wp_GetSandbox r x w :
  quiet → repo_wf r (w_fs w) → good_id x →
  wp (GetSandbox r x) (λ v w', w_fs w' = w_fs w ∧ w_zero w' = w_zero w ∧
    match v with inl _ => sandbox_named (w_fs w) r x = None | inr s => sandbox_named (w_fs w) r x = Some s end) w.
Proof.
  intros Hq Hwf Hid. unfold GetSandbox, sandbox_named. wp_step. wp_step.
  wp_use wp_getJSON; [done|by left|done|]. intros [e|s] w1 (Hfs & Hz & Hv); [|wp_step; by rewrite Hv].
  rewrite Hv by done. wp_step. wp_use wp_Sandboxes; [done|by rewrite Hfs|]. rewrite Hfs.
  intros v w2 (Hfs2 & Hz2 & ->). destruct (list_find _ _) as [[i sb]|]; wp_step; split_and!; congruence || done.
Qed.

(** ** Histories *)

(** [l] is the chain of checkpoints from [id] back to a root. *)
Inductive chain (σ : fs) r : string → list Checkpoint → Prop :=
| chain_nil : chain σ r "" []
| chain_cons id c l : id ≠ "" → good_id id → load σ r "checkpoints" id = Some c →
    chain σ r (c_Parent c) l → chain σ r id (c :: l).

Lemma chain_det σ r id l l' : chain σ r id l → chain σ r id l' → l = l'.
Proof.
  intros Hl. revert l'. induction Hl as [|id c l Hne Hid Hc Hl IH]; intros l' Hl'; inversion Hl'; subst; try done.
  simplify_eq. f_equal. by apply IH.
Qed.

(** The identifiers a chain goes through. *)
Definition chain_ids (id : string) (l : list Checkpoint) : list string := take (length l) (id :: (c_Parent <$> l)).

Lemma chain_tail σ r id l x :
  chain σ r id l → x ∈ chain_ids id l → ∃ l', chain σ r x l' ∧ (length l' ≤ length l)%nat ∧ x ≠ "" ∧ good_id x ∧
    is_Some (doc σ r "checkpoints" x).
Proof.
  induction 1 as [|id c l Hne Hid Hc Hl IH]; [by intros ?%elem_of_nil|].
  unfold chain_ids. simpl. intros [->|Hx]%elem_of_cons.
  - exists (c :: l). split_and!; try done; [by econstructor|]. unfold load in Hc. by destruct (doc σ r "checkpoints" id).
  - destruct (IH Hx) as (l' & ? & ? & ?). exists l'. split_and!; try done; try apply H4. simpl. lia.
Qed.

Lemma chain_ids_NoDup σ r id l : chain σ r id l → NoDup (chain_ids id l).
Proof.
  induction 1 as [|id c l Hne Hid Hc Hl IH]; [constructor|]. unfold chain_ids. simpl. apply NoDup_cons. split; [|done].
  intros Hin. destruct (chain_tail _ _ _ _ _ Hl Hin) as (l' & Hl' & Hle & _).
  assert (l' = c :: l) as -> by (eapply chain_det; [done|by econstructor]). simpl in Hle. lia.
Qed.

(** A chain is no longer than there are files. *)
Lemma chain_bounded σ r id l : chain σ r id l → (length l ≤ size σ)%nat.
Proof.
  intros Hl. assert (length l = length (chain_ids id l)) as Hlen.
  { unfold chain_ids. rewrite length_take, length_cons, length_fmap. lia. }
  rewrite Hlen, <- (length_fmap (doc_file r "checkpoints")).
  assert (size σ = size (dom σ)) as -> by by rewrite size_dom.
  rewrite <- (size_list_to_set (C:=gset path)).
  - apply subseteq_size. intros p Hp%elem_of_list_to_set. apply list_elem_of_fmap in Hp as (x & -> & Hx).
    apply elem_of_dom. destruct (chain_tail _ _ _ _ _ Hl Hx) as (_ & _ & _ & _ & _ & [b Hb]). unfold doc in Hb.
    by destruct (σ !! doc_file r "checkpoints" x).
  - apply NoDup_fmap_2_strong; [|by eapply chain_ids_NoDup]. intros x y _ _ He. by apply doc_file_inj in He as [_ ->].
Qed.

Lemma wp_history_loop r fuel id l w :
  quiet → repo_wf r (w_fs w) → chain (w_fs w) r id l → (length l ≤ fuel)%nat →
  wp (history_loop fuel r id) (λ x w', w_fs w' = w_fs w ∧ w_zero w' = w_zero w ∧ x = inr l) w.
Proof.
  intros Hq. revert id l w. induction fuel as [|k IH]; intros id l w Hwf Hl Hle.
  - inversion Hl; subst; [|simpl in *; lia]. simpl. by wp_step.
  - inversion Hl as [|? c l' Hne Hid Hc Hl']; subst; simpl; [by wp_step|]. rewrite decide_False by done.
    wp_step. wp_use wp_GetCheckpoint; [done|done|]. intros [e|c'] w1 (Hfs & Hz & Hv); [by rewrite Hv in Hc|].
    rewrite Hc in Hv. injection Hv as <-. wp_step.
    wp_use (IH (c_Parent c) l'); [by rewrite Hfs|by rewrite Hfs|simpl in *; lia|].
    intros x w2 (Hfs2 & Hz2 & ->). wp_step. split_and!; congruence.
Qed.

End specs.
