(* ===== verification/RepoProps.v ===== *)
(** * What the repository promises *)

From S2P Require Import Prelude Sha256 Os OsFacts WalkFacts Cas Blobs Tree Model Codec Codecs Repo RepoFacts.
Import Cas Tree Model Repo.
Open Scope Z_scope.

Section props.
Context `{OsEnv, GoJSON Sandbox, GoJSON Checkpoint}.
Implicit Types (w : world) (r : Repo).

(** C19 (save_load): saving a checkpoint touches no file but its own document,
    whatever fails; on a healthy host it succeeds and the checkpoint loads back
    as it was saved. *)
Theorem save_load r c w :
  repo_wf r (w_fs w) → good_id (c_ID c) → json_dom c →
  ∃ x w1, SaveCheckpoint r c w = (match x with inl e => Err e | inr u => Ok u end, w1) ∧
    repo_wf r (w_fs w1) ∧
    (∀ q, q ≠ doc_file r "checkpoints" (c_ID c) → w_fs w1 !! q = w_fs w !! q) ∧
    (quiet → x = inr tt ∧ ∃ w2, GetCheckpoint r (c_ID c) w1 = (Ok c, w2) ∧ w_fs w2 = w_fs w1).
Proof.
  intros Hwf Hid Hdom. assert ("checkpoints" ∈ doc_dirs) as Hd by (right; left).
  destruct (wp_exists _ _ _ (wp_putJSON r "checkpoints" (c_ID c) c w Hwf Hd Hid)) as (x & w1 & Hrun & Hz & Hx).
  exists x, w1. split; [done|].
  assert (w_fs w1 = w_fs w ∨ ∃ f, w_fs w1 = <[doc_file r "checkpoints" (c_ID c) := NFile f]> (w_fs w)) as Hfs
    by (destruct x; naive_solver).
  assert (repo_wf r (w_fs w1)) as Hwf1 by (destruct Hfs as [->|[f ->]]; [done|by apply repo_wf_doc]).
  split_and!; [done| |].
  - intros q Hq. destruct Hfs as [->|[f ->]]; [done|]. by rewrite lookup_insert_ne.
  - intros Hqu. destruct x as [e|[]]; [by destruct Hx|]. split; [done|]. destruct Hx as (f & Hf & Hfs1).
    destruct (wp_exists _ _ _ (wp_GetCheckpoint r (c_ID c) w1 Hwf1 Hid)) as (y & w2 & Hrun2 & Hfs2 & _ & Hy).
    assert (load (w_fs w1) r "checkpoints" (c_ID c) = Some c) as Hl.
    { unfold load. rewrite Hfs1, doc_insert, decide_True by done. simpl. rewrite Hf. by apply json_roundtrip_indent. }
    exists w2. split; [|done]. rewrite Hrun2. destruct y as [e|c']; [by rewrite Hy in Hl|congruence].
Qed.

(** ** Looking a sandbox up *)

Lemma elem_of_all_sandboxes σ r s :
  repo_wf r σ → s ∈ all_sandboxes σ r ↔ ∃ id, good_id id ∧ load σ r "sandboxes" id = Some s.
Proof.
  intros Hwf. unfold all_sandboxes. rewrite merge_sort_Permutation, list_elem_of_omap.
  assert ("sandboxes" ∈ doc_dirs) as Hd by left. split.
  - intros (c & [n Hn]%elem_of_children & Hs). destruct (rw_docs _ _ Hwf _ _ _ Hd Hn) as (f & id & _ & -> & Hid).
    unfold sandbox_of in Hs. rewrite trimJSON_json in Hs. by exists id.
  - intros (id & Hid & Hs). exists (id +:+ ".json"). split.
    + apply elem_of_children. unfold load, doc in Hs. fold (doc_file r "sandboxes" id).
      by destruct (σ !! doc_file r "sandboxes" id).
    + unfold sandbox_of. by rewrite trimJSON_json.
Qed.

Lemma all_sandboxes_sorted σ r : StronglySorted newer (all_sandboxes σ r).
Proof.
  apply StronglySorted_merge_sort; unfold newer; [intros a b c|intros a b]; lia.
Qed.

Lemma sorted_first {A} (R : relation A) (P : A → Prop) `{∀ x, Decision (P x)} l i x y :
  StronglySorted R l → list_find P l = Some (i, x) → y ∈ l → P y → y = x ∨ R x y.
Proof.
  intros Hs (Hi & Hx & Hb)%list_find_Some Hy HP. apply list_elem_of_lookup in Hy as [j Hj].
  destruct (lt_eq_lt_dec i j) as [[Hij| ->]|Hij]; [right|left; congruence|by destruct (Hb j y)].
  rewrite <- (take_drop_middle l i x Hi) in Hs, Hj. apply StronglySorted_app_1_r in Hs.
  apply StronglySorted_inv in Hs as [_ Hf]. rewrite Forall_forall in Hf. apply Hf.
  rewrite lookup_app_r in Hj; rewrite length_take in *; [|lia].
  pose proof (lookup_lt_Some _ _ _ Hi). replace (j - i `min` length l)%nat with (S (j - S i)) in Hj by lia.
  simpl in Hj. by eapply list_elem_of_lookup_2.
Qed.

(** [Sandbox] finds the document with that id; failing
    that, the newest sandbox with that name; it fails exactly when there is
    neither. *)
Theorem sandbox_lookup r x w :
  quiet → repo_wf r (w_fs w) → good_id x →
  ∃ v w', GetSandbox r x w = (match v with inl e => Err e | inr s => Ok s end, w') ∧ w_fs w' = w_fs w ∧
    let found id s := good_id id ∧ load (w_fs w) r "sandboxes" id = Some s in
    match v with
    | inr s => found x s ∨
        (load (A:=Sandbox) (w_fs w) r "sandboxes" x = None ∧ s_Name s = x ∧ (∃ id, found id s) ∧
         ∀ id s', found id s' → s_Name s' = x → s_Created s' ≤ s_Created s)
    | inl _ => (∀ s, ¬ found x s) ∧ ∀ id s, found id s → s_Name s ≠ x
    end.
Proof.
  intros Hq Hwf Hx.
  destruct (wp_exists _ _ _ (wp_GetSandbox r x w Hq Hwf Hx)) as (v & w' & Hrun & Hfs & _ & Hv).
  exists v, w'. split_and!; [done..|]. unfold sandbox_named in Hv. destruct v as [e|s]; simpl.
  - destruct (load (w_fs w) r "sandboxes" x) as [?|] eqn:Hl; [done|]. split; [naive_solver|].
    intros id s [Hid Hs] Hn. destruct (list_find _ _) as [p|] eqn:Hf; [done|]. rewrite list_find_None, Forall_forall in Hf.
    eapply Hf; [|exact Hn]. apply elem_of_all_sandboxes; eauto.
  - destruct (load (w_fs w) r "sandboxes" x) as [s'|] eqn:Hl; [naive_solver|]. right.
    destruct (list_find _ _) as [[i s'']|] eqn:Hf; simpl in Hv; [|done]. injection Hv as ->.
    pose proof Hf as (Hi & Hn & _)%list_find_Some. split_and!; [done|done|..].
    + apply elem_of_all_sandboxes; [done|]. by eapply list_elem_of_lookup_2.
    + intros id s' Hs Hn'. destruct (sorted_first newer _ _ _ _ s' (all_sandboxes_sorted _ _) Hf) as [->|?]; try done.
      apply elem_of_all_sandboxes; eauto.
Qed.

(** ** Histories *)

Definition parents_good (σ : fs) r : Prop :=
  ∀ id c, good_id id → load σ r "checkpoints" id = Some c → good_id (c_Parent c).

Lemma history_loop_sound r fuel id w x w' :
  quiet → repo_wf r (w_fs w) → parents_good (w_fs w) r → good_id id → history_loop fuel r id w = (x, w') →
  w_fs w' = w_fs w ∧ ∀ l, x = Ok l → chain (w_fs w) r id l.
Proof.
  intros Hq. revert id w x w'. induction fuel as [|k IH]; intros id w x w' Hwf Hp Hid; simpl;
    (case_decide as He; [subst; intros [= <- <-]; split; [done|]; intros l [= <-]; constructor|]).
  - intros [= <- <-]. done.
  - destruct (wp_exists _ _ _ (wp_GetCheckpoint r id w Hwf Hid)) as (y & w1 & Hrun & Hfs & _ & Hy).
    unfold mbind, M_bind at 1. rewrite Hrun. destruct y as [e|c]; [intros [= <- <-]; done|].
    unfold M_bind. destruct (history_loop k r (c_Parent c) w1) as [y w2] eqn:Hk.
    apply IH in Hk as [Hfs2 Hl]; [|by rewrite Hfs..|by eapply Hp]. rewrite Hfs in *.
    destruct y as [l|e|]; intros [= <- <-]; (split; [done|]); [|done..]. intros l' [= <-].
    econstructor; try done. by apply Hl.
Qed.

(** C20 (history_exact): [History] ends with a list of checkpoints exactly when
    the parents of the sandbox's head reach a root, and it is that chain. *)
Theorem history_exact r x s l w :
  quiet → repo_wf r (w_fs w) → parents_good (w_fs w) r → good_id x →
  sandbox_named (w_fs w) r x = Some s → good_id (s_Head s) →
  (∃ w', History r x w = (Ok l, w') ∧ w_fs w' = w_fs w) ↔ chain (w_fs w) r (s_Head s) l.
Proof.
  intros Hq Hwf Hp Hx Hs Hh. unfold History.
  destruct (wp_exists _ _ _ (wp_GetSandbox r x w Hq Hwf Hx)) as (v & w1 & Hrun & Hfs & _ & Hv).
  rewrite Hs in Hv. destruct v as [e|s']; [done|]. injection Hv as <-.
  unfold mbind, M_bind, get_state. rewrite Hrun. split.
  - intros (w' & Hl & _). apply history_loop_sound in Hl as [_ Hl]; try done; rewrite ?Hfs in *; try done. by apply Hl.
  - intros Hl. rewrite <- Hfs in Hl, Hwf. pose proof (chain_bounded _ _ _ _ Hl) as Hb.
    destruct (wp_exists _ _ _ (wp_history_loop r _ (s_Head s) l w1 Hq Hwf Hl Hb)) as (y & w2 & Hrun2 & Hfs2 & _ & ->).
    exists w2. split; [done|congruence].
Qed.

End props.

(** ** A small repository *)

Definition small_repo : Repo := mkRepo ["repo"] ["repo"; "blobs"].
Definition ck1 : Checkpoint := mkCheckpoint "ck-1" "sbx-1" 0 "" "t" [] 0 0 0 0 0 "created" "" "" "" "".
Definition ck2 : Checkpoint := mkCheckpoint "ck-2" "sbx-1" 1 "ck-1" "t" ["ls"] 0 0 0 0 0 "" "" "" "" "".
Definition sbx1 : Sandbox := mkSandbox "sbx-1" "box" "process" "ck-2" "" 0 1.
Definition doc_node (b : bytes) : node := NFile (File o644 (Some <$> b) 0 0).
Definition repo_fs : fs :=
  <[["repo"; "work"] := NDir o755]> (<[["repo"; "checkpoints"] := NDir o755]> (<[["repo"; "sandboxes"] := NDir o755]>
  (<[["repo"; "blobs"] := NDir o755]> (<[["repo"] := NDir o755]> fs_root)))).
Definition small_fs : fs :=
  <[doc_file small_repo "checkpoints" "ck-1" := doc_node (json_MarshalIndent ck1)]>
  (<[doc_file small_repo "checkpoints" "ck-2" := doc_node (json_MarshalIndent ck2)]>
  (<[doc_file small_repo "sandboxes" "sbx-1" := doc_node (json_MarshalIndent sbx1)]> repo_fs)).
Definition small_world : world := World small_fs 0 ∅.

Lemma repo_nodes q n : repo_fs !! q = Some n →
  n = NDir o755 ∧ (q = [] ∨ q = ["repo"] ∨ ∃ d, d ∈ repo_dirs ∧ q = ["repo"; d]).
Proof.
  unfold repo_fs, fs_root. rewrite !lookup_insert_Some, lookup_singleton_Some.
  intros Hq. do 4 (destruct Hq as [[<- <-]|[_ Hq]];
    [split; [done|]; right; right; eexists; split; [|done]; unfold repo_dirs; set_solver|]).
  destruct Hq as [[<- <-]|[_ [<- <-]]]; split; auto.
Qed.

Lemma repo_fs_wf : repo_wf small_repo repo_fs.
Proof.
  split.
  - split; [by eexists|]. intros p c [n Hn]. apply repo_nodes in Hn as [_ Hq].
    destruct Hq as [Hq|[Hq|(d & Hd & Hq)]].
    + by destruct p.
    + destruct p as [|a p]; simplify_eq/=; [|by destruct p]. split; [by eexists|by repeat split].
    + destruct p as [|a [|b p]]; simplify_eq/=; [|by destruct p]. split; [by eexists|by apply repo_dir_name].
  - done.
  - intros d Hd. unfold repo_dirs in Hd. rewrite !elem_of_cons, elem_of_nil in Hd.
    destruct Hd as [->|[->|[->|[->|[]]]]]; by eexists.
  - intros d c n _ Hn. apply repo_nodes in Hn as [_ Hq].
    destruct Hq as [Hq|[Hq|(d' & Hd & Hq)]]; simplify_eq/=.
Qed.

Lemma small_wf : repo_wf small_repo small_fs.
Proof. repeat (apply repo_wf_doc; [|set_solver|done]). apply repo_fs_wf. Qed.

Lemma contents_doc b : contents (File o644 (Some <$> b) 0 0) = b.
Proof. unfold contents. simpl. rewrite <- list_fmap_compose. apply (list_fmap_id b). Qed.

Lemma small_dom : json_dom ck1 ∧ json_dom ck2 ∧ json_dom sbx1.
Proof.
  change (codec_dom ck1 ∧ codec_dom ck2 ∧ codec_dom sbx1). unfold codec_dom, checkpoint_codec, sandbox_codec.
  split_and!; try (vm_compute; done); by repeat constructor.
Qed.

Lemma load_doc {A} `{GoJSON A} σ r d id (v : A) :
  doc σ r d id = Some (json_MarshalIndent v) → json_dom v → load σ r d id = Some v.
Proof. intros Hd Hv. unfold load. rewrite Hd. by apply json_roundtrip_indent. Qed.

Lemma small_load_docs :
  load small_fs small_repo "checkpoints" "ck-1" = Some ck1 ∧
  load small_fs small_repo "checkpoints" "ck-2" = Some ck2 ∧
  load small_fs small_repo "sandboxes" "sbx-1" = Some sbx1.
Proof.
  destruct small_dom as (H1 & H2 & H3). unfold small_fs, doc_node.
  split_and!; (apply load_doc; [|assumption]); rewrite !doc_insert.
  - rewrite decide_True by done. by rewrite contents_doc.
  - rewrite decide_False by naive_solver. rewrite decide_True by done. by rewrite contents_doc.
  - rewrite !decide_False by naive_solver. rewrite decide_True by done. by rewrite contents_doc.
Qed.

Lemma small_parents : parents_good small_fs small_repo.
Proof.
  intros id c _ Hl. destruct (decide (id = "ck-1")) as [->|H1].
  { destruct small_load_docs as [He _]. rewrite He in Hl. by injection Hl as <-. }
  destruct (decide (id = "ck-2")) as [->|H2].
  { destruct small_load_docs as (_ & He & _). rewrite He in Hl. by injection Hl as <-. }
  unfold load, small_fs, doc_node in Hl. rewrite !doc_insert, !decide_False in Hl by naive_solver.
  unfold doc in Hl. destruct (repo_fs !! _) as [n|] eqn:E; [|done]. by apply repo_nodes in E as [-> _].
Qed.

#[local] Existing Instance calm.

(** C19 at a concrete input. *)
Lemma save_load_witness :
  ∃ x w1, SaveCheckpoint small_repo ck2 small_world = (match x with inl e => Err e | inr u => Ok u end, w1) ∧
    repo_wf small_repo (w_fs w1) ∧
    (∀ q, q ≠ doc_file small_repo "checkpoints" "ck-2" → w_fs w1 !! q = small_fs !! q) ∧
    (quiet → x = inr tt ∧ ∃ w2, GetCheckpoint small_repo "ck-2" w1 = (Ok ck2, w2) ∧ w_fs w2 = w_fs w1).
Proof. apply (save_load small_repo ck2 small_world small_wf); [done|apply small_dom]. Defined.

(** A sandbox looked up by its name. *)
Lemma sandbox_lookup_witness :
  ∃ v w', GetSandbox small_repo "box" small_world = (match v with inl e => Err e | inr s => Ok s end, w') ∧
    w_fs w' = small_fs ∧
    let found id s := good_id id ∧ load small_fs small_repo "sandboxes" id = Some s in
    match v with
    | inr s => found "box" s ∨
        (load (A:=Sandbox) small_fs small_repo "sandboxes" "box" = None ∧ s_Name s = "box" ∧ (∃ id, found id s) ∧
         ∀ id s', found id s' → s_Name s' = "box" → s_Created s' ≤ s_Created s)
    | inl _ => (∀ s, ¬ found "box" s) ∧ ∀ id s, found id s → s_Name s ≠ "box"
    end.
Proof. apply (sandbox_lookup small_repo "box" small_world calm_quiet small_wf). done. Defined.

(** C20 at a concrete input: two steps. *)
Lemma history_exact_witness :
  ∃ w', History small_repo "sbx-1" small_world = (Ok [ck2; ck1], w') ∧ w_fs w' = small_fs.
Proof.
  destruct small_load_docs as (H1 & H2 & H3).
  apply (history_exact small_repo "sbx-1" sbx1 [ck2; ck1] small_world calm_quiet small_wf small_parents); [done| |done|].
  - unfold sandbox_named. cbn [w_fs small_world]. by rewrite H3.
  - econstructor; [done|done|exact H2|]. econstructor; [done|done|exact H1|]. constructor.
Defined.

(** ** Documents are not replaced atomically *)

(** The disk is full when the document's bytes are written. *)
Definition disk_full_at (n : nat) : OsEnv :=
  {| fault := λ k, if decide (k = n) then Some ENOSPC else None; partial := λ _, 0%nat;
     entropy := N.of_nat; clock := λ _, 0; umask := 0x12; tempdir := ["tmp"]; getenv := λ _, "";
     device := 1; st_blocks := λ _ _, 0; link_mtime := λ _, 0 |}.

(** [putJSON] truncates the document before it writes it: a failed save of a
    sandbox loses the sandbox that was there. *)
Lemma save_loses_document :
  ∃ w', @SaveSandbox (disk_full_at 1) _ small_repo sbx1 small_world = (Err (Errno ENOSPC), w') ∧
    load (A:=Sandbox) small_fs small_repo "sandboxes" "sbx-1" = Some sbx1 ∧
    load (A:=Sandbox) (w_fs w') small_repo "sandboxes" "sbx-1" = None.
Proof.
  eexists. split; [vm_compute; reflexivity|]. split; [apply small_load_docs|vm_compute; reflexivity].
Qed.
