(* ===== verification/Backend.v ===== *)
(** * Backends (src/internal/engine/backend.go, process_backend.go)

    A backend runs the commands of a sandbox.  Its own state (machines, guest
    memory) has a type [B]; its operations run on the world and that state.
    The Go interfaces are classes; a type assertion such as
    [e.backend.(MemoryBackend)] is a field that may be absent.  Contexts, the
    environment and the output streams of a command are not modelled. *)

From S2P Require Import Prelude Sha256 Os Tree.
Import Tree.
Open Scope Z_scope.

Module Backend.

(** A machine's image as files; [None] is the empty path. *)
Record Image := mkImage {
  i_Memory : path;
  i_State : path;
  i_Disk : option path;
  i_BaseDisk : option path;
  i_MemoryIsDiff : bool;
  i_Base : string
}.

Class GuestFS (B : Type) := {
  ListFiles : string → M (world * B) (list Entry);
  ReadFile : string → string → M (world * B) bytes;
  WriteTree : string → Tree → (string → M world bytes) → M (world * B) unit
}.

Class MemoryBackend (B : Type) := {
  Boot : string → path → M (world * B) unit;
  Running : string → M (world * B) bool;
  Snapshot : string → path → string → M (world * B) Image;
  Rebase : string → string → M (world * B) unit;
  Resume : string → path → Image → M (world * B) unit;
  Shutdown : string → M (world * B) unit
}.

Class Backend (B : Type) := {
  Name : string;
  Exec : string → path → list string → M (world * B) Z;
  as_memory : option (MemoryBackend B);
  as_guest : option (GuestFS B)
}.

(** What running a child process does to the files: [cmd.Run] with the command
    and the directory, and how it ended. *)
Inductive exit := Exited (code : Z) | ExitError (code : Z) | RunError (e : gerr).
Class Processes := { cmd_Run : list string → path → M world exit }.

(** [cmd.Run] and the handling of its error, shared by the two backends that
    run local processes. *)
Definition run_child `{Processes} (command : list string) (dir : path) : M world Z :=
  r ← cmd_Run command dir;
  match r with
  | Exited _ => mret 0
  | ExitError code => mret code
  | RunError e => throw e
  end.

Definition process_exec `{Processes} {B} (sandboxID : string) (workDir : path) (command : list string) : M (world * B) Z :=
  match command with
  | [] => throw (Errorf "empty command")
  | _ => on_fst (run_child command workDir)
  end.

(** It keeps no state of its own. *)
Definition ProcessOn `{Processes} (B : Type) : Backend B := {|
  Name := "process"; Exec := process_exec; as_memory := None; as_guest := None
|}.
#[global] Instance ProcessBackend `{Processes} : Backend unit := ProcessOn unit.

End Backend.
