(* ===== verification/Engine.v ===== *)
(** * The engine (src/internal/engine/engine.go, memory.go, cache.go)

    The engine drives a backend and records every step as a checkpoint.  It
    runs on the world and the backend's state [B]. *)

From S2P Require Import Prelude Sha256 Json Os OsFacts Cas Parallel Chunked Tree Snap Model Repo Backend.
Import Cas Chunked Tree Snap Model Repo Backend.
Open Scope Z_scope.

Module Engine.

(** [strings.LastIndex(rel, "/")] and the rest: the last component. *)
Definition base_name (rel : string) : string := List.last (split_on slash rel) "".

(** [defaultIgnore]. *)
Definition defaultIgnore (rel : string) (isDir : bool) : bool :=
  let base := base_name rel in
  bool_decide (base = ".git") || bool_decide (base = ".vit") || bool_decide (rel = "lost+found").

(** [defer]: the deferred call runs whatever [m] returned. *)
Definition deferring {S A B} (d : M S B) (m : M S A) : M S A :=
  r ← attempt m; ignore d;; of_sum r.

(** The counts of a checkpoint. *)
Definition count_kind (k : kind) (l : list Change) : Z :=
  Z.of_nat (length (filter (λ ch, c_Kind ch = k) l)).

Definition set_image (c : Checkpoint) (mem state disk base : string) : Checkpoint :=
  mkCheckpoint (c_ID c) (c_Sandbox c) (c_Seq c) (c_Parent c) (c_TreeHash c) (c_Command c) (c_ExitCode c)
    (c_Created c) (c_Added c) (c_Modified c) (c_Deleted c) (c_Note c) mem state disk base.

Definition set_head (h : string) (s : Sandbox) : Sandbox :=
  mkSandbox (s_ID s) (s_Name s) (s_Backend s) h (s_ForkedFrom s) (s_Created s) (s_Steps s).
Definition add_step (s : Sandbox) : Sandbox :=
  mkSandbox (s_ID s) (s_Name s) (s_Backend s) (s_Head s) (s_ForkedFrom s) (s_Created s) (s_Steps s + 1).

(** ** The image cache *)

(** [strconv.Atoi] of a decimal number with an optional sign. *)
Definition atoi (s : string) : option Z :=
  let digits (b : bytes) : option Z :=
    if decide (b = []) then None else
    foldl (λ acc d, z ← acc; if Json.is_digit d then Some (z * 10 + (byte_to_Z d - 48)) else None) (Some 0) b in
  let r := match to_bytes s with
           | x2d :: b => Z.opp <$> digits b
           | x2b :: b => digits b
           | b => digits b
           end in
  z ← r; if decide (- 2 ^ 63 ≤ z < 2 ^ 63) then Some z else None.

(** Two's complement truncation to 64 bits. *)
Definition wrap64 (z : Z) : Z := (z + 2 ^ 63) mod 2 ^ 64 - 2 ^ 63.

Section cache.
Context `{OsEnv}.

(** [cacheLimit]: [int64(g) << 30] drops the high bits. *)
Definition cacheLimit : Z :=
  match atoi (getenv "VIT_CACHE_GIB") with
  | Some g => if decide (g > 0) then wrap64 (Z.shiftl g 30) else Z.shiftl 16 30
  | None => Z.shiftl 16 30
  end.

Definition cacheDir (r : Repo) : path := join (r_root r) "cache".

(** [diskUsage]: 512-byte blocks. *)
Definition diskUsage (p : path) (fi : node) : Z := st_blocks p fi * 512.

Definition mod_time (p : path) (fi : node) : Z :=
  match fi with NFile f => f_mtime f | _ => link_mtime p end.

Record item := mkItem { it_path : path; it_used : Z; it_mtime : Z }.
Definition older (a b : item) : Prop := it_mtime a ≤ it_mtime b.
#[global] Instance older_dec a b : Decision (older a b) := decide (it_mtime a ≤ it_mtime b).

(** The listing loop of [evictCache]. *)
Definition cache_item (dir : path) (acc : list item * Z) (en : dirent) : M world (list item * Z) :=
  let p := join dir (fst en) in
  fi ← attempt (os_Lstat p);
  mret (match fi with
        | inl _ => acc
        | inr n => if is_dir_node n then acc
                   else (acc.1 ++ [mkItem p (diskUsage p n) (mod_time p n)], acc.2 + diskUsage p n)
        end).

(** The removing loop: [total] is the bytes still cached. *)
Fixpoint evict_loop (keep : path) (total : Z) (items : list item) : M world unit :=
  match items with
  | [] => mret tt
  | it :: items' =>
      if decide (total ≤ cacheLimit) then mret tt else
      if decide (it_path it = keep) then evict_loop keep total items' else
      ignore (os_Remove (it_path it));;
      evict_loop keep (total - it_used it) items'
  end.

Definition evictCache (r : Repo) (keep : path) : M world unit :=
  ents ← attempt (os_ReadDir (cacheDir r));
  match ents with
  | inl _ => mret tt
  | inr l =>
      it ← fold_m (cache_item (cacheDir r)) ([], 0) l;
      evict_loop keep it.2 (merge_sort older it.1)
  end.

End cache.

Section engine.
Context `{OsEnv, Sched, GoJSON Manifest, GoJSON Tree, GoJSON Sandbox, GoJSON Checkpoint}.

(** [writeBlobTo]. *)
Definition writeBlobTo (r : Repo) (hash : string) (p : path) : M world unit :=
  data ← Get (r_cas r) hash; os_WriteFile p data o600.

Definition cachedImage (r : Repo) (hash ext : string) : M world path :=
  let dir := cacheDir r in
  os_MkdirAll dir o755;;
  let p := join dir (hash +:+ ext) in
  st ← attempt (os_Stat p);
  match st with
  | inr _ => now ← time_Now; ignore (os_Chtimes p now);; mret p
  | inl _ =>
      m ← attempt (ReadManifest (r_cas r) hash);
      match m with
      | inr _ => GetChunkedTo (r_cas r) hash p
      | inl _ => writeBlobTo r hash p
      end;;
      evictCache r p;;
      mret p
  end.

(** [filepath.Ext] of a name and [strings.TrimSuffix]. *)
Definition has_suffix (suf s : string) : bool :=
  bool_decide (String.length suf ≤ String.length s)%nat &&
  bool_decide (String.substring (String.length s - String.length suf) (String.length suf) s = suf).
Definition trim_suffix (suf s : string) : string :=
  if has_suffix suf s then String.substring 0 (String.length s - String.length suf) s else s.

(** [fileIdentity] (a base disk is a file). *)
Definition pretty_Z (z : Z) : string := of_bytes (Json.int_lit z).
Definition node_size (n : node) : Z := match n with NFile f => f_size f | _ => 0 end.
Definition node_ino (n : node) : Z := match n with NFile f => Z.of_nat (f_ino f) | _ => 0 end.
Definition fileIdentity (p : path) (fi : node) : string :=
  pretty_Z device +:+ ":" +:+ pretty_Z (node_ino fi) +:+ ":" +:+ pretty_Z (node_size fi) +:+ ":" +:+
  pretty_Z (mod_time p fi).

(** The index of base disks, [map[string]string]: [null] makes the map nil,
    which cannot be written to; a value that is no string is read as empty. *)
Definition known_add (m : gmap string string) (kv : string * Json.json) : gmap string string :=
  <[kv.1 := match kv.2 with Json.JStr s => s | _ => "" end]> m.
Definition known_of (b : bytes) : option (gmap string string) :=
  match Json.parse b with
  | Some Json.JNull => None
  | Some (Json.JObj l) => Some (foldl known_add ∅ l)
  | _ => Some ∅
  end.
Definition key_le (a b : string * string) : Prop := String.le a.1 b.1.
#[global] Instance key_le_dec a b : Decision (key_le a b) := _.
Definition known_json (m : gmap string string) : bytes :=
  Json.MarshalIndent (Json.JObj ((λ kv, (kv.1, Json.JStr kv.2)) <$> merge_sort key_le (map_to_list m))).

Definition baseHash (r : Repo) (p : path) : M world string :=
  real ← filepath_EvalSymlinks p;
  if decide (dir_of real = cacheDir r ∧ has_suffix ".base" (base_of real) = true)
  then mret (trim_suffix ".base" (base_of real)) else
  fi ← os_Stat real;
  let id := fileIdentity real fi in
  let idx := join (r_root r) "bases.json" in
  b ← attempt (os_ReadFile idx);
  let known := match b with inr b => known_of b | inl _ => Some ∅ end in
  let store :=
    hn ← PutChunked (r_cas r) real;
    let h := hn.1 in
    match known with
    | None => panic
    | Some m => os_WriteFile idx (known_json (<[id := h]> m)) o644;; mret h
    end in
  match known ≫= lookup id with
  | Some h => has ← Has (r_cas r) h; if has : bool then mret h else store
  | None => store
  end.

(** ** Machines (memory.go) *)

Context {B : Type} `{Backend B}.

Definition loadTree (r : Repo) (hash : string) : M world Tree :=
  b ← Get (r_cas r) hash;
  match json_Unmarshal b with
  | Some t => mret t
  | None => throw (Errorf "json: cannot unmarshal")
  end.

Definition machineRunning (id : string) : M (world * B) bool :=
  match as_memory with
  | Some mb => Running id
  | None => mret false
  end.

(** A cached image for each hash the checkpoint has. *)
Definition optional_image (r : Repo) (hash ext : string) : M world (option path) :=
  if decide (hash = "") then mret None else p ← cachedImage r hash ext; mret (Some p).

Definition bringUp (r : Repo) (targetID : string) (c : Checkpoint) (t : Tree) : M (world * B) unit :=
  match as_memory with
  | None => mret tt
  | Some mb =>
      if HasMemory c then
        mem ← on_fst (cachedImage r (c_MemHash c) ".mem");
        state ← on_fst (cachedImage r (c_StateHash c) ".state");
        disk ← on_fst (optional_image r (c_DiskHash c) ".disk");
        base ← on_fst (optional_image r (c_BaseHash c) ".base");
        Resume targetID (WorkDir r targetID) (mkImage mem state disk base false (c_MemHash c))
      else
        ignore (Shutdown targetID);;
        Boot targetID (WorkDir r targetID);;
        match as_guest with
        | Some g => WriteTree targetID t (Get (r_cas r))
        | None => mret tt
        end
  end.

Definition ensureMachine (r : Repo) (s : Sandbox) : M (world * B) unit :=
  match as_memory with
  | None => mret tt
  | Some mb =>
      up ← Running (s_ID s);
      if up : bool then mret tt else
      if decide (s_Head s = "") then Boot (s_ID s) (WorkDir r (s_ID s)) else
      c ← on_fst (GetCheckpoint r (s_Head s));
      t ← on_fst (loadTree r (c_TreeHash c));
      bringUp r (s_ID s) c t
  end.

(** The memory image the machine derives from: the head's, if it has one. *)
Definition head_base (r : Repo) (s : Sandbox) : M world string :=
  if decide (s_Head s = "") then mret "" else
  h ← attempt (GetCheckpoint r (s_Head s));
  mret (match h with inr head => if HasMemory head then c_MemHash head else "" | inl _ => "" end).

(** The image of a snapshot, stored: what [captureMachine] does in the
    temporary directory. *)
Definition store_image (r : Repo) (c : Checkpoint) (base : string) (img : Image) : M world Checkpoint :=
  mem ← (if i_MemoryIsDiff img
         then PutChunkedOverlay (r_cas r) (i_Memory img) (if decide (i_Base img = "") then base else i_Base img)
         else PutChunked (r_cas r) (i_Memory img));
  state ← PutFile (r_cas r) (i_State img);
  disk ← (match i_Disk img with
          | Some d => hn ← PutChunked (r_cas r) d; mret hn.1
          | None => mret (c_DiskHash c)
          end);
  bd ← (match i_BaseDisk img with Some d => baseHash r d | None => mret (c_BaseHash c) end);
  mret (set_image c mem.1 state.1 disk bd).

Definition captureMachine (r : Repo) (s : Sandbox) (c : Checkpoint) : M (world * B) Checkpoint :=
  match as_memory with
  | None => mret c
  | Some mb =>
      up ← Running (s_ID s);
      if negb up then mret c else
      dir ← on_fst (os_MkdirTemp "vit-snap-");
      deferring (on_fst (os_RemoveAll dir)) (
        base ← on_fst (head_base r s);
        img ← Snapshot (s_ID s) dir base;
        c' ← on_fst (store_image r c base img);
        Rebase (s_ID s) (c_MemHash c');;
        mret c')
  end.

(** One file of the guest: fetched if the store does not hold it, and checked
    against the hash the guest reported. *)
Definition fetch_entry `{GuestFS B} (r : Repo) (id : string) (ent : Entry) : M (world * B) unit :=
  if decide (e_Hash ent = "") then mret tt else
  has ← on_fst (Has (r_cas r) (e_Hash ent));
  if has : bool then mret tt else
  data ← attempt (ReadFile id (e_Path ent));
  match data with
  | inl e => throw (Wrap ("reading guest file " +:+ e_Path ent +:+ ": ") e)
  | inr data =>
      got ← on_fst (Put (r_cas r) data);
      if decide (got ≠ e_Hash ent) then throw (Errorf ("guest file " +:+ e_Path ent +:+ " changed while it was read"))
      else mret tt
  end.

Definition guestTree `{GuestFS B} (r : Repo) (id : string) : M (world * B) Tree :=
  entries ← attempt (ListFiles id);
  match entries with
  | inl e => throw (Wrap "listing guest files: " e)
  | inr l => for_each l (fetch_entry r id);; mret (mkTree (Sorted l))
  end.

(** ** Steps (engine.go) *)

(** The working tree, from the guest if it runs there. *)
Definition current_tree (r : Repo) (s : Sandbox) : M (world * B) Tree :=
  let host := on_fst (Tree.Snapshot (PutFile (r_cas r)) (Some defaultIgnore) (WorkDir r (s_ID s))) in
  match as_guest with
  | None => host
  | Some g => up ← machineRunning (s_ID s); if up : bool then guestTree r (s_ID s) else host
  end.

(** The parent's tree, if there is one (a parent that does not load counts as
    none; of a tree document with fields of another type the source keeps what
    [json.Unmarshal] decoded before the error). *)
Definition parent_tree (r : Repo) (s : Sandbox) : M world (option Tree) :=
  if decide (s_Head s = "") then mret None else
  pc ← attempt (GetCheckpoint r (s_Head s));
  match pc with
  | inl _ => mret None
  | inr pc => t ← attempt (loadTree r (c_TreeHash pc)); mret (match t with inr t => Some t | inl _ => None end)
  end.

(** [checkpoint]; a nil command is [None]. *)
Definition checkpoint (r : Repo) (s : Sandbox) (command : option (list string)) (code : Z) (note : string)
    : M (world * B) Checkpoint :=
  t ← current_tree r s;
  treeHash ← on_fst (Put (r_cas r) (json_Marshal t));
  parent ← on_fst (parent_tree r s);
  let changes := Tree.Diff parent t in
  id ← on_fst (newID "ck-");
  now ← on_fst time_Now;
  let c := mkCheckpoint id (s_ID s) (s_Steps s) (s_Head s) treeHash (default [] command) code now
             (count_kind added changes) (count_kind modified changes) (count_kind deleted changes) note
             "" "" "" "" in
  c ← (match command with Some _ => captureMachine r s c | None => mret c end);
  on_fst (SaveCheckpoint r c);;
  mret c.

(** [Create]. *)
Definition new_sandbox (name forkedFrom : string) : M world Sandbox :=
  id ← newID "sbx-";
  now ← time_Now;
  mret (mkSandbox id (if decide (name = "") then id else name) Name "" forkedFrom now 0).

Definition Create (r : Repo) (name : string) : M (world * B) Sandbox :=
  s ← on_fst (new_sandbox name "");
  on_fst (os_MkdirAll (WorkDir r (s_ID s)) o755);;
  c ← checkpoint r s None 0 "created";
  on_fst (SaveSandbox r (set_head (c_ID c) s));;
  mret (set_head (c_ID c) s).

(** [Run] changes the sandbox object it is given: the second component. *)
Definition Run (r : Repo) (command : list string) : M (world * B * Sandbox) Checkpoint :=
  x ← get_state;
  on_fst (ensureMachine r x.2);;
  code ← on_fst (Exec (s_ID x.2) (WorkDir r (s_ID x.2)) command);
  modify_snd add_step;;
  c ← on_fst (checkpoint r (add_step x.2) (Some command) code "");
  modify_snd (set_head (c_ID c));;
  on_fst (on_fst (SaveSandbox r (set_head (c_ID c) (add_step x.2))));;
  mret c.

Definition Stop (s : Sandbox) : M (world * B) unit :=
  match as_memory with Some mb => Shutdown (s_ID s) | None => mret tt end.

(** The tree captured at a checkpoint, and a file of it. *)
Definition TreeAt (r : Repo) (checkpointID : string) : M world Tree :=
  c ← GetCheckpoint r checkpointID; loadTree r (c_TreeHash c).

Definition ReadFileAt (r : Repo) (checkpointID p : string) : M world bytes :=
  t ← TreeAt r checkpointID;
  match Find t p with
  | None => throw (Errorf (p +:+ " is not in checkpoint " +:+ checkpointID))
  | Some ent =>
      if decide (e_Link ent ≠ "") then mret (to_bytes ("-> " +:+ e_Link ent) ++ [x0a])
      else if e_Dir ent then throw (Errorf (p +:+ " is a directory"))
      else Get (r_cas r) (e_Hash ent)
  end.

Definition DiffAt (r : Repo) (fromID toID : string) : M world (list Change) :=
  to ← TreeAt r toID;
  if decide (fromID = "") then mret (Tree.Diff None to) else
  from ← TreeAt r fromID;
  mret (Tree.Diff (Some from) to).

(** [Checkout] changes the sandbox object too. *)
Definition Checkout (r : Repo) (checkpointID : string) : M (world * B * Sandbox) unit :=
  x ← get_state;
  let s := x.2 in
  c ← on_fst (on_fst (GetCheckpoint r checkpointID));
  if decide (c_Sandbox c ≠ s_ID s)
  then throw (Errorf ("checkpoint " +:+ checkpointID +:+ " belongs to another sandbox; use fork")) else
  t ← on_fst (on_fst (loadTree r (c_TreeHash c)));
  on_fst (on_fst (Restore (StoreBlobs (r_cas r)) t (WorkDir r (s_ID s))));;
  on_fst (bringUp r (s_ID s) c t);;
  modify_snd (set_head (c_ID c));;
  on_fst (on_fst (SaveSandbox r (set_head (c_ID c) s))).

Definition Fork (r : Repo) (fromCheckpointID name : string) : M (world * B) Sandbox :=
  src ← on_fst (GetCheckpoint r fromCheckpointID);
  t ← on_fst (loadTree r (c_TreeHash src));
  s ← on_fst (new_sandbox name fromCheckpointID);
  on_fst (Restore (StoreBlobs (r_cas r)) t (WorkDir r (s_ID s)));;
  bringUp r (s_ID s) src t;;
  id ← on_fst (newID "ck-");
  now ← on_fst time_Now;
  let root := mkCheckpoint id (s_ID s) 0 "" (c_TreeHash src) [] 0 now 0 0 0 ("forked from " +:+ fromCheckpointID)
                (c_MemHash src) (c_StateHash src) (c_DiskHash src) "" in
  on_fst (SaveCheckpoint r root);;
  on_fst (SaveSandbox r (set_head (c_ID root) s));;
  mret (set_head (c_ID root) s).

End engine.
End Engine.
