(* ===== verification/EngineFacts.v ===== *)
(** * Facts about the engine, for backends without machines

    The process backend is one: the sandbox's files are the host's working
    directory, and a checkpoint is the tree of it. *)

From S2P Require Import Prelude Sha256 Os OsFacts Cas Parallel Blobs Chunked Tree TreeFacts Snap SnapFacts SnapProps Model Repo RepoFacts Backend Engine.
Import Cas Chunked Tree Snap Model Repo Backend Engine.
Open Scope Z_scope.

Section facts.
Context `{OsEnv, Sched, GoJSON Manifest, GoJSON Tree, GoJSON Sandbox, GoJSON Checkpoint}.
Context (U : bytes → Prop) {NC : NoCollision U} {B : Type} `{Backend B}.
Implicit Types (w : world) (r : Repo) (b : B).

(** ** Identifiers *)

Definition new_id (pre id : string) : Prop := ∃ t, id = pre +:+ hex_EncodeToString (n_bytes 6 (entropy t)).

Lemma new_id_good pre id : good_id pre → new_id pre id → good_id id ∧ (id = "" → pre = "").
Proof.
  intros Hp [t ->]. unfold good_id in *. split.
  - rewrite has_char_app, Hp. cbn [orb]. apply all_hex_name; [apply hex_encode_hex|].
    intros He. pose proof (hex_encode_length (n_bytes 6 (entropy t))) as Hl. by rewrite He in Hl.
  - by destruct pre.
Qed.

(** An identifier that may still be drawn once [n] calls are made. *)
Definition next_id (n : nat) (pre id : string) : Prop :=
  ∃ t, (n ≤ t)%nat ∧ id = pre +:+ hex_EncodeToString (n_bytes 6 (entropy t)).

Lemma next_id_new n pre id : next_id n pre id → new_id pre id.
Proof. intros (t & _ & ->). by exists t. Qed.

Lemma next_id_later n m pre id : (n ≤ m)%nat → next_id m pre id → next_id n pre id.
Proof. intros Hle (t & Ht & ->). exists t. split; [lia|done]. Qed.

Lemma wp_newID_next pre (Q : gerr + string → world → Prop) w :
  (∀ id, next_id (w_tick w) pre id → Q (inr id) (tick w)) → wp (newID pre) Q w.
Proof. intros HQ. unfold newID. wp_step. unfold wp, rand_Read. apply HQ. exists (w_tick w). split; [lia|done]. Qed.

Lemma wp_newID pre (Q : gerr + string → world → Prop) w :
  (∀ id, new_id pre id → Q (inr id) (tick w)) → wp (newID pre) Q w.
Proof. intros HQ. apply wp_newID_next. intros id Hid. by eapply HQ, next_id_new. Qed.

Lemma wp_time_Now (Q : gerr + Z → world → Prop) w : Q (inr (clock (w_tick w))) (tick w) → wp time_Now Q w.
Proof. done. Qed.

(** ** Trees of checkpoints *)

Definition tree_at (σ : fs) r (h : string) : option Tree := blob_of σ (r_cas r) h ≫= json_Unmarshal.

Lemma wp_loadTree r h w :
  store_wf (w_fs w) (r_cas r) → is_digest h = true →
  wp (loadTree r h) (λ x w', w_fs w' = w_fs w ∧ w_zero w' = w_zero w ∧
    match x with
    | inl _ => quiet → tree_at (w_fs w) r h = None
    | inr t => tree_at (w_fs w) r h = Some t
    end) w.
Proof.
  intros Hwf Hh. unfold loadTree, tree_at. wp_step. apply wp_Get; [done..| |].
  - intros b' w' Hfs Hz ->. simpl. destruct (json_Unmarshal b') as [t|]; wp_step; by split_and!.
  - intros e w' Hfs Hz Hq. split_and!; [done..|]. intros Hqu. by destruct (Hq Hqu) as [-> _].
Qed.

Lemma forward_GetCheckpoint r id : forward (GetCheckpoint r id).
Proof. unfold GetCheckpoint, getJSON. forward_solve. Qed.

Lemma forward_loadTree r h : forward (loadTree r h).
Proof. unfold loadTree, Get. forward_solve. Qed.

(** The tree of a sandbox's head. *)
Definition head_tree (σ : fs) r (s : Sandbox) : option Tree :=
  if decide (s_Head s = "") then None else
  pc ← load (A:=Checkpoint) σ r "checkpoints" (s_Head s); tree_at σ r (c_TreeHash pc).

Definition trees_named (σ : fs) r : Prop :=
  ∀ id c, good_id id → load (A:=Checkpoint) σ r "checkpoints" id = Some c → is_digest (c_TreeHash c) = true.

Lemma wp_parent_tree r s w :
  repo_wf r (w_fs w) → store_wf (w_fs w) (r_cas r) → trees_named (w_fs w) r → good_id (s_Head s) →
  wp (parent_tree r s) (λ x w', w_fs w' = w_fs w ∧ w_zero w' = w_zero w ∧
    ∃ p, x = inr p ∧ (quiet → p = head_tree (w_fs w) r s)) w.
Proof.
  intros Hwf Hst Hn Hid. unfold parent_tree, head_tree. case_decide; [wp_step; eauto|].
  wp_step. wp_step. wp_use wp_GetCheckpoint; [done|done|]. intros [e|pc] w1 (Hfs & Hz & Hv).
  - wp_step. split_and!; [done..|]. eexists. split; [done|]. intros Hq. by rewrite Hv.
  - wp_step. wp_step. wp_use wp_loadTree; [by rewrite Hfs|by eapply Hn|]. rewrite Hfs.
    intros x w2 (Hfs2 & Hz2 & Hx). wp_step. split_and!; [congruence..|]. eexists. split; [done|].
    intros Hq. rewrite Hv. simpl. destruct x; [by rewrite Hx|by symmetry].
Qed.

(** ** Recording a step *)

(** The store grew, and at most one document, [id] of [d], was written. *)
Definition recorded r (d id : string) (σ σ' : fs) : Prop :=
  ∃ σ1, store_step U (r_cas r) σ σ1 ∧ (σ' = σ1 ∨ ∃ f, σ' = <[doc_file r d id := NFile f]> σ1).

Lemma store_step_outside r σ d id f :
  repo_wf r σ → store_inv U (r_cas r) σ → d ∈ doc_dirs → good_id id →
  store_inv U (r_cas r) (<[doc_file r d id := NFile f]> σ) ∧
  (∀ q, below (r_cas r) q → <[doc_file r d id := NFile f]> σ !! q = σ !! q).
Proof.
  intros Hwf Hi Hd Hid.
  assert (∀ q, below (r_cas r) q → <[doc_file r d id := NFile f]> σ !! q = σ !! q) as Ha.
  { intros q Hq. rewrite lookup_insert_ne; [done|]. intros <-. rewrite (rw_cas _ _ Hwf) in Hq.
    by apply repo_blobs_disjoint in Hq. }
  split; [|done]. eapply store_inv_agree; [done| |done]. eapply rw_fs. by apply repo_wf_doc.
Qed.

Lemma recorded_facts r d id σ σ' :
  repo_wf r σ → d ∈ doc_dirs → good_id id → recorded r d id σ σ' →
  repo_wf r σ' ∧ store_inv U (r_cas r) σ' ∧
  (∀ h c, is_digest h = true → blob_of σ (r_cas r) h = Some c → blob_of σ' (r_cas r) h = Some c) ∧
  (∀ d' id', d' ∈ doc_dirs → ¬ (d' = d ∧ id' = id) → doc σ' r d' id' = doc σ r d' id') ∧
  (∀ q, ¬ below (r_cas r) q → q ≠ doc_file r d id → σ' !! q = σ !! q).
Proof.
  intros Hwf Hd Hid (σ1 & Hs & Hσ'). pose proof (repo_wf_store _ _ _ _ Hwf Hs) as Hwf1.
  pose proof (st_inv _ _ _ _ Hs) as Hi1. destruct Hσ' as [->|[f ->]].
  - split_and!; [done|done|apply Hs| |].
    + intros d' id' Hd' _. eapply doc_store; [apply Hwf|done|done].
    + intros q Hq _. by apply Hs.
  - destruct (store_step_outside r σ1 d id f Hwf1 Hi1 Hd Hid) as [Hi2 Ha]. split_and!; [by apply repo_wf_doc|done|..].
    + intros h c Hh Hc. rewrite (blob_of_agree σ1) by done. by apply Hs.
    + intros d' id' Hd' Hne. rewrite doc_insert, decide_False by naive_solver. eapply doc_store; [apply Hwf|done|done].
    + intros q Hq Hne. rewrite lookup_insert_ne by done. by apply Hs.
Qed.

(** The tree a step is compared with. *)
Definition parent_is (σ : fs) r (s : Sandbox) (p : option Tree) : Prop :=
  (s_Head s = "" ∧ p = None) ∨ (is_Some p ∧ head_tree σ r s = p).

(** What a recorded checkpoint says. *)
Record describes r (s : Sandbox) (cmd : option (list string)) (code : Z) (note : string) (σ σ' : fs)
    (c : Checkpoint) : Prop := {
  de_sandbox : c_Sandbox c = s_ID s;
  de_seq : c_Seq c = s_Steps s;
  de_parent : c_Parent c = s_Head s;
  de_command : c_Command c = default [] cmd;
  de_code : c_ExitCode c = code;
  de_created : ∃ n, c_Created c = clock n;
  de_note : c_Note c = note;
  de_image : c_MemHash c = "" ∧ c_StateHash c = "" ∧ c_DiskHash c = "" ∧ c_BaseHash c = "";
  de_doc : doc σ' r "checkpoints" (c_ID c) = Some (json_MarshalIndent c);
  de_tree : ∃ t, snapshot_of (Some defaultIgnore) (WorkDir r (s_ID s)) σ t ∧
    c_TreeHash c = hashOf (json_Marshal t) ∧ stored σ' (r_cas r) (json_Marshal t) ∧
    Forall (entry_stored (r_cas r) σ') (t_Entries t) ∧
    (quiet → ∀ p, parent_is σ r s p →
       c_Added c = count_kind added (Diff p t) ∧ c_Modified c = count_kind modified (Diff p t) ∧
       c_Deleted c = count_kind deleted (Diff p t))
}.

(** What a step needs of the repository and of the working directory. *)
Record step_ready r (s : Sandbox) (σ : fs) : Prop := {
  sr_repo : repo_wf r σ;
  sr_store : store_inv U (r_cas r) σ;
  sr_named : trees_named σ r;
  sr_head : good_id (s_Head s);
  sr_work : snapshot_pre U (r_cas r) (WorkDir r (s_ID s)) σ;
  sr_tree : ∀ t, snapshot_of (Some defaultIgnore) (WorkDir r (s_ID s)) σ t → U (json_Marshal t)
}.

Lemma head_tree_store r s σ σ' :
  repo_wf r σ → trees_named σ r → good_id (s_Head s) → store_step U (r_cas r) σ σ' →
  ∀ t, head_tree σ r s = Some t → head_tree σ' r s = Some t.
Proof.
  intros Hwf Hn Hid Hs t. unfold head_tree. case_decide; [done|]. unfold load at 1 2.
  rewrite (doc_store U r σ σ') by (apply Hwf || done || (right; left)). intros (pc & Hpc & Ht)%bind_Some.
  rewrite Hpc. simpl. unfold tree_at in *. apply bind_Some in Ht as (b' & Hb & Ht).
  rewrite (st_keep _ _ _ _ Hs (c_TreeHash pc) b'); [done|by eapply Hn|done].
Qed.

Lemma parent_is_store r s σ σ' p :
  repo_wf r σ → trees_named σ r → good_id (s_Head s) → store_step U (r_cas r) σ σ' →
  parent_is σ r s p → head_tree σ' r s = p.
Proof.
  intros Hwf Hn Hid Hs [[He ->]|[[t ->] Ht]]; [unfold head_tree; by rewrite decide_True|].
  by eapply head_tree_store.
Qed.

(** ** The step itself *)

Context (no_memory : as_memory (B:=B) = None) (no_guest : as_guest (B:=B) = None).

Lemma wp_current_tree r s w b :
  step_ready r s (w_fs w) →
  wp (current_tree r s) (λ x wb, grows U (r_cas r) w (λ t w',
    snapshot_of (Some defaultIgnore) (WorkDir r (s_ID s)) (w_fs w) t ∧
    Forall (entry_stored (r_cas r) (w_fs w')) (t_Entries t)) x wb.1) (w, b).
Proof.
  intros Hr. unfold current_tree. rewrite no_guest. wp_step.
  wp_use (wp_Snapshot U (Some defaultIgnore) (r_cas r) (WorkDir r (s_ID s)) (w_fs w)); [done|apply Hr|apply Hr|]. done.
Qed.

Lemma trees_named_store r σ σ' :
  r_cas r = r_root r ++ ["blobs"] → trees_named σ r → store_step U (r_cas r) σ σ' → trees_named σ' r.
Proof.
  intros Hc Hn Hs id c Hid Hl. apply (Hn id c Hid). unfold load in *.
  by rewrite (doc_store U r σ σ') in Hl by (done || (right; left)).
Qed.

Lemma live_agree r w w' : live (r_cas r) w → (∀ q, below (r_cas r) q → w_fs w' !! q = w_fs w !! q) → live (r_cas r) w'.
Proof. intros [Hq Hc] Ha. split; [done|]. by eapply store_clean_agree. Qed.

(** The outcome of [checkpoint], whatever fails. *)
Definition step_post r s cmd code note w (x : gerr + Checkpoint) w' : Prop :=
  ∃ id, new_id "ck-" id ∧ recorded r "checkpoints" id (w_fs w) (w_fs w') ∧ (memo_ok w → memo_ok w') ∧
    (∀ c, x = inr c → c_ID c = id ∧ describes r s cmd code note (w_fs w) (w_fs w') c) ∧
    (live (r_cas r) w → live (r_cas r) w' ∧ ∃ c, x = inr c).

Lemma step_post_fail {A} r s cmd code note w w' e e' (Post : A → world → Prop) :
  grows U (r_cas r) w Post (inl e) w' → step_post r s cmd code note w (inl e') w'.
Proof.
  intros [Hs Hm _ Hl]. exists ("ck-" +:+ hex_EncodeToString (n_bytes 6 (entropy 0))). split_and!; [by exists O| |done|done|].
  - exists (w_fs w'). split; [done|by left].
  - intros Hlive. by destruct (Hl Hlive) as [_ [? ?]].
Qed.

Lemma wp_checkpoint r s cmd code note w b :
  step_ready r s (w_fs w) →
  wp (checkpoint r s cmd code note) (λ x wb, step_post r s cmd code note w x wb.1) (w, b).
Proof.
  intros Hr. pose proof Hr as [Hwf Hi Hn Hh Hw HU]. unfold checkpoint. wp_step.
  eapply wp_mono; [by apply wp_current_tree|]. intros [e|t] [w1 b1] Hg; simpl in Hg; [by eapply step_post_fail|].
  destruct (gr_post _ _ _ _ _ _ Hg t eq_refl) as [Ht Hes]. simpl in Hes. wp_step. wp_step.
  wp_use (grows_Put U (r_cas r) (json_Marshal t)); [apply Hg|by apply HU|]. intros x w2 Hp.
  pose proof (grows_trans _ _ _ _ _ _ _ _ _ Hg Hp) as Hg2.
  destruct x as [e|h]; [by eapply step_post_fail|].
  destruct (gr_post _ _ _ _ _ _ Hp h eq_refl) as [-> Hst]. simpl in Hst.
  pose proof (gr_step _ _ _ _ _ _ Hg2) as Hs2. pose proof (repo_wf_store _ _ _ _ Hwf Hs2) as Hwf2.
  wp_step. wp_step. wp_use wp_parent_tree; [done|apply (st_inv _ _ _ _ Hs2)|eapply trees_named_store; [apply Hwf|done|done]|done|].
  intros x w3 (Hfs3 & Hz3 & p & -> & Hpar). wp_step. wp_step. apply wp_newID. intros id Hid.
  wp_step. wp_step. apply wp_time_Now. set (c := mkCheckpoint _ _ _ _ _ _ _ _ _ _ _ _ _ _ _ _).
  assert (good_id id) as Hgid by (eapply (new_id_good "ck-"); done).
  wp_step.
  assert (∀ bb, (match cmd with Some _ => captureMachine r s c | None => mret c end) bb = (Ok c, bb)) as Hcap.
  { intros bb. destruct cmd; [|done]. unfold captureMachine. by rewrite no_memory. }
  unfold wp at 1. rewrite Hcap. wp_step. wp_step.
  eapply wp_mono; [apply (wp_putJSON r "checkpoints" id c); simpl; [by rewrite Hfs3|right; left|done]|].
  intros x w4 (Hz4 & Hx). simpl in Hz4, Hx. rewrite Hfs3 in Hx.
  assert (memo_ok w → memo_ok w4) as Hmemo.
  { intros Hm. apply (gr_memo _ _ _ _ _ _ Hg2) in Hm. unfold memo_ok. by rewrite Hz4, Hz3. }
  assert (w_fs w4 = w_fs w2 ∨ ∃ f, w_fs w4 = <[doc_file r "checkpoints" id := NFile f]> (w_fs w2)) as Hshape
    by (destruct x; naive_solver).
  assert (recorded r "checkpoints" id (w_fs w) (w_fs w4)) as Hrec by by exists (w_fs w2).
  assert (∀ q, below (r_cas r) q → w_fs w4 !! q = w_fs w2 !! q) as Hag.
  { destruct Hshape as [->|[f ->]]; [done|]. eapply store_step_outside; [done|apply Hs2|right; left|done]. }
  assert (live (r_cas r) w → live (r_cas r) w4) as Hlive.
  { intros Hl. apply (gr_live _ _ _ _ _ _ Hg2) in Hl as [Hl _]. by eapply live_agree. }
  destruct x as [e|[]].
  - exists id. split_and!; [done..|]. intros Hl. destruct Hx as [[] _]. apply (Hlive Hl).
  - wp_step. exists id. split_and!; [done..| |eauto]. intros c' [= <-]. split; [done|].
    destruct Hx as (f & Hf & Hfs4). split; try done; [by eexists|..].
    + simpl. by rewrite Hfs4, doc_insert, decide_True, Hf.
    + exists t. split_and!; [done|done| | |].
      * unfold stored. rewrite (blob_of_agree (w_fs w2)) by done. exact Hst.
      * eapply Forall_impl; [exact Hes|]. intros e He H1' H2'. destruct (He H1' H2') as (b' & ? & ? & Hb).
        exists b'. split_and!; [done..|]. unfold stored. rewrite (blob_of_agree (w_fs w2)) by done.
        eapply stored_step; [apply (gr_step _ _ _ _ _ _ Hp)|done].
      * intros Hq p' Hp'. assert (p' = p) as ->; [|done]. rewrite (Hpar Hq). symmetry.
        eapply parent_is_store; [exact Hwf|exact Hn|exact Hh|exact Hs2|exact Hp'].
Qed.

End facts.
