(* ===== verification/StepFacts.v ===== *)
(** * Runs, browsing, checkouts and forks, for backends without machines *)

From S2P Require Import Prelude Sha256 Os OsFacts Cas Parallel Blobs Chunked Tree TreeFacts Snap SnapFacts SnapProps Model Repo RepoFacts Backend Engine EngineFacts.
Import Cas Chunked Tree Snap Model Repo Backend Engine.
Open Scope Z_scope.

Section facts.
Context `{OsEnv, Sched, GoJSON Manifest, GoJSON Tree, GoJSON Sandbox, GoJSON Checkpoint}.
Implicit Types (w : world) (r : Repo).

(** ** The working directory *)

Definition work_id (id : string) : Prop := good_id id ∧ good_name id.
Definition work_dir r (id : string) : path := (r_root r ++ ["work"]) ++ [id].

Lemma WorkDir_eq r id : work_id id → WorkDir r id = work_dir r id.
Proof. intros [Hid Hn]. unfold WorkDir. rewrite join_dir by (do 3 right; left). by apply join_good. Qed.

(** From [σ] to [σ'] only the working directory changed. *)
Record worked r (id : string) (σ σ' : fs) : Prop := {
  wk_fs : fs_wf σ';
  wk_frame : ∀ q, ¬ below (work_dir r id) q → σ' !! q = σ !! q
}.

Lemma work_apart r id q : below (r_root r ++ ["blobs"]) q → ¬ below (work_dir r id) q.
Proof.
  intros [k ->] [k' Hk]. unfold work_dir in Hk. rewrite <- !app_assoc in Hk. apply app_inv_head in Hk. by simplify_eq/=.
Qed.

Lemma work_not_doc r id d c : d ∈ doc_dirs → ¬ below (work_dir r id) ((r_root r ++ [d]) ++ [c]).
Proof.
  intros Hd [k Hk]. unfold work_dir in Hk. rewrite <- !app_assoc in Hk. apply app_inv_head in Hk. simplify_eq/=.
  unfold doc_dirs in Hd. set_solver.
Qed.

Lemma work_not_dir r id d : ¬ below (work_dir r id) (r_root r ++ [d]).
Proof. intros [k Hk]. apply (f_equal length) in Hk. unfold work_dir in Hk. rewrite !length_app in Hk. simpl in Hk. lia. Qed.

Lemma worked_doc r id σ σ' d x : worked r id σ σ' → d ∈ doc_dirs → doc σ' r d x = doc σ r d x.
Proof. intros Hw Hd. unfold doc. by rewrite (wk_frame _ _ _ _ Hw) by by apply work_not_doc. Qed.

Lemma worked_repo r id σ σ' : repo_wf r σ → worked r id σ σ' → repo_wf r σ'.
Proof.
  intros [Hfs Hcas Hdirs Hdocs] Hw. split; [apply Hw|done|..].
  - intros d Hd. destruct (Hdirs d Hd) as [m Hm]. exists m. by rewrite (wk_frame _ _ _ _ Hw) by apply work_not_dir.
  - intros d c n Hd. rewrite (wk_frame _ _ _ _ Hw) by by apply work_not_doc. by apply Hdocs.
Qed.

Lemma worked_blobs r id σ σ' : repo_wf r σ → worked r id σ σ' → ∀ q, below (r_cas r) q → σ' !! q = σ !! q.
Proof. intros Hwf Hw q Hq. apply Hw, work_apart. by rewrite <- (rw_cas _ _ Hwf). Qed.

Context (U : bytes → Prop) {NC : NoCollision U}.

Lemma worked_store r id σ σ' :
  repo_wf r σ → store_inv U (r_cas r) σ → worked r id σ σ' → store_inv U (r_cas r) σ'.
Proof. intros Hwf Hi Hw. eapply store_inv_agree; [done|apply Hw|by eapply worked_blobs]. Qed.

(** ** A command *)

(** The sandbox is in a healthy repository. *)
Record sandbox_ready r (s : Sandbox) (σ : fs) : Prop := {
  rd_repo : repo_wf r σ;
  rd_store : store_inv U (r_cas r) σ;
  rd_named : trees_named σ r;
  rd_id : work_id (s_ID s);
  rd_head : good_id (s_Head s)
}.

(** A directory that can be snapshotted, and whose tree is in the domain of its
    JSON form (names and link targets are UTF-8). *)
Record workable r (s : Sandbox) (σ : fs) : Prop := {
  wa_work : snapshot_pre U (r_cas r) (WorkDir r (s_ID s)) σ;
  wa_tree : ∀ t, snapshot_of (Some defaultIgnore) (WorkDir r (s_ID s)) σ t → U (json_Marshal t) ∧ json_dom t
}.

Context {B : Type} `{Backend B}.

(** The command stays in the working directory, and leaves one that can be
    snapshotted. *)
Definition behaves r s command w b : Prop :=
  wp (Exec (s_ID s) (WorkDir r (s_ID s)) command) (λ _ wb,
    worked r (s_ID s) (w_fs w) (w_fs wb.1) ∧ workable r s (w_fs wb.1)) (w, b).

Lemma ready_worked r s σ σ' :
  sandbox_ready r s σ → worked r (s_ID s) σ σ' → workable r s σ' → step_ready U r (add_step s) σ'.
Proof.
  intros [Hwf Hi Hn Hid Hh] Hw [Hp Ht]. split; try done; [| | |intros t Hs; by apply Ht].
  - by eapply worked_repo.
  - by eapply worked_store.
  - intros id c Hgid Hl. apply (Hn id c Hgid). unfold load in *.
    by rewrite (worked_doc _ _ σ σ') in Hl by (done || (right; left)).
Qed.

(** A document of another directory does not change what a checkpoint says. *)
Lemma describes_keep r s cmd code note σ σ1 σ2 c :
  describes r s cmd code note σ σ1 c →
  doc σ2 r "checkpoints" (c_ID c) = doc σ1 r "checkpoints" (c_ID c) →
  (∀ h x, is_digest h = true → blob_of σ1 (r_cas r) h = Some x → blob_of σ2 (r_cas r) h = Some x) →
  describes r s cmd code note σ σ2 c.
Proof.
  intros [? ? ? ? ? ? ? ? Hdoc (t & Ht & Hh & Hst & Hes & Hcnt)] Hd Hk. split; try done.
  - by rewrite Hd.
  - exists t. split_and!; [done|done| | |done].
    + apply Hk; [apply hashOf_digest|done].
    + eapply Forall_impl; [exact Hes|]. intros e He Hdir Hlink. destruct (He Hdir Hlink) as (x & Hx & Hsz & Hstx).
      exists x. split_and!; [done..|]. apply Hk; [apply hashOf_digest|done].
Qed.

(** What is kept whatever happens: every blob, and every document but the new
    checkpoint's and the sandbox's own; outside the store and the sandbox's
    working directory no other file changes. *)
Record kept r (ck sb : string) (σ σ' : fs) : Prop := {
  kp_repo : repo_wf r σ';
  kp_store : store_inv U (r_cas r) σ';
  kp_blobs : ∀ h x, is_digest h = true → blob_of σ (r_cas r) h = Some x → blob_of σ' (r_cas r) h = Some x;
  kp_docs : ∀ d id, d ∈ doc_dirs → (d, id) ≠ ("checkpoints", ck) → (d, id) ≠ ("sandboxes", sb) →
    doc σ' r d id = doc σ r d id;
  kp_frame : ∀ q, ¬ below (r_cas r) q → ¬ below (work_dir r sb) q →
    q ≠ doc_file r "checkpoints" ck → q ≠ doc_file r "sandboxes" sb → σ' !! q = σ !! q
}.

Lemma kept_worked r ck sb σ σ' :
  repo_wf r σ → store_inv U (r_cas r) σ → worked r sb σ σ' → kept r ck sb σ σ'.
Proof.
  intros Hwf Hi Hw. split.
  - by eapply worked_repo.
  - by eapply worked_store.
  - intros h x Hh Hx. by rewrite (blob_of_agree σ) by by eapply worked_blobs.
  - intros d id' Hd _ _. by apply (worked_doc r sb).
  - intros q _ Hq _ _. by apply Hw.
Qed.

Lemma kept_recorded r ck sb d id σ σ' :
  repo_wf r σ → d ∈ doc_dirs → good_id id → recorded U r d id σ σ' →
  (d, id) = ("checkpoints", ck) ∨ (d, id) = ("sandboxes", sb) → kept r ck sb σ σ'.
Proof.
  intros Hwf Hd Hid Hr Hwhich. destruct (recorded_facts U r d id σ σ' Hwf Hd Hid Hr) as (Hwf' & Hi' & Hb & Hdo & Hf).
  split; try done.
  - intros d' id' Hd' H1' H2'. apply Hdo; [done|]. intros [-> ->]. by destruct Hwhich.
  - intros q Hq _ H1' H2'. apply Hf; [done|]. by destruct Hwhich as [[= -> ->]|[= -> ->]].
Qed.

Lemma kept_trans r ck sb σ1 σ2 σ3 : kept r ck sb σ1 σ2 → kept r ck sb σ2 σ3 → kept r ck sb σ1 σ3.
Proof.
  intros [_ _ Hb1 Hd1 Hf1] [Hw2 Hi2 Hb2 Hd2 Hf2]. split; [done|done|eauto|..].
  - intros d id Hd Hn1 Hn2. by rewrite Hd2, Hd1.
  - intros q H1' H2' H3' H4'. by rewrite Hf2, Hf1.
Qed.

Lemma recorded_write r d id σ σ' :
  store_inv U (r_cas r) σ → (σ' = σ ∨ ∃ f, σ' = <[doc_file r d id := NFile f]> σ) → recorded U r d id σ σ'.
Proof. intros Hi Hs. exists σ. split; [by apply store_step_refl|done]. Qed.

End facts.

Section run.
Context `{OsEnv, Sched, GoJSON Manifest, GoJSON Tree, GoJSON Sandbox, GoJSON Checkpoint}.
Context (U : bytes → Prop) {NC : NoCollision U}.
Context {B : Type} `{Backend B}.
Context (no_memory : as_memory (B:=B) = None) (no_guest : as_guest (B:=B) = None).
Implicit Types (w : world) (r : Repo).

(** The outcome of [Run]. *)
Definition run_post r s command w b (x : gerr + Checkpoint) w' (s' : Sandbox) : Prop :=
  ∃ ck, new_id "ck-" ck ∧ kept U r ck (s_ID s) (w_fs w) (w_fs w') ∧
    (∀ c, x = inr c → ∃ code we be, let σe := w_fs we in
       Exec (s_ID s) (WorkDir r (s_ID s)) command (w, b) = (Ok code, (we, be)) ∧
       worked r (s_ID s) (w_fs w) σe ∧ workable U r s σe ∧ c_ID c = ck ∧ s' = set_head ck (add_step s) ∧
       describes r (add_step s) (Some command) code "" σe (w_fs w') c ∧
       (∀ q, below (work_dir r (s_ID s)) q → w_fs w' !! q = σe !! q) ∧
       doc (w_fs w') r "sandboxes" (s_ID s) = Some (json_MarshalIndent s')) ∧
    (live (r_cas r) w → live (r_cas r) w' ∧
       match (Exec (s_ID s) (WorkDir r (s_ID s)) command (w, b)).1 with
       | Ok code => ∃ c, x = inr c
       | _ => worked r (s_ID s) (w_fs w) (w_fs w') ∧ ∃ e, x = inl e
       end).

Lemma wp_Run r s command w b :
  sandbox_ready U r s (w_fs w) → behaves U r s command w b →
  wp (Run r command) (λ x wbs, run_post r s command w b x wbs.1.1 wbs.2) (w, b, s).
Proof.
  intros Hr Hb. pose proof Hr as [Hwf Hi Hn [Hid Hgn] Hh]. unfold Run. wp_step. wp_step. simpl. wp_step.
  wp_step. unfold ensureMachine. rewrite no_memory. wp_step. wp_step. wp_step.
  unfold behaves, wp in Hb. unfold wp at 1.
  destruct (Exec (s_ID s) (WorkDir r (s_ID s)) command (w, b)) as [[code|e|] [w1 b1]] eqn:Ex; [| |done];
    destruct Hb as [Hw1 Ha1]; simpl in Hw1, Ha1.
  2: { exists ("ck-" +:+ hex_EncodeToString (n_bytes 6 (entropy 0))). split_and!; [by exists O| |done|].
       - by eapply kept_worked.
       - intros Hl. rewrite Ex. simpl. split; [|eauto]. eapply live_agree; [done|by eapply worked_blobs]. }
  wp_step. wp_step. wp_step. wp_step.
  assert (step_ready U r (add_step s) (w_fs w1)) as Hr1 by by eapply ready_worked.
  assert (live (r_cas r) w → live (r_cas r) w1) as Hl1.
  { intros Hl. eapply live_agree; [done|by eapply worked_blobs]. }
  eapply wp_mono; [by apply wp_checkpoint|]. intros x [w2 b2] (ck & Hck & Hrec & _ & Hc & Hl2). simpl in *.
  assert (good_id ck) as Hgck by (eapply (new_id_good "ck-"); done).
  assert (kept U r ck (s_ID s) (w_fs w) (w_fs w2)) as Hk2.
  { eapply kept_trans; [by eapply kept_worked|]. eapply (kept_recorded U r ck (s_ID s) "checkpoints" ck); [apply Hr1|right; left|done|done|by left]. }
  destruct x as [e|c].
  { exists ck. split_and!; [done..|]. intros Hl. by destruct (Hl2 (Hl1 Hl)) as [_ [? ?]]. }
  destruct (Hc c eq_refl) as [Hcid Hdesc]. wp_step. wp_step. wp_step. wp_step. wp_step.
  set (s' := set_head (c_ID c) (add_step s)).
  eapply wp_mono; [apply (wp_putJSON r "sandboxes" (s_ID s) s'); [apply Hk2|left|done]|].
  intros x w3 (Hz3 & Hx).
  assert (recorded U r "sandboxes" (s_ID s) (w_fs w2) (w_fs w3)) as Hrec3.
  { apply recorded_write; [apply Hk2|]. destruct x; naive_solver. }
  assert (kept U r ck (s_ID s) (w_fs w2) (w_fs w3)) as Hk3
    by (eapply (kept_recorded U r ck (s_ID s) "sandboxes" (s_ID s)); [apply Hk2|left|done|done|by right]).
  assert (kept U r ck (s_ID s) (w_fs w) (w_fs w3)) as Hk by by eapply kept_trans.
  destruct x as [e|[]].
  { exists ck. split_and!; [done..|]. intros Hl. destruct Hx as [[] _]. apply Hl. }
  assert (live (r_cas r) w → live (r_cas r) w3) as Hl3.
  { intros Hl. destruct (Hl2 (Hl1 Hl)) as [Hl' _]. eapply live_agree; [exact Hl'|].
    destruct Hx as (f & _ & ->). eapply store_step_outside; [apply Hk2|apply Hk2|left|done]. }
  wp_step. exists ck. split_and!; [done..| |intros Hl; rewrite Ex; split; [by apply Hl3|by eexists]]. intros c' [= <-]. destruct Hx as (f & Hf & Hfs3).
  exists code, w1, b1. cbn zeta. split_and!; [done|done|done|done|rewrite <- Hcid; done| | |].
  - eapply describes_keep; [exact Hdesc| |apply Hk3]. simpl. by rewrite Hfs3, doc_insert, decide_False by naive_solver.
  - intros q Hq. simpl. rewrite Hfs3, lookup_insert_ne by (intros <-; by apply work_not_doc in Hq; [|left]).
    eapply (recorded_facts U r "checkpoints" ck); [apply Hr1|right; left|done|done|..].
    + rewrite (rw_cas _ _ Hwf). intros Hb'. by apply (work_apart r (s_ID s)) in Hb'.
    + intros ->. apply work_not_doc in Hq; [done|right; left].
  - simpl. by rewrite Hfs3, doc_insert, decide_True, Hf.
Qed.

End run.

(** ** Browsing a past step *)

Section past.
Context `{OsEnv, Sched, GoJSON Manifest, GoJSON Tree, GoJSON Sandbox, GoJSON Checkpoint}.
Context (U : bytes → Prop) {NC : NoCollision U}.
Implicit Types (w : world) (r : Repo).

Lemma find_entry (l : list Entry) e :
  NoDup (e_Path <$> l) → e ∈ l → find (λ x, bool_decide (e_Path x = e_Path e)) l = Some e.
Proof.
  induction l as [|x l IH]; [by intros _ ?%not_elem_of_nil|]. rewrite fmap_cons, NoDup_cons. intros [Hx Hl] He. simpl.
  apply elem_of_cons in He as [->|He]; [by rewrite bool_decide_true|]. rewrite bool_decide_false; [by apply IH|].
  intros Heq. apply Hx. rewrite Heq. by apply list_elem_of_fmap_2.
Qed.

Lemma rel_no_dot cs : cs ≠ [] → Forall good_name cs → Forall (λ c, has_char slash c = false) cs →
  trim_prefix "./" (join_with "/" cs) = join_with "/" cs.
Proof.
  intros Hne Hg Hs. unfold trim_prefix. destruct (has_prefix "./" (join_with "/" cs)) eqn:E; [|done]. exfalso.
  apply has_prefix_inv in E as [k Hk]. apply (f_equal (split_on slash)) in Hk. rewrite (split_join slash) in Hk by done.
  change ("./" +:+ k) with ("." +:+ String slash k) in Hk. rewrite split_on_app_sep in Hk by done. subst cs.
  inversion Hg as [|?? (_ & Hc & _) _]. done.
Qed.

(** What showing a node gives. *)
Definition shown (n : option node) (x : gerr + bytes) : Prop :=
  match n with
  | Some (NFile f) => x = inr (contents f)
  | Some (NLink l) => x = inr (to_bytes ("-> " +:+ l) ++ [x0a])
  | Some (NDir _) | Some (NOther _) | None => ∃ m, x = inl (Errorf m)
  end.

(** A checkpoint of a sandbox whose working directory was as in [σe], still
    readable in [σ]. *)
Record remembers r (s : Sandbox) (σe σ : fs) (c : Checkpoint) : Prop := {
  rm_past : fs_wf σe;
  rm_work : snapshot_pre U (r_cas r) (WorkDir r (s_ID s)) σe;
  rm_json : json_dom c ∧ ∀ t, snapshot_of (Some defaultIgnore) (WorkDir r (s_ID s)) σe t → json_dom t;
  rm_id : good_id (c_ID c);
  rm_repo : repo_wf r σ;
  rm_store : store_inv U (r_cas r) σ;
  rm_sandbox : c_Sandbox c = s_ID s;
  rm_memory : HasMemory c = false;
  rm_doc : doc σ r "checkpoints" (c_ID c) = Some (json_MarshalIndent c);
  rm_tree : ∃ t, snapshot_of (Some defaultIgnore) (WorkDir r (s_ID s)) σe t ∧
    c_TreeHash c = hashOf (json_Marshal t) ∧ stored σ (r_cas r) (json_Marshal t) ∧
    Forall (entry_stored (r_cas r) σ) (t_Entries t)
}.

Lemma remembers_load r s σe σ c :
  remembers r s σe σ c → load σ r "checkpoints" (c_ID c) = Some c ∧ is_digest (c_TreeHash c) = true ∧
    ∃ t, tree_at σ r (c_TreeHash c) = Some t ∧ snapshot_of (Some defaultIgnore) (WorkDir r (s_ID s)) σe t ∧
      Forall (entry_stored (r_cas r) σ) (t_Entries t).
Proof.
  intros Hr. destruct (rm_tree _ _ _ _ _ Hr) as (t & Ht & Hh & Hst & Hes). destruct (rm_json _ _ _ _ _ Hr) as [Hc Hj].
  split_and!.
  - unfold load. rewrite (rm_doc _ _ _ _ _ Hr). simpl. by apply json_roundtrip_indent.
  - rewrite Hh. apply hashOf_digest.
  - exists t. split_and!; try done. unfold tree_at. rewrite Hh. unfold stored in Hst. rewrite Hst. simpl.
    by apply json_roundtrip, Hj.
Qed.

Lemma wp_TreeAt r s σe c w :
  quiet → remembers r s σe (w_fs w) c →
  wp (TreeAt r (c_ID c)) (λ x w', w_fs w' = w_fs w ∧ w_zero w' = w_zero w ∧ ∃ t, x = inr t ∧
    tree_at (w_fs w) r (c_TreeHash c) = Some t) w.
Proof.
  intros Hq Hr. destruct (remembers_load _ _ _ _ _ Hr) as (Hl & Hd & t & Ht & _). unfold TreeAt. wp_step.
  wp_use wp_GetCheckpoint; [apply Hr|apply Hr|]. rewrite Hl. intros [e|c'] w1 (Hfs & Hz & Hx); [by specialize (Hx Hq)|].
  injection Hx as <-. wp_use wp_loadTree; [rewrite Hfs; apply Hr|done|]. rewrite Hfs.
  intros [e|t'] w2 (Hfs2 & Hz2 & Ht'); [by rewrite Ht' in Ht|]. split_and!; [congruence..|]. by exists t'.
Qed.

Lemma entry_of_link rel n e : entry_of rel n = Some e → e_Link e ≠ "" → ∃ l, n = NLink l ∧ e_Link e = l.
Proof. destruct n; simpl; intros [= <-]; simpl; try done. eauto. Qed.

Lemma wp_ReadFileAt r s σe c cs w :
  quiet → remembers r s σe (w_fs w) c →
  cs ≠ [] → Forall good_name cs → Forall (λ c, has_char slash c = false) cs →
  wp (ReadFileAt r (c_ID c) (join_with "/" cs)) (λ x w', w_fs w' = w_fs w ∧
    (visible (Some defaultIgnore) (WorkDir r (s_ID s)) σe cs → shown (σe !! (WorkDir r (s_ID s) ++ cs)) x) ∧
    (¬ visible (Some defaultIgnore) (WorkDir r (s_ID s)) σe cs → shown None x)) w.
Proof.
  intros Hq Hr Hne Hg Hsl. destruct (remembers_load _ _ _ _ _ Hr) as (_ & _ & t & Ht & Hso & Hes).
  unfold ReadFileAt. wp_step. wp_use wp_TreeAt; [done|done|]. rewrite Ht. intros x w1 (Hfs & Hz & t' & -> & Ht').
  injection Ht' as <-. unfold Find. rewrite rel_no_dot by done.
  destruct (find _ (t_Entries t)) as [e|] eqn:Hf.
  - apply List.find_some in Hf as [He Hp]. apply bool_decide_eq_true in Hp. apply list_elem_of_In in He.
    pose proof He as He'. apply (so_entries _ _ _ _ Hso) in He' as (cs' & nd & Hne' & Hnd & Hv & Hen).
    assert (cs' = cs) as ->.
    { rewrite (entry_of_path _ _ _ Hen) in Hp. apply (f_equal (split_on slash)) in Hp.
      rewrite !(split_join slash) in Hp; try done. apply (sp_names _ _ _ _ (rm_work _ _ _ _ _ Hr)). by eexists. }
    rewrite Forall_forall in Hes. specialize (Hes e He). rewrite Hnd. destruct nd as [f|m|l|m]; simpl in Hen; [..|done].
    + injection Hen as <-. cbn [e_Link e_Dir e_Hash]. rewrite decide_False by naive_solver.
      destruct (Hes eq_refl eq_refl) as (b' & Hh & _ & Hst). simpl in Hh.
      assert (b' = contents f) as ->.
      { eapply no_collision; [|eapply (sp_U _ _ _ _ (rm_work _ _ _ _ _ Hr)); [by eexists|done]|done].
        eapply (si_in _ _ _ (rm_store _ _ _ _ _ Hr)); [apply hashOf_digest|exact Hst]. }
      apply wp_Get; [rewrite Hfs; apply Hr|apply hashOf_digest|..]; rewrite Hfs; unfold stored in Hst; rewrite Hst.
      * intros b' w2 Hfs2 _ [= <-]. split_and!; [congruence|done|naive_solver].
      * intros e w2 _ _ Hx. by destruct (Hx Hq).
    + injection Hen as <-. cbn [e_Link e_Dir e_Hash]. rewrite decide_False by naive_solver. wp_step. split_and!; [done|intros _; by eexists|naive_solver].
    + injection Hen as <-. cbn [e_Link e_Dir e_Hash]. rewrite decide_True.
      * wp_step. split_and!; [done|done|naive_solver].
      * eapply (sp_links _ _ _ _ (rm_work _ _ _ _ _ Hr)); [by eexists|done].
  - wp_step. split_and!; [done| |intros _; by eexists]. intros Hv.
    destruct (σe !! (WorkDir r (s_ID s) ++ cs)) as [nd|] eqn:Hnd; [|by eexists].
    destruct (entry_of (join_with "/" cs) nd) as [e|] eqn:Hen; [|destruct nd; simpl in Hen; try done; by eexists].
    exfalso. assert (e ∈ t_Entries t) as He by (apply (so_entries _ _ _ _ Hso); by exists cs, nd).
    eapply List.find_none in Hf; [|by apply list_elem_of_In]. apply bool_decide_eq_false in Hf.
    by rewrite (entry_of_path _ _ _ Hen) in Hf.
Qed.

(** ** Going back to a step *)

(** No symbolic link stands where a file or a directory was. *)
Definition no_links r (s : Sandbox) (σe σ : fs) : Prop := ∀ cs nd l,
  visible (Some defaultIgnore) (WorkDir r (s_ID s)) σe cs →
  σe !! (WorkDir r (s_ID s) ++ cs) = Some nd → σ !! (WorkDir r (s_ID s) ++ cs) = Some (NLink l) →
  match nd with NFile _ | NDir _ => False | _ => True end.

(** Something that is no directory stands where a directory was, or something that
    is no file where a file was. *)
Definition other_kind r (s : Sandbox) (σe σ : fs) : Prop := ∃ cs nd nd', cs ≠ [] ∧
  visible (Some defaultIgnore) (WorkDir r (s_ID s)) σe cs ∧
  σe !! (WorkDir r (s_ID s) ++ cs) = Some nd ∧ σ !! (WorkDir r (s_ID s) ++ cs) = Some nd' ∧
  match nd, nd' with NDir _, NDir _ | NFile _, NFile _ => False | NDir _, _ | NFile _, _ => True | _, _ => False end.

Lemma restored_worked r id root t σ σ1 :
  work_id id → restored root (WorkDir r id) t σ σ1 → worked r id σ σ1.
Proof. intros Hid [Hwf _ _ _ Hf]. split; [done|]. intros q Hq. apply Hf. by rewrite WorkDir_eq. Qed.

Lemma contained_worked r id σ σ1 : work_id id → contained (WorkDir r id) σ σ1 → worked r id σ σ1.
Proof. intros Hid [Hwf _ Hf]. split; [done|]. intros q Hq. apply Hf. by rewrite WorkDir_eq. Qed.

Lemma remembers_restore r s σe σ c t :
  work_id (s_ID s) → remembers r s σe σ c → snapshot_of (Some defaultIgnore) (WorkDir r (s_ID s)) σe t →
  Forall (entry_stored (r_cas r) σ) (t_Entries t) →
  ∀ id, work_id id →
  (is_dir σ (WorkDir r id) ∨ σ !! WorkDir r id = None) →
  (∀ cs, is_Some (σ !! (WorkDir r id ++ cs)) → Forall (λ c, has_char slash c = false) cs) →
  (∀ e, e ∈ t_Entries t → ¬ link_in_way e (σ !! (WorkDir r id ++ cs_of e))) →
  restore_able U (r_cas r) (WorkDir r id) t σ.
Proof.
  intros Hsid Hr Ht Hes id Hid Hdst Hnames Hkind. split; try done.
  - eapply snapshot_tree_ok; [apply Hr|apply Hr|exact Ht].
  - apply Hr.
  - intros cs Hb. rewrite (rw_cas _ _ (rm_repo _ _ _ _ _ Hr)) in Hb. apply (work_apart _ id) in Hb. apply Hb.
    rewrite WorkDir_eq by done. by eexists.
  - destruct Hdst as [Hd|Hn]; [by left|right]. exists (r_root r ++ ["work"]), id. rewrite WorkDir_eq in * by done.
    split_and!; [done| |apply Hid|done]. apply Hr. do 3 right; left.
  - by apply Forall_forall.
Qed.

(** The node of an entry, and what the entry says of it. *)
Lemma entry_node r s σe t e :
  fs_wf σe → snapshot_pre U (r_cas r) (WorkDir r (s_ID s)) σe →
  snapshot_of (Some defaultIgnore) (WorkDir r (s_ID s)) σe t → e ∈ t_Entries t →
  ∃ nd, visible (Some defaultIgnore) (WorkDir r (s_ID s)) σe (cs_of e) ∧ σe !! (WorkDir r (s_ID s) ++ cs_of e) = Some nd ∧
    match nd with
    | NDir _ => e_Dir e = true
    | NLink _ => e_Dir e = false ∧ e_Link e ≠ ""
    | NFile _ => e_Dir e = false ∧ e_Link e = ""
    | NOther _ => False
    end.
Proof.
  intros Hwf Hpre Ht He. destruct (snapshot_entry _ _ _ _ _ _ _ Hwf Hpre Ht He) as (nd & Hne & Hnd & Hv & Hen). exists nd. split_and!; [done|done|].
  destruct nd as [f|m|l|m]; simpl in Hen; [injection Hen as Hen..|done];
    pose proof (f_equal e_Dir Hen) as Hd; pose proof (f_equal e_Link Hen) as Hl; simpl in Hd, Hl; try done.
  split; [done|]. rewrite <- Hl. eapply (sp_links _ _ _ _ Hpre); [by eexists|done].
Qed.

Lemma entry_unlinked r s σe σ t e :
  fs_wf σe → snapshot_pre U (r_cas r) (WorkDir r (s_ID s)) σe →
  snapshot_of (Some defaultIgnore) (WorkDir r (s_ID s)) σe t → no_links r s σe σ →
  e ∈ t_Entries t → ¬ link_in_way e (σ !! (WorkDir r (s_ID s) ++ cs_of e)).
Proof.
  intros Hwf Hpre Ht Hc He Hl. destruct (entry_node _ _ _ _ _ Hwf Hpre Ht He) as (nd & Hv & Hnd & Hk).
  destruct (σ !! (WorkDir r (s_ID s) ++ cs_of e)) as [[f|m|l|m]|] eqn:E; try done. specialize (Hc _ _ _ Hv Hnd E).
  destruct nd; try done. destruct Hk as [Hd Hne]. cbn in Hl. destruct Hl; congruence.
Qed.

Lemma blocked_other r s σe σ t :
  fs_wf σe → snapshot_pre U (r_cas r) (WorkDir r (s_ID s)) σe → snapshot_of (Some defaultIgnore) (WorkDir r (s_ID s)) σe t →
  blocked t (WorkDir r (s_ID s)) σ ↔ other_kind r s σe σ.
Proof.
  intros Hwf Hpre Ht. split.
  - intros (e & He & Hc). destruct (entry_node _ _ _ _ _ Hwf Hpre Ht He) as (nd & Hv & Hnd & Hk).
    destruct (σ !! (WorkDir r (s_ID s) ++ cs_of e)) as [nd'|] eqn:E; [|done]. exists (cs_of e), nd, nd'. split_and!; [apply cs_of_not_nil|done..|].
    unfold clash in Hc. destruct nd; try done.
    + destruct Hk as [Hd Hl]. rewrite Hd, Hl, decide_False in Hc by naive_solver. by destruct nd'.
    + rewrite Hk in Hc. by destruct nd'.
    + destruct Hk as [Hd Hl]. by rewrite Hd, decide_True in Hc.
  - intros (cs & nd & nd' & Hne & Hv & Hnd & Hnd' & Hk).
    destruct (entry_of (join_with "/" cs) nd) as [e|] eqn:Hen; [|by destruct nd].
    assert (e ∈ t_Entries t) as He by (apply (so_entries _ _ _ _ Ht); by exists cs, nd).
    assert (cs_of e = cs) as Hcs.
    { unfold cs_of. rewrite (entry_of_path _ _ _ Hen). apply (split_join slash); first [done|apply (sp_names _ _ _ _ Hpre); by eexists]. }
    exists e. split; [done|]. rewrite Hcs, Hnd'. destruct (entry_node _ _ _ _ _ Hwf Hpre Ht He) as (nd2 & _ & Hnd2 & Hk2).
    rewrite Hcs, Hnd in Hnd2. injection Hnd2 as <-. unfold clash. destruct nd; try done.
    + destruct Hk2 as [-> ->]. rewrite decide_False by naive_solver. by destruct nd'.
    + rewrite Hk2. by destruct nd'.
Qed.

(** The outcome of a restore of a remembered tree, as a copy of the past. *)
Definition brought_back r (s : Sandbox) (id : string) (σe σ σ' : fs) : Prop :=
  (∀ cs, cs ≠ [] → visible (Some defaultIgnore) (WorkDir r (s_ID s)) σe cs →
     restored_as (σ !! (WorkDir r id ++ cs)) (σe !! (WorkDir r (s_ID s) ++ cs)) (σ' !! (WorkDir r id ++ cs))) ∧
  (∀ cs, cs ≠ [] → is_Some (σ' !! (WorkDir r id ++ cs)) →
     visible (Some defaultIgnore) (WorkDir r (s_ID s)) σe cs ∧ is_Some (σe !! (WorkDir r (s_ID s) ++ cs))).

Lemma restored_brought_back r s id σe σ σ' c t :
  remembers r s σe σ c → snapshot_of (Some defaultIgnore) (WorkDir r (s_ID s)) σe t →
  Forall (entry_stored (r_cas r) σ) (t_Entries t) →
  restored (r_cas r) (WorkDir r id) t σ σ' → brought_back r s id σe σ σ'.
Proof.
  intros Hr Ht Hes Hres. pose proof (rm_past _ _ _ _ _ Hr) as Hwf. pose proof (rm_work _ _ _ _ _ Hr) as Hpre. split.
  - intros cs Hne Hv. eapply entry_copied; try done; [|by apply Forall_forall].
    intros b' Hb. eapply (si_in _ _ _ (rm_store _ _ _ _ _ Hr)); [apply hashOf_digest|exact Hb].
  - intros cs Hne Hs. destruct (rs_only _ _ _ _ _ Hres cs Hne Hs) as (e & He & <-).
    destruct (snapshot_entry _ _ _ _ _ _ _ Hwf Hpre Ht He) as (nd & _ & Hnd & Hv & _). split; [done|by eexists].
Qed.

Lemma brought_back_doc r s id d x f σe σ σ' :
  work_id id → d ∈ doc_dirs → brought_back r s id σe σ σ' → brought_back r s id σe σ (<[doc_file r d x := NFile f]> σ').
Proof.
  intros Hid Hd [H1' H2'].
  assert (∀ cs, doc_file r d x ≠ WorkDir r id ++ cs) as Hne.
  { intros cs He. apply (work_not_doc r id d (x +:+ ".json") Hd). rewrite <- WorkDir_eq by done.
    unfold doc_file in He. rewrite He. by eexists. }
  split; intros cs; rewrite lookup_insert_ne by done; auto.
Qed.

End past.

Section back.
Context `{OsEnv, Sched, GoJSON Manifest, GoJSON Tree, GoJSON Sandbox, GoJSON Checkpoint}.
Context (U : bytes → Prop) {NC : NoCollision U}.
Context {B : Type} `{Backend B}.
Context (no_memory : as_memory (B:=B) = None) (no_guest : as_guest (B:=B) = None).
Implicit Types (w : world) (r : Repo).

Lemma bringUp_none r id c t wb : bringUp r id c t wb = (Ok (), wb).
Proof. unfold bringUp. by rewrite no_memory. Qed.

(** A checkpoint whose tree is whole. *)
Record readable r (σ : fs) (c : Checkpoint) (t : Tree) : Prop := {
  re_repo : repo_wf r σ;
  re_store : store_inv U (r_cas r) σ;
  re_id : good_id (c_ID c);
  re_load : load σ r "checkpoints" (c_ID c) = Some c;
  re_digest : is_digest (c_TreeHash c) = true;
  re_tree : tree_at σ r (c_TreeHash c) = Some t
}.

Lemma remembers_readable r s σe σ c : remembers U r s σe σ c → ∃ t, readable r σ c t ∧
  snapshot_of (Some defaultIgnore) (WorkDir r (s_ID s)) σe t ∧ Forall (entry_stored (r_cas r) σ) (t_Entries t).
Proof.
  intros Hr. destruct (remembers_load _ _ _ _ _ _ Hr) as (Hl & Hd & t & Ht & Hso & Hes). exists t.
  split_and!; [|done..]. split; try done; apply Hr.
Qed.

(** A checkout: it goes back, or something of another kind is in the way of the
    tree and only the working directory changed. *)
Lemma wp_Checkout_able r s c t w b :
  quiet → work_id (s_ID s) → readable r (w_fs w) c t → c_Sandbox c = s_ID s →
  restore_able U (r_cas r) (WorkDir r (s_ID s)) t (w_fs w) →
  wp (Checkout r (c_ID c)) (λ x wbs, match x with
    | inr _ => ¬ blocked t (WorkDir r (s_ID s)) (w_fs w) ∧ wbs.2 = set_head (c_ID c) s ∧
        kept U r "" (s_ID s) (w_fs w) (w_fs wbs.1.1) ∧
        (∃ σ1 f, restored (r_cas r) (WorkDir r (s_ID s)) t (w_fs w) σ1 ∧
           w_fs wbs.1.1 = <[doc_file r "sandboxes" (s_ID s) := NFile f]> σ1) ∧
        doc (w_fs wbs.1.1) r "sandboxes" (s_ID s) = Some (json_MarshalIndent wbs.2)
    | inl _ => blocked t (WorkDir r (s_ID s)) (w_fs w) ∧ wbs.2 = s ∧ worked r (s_ID s) (w_fs w) (w_fs wbs.1.1)
    end) (w, b, s).
Proof.
  intros Hq Hid [Hrw Hst Hgid Hl Hd Ht] Hsb Hpre.
  unfold Checkout. wp_step. wp_step. simpl. wp_step. wp_step. wp_step.
  wp_use wp_GetCheckpoint; [done|done|]. rewrite Hl. intros [e|c'] w1 (Hfs1 & Hz1 & Hx); [by specialize (Hx Hq)|].
  injection Hx as <-. rewrite decide_False by tauto. wp_step. wp_step. wp_step.
  wp_use wp_loadTree; [rewrite Hfs1; apply Hst|done|]. rewrite Hfs1. intros [e|t'] w2 (Hfs2 & Hz2 & Ht'); [by rewrite Ht' in Ht|].
  rewrite Ht in Ht'. injection Ht' as <-. wp_step. wp_step. wp_step.
  assert (w_fs w2 = w_fs w) as Hfs by congruence.
  eapply wp_mono; [apply (wp_Restore_able U); [done|rewrite Hfs; exact Hpre]|].
  rewrite Hfs. intros [e|[]] w3 (Hz3 & Hbl & Hres); [split_and!; [done|done|by apply contained_worked]|].
  wp_step. wp_step. unfold wp at 1. rewrite bringUp_none.
  wp_step. wp_step. wp_step. wp_step.
  pose proof (restored_worked _ _ _ _ _ _ Hid Hres) as Hwk.
  pose proof (kept_worked U r "" (s_ID s) _ _ Hrw Hst Hwk) as Hk3.
  eapply wp_mono; [apply (wp_putJSON r "sandboxes" (s_ID s)); [apply Hk3|left|apply Hid]|].
  intros x w4 (Hz4 & Hx). destruct x as [e|[]]; [by destruct Hx|]. destruct Hx as (f & Hf & Hfs4). simpl.
  split_and!; [done|done| |by exists (w_fs w3), f|].
  - eapply kept_trans; [exact Hk3|]. eapply (kept_recorded U r "" (s_ID s) "sandboxes" (s_ID s)); [apply Hk3|left|apply Hid| |by right].
    apply recorded_write; [apply Hk3|right; by exists f].
  - by rewrite Hfs4, doc_insert, decide_True, Hf.
Qed.

(** If there is a file where the working directory should be, a checkout fails and
    nothing changes. *)
Lemma wp_Checkout_nowhere r s c t n w b :
  quiet → readable r (w_fs w) c t → c_Sandbox c = s_ID s →
  w_fs w !! WorkDir r (s_ID s) = Some n → is_dir_node n = false → (∀ l, n ≠ NLink l) →
  wp (Checkout r (c_ID c)) (λ x wbs, (∃ e, x = inl e) ∧ w_fs wbs.1.1 = w_fs w ∧ wbs.2 = s) (w, b, s).
Proof.
  intros Hq [Hrw Hst Hgid Hl Hd Ht] Hsb Hn Hnd Hnl.
  unfold Checkout. wp_step. wp_step. simpl. wp_step. wp_step. wp_step.
  wp_use wp_GetCheckpoint; [done|done|]. rewrite Hl. intros [e|c'] w1 (Hfs1 & Hz1 & Hx); [by specialize (Hx Hq)|].
  injection Hx as <-. rewrite decide_False by tauto. wp_step. wp_step. wp_step.
  wp_use wp_loadTree; [rewrite Hfs1; apply Hst|done|]. rewrite Hfs1. intros [e|t'] w2 (Hfs2 & Hz2 & Ht'); [by rewrite Ht' in Ht|].
  assert (w_fs w2 = w_fs w) as Hfs by congruence. wp_step. wp_step. wp_step. unfold Restore. wp_step.
  eapply wp_mono; [apply (wp_MkdirAll_clash _ _ n); [done|rewrite Hfs; apply Hrw|by rewrite Hfs|done|done]|].
  intros x w3 (-> & Hfs3 & _). cbn [fst snd]. split_and!; [by eexists|congruence|done].
Qed.

Lemma wp_Checkout r s σe c w b :
  quiet → work_id (s_ID s) → remembers U r s σe (w_fs w) c → no_links r s σe (w_fs w) →
  is_dir (w_fs w) (WorkDir r (s_ID s)) →
  (∀ cs, is_Some (w_fs w !! (WorkDir r (s_ID s) ++ cs)) → Forall (λ c, has_char slash c = false) cs) →
  wp (Checkout r (c_ID c)) (λ x wbs, match x with
    | inr _ => ¬ other_kind r s σe (w_fs w) ∧ wbs.2 = set_head (c_ID c) s ∧
        kept U r "" (s_ID s) (w_fs w) (w_fs wbs.1.1) ∧ brought_back r s (s_ID s) σe (w_fs w) (w_fs wbs.1.1) ∧
        doc (w_fs wbs.1.1) r "sandboxes" (s_ID s) = Some (json_MarshalIndent wbs.2)
    | inl _ => other_kind r s σe (w_fs w) ∧ wbs.2 = s ∧ worked r (s_ID s) (w_fs w) (w_fs wbs.1.1)
    end) (w, b, s).
Proof.
  intros Hq Hid Hr Hlinks Hdir Hnames. destruct (remembers_readable _ _ _ _ _ Hr) as (t & Hre & Hso & Hes).
  pose proof (blocked_other U r s σe (w_fs w) t (rm_past _ _ _ _ _ _ Hr) (rm_work _ _ _ _ _ _ Hr) Hso) as Hbo.
  eapply wp_mono; [apply (wp_Checkout_able r s c t); try done; [apply Hr|]|].
  { eapply remembers_restore; try done; [by left|]. intros e He. eapply entry_unlinked; try done; apply Hr. }
  intros [e|[]] [[w' b'] s']; [intros (Hb & Hs & Hwk); by rewrite <- Hbo|].
  intros (Hb & Hs & Hk & (σ1 & f & Hres & Hfs) & Hdoc). rewrite Hbo in Hb. split_and!; [done|done|done| |done]. simpl in *.
  rewrite Hfs. apply brought_back_doc; [done|left|]. by eapply restored_brought_back.
Qed.

(** A checkpoint of another sandbox is refused, and nothing changes. *)
Lemma wp_Checkout_other r s c w b :
  quiet → repo_wf r (w_fs w) → good_id (c_ID c) → load (w_fs w) r "checkpoints" (c_ID c) = Some c →
  c_Sandbox c ≠ s_ID s →
  wp (Checkout r (c_ID c)) (λ x wbs, (∃ m, x = inl (Errorf m)) ∧ w_fs wbs.1.1 = w_fs w ∧ wbs.2 = s) (w, b, s).
Proof.
  intros Hq Hwf Hid Hl Hne. unfold Checkout. wp_step. wp_step. simpl. wp_step. wp_step. wp_step.
  wp_use wp_GetCheckpoint; [done|done|]. rewrite Hl. intros [e|c'] w1 (Hfs1 & Hz1 & Hx); [by specialize (Hx Hq)|].
  injection Hx as <-. rewrite decide_True by done. wp_step. simpl. split_and!; [by eexists|done|done].
Qed.

(** ** Forking *)

Lemma new_work_id id : new_id "sbx-" id → work_id id.
Proof.
  intros Hn. split; [by eapply (new_id_good "sbx-")|]. destruct Hn as [t ->]. by repeat split.
Qed.

(** The root checkpoint of a fork. *)
Definition fork_root (src c : Checkpoint) (id : string) : Prop :=
  c_Sandbox c = id ∧ c_Seq c = 0 ∧ c_Parent c = "" ∧ c_TreeHash c = c_TreeHash src ∧
  c_MemHash c = c_MemHash src ∧ c_StateHash c = c_StateHash src ∧ c_DiskHash c = c_DiskHash src ∧ c_BaseHash c = "" ∧
  c_Command c = [] ∧ c_ExitCode c = 0 ∧ (∃ n, c_Created c = clock n) ∧ c_Note c = "forked from " +:+ c_ID src ∧
  c_Added c = 0 ∧ c_Modified c = 0 ∧ c_Deleted c = 0.

(** A sandbox just made. *)
Definition made_sandbox (name from : string) (s : Sandbox) : Prop :=
  s_Name s = (if decide (name = "") then s_ID s else name) ∧ s_Backend s = Name ∧ s_ForkedFrom s = from ∧
  (∃ n, s_Created s = clock n) ∧ s_Steps s = 0.

Lemma wp_Fork_tree r c t name w b :
  quiet → readable r (w_fs w) c t →
  (∀ id, next_id (w_tick w) "sbx-" id → restore_pre U (r_cas r) (WorkDir r id) t (w_fs w)) →
  wp (Fork r (c_ID c) name) (λ x wb, ∃ s' ck, x = inr s' ∧ next_id (w_tick w) "sbx-" (s_ID s') ∧ new_id "ck-" (c_ID ck) ∧
    s_Head s' = c_ID ck ∧ made_sandbox name (c_ID c) s' ∧ fork_root c ck (s_ID s') ∧
    kept U r (c_ID ck) (s_ID s') (w_fs w) (w_fs wb.1) ∧
    (∃ σ1 f f', restored (r_cas r) (WorkDir r (s_ID s')) t (w_fs w) σ1 ∧
       w_fs wb.1 = <[doc_file r "sandboxes" (s_ID s') := NFile f']> (<[doc_file r "checkpoints" (c_ID ck) := NFile f]> σ1)) ∧
    doc (w_fs wb.1) r "checkpoints" (c_ID ck) = Some (json_MarshalIndent ck) ∧
    doc (w_fs wb.1) r "sandboxes" (s_ID s') = Some (json_MarshalIndent s')) (w, b).
Proof.
  intros Hq [Hrw Hst Hgid Hl Hd Ht] Hpre.
  unfold Fork. wp_step. wp_step. eapply wp_mono; [apply wp_forward; [apply forward_GetCheckpoint|by apply wp_GetCheckpoint]|].
  rewrite Hl. intros [e|c'] w1 [(Hfs1 & Hz1 & Hx) Hle1]; [by specialize (Hx Hq)|]. injection Hx as <-. wp_step. wp_step.
  eapply wp_mono; [apply wp_forward; [apply forward_loadTree|apply wp_loadTree; [rewrite Hfs1; apply Hst|done]]|].
  rewrite Hfs1. intros [e|t'] w2 [(Hfs2 & Hz2 & Ht') Hle2]; [by rewrite Ht' in Ht|].
  rewrite Ht in Ht'. injection Ht' as <-. wp_step. wp_step. unfold new_sandbox. wp_step. apply wp_newID_next. intros id Hnid'.
  assert (next_id (w_tick w) "sbx-" id) as Hnx by (eapply next_id_later; [|exact Hnid']; lia).
  pose proof (next_id_new _ _ _ Hnx) as Hnid.
  wp_step. apply wp_time_Now. wp_step. set (s0 := mkSandbox _ _ _ _ _ _ _).
  pose proof (new_work_id _ Hnid) as Hwid. wp_step. wp_step.
  assert (w_fs (tick (tick w2)) = w_fs w) as Hfs by (simpl; congruence).
  eapply wp_mono; [apply (wp_Restore U); [done|rewrite Hfs; by apply Hpre]|].
  rewrite Hfs. intros x w3 (-> & Hz3 & Hres). wp_step. unfold wp at 1. rewrite bringUp_none.
  wp_step. wp_step. apply wp_newID. intros ck Hnck. assert (good_id ck) as Hgck by (eapply (new_id_good "ck-"); done).
  wp_step. wp_step. apply wp_time_Now. set (root := mkCheckpoint _ _ _ _ _ _ _ _ _ _ _ _ _ _ _ _).
  pose proof (restored_worked _ _ _ _ _ _ Hwid Hres) as Hwk.
  pose proof (kept_worked U r ck id _ _ Hrw Hst Hwk) as Hk3.
  wp_step. wp_step. eapply wp_mono; [apply (wp_putJSON r "checkpoints" ck root); [apply Hk3|right; left|done]|].
  intros x w4 (Hz4 & Hx). destruct x as [e|[]]; [by destruct Hx|]. destruct Hx as (f & Hf & Hfs4). simpl in Hfs4.
  assert (kept U r ck id (w_fs w) (w_fs w4)) as Hk4.
  { eapply kept_trans; [exact Hk3|]. eapply (kept_recorded U r ck id "checkpoints" ck); [apply Hk3|right; left|done| |by left].
    apply recorded_write; [apply Hk3|right; by exists f]. }
  wp_step. wp_step. eapply wp_mono; [apply (wp_putJSON r "sandboxes" id (set_head ck s0)); [apply Hk4|left|apply Hwid]|].
  intros x w5 (Hz5 & Hx). destruct x as [e|[]]; [by destruct Hx|]. destruct Hx as (f' & Hf' & Hfs5). wp_step.
  exists (set_head ck s0), root. simpl. split_and!; try done; [by repeat split; eexists..| | | |].
  - eapply kept_trans; [exact Hk4|]. eapply (kept_recorded U r ck id "sandboxes" id); [apply Hk4|left|apply Hwid| |by right].
    apply recorded_write; [apply Hk4|right; by exists f'].
  - exists (w_fs w3), f, f'. by rewrite Hfs5, Hfs4.
  - by rewrite Hfs5, doc_insert, decide_False, Hfs4, doc_insert, decide_True, Hf by naive_solver.
  - by rewrite Hfs5, doc_insert, decide_True, Hf'.
Qed.

Lemma wp_Fork r s σe c name w b :
  quiet → work_id (s_ID s) → remembers U r s σe (w_fs w) c →
  (∀ id cs, next_id (w_tick w) "sbx-" id → w_fs w !! (WorkDir r id ++ cs) = None) →
  wp (Fork r (c_ID c) name) (λ x wb, ∃ s' ck, x = inr s' ∧ next_id (w_tick w) "sbx-" (s_ID s') ∧ new_id "ck-" (c_ID ck) ∧
    s_Head s' = c_ID ck ∧ made_sandbox name (c_ID c) s' ∧ fork_root c ck (s_ID s') ∧
    kept U r (c_ID ck) (s_ID s') (w_fs w) (w_fs wb.1) ∧ brought_back r s (s_ID s') σe (w_fs w) (w_fs wb.1) ∧
    doc (w_fs wb.1) r "checkpoints" (c_ID ck) = Some (json_MarshalIndent ck) ∧
    doc (w_fs wb.1) r "sandboxes" (s_ID s') = Some (json_MarshalIndent s')) (w, b).
Proof.
  intros Hq Hid Hr Hfresh. destruct (remembers_readable _ _ _ _ _ Hr) as (t & Hre & Hso & Hes).
  eapply wp_mono; [apply (wp_Fork_tree r c t); try done|].
  { intros id Hnid. apply able_pre; [eapply remembers_restore; try done|].
    - by eapply new_work_id, next_id_new.
    - right. by rewrite <- (app_nil_r (WorkDir r _)), Hfresh.
    - intros cs [n Hn]. by rewrite Hfresh in Hn.
    - intros e He. rewrite Hfresh by done. by intros [].
    - intros e He. by rewrite Hfresh. }
  intros x [w' b'] (s' & ck & -> & Hs & Hck & Hh & Hff & Hroot & Hk & (σ1 & f & f' & Hres & Hfs) & Hd1 & Hd2).
  exists s', ck. split_and!; try done. simpl in *. pose proof (new_work_id _ (next_id_new _ _ _ Hs)) as Hwid.
  rewrite Hfs. apply brought_back_doc; [done|left|]. apply brought_back_doc; [done|right; left|]. by eapply restored_brought_back.
Qed.

End back.
