(* ===== verification/StepProps.v ===== *)
(** * What the engine promises on the process backend

    The documents are the real ones ([Codecs]); the commands are any that stay
    in the working directory. *)

From S2P Require Import Prelude Sha256 Os OsFacts Cas Parallel Blobs Chunked Tree TreeFacts Snap SnapFacts SnapProps Model Json Codec Codecs ChunkedProps Repo RepoFacts RepoProps Backend Engine EngineFacts StepFacts.
Import Cas Chunked Tree Snap Model Repo Backend Engine.
Open Scope Z_scope.

Section props.
Context `{OsEnv, Sched, Processes} (U : bytes → Prop) {NC : NoCollision U}.
Implicit Types (w : world) (r : Repo).

Lemma proc_memory : as_memory (B:=unit) = None.
Proof. done. Qed.
Lemma proc_guest : as_guest (B:=unit) = None.
Proof. done. Qed.

(** C21 (run_records): a step on the process backend.  Whatever fails, every
    blob and every other document stays.  When [Run] returns a checkpoint, it
    names a stored tree that is exactly the working directory the command left,
    with every file's contents stored; its counts are the differences from the
    head's tree; its parent is the old head, and the sandbox document now has it
    as head.  On a healthy host a command that runs gives a checkpoint. *)
Theorem run_records r s command w :
  sandbox_ready U r s (w_fs w) → behaves U r s command w tt →
  ∃ x w' s', Run r command (w, tt, s) = (match x with inl e => Err e | inr c => Ok c end, (w', tt, s')) ∧
    run_post U r s command w tt x w' s'.
Proof.
  intros Hr Hb.
  destruct (wp_exists _ _ _ (wp_Run U proc_memory proc_guest r s command w tt Hr Hb)) as (x & [[w' []] s'] & Hrun & Hp).
  by exists x, w', s'.
Qed.

(** A checkpoint [Run] made remembers the directory the command left. *)
Lemma run_remembers r s command w x w' s' c :
  sandbox_ready U r s (w_fs w) → run_post U r s command w tt x w' s' → x = inr c → json_dom c →
  ∃ code we be, Exec (s_ID s) (WorkDir r (s_ID s)) command (w, tt) = (Ok code, (we, be)) ∧
    worked r (s_ID s) (w_fs w) (w_fs we) ∧ remembers U r s (w_fs we) (w_fs w') c ∧
    ∀ q, below (work_dir r (s_ID s)) q → w_fs w' !! q = w_fs we !! q.
Proof.
  intros Hr (ck & Hck & Hk & Hc & _) Hx Hdom.
  destruct (Hc c Hx) as (code & we & be & He & Hw & Ha & Hid & -> & Hd & Hq & _). exists code, we, be. split_and!; [done|done| |done].
  split.
  - apply Hw.
  - apply Ha.
  - split; [done|]. intros t Ht. by apply (wa_tree _ _ _ _ Ha).
  - rewrite Hid. by eapply (new_id_good "ck-").
  - apply Hk.
  - apply Hk.
  - apply (de_sandbox _ _ _ _ _ _ _ _ Hd).
  - destruct (de_image _ _ _ _ _ _ _ _ Hd) as (Hm & _). unfold HasMemory. by rewrite Hm.
  - apply (de_doc _ _ _ _ _ _ _ _ Hd).
  - destruct (de_tree _ _ _ _ _ _ _ _ Hd) as (t & ? & ? & ? & ? & _). by exists t.
Qed.

(** C22 (browse_exact): [ReadFile] of a remembered checkpoint gives, for a path
    below the working directory, the file's bytes as they were, a link's target,
    and an error for a directory, an ignored or an absent path; it changes
    nothing. *)
Theorem browse_exact r s σe c cs w :
  quiet → remembers U r s σe (w_fs w) c →
  cs ≠ [] → Forall good_name cs → Forall (λ c, has_char slash c = false) cs →
  ∃ x w', ReadFileAt r (c_ID c) (join_with "/" cs) w = (match x with inl e => Err e | inr b => Ok b end, w') ∧
    w_fs w' = w_fs w ∧
    (visible (Some defaultIgnore) (WorkDir r (s_ID s)) σe cs → shown (σe !! (WorkDir r (s_ID s) ++ cs)) x) ∧
    (¬ visible (Some defaultIgnore) (WorkDir r (s_ID s)) σe cs → shown None x).
Proof.
  intros Hq Hr Hne Hg Hs.
  destruct (wp_exists _ _ _ (wp_ReadFileAt U r s σe c cs w Hq Hr Hne Hg Hs)) as (x & w' & ? & ? & ? & ?).
  by exists x, w'.
Qed.


(** C24 (fork_copies): a fork of a remembered checkpoint is a new sandbox whose
    working directory is a copy of the remembered one, modes included, with one
    root checkpoint of the same tree; every blob, checkpoint and other sandbox
    stays as it was. *)
Theorem fork_copies r s σe c name w :
  quiet → work_id (s_ID s) → remembers U r s σe (w_fs w) c →
  (∀ id cs, next_id (w_tick w) "sbx-" id → w_fs w !! (WorkDir r id ++ cs) = None) →
  ∃ s' ck w', Fork r (c_ID c) name (w, tt) = (Ok s', (w', tt)) ∧
    next_id (w_tick w) "sbx-" (s_ID s') ∧ new_id "ck-" (c_ID ck) ∧ s_Head s' = c_ID ck ∧
    made_sandbox name (c_ID c) s' ∧ fork_root c ck (s_ID s') ∧ kept U r (c_ID ck) (s_ID s') (w_fs w) (w_fs w') ∧
    (∀ cs, cs ≠ [] → visible (Some defaultIgnore) (WorkDir r (s_ID s)) σe cs →
       copied (σe !! (WorkDir r (s_ID s) ++ cs)) (w_fs w' !! (WorkDir r (s_ID s') ++ cs))) ∧
    (∀ cs, cs ≠ [] → is_Some (w_fs w' !! (WorkDir r (s_ID s') ++ cs)) →
       visible (Some defaultIgnore) (WorkDir r (s_ID s)) σe cs ∧ is_Some (σe !! (WorkDir r (s_ID s) ++ cs))) ∧
    doc (w_fs w') r "checkpoints" (c_ID ck) = Some (json_MarshalIndent ck) ∧
    doc (w_fs w') r "sandboxes" (s_ID s') = Some (json_MarshalIndent s').
Proof.
  intros Hq Hid Hr Hf.
  destruct (wp_exists _ _ _ (wp_Fork U proc_memory r s σe c name w tt Hq Hid Hr Hf))
    as (x & [w' []] & Hrun & s' & ck & -> & Hsid & Hck & Hh & Hff & Hroot & Hk & [Hb1 Hb2] & Hd1 & Hd2).
  exists s', ck, w'. split_and!; try done. intros cs Hne Hv. unfold copied. rewrite <- (Hf (s_ID s') cs Hsid). by apply Hb1.
Qed.

(** ** Histories grow *)

Lemma chain_keep σ σ' r id l :
  (∀ x, is_Some (doc σ r "checkpoints" x) → doc σ' r "checkpoints" x = doc σ r "checkpoints" x) →
  chain σ r id l → chain σ' r id l.
Proof.
  intros Hk. induction 1 as [|id c l Hne Hid Hc Hl IH]; [constructor|]. econstructor; try done.
  unfold load in *. rewrite Hk; [done|]. by destruct (doc σ r "checkpoints" id).
Qed.

(** After a step, the history of the sandbox is the
    new checkpoint followed by the old history. *)
Theorem run_extends_history r s command l c w w' s' :
  quiet → sandbox_ready U r s (w_fs w) → behaves U r s command w tt →
  doc (w_fs w) r "checkpoints" (c_ID c) = None →
  chain (w_fs w) r (s_Head s) l → json_dom c → json_dom s' →
  Run r command (w, tt, s) = (Ok c, (w', tt, s')) →
  ∃ w2, History r (s_ID s) w' = (Ok (c :: l), w2) ∧ w_fs w2 = w_fs w'.
Proof.
  intros Hq Hr Hb Hfresh Hl Hdom Hdoms Hrun.
  pose proof (wp_run _ _ _ _ _ (wp_Run U proc_memory proc_guest r s command w tt Hr Hb) Hrun) as (ck & Hck & Hk & Hc & _).
  destruct (Hc c eq_refl) as (code & we & be & _ & Hw & Ha & Hid & Hs' & Hd & _ & Hsd). cbn [fst snd] in *.
  destruct (new_id_good "ck-" ck eq_refl Hck) as [Hgck Hne].
  assert (chain (w_fs w') r ck (c :: l)) as Hch.
  { econstructor; [by intros ->; specialize (Hne eq_refl)|done|..].
    - apply load_doc; [|done]. rewrite <- Hid. apply (de_doc _ _ _ _ _ _ _ _ Hd).
    - rewrite (de_parent _ _ _ _ _ _ _ _ Hd). eapply chain_keep; [|exact Hl]. intros x [b' Hx].
      apply (kp_docs _ _ _ _ _ _ Hk); [right; left| |done]. intros [= ->]. by rewrite <- Hid, Hfresh in Hx. }
  unfold History. unfold mbind, M_bind at 1.
  destruct (wp_exists _ _ _ (wp_GetSandbox r (s_ID s) w' Hq (kp_repo _ _ _ _ _ _ Hk) (proj1 (rd_id _ _ _ _ Hr))))
    as (v & w1 & Hrun1 & Hfs & _ & Hv).
  assert (sandbox_named (w_fs w') r (s_ID s) = Some s') as Hn.
  { unfold sandbox_named. by rewrite (load_doc _ _ _ _ _ Hsd Hdoms). }
  rewrite Hn in Hv. destruct v as [e|s2]; [done|]. injection Hv as <-. rewrite Hrun1. unfold get_state.
  rewrite <- Hfs in Hch. pose proof (chain_bounded _ _ _ _ Hch) as Hbd.
  assert (repo_wf r (w_fs w1)) as Hwf1 by (rewrite Hfs; apply Hk).
  destruct (wp_exists _ _ _ (wp_history_loop r _ ck (c :: l) w1 Hq Hwf1 Hch Hbd)) as (y & w2 & Hrun2 & Hfs2 & _ & ->).
  exists w2. rewrite Hs'. unfold M_bind. cbn [s_Head set_head]. split; [exact Hrun2|congruence].
Qed.

End props.

(** ** A command that writes a file *)

Lemma to_bytes_app s t : to_bytes (s +:+ t) = to_bytes s ++ to_bytes t.
Proof.
  induction s as [|a s IH]; [done|].
  change (to_bytes (String a s +:+ t)) with (Ascii.byte_of_ascii a :: to_bytes (s +:+ t)). by rewrite IH.
Qed.

Lemma utf8_ascii_app pre s : Forall (λ b, (Json.bN b <? 0x80)%N = true) (to_bytes pre) → utf8 s → utf8 (pre +:+ s).
Proof.
  unfold utf8. rewrite to_bytes_app. generalize (to_bytes pre) (to_bytes s). clear.
  intros l m Hl Hm. induction Hl as [|b l Hb _ IH]; [done|]. unfold Json.valid_utf8, Json.runes_of in *. simpl.
  unfold Json.next_rune at 1 2. rewrite Hb. exact IH.
Qed.

Lemma ascii_hex_utf8 pre h :
  Forall (λ b, (Json.bN b <? 0x80)%N = true) (to_bytes pre) → all_hex h = true → utf8 (pre +:+ h).
Proof.
  intros Hp Hh. apply utf8_ascii_app; [done|]. apply ascii_valid. clear Hp.
  unfold all_hex, to_bytes, String.list_byte_of_string in *.
  induction h as [|c h IH]; simpl in *; [done|]. apply andb_true_iff in Hh as [Hc Hh].
  constructor; [by apply hex_char_ascii|by apply IH].
Qed.

Lemma new_id_utf8 `{OsEnv} pre id :
  Forall (λ b, (Json.bN b <? 0x80)%N = true) (to_bytes pre) → new_id pre id → utf8 id.
Proof. intros Hp [n ->]. apply ascii_hex_utf8; [done|apply hex_encode_hex]. Qed.

Definition job : Sandbox := mkSandbox "sbx-1" "job" "process" "" "" 0 0.
Definition job_work : path := ["repo"; "work"; "sbx-1"].
Definition job_fs : fs := <[job_work := NDir o755]> repo_fs.
Definition job_world : world := World job_fs 0 ∅.
Definition job_out : file := File o644 (Some <$> to_bytes "hi") 0 0.
Definition job_end : fs := <[job_work ++ ["out"] := NFile job_out]> job_fs.
Definition job_tree : Tree := mkTree [mkEntry "out" o644 2 (hashOf (to_bytes "hi")) "" false].
Definition job_U (b : bytes) : Prop := b = to_bytes "hi" ∨ b = json_Marshal job_tree.

#[local] Existing Instance calm.
#[local] Existing Instance in_order.

Definition job_run (command : list string) (dir : path) : M world exit := λ w,
  (Ok (Exited 0), set_fs (<[dir ++ ["out"] := NFile job_out]> (w_fs w)) w).
#[local] Instance job_processes : Processes := {| cmd_Run := job_run |}.

#[global] Instance job_no_collision : NoCollision job_U.
Proof.
  assert (hashOf (to_bytes "hi") ≠ hashOf (json_Marshal job_tree)) as Hne by (vm_compute; discriminate).
  intros b c [-> | ->] [-> | ->] He; congruence.
Qed.

Lemma job_nodes q n : job_fs !! q = Some n →
  n = NDir o755 ∧ (q = job_work ∨ q = [] ∨ q = ["repo"] ∨ ∃ d, d ∈ repo_dirs ∧ q = ["repo"; d]).
Proof.
  unfold job_fs. rewrite lookup_insert_Some. intros [[<- <-]|[_ Hq]]; [auto|].
  apply repo_nodes in Hq. tauto.
Qed.

Lemma job_worked : worked small_repo "sbx-1" repo_fs job_fs.
Proof.
  split.
  - apply (fs_wf_insert _ ["repo"; "work"] "sbx-1"); [apply repo_fs_wf|by eexists|by repeat split|].
    intros [m Hm]. by vm_compute in Hm.
  - intros q Hq. unfold job_fs. rewrite lookup_insert_ne; [done|]. intros <-. apply Hq. by exists [].
Qed.

Lemma job_repo : repo_wf small_repo job_fs.
Proof. eapply worked_repo; [apply repo_fs_wf|apply job_worked]. Qed.

Lemma job_store : store_inv job_U ["repo"; "blobs"] job_fs ∧ store_clean job_fs ["repo"; "blobs"].
Proof.
  destruct (store_wf_fresh job_fs ["repo"; "blobs"]) as [Hwf Hc].
  - apply job_worked.
  - by eexists.
  - intros c. destruct (job_fs !! _) eqn:E; [|done]. apply job_nodes in E as [_ E]. unfold job_work in E. naive_solver.
  - split; [|done]. split; [done|]. intros h c Hh Hb. unfold blob_of in Hb.
    destruct (job_fs !! slot _ h) as [n|] eqn:E; [|done]. apply job_nodes in E as [-> _]. done.
Qed.

Lemma job_live : live ["repo"; "blobs"] job_world.
Proof. split; [apply calm_quiet|apply job_store]. Qed.

Lemma job_no_docs d id : d ∈ doc_dirs → doc job_fs small_repo d id = None.
Proof. intros Hd. unfold doc. destruct (job_fs !! _) as [n|] eqn:E; [|done]. by apply job_nodes in E as [-> _]. Qed.

Lemma job_ready : sandbox_ready job_U small_repo job job_fs.
Proof.
  split.
  - apply job_repo.
  - apply job_store.
  - intros id c _ Hl. unfold load in Hl. rewrite job_no_docs in Hl by (right; left). done.
  - by repeat split.
  - done.
Qed.

Lemma job_end_worked : worked small_repo "sbx-1" job_fs job_end.
Proof.
  split.
  - apply (fs_wf_insert _ job_work "out"); [apply job_worked|by eexists|by repeat split|]. intros [m Hm]. by vm_compute in Hm.
  - intros q Hq. unfold job_end. rewrite lookup_insert_ne; [done|]. intros <-. apply Hq. by exists ["out"].
Qed.

Lemma job_end_nodes cs n : job_end !! (job_work ++ cs) = Some n →
  (cs = [] ∧ n = NDir o755) ∨ (cs = ["out"] ∧ n = NFile job_out).
Proof.
  unfold job_end. rewrite lookup_insert_Some. intros [[He <-]|[_ Hn]]; [by apply app_inv_head in He; auto|].
  apply job_nodes in Hn as [-> Hq]. left. split; [|done]. unfold job_work in Hq. simpl in Hq. naive_solver.
Qed.

Lemma job_visible cs : is_Some (job_end !! (job_work ++ cs)) → visible (Some defaultIgnore) job_work job_end cs.
Proof.
  intros [n Hn] k r nd -> Hk Hnd. apply job_end_nodes in Hnd as [[-> _]|[-> ->]]; [done|]. reflexivity.
Qed.

Lemma job_snapshot t : snapshot_of (Some defaultIgnore) job_work job_end t → t = job_tree.
Proof.
  intros Hs. destruct t as [l].
  assert (∀ e, e ∈ l ↔ e = mkEntry "out" o644 2 (hashOf (to_bytes "hi")) "" false) as Hl.
  { intros e. rewrite (so_entries _ _ _ _ Hs e). split.
    - intros (cs & nd & Hne & Hnd & _ & He). apply job_end_nodes in Hnd as [[-> _]|[-> ->]]; [done|].
      injection He as <-. reflexivity.
    - intros ->. exists ["out"], (NFile job_out). split_and!; [done|by apply lookup_insert_eq| |reflexivity].
      apply job_visible. eexists. apply lookup_insert_eq. }
  pose proof (so_nodup _ _ _ _ Hs) as Hn. simpl in Hn. unfold job_tree. f_equal. destruct l as [|a [|b l]].
  - exfalso. by apply (not_elem_of_nil (mkEntry "out" o644 2 (hashOf (to_bytes "hi")) "" false)), Hl.
  - f_equal. apply Hl. left.
  - assert (a = b) as ->; [|by apply NoDup_cons in Hn as [[] _]; left]. transitivity (mkEntry "out" o644 2 (hashOf (to_bytes "hi")) "" false).
    + apply Hl. left.
    + symmetry. apply Hl. right. left.
Qed.

Lemma job_tree_dom : json_dom job_tree.
Proof.
  change (Forall codec_dom (t_Entries job_tree)). by repeat constructor.
Qed.

Lemma job_workable : workable job_U small_repo job job_end.
Proof.
  split.
  - split.
    + intros q Hq Hb. by apply (work_apart small_repo "sbx-1") in Hb.
    + by eexists.
    + intros cs [n Hn]. apply job_end_nodes in Hn as [[-> _]|[-> _]]; by repeat constructor.
    + intros q t [k ->] Hn. by apply job_end_nodes in Hn as [[_ ?]|[_ ?]].
    + intros q f [k ->] Hn. apply job_end_nodes in Hn as [[_ ?]|[_ ?]]; simplify_eq. left. by vm_compute.
  - intros t ->%job_snapshot. split; [by right|apply job_tree_dom].
Qed.

Lemma job_exec : Exec (s_ID job) (WorkDir small_repo (s_ID job)) ["touch"; "out"] (job_world, tt) =
  (Ok 0, (World job_end 0 ∅, tt)).
Proof. reflexivity. Qed.

Lemma job_behaves : behaves job_U small_repo job ["touch"; "out"] job_world tt.
Proof.
  unfold behaves, wp. rewrite job_exec. split; [apply job_end_worked|apply job_workable].
Qed.

(** C21 at a concrete input. *)
Lemma run_records_witness :
  ∃ x w' s', Run small_repo ["touch"; "out"] (job_world, tt, job) =
      (match x with inl e => Err e | inr c => Ok c end, (w', tt, s')) ∧
    run_post job_U small_repo job ["touch"; "out"] job_world tt x w' s'.
Proof. exact (run_records job_U small_repo job ["touch"; "out"] job_world job_ready job_behaves). Defined.

Lemma job_parent : parent_is job_end small_repo (add_step job) None.
Proof. unfold parent_is. left. split; reflexivity. Qed.

Lemma job_counts : count_kind added (Diff None job_tree) = 1 ∧ count_kind modified (Diff None job_tree) = 0 ∧
  count_kind deleted (Diff None job_tree) = 0.
Proof. vm_compute. done. Qed.

Lemma job_sandbox_dom h : utf8 h → json_dom (set_head h (add_step job)).
Proof.
  intros Hh. refine (conj _ (conj _ (conj _ (conj Hh (conj _ (conj _ _)))))); vm_compute; done.
Qed.

(** The checkpoint of that run, in every respect the later instances use. *)
Lemma job_checkpoint :
  ∃ c w' s', Run small_repo ["touch"; "out"] (job_world, tt, job) = (Ok c, (w', tt, s')) ∧
    s_ID s' = "sbx-1" ∧ json_dom c ∧ json_dom s' ∧ remembers job_U small_repo job job_end (w_fs w') c ∧
    kept job_U small_repo (c_ID c) "sbx-1" job_fs (w_fs w') ∧
    ∀ q, below job_work q → w_fs w' !! q = job_end !! q.
Proof.
  destruct (wp_exists _ _ _ (wp_Run job_U proc_memory proc_guest small_repo job ["touch"; "out"] job_world tt job_ready job_behaves))
    as (x & [[w' []] s'] & Hrun & Hp). pose proof Hp as (ck & Hck & Hk & Hc & Hl).
  destruct (Hl job_live) as [_ Hx]. rewrite job_exec in Hx. destruct Hx as [c Hx]. cbn [fst snd] in *.
  destruct (Hc c Hx) as (code & we & be & He & Hw & Ha & Hid & Hs' & Hd & Hq & Hsd).
  rewrite job_exec in He. injection He as <- <- <-. cbn [w_fs] in *.
  destruct (de_tree _ _ _ _ _ _ _ _ Hd) as (t & ->%job_snapshot & Hh & Hst & Hes & Hcnt).
  destruct (Hcnt calm_quiet None job_parent) as (Hadd & Hmod & Hdel).
  assert (utf8 (c_ID c)) as Hu.
  { rewrite Hid. apply (new_id_utf8 "ck-"); [by repeat constructor|done]. }
  assert (json_dom c) as Hdom.
  { change (codec_dom c). unfold codec_dom, checkpoint_codec. rewrite (de_sandbox _ _ _ _ _ _ _ _ Hd), (de_seq _ _ _ _ _ _ _ _ Hd),
      (de_parent _ _ _ _ _ _ _ _ Hd), (de_command _ _ _ _ _ _ _ _ Hd), (de_code _ _ _ _ _ _ _ _ Hd), (de_note _ _ _ _ _ _ _ _ Hd), Hh, Hadd, Hmod, Hdel.
    destruct job_counts as (-> & -> & ->).
    destruct (de_created _ _ _ _ _ _ _ _ Hd) as [n ->]. destruct (de_image _ _ _ _ _ _ _ _ Hd) as (-> & -> & -> & ->).
    pose proof (hashOf_utf8 (json_Marshal job_tree)) as Hth. set (th := hashOf _) in *. clearbody th.
    split_and!; try assumption; try (by repeat constructor); vm_compute; done. }
  exists c, w', s'. subst x. rewrite Hs'. rewrite Hs' in Hrun. split; [exact Hrun|]. split_and!; [done|exact Hdom| | | |exact Hq].
  - apply job_sandbox_dom. rewrite <- Hid. exact Hu.
  - destruct (run_remembers job_U small_repo job ["touch"; "out"] job_world (inr c) w' s' c job_ready Hp eq_refl Hdom) as (code & we & be & He & _ & Hr & _).
    rewrite job_exec in He. injection He as <- <- <-. exact Hr.
  - rewrite Hid. exact Hk.
Qed.


(** C22 at a concrete input: the file the command wrote. *)
Lemma browse_exact_witness :
  ∃ c w' s' w2, Run small_repo ["touch"; "out"] (job_world, tt, job) = (Ok c, (w', tt, s')) ∧
    ReadFileAt small_repo (c_ID c) "out" w' = (Ok (to_bytes "hi"), w2) ∧ w_fs w2 = w_fs w'.
Proof.
  destruct job_checkpoint as (c & w' & s' & Hrun & _ & _ & _ & Hr & _).
  destruct (browse_exact job_U small_repo job job_end c ["out"] w' calm_quiet Hr) as (x & w2 & Hread & Hfs & Hv & _);
    [done|by repeat constructor..|].
  exists c, w', s', w2. split; [exact Hrun|]. split; [|exact Hfs]. change "out" with (join_with "/" ["out"]). rewrite Hread.
  specialize (Hv (job_visible ["out"] ltac:(by eexists))). change (x = inr (to_bytes "hi")) in Hv. by rewrite Hv.
Defined.


Lemma new_sandbox_length id : new_id "sbx-" id → String.length id = 16%nat.
Proof. intros [n ->]. rewrite string_length_app, hex_encode_length. reflexivity. Qed.

Lemma job_fresh c w' : kept job_U small_repo c "sbx-1" job_fs (w_fs w') →
  ∀ id cs, new_id "sbx-" id → w_fs w' !! (WorkDir small_repo id ++ cs) = None.
Proof.
  intros Hk id cs Hid. rewrite (WorkDir_eq small_repo id (new_work_id id Hid)).
  assert (id ≠ "sbx-1") as Hne by (intros ->; by apply new_sandbox_length in Hid).
  rewrite (kp_frame _ _ _ _ _ _ Hk).
  - destruct (job_fs !! _) as [n|] eqn:E; [|done]. apply job_nodes in E as [_ E]. unfold work_dir, job_work in E. simpl in E.
    naive_solver.
  - intros Hb. eapply (work_apart small_repo id); [exact Hb|]. by eexists.
  - intros [k Hb]. unfold work_dir in Hb. simpl in Hb. by simplify_eq.
  - unfold work_dir, doc_file. simpl. congruence.
  - unfold work_dir, doc_file. simpl. congruence.
Qed.

(** C24 at a concrete input: a fork of that step. *)
Lemma fork_copies_witness :
  ∃ c w' s' s2 ck w2, Run small_repo ["touch"; "out"] (job_world, tt, job) = (Ok c, (w', tt, s')) ∧
    Fork small_repo (c_ID c) "copy" (w', tt) = (Ok s2, (w2, tt)) ∧ s_ForkedFrom s2 = c_ID c ∧
    fork_root c ck (s_ID s2) ∧ copied (Some (NFile job_out)) (w_fs w2 !! (WorkDir small_repo (s_ID s2) ++ ["out"])).
Proof.
  destruct job_checkpoint as (c & w' & s' & Hrun & _ & _ & _ & Hr & Hk & Hq).
  assert (work_id (s_ID job)) as Hid by by repeat split.
  destruct (fork_copies job_U small_repo job job_end c "copy" w' calm_quiet Hid Hr
      (λ id cs Hn, job_fresh _ _ Hk id cs (next_id_new _ _ _ Hn)))
    as (s2 & ck & w2 & Hf & _ & _ & _ & Hff & Hroot & _ & Hcp & _).
  exists c, w', s', s2, ck, w2. split; [exact Hrun|]. split; [exact Hf|]. split; [apply Hff|]. split; [exact Hroot|].
  apply (Hcp ["out"]); [done|]. apply job_visible. by eexists.
Defined.

(** A history at a concrete input. *)
Lemma run_extends_history_witness :
  ∃ c w' s' w2, Run small_repo ["touch"; "out"] (job_world, tt, job) = (Ok c, (w', tt, s')) ∧
    History small_repo "sbx-1" w' = (Ok [c], w2) ∧ w_fs w2 = w_fs w'.
Proof.
  destruct job_checkpoint as (c & w' & s' & Hrun & _ & Hc & Hs & _).
  destruct (run_extends_history job_U small_repo job ["touch"; "out"] [] c job_world w' s' calm_quiet job_ready job_behaves)
    as (w2 & Hh & Hfs).
  - apply job_no_docs. right; left.
  - constructor.
  - exact Hc.
  - exact Hs.
  - exact Hrun.
  - exists c, w', s', w2. split; [exact Hrun|]. split; [exact Hh|exact Hfs].
Defined.
