(* ===== verification/WholeFacts.v ===== *)
(** * Whole repositories

    A repository is whole when every checkpoint in it can be gone back to: it is
    stored under its own identifier, its tree and every file of the tree are in
    the store, and its parents lead back to a root of the same sandbox; and when
    every sandbox has one of its own checkpoints as head. *)

From S2P Require Import Prelude Sha256 Os OsFacts Cas Parallel Blobs Chunked Tree TreeFacts Snap SnapFacts SnapProps Model Repo RepoFacts Backend Engine EngineFacts StepFacts.
Import Cas Chunked Tree Snap Model Repo Backend Engine.
Open Scope Z_scope.

Section whole.
Context `{OsEnv, Sched, GoJSON Manifest, GoJSON Tree, GoJSON Sandbox, GoJSON Checkpoint}.
Context (U : bytes → Prop) {NC : NoCollision U}.
Implicit Types (w : world) (r : Repo) (σ : fs).

(** The tree [t] is stored under [h], with its files. *)
Record tree_whole r σ (h : string) (t : Tree) : Prop := {
  tw_digest : is_digest h = true;
  tw_tree : tree_at σ r h = Some t;
  tw_ok : tree_ok t;
  tw_files : Forall (entry_stored (r_cas r) σ) (t_Entries t)
}.

Definition checkpoint_at σ r (id : string) : option Checkpoint := load σ r "checkpoints" id.
Definition sandbox_at σ r (id : string) : option Sandbox := load σ r "sandboxes" id.

Record checkpoint_whole r σ (id : string) (c : Checkpoint) : Prop := {
  cw_id : c_ID c = id;
  cw_json : json_dom c;
  cw_tree : ∃ t, tree_whole r σ (c_TreeHash c) t;
  cw_chain : ∃ l, chain σ r id (c :: l) ∧ Forall (λ p, c_Sandbox p = c_Sandbox c) l
}.

Record sandbox_whole r σ (id : string) (s : Sandbox) : Prop := {
  bw_id : s_ID s = id;
  bw_json : json_dom s;
  bw_work : work_id id;
  bw_head : ∃ c, checkpoint_at σ r (s_Head s) = Some c ∧ c_Sandbox c = id
}.

Record whole r σ : Prop := {
  wh_repo : repo_wf r σ;
  wh_store : store_inv U (r_cas r) σ;
  wh_checkpoints : ∀ id c, checkpoint_at σ r id = Some c → checkpoint_whole r σ id c;
  wh_sandboxes : ∀ id s, sandbox_at σ r id = Some s → sandbox_whole r σ id s
}.

(** ** What a whole repository says *)

Lemma load_good {A} `{GoJSON A} r σ d id (v : A) :
  repo_wf r σ → d ∈ doc_dirs → load σ r d id = Some v → good_id id.
Proof.
  intros Hwf Hd Hl. unfold load, doc in Hl. destruct (σ !! doc_file r d id) as [n|] eqn:E; [|done].
  destruct (rw_docs _ _ Hwf _ _ _ Hd E) as (_ & id' & _ & He & Hg). by apply json_name_inj in He as ->.
Qed.

Lemma load_present {A} `{GoJSON A} r σ d id (v : A) : load σ r d id = Some v → is_Some (doc σ r d id).
Proof. unfold load. by destruct (doc σ r d id). Qed.

Lemma load_same {A} `{GoJSON A} r σ σ' d id : doc σ' r d id = doc σ r d id → load (A:=A) σ' r d id = load σ r d id.
Proof. unfold load. by intros ->. Qed.

Lemma whole_good r σ id c : whole r σ → checkpoint_at σ r id = Some c → good_id id.
Proof. intros Hw Hc. eapply load_good; [apply Hw|right; left|exact Hc]. Qed.

Lemma whole_readable r σ id c : whole r σ → checkpoint_at σ r id = Some c →
  ∃ t, tree_whole r σ (c_TreeHash c) t ∧ readable U r σ c t.
Proof.
  intros Hw Hc. destruct (wh_checkpoints _ _ Hw id c Hc) as [<- _ [t Ht] _]. exists t. split; [done|].
  split; [apply Hw|apply Hw|by eapply whole_good|exact Hc|apply Ht|apply Ht].
Qed.

Lemma whole_named r σ : whole r σ → trees_named σ r.
Proof. intros Hw id c _ Hc. by destruct (wh_checkpoints _ _ Hw id c Hc) as [_ _ [t [Hd _ _ _]] _]. Qed.

Lemma whole_ready r σ id s : whole r σ → sandbox_at σ r id = Some s → sandbox_ready U r s σ.
Proof.
  intros Hw Hs. destruct (wh_sandboxes _ _ Hw id s Hs) as [Hid _ Hwk (c & Hc & _)].
  split; [apply Hw|apply Hw|by apply whole_named|by rewrite Hid|by eapply whole_good].
Qed.

(** ** What keeps it whole *)

Definition blobs_kept r σ σ' : Prop := ∀ h x, is_digest h = true → blob_of σ (r_cas r) h = Some x → blob_of σ' (r_cas r) h = Some x.

(** Checkpoints are written once. *)
Definition checkpoints_kept r σ σ' : Prop :=
  ∀ id, is_Some (doc σ r "checkpoints" id) → doc σ' r "checkpoints" id = doc σ r "checkpoints" id.

Lemma tree_whole_keep r σ σ' h t : blobs_kept r σ σ' → tree_whole r σ h t → tree_whole r σ' h t.
Proof.
  intros Hb [Hd Ht Hok Hes]. split; [done| |done|].
  - unfold tree_at in *. apply bind_Some in Ht as (x & Hx & Ht). by rewrite (Hb _ _ Hd Hx).
  - eapply Forall_impl; [exact Hes|]. intros e He H1' H2'. destruct (He H1' H2') as (x & Hx & Hsz & Hst).
    exists x. split; [exact Hx|]. split; [exact Hsz|]. apply Hb; [apply hashOf_digest|exact Hst].
Qed.

Lemma chain_kept r σ σ' id l : checkpoints_kept r σ σ' → chain σ r id l → chain σ' r id l.
Proof.
  intros Hk. induction 1 as [|id c l Hne Hid Hc Hl IH]; [constructor|]. econstructor; try done.
  rewrite (load_same _ σ); [done|]. apply Hk. by eapply load_present.
Qed.

Lemma checkpoint_kept r σ σ' id c :
  checkpoints_kept r σ σ' → checkpoint_at σ r id = Some c → checkpoint_at σ' r id = Some c.
Proof. intros Hk Hc. unfold checkpoint_at in *. rewrite (load_same _ σ); [done|]. apply Hk. by eapply load_present. Qed.

Lemma checkpoint_whole_keep r σ σ' id c :
  blobs_kept r σ σ' → checkpoints_kept r σ σ' → checkpoint_whole r σ id c → checkpoint_whole r σ' id c.
Proof.
  intros Hb Hk [Hid Hj [t Ht] (l & Hl & Hs)]. split; [done|done|by exists t; eapply tree_whole_keep|].
  exists l. split; [by eapply chain_kept|done].
Qed.

(** A new checkpoint continues one that is there, or is a root. *)
Record continues r σ σ' (id : string) (c : Checkpoint) : Prop := {
  cn_id : c_ID c = id ∧ good_id id ∧ id ≠ "";
  cn_json : json_dom c;
  cn_tree : ∃ t, tree_whole r σ' (c_TreeHash c) t;
  cn_parent : c_Parent c = "" ∨ ∃ p, checkpoint_at σ r (c_Parent c) = Some p ∧ c_Sandbox p = c_Sandbox c
}.

Lemma continues_whole r σ σ' id c :
  whole r σ → checkpoints_kept r σ σ' → checkpoint_at σ' r id = Some c → continues r σ σ' id c →
  checkpoint_whole r σ' id c.
Proof.
  intros Hw Hk Hc [(Hid & Hg & Hne) Hj Ht Hp]. split; [done|done|done|]. destruct Hp as [He|(p & Hp & Hs)].
  - exists []. split; [|constructor]. econstructor; [done|done|exact Hc|]. rewrite He. constructor.
  - destruct (wh_checkpoints _ _ Hw _ _ Hp) as [_ _ _ (l & Hl & Hsl)]. exists (p :: l). split.
    + econstructor; [done|done|exact Hc|]. by eapply chain_kept.
    + constructor; [done|]. eapply Forall_impl; [exact Hsl|]. intros q Hq. by rewrite Hq.
Qed.

(** A change of the repository by an operation on the sandbox [sb]. *)
Record evolves r (sb : string) σ σ' : Prop := {
  ev_repo : repo_wf r σ';
  ev_store : store_inv U (r_cas r) σ';
  ev_blobs : blobs_kept r σ σ';
  ev_checkpoints : checkpoints_kept r σ σ';
  ev_new : ∀ id c, doc σ r "checkpoints" id = None → checkpoint_at σ' r id = Some c → continues r σ σ' id c;
  ev_others : ∀ id, id ≠ sb → doc σ' r "sandboxes" id = doc σ r "sandboxes" id;
  ev_sandbox : ∀ s, sandbox_at σ' r sb = Some s → sandbox_at σ r sb = Some s ∨ sandbox_whole r σ' sb s
}.

Lemma sandbox_whole_keep r σ σ' id s :
  checkpoints_kept r σ σ' → sandbox_whole r σ id s → sandbox_whole r σ' id s.
Proof.
  intros Hk [Hid Hj Hwk (c & Hc & Hs)]. split; [done|done|done|]. exists c. split; [by eapply checkpoint_kept|done].
Qed.

Lemma evolves_whole r sb σ σ' : whole r σ → evolves r sb σ σ' → whole r σ'.
Proof.
  intros Hw [Hrw Hst Hb Hk Hnew Hoth Hsb]. split; [done|done|..].
  - intros id c Hc. destruct (doc σ r "checkpoints" id) as [x|] eqn:E; [|by eapply continues_whole; eauto].
    eapply checkpoint_whole_keep; [done|done|]. apply Hw. unfold checkpoint_at in *.
    rewrite (load_same _ σ) in Hc; [done|]. by apply Hk; rewrite E.
  - assert (∀ id s, sandbox_at σ r id = Some s → sandbox_whole r σ' id s) as Hold.
    { intros id s Hs. eapply sandbox_whole_keep; [done|]. by apply Hw. }
    intros id s Hs. destruct (decide (id = sb)) as [->|Hne].
    + destruct (Hsb s Hs) as [Hs'|?]; [by apply Hold|done].
    + apply Hold. unfold sandbox_at in *. by rewrite (load_same _ σ) in Hs by by apply Hoth.
Qed.

Lemma evolves_refl r sb σ : whole r σ → evolves r sb σ σ.
Proof.
  intros Hw. split; [apply Hw|apply Hw|by intros h x|by intros id|..].
  - intros id c Hn (x & Hx)%load_present. by rewrite Hn in Hx.
  - done.
  - by left.
Qed.

(** Whatever happens in a working directory. *)
Lemma evolves_worked r sb σ σ' : whole r σ → worked r sb σ σ' → evolves r sb σ σ'.
Proof.
  intros Hw Hk. pose proof (wh_repo _ _ Hw) as Hwf.
  assert (∀ d id, d ∈ doc_dirs → doc σ' r d id = doc σ r d id) as Hd by (intros; by apply (worked_doc r sb)).
  split.
  - by eapply worked_repo.
  - eapply worked_store; [exact Hwf|apply Hw|done].
  - intros h x Hh Hx. by rewrite (blob_of_agree σ) by by eapply worked_blobs.
  - intros id _. apply Hd. right; left.
  - intros id c Hn (x & Hx)%load_present. by rewrite Hd, Hn in Hx by (right; left).
  - intros id _. apply Hd. left.
  - intros s Hs. left. unfold sandbox_at in *. by rewrite (load_same _ σ) in Hs by by apply Hd; left.
Qed.

(** A step that writes the checkpoint [c] and the sandbox [s]. *)
Lemma evolves_step r c s σ σ' :
  whole r σ → kept U r (c_ID c) (s_ID s) σ σ' → doc σ r "checkpoints" (c_ID c) = None →
  doc σ' r "checkpoints" (c_ID c) = Some (json_MarshalIndent c) →
  doc σ' r "sandboxes" (s_ID s) = Some (json_MarshalIndent s) →
  json_dom s → continues r σ σ' (c_ID c) c →
  work_id (s_ID s) → s_Head s = c_ID c → c_Sandbox c = s_ID s → evolves r (s_ID s) σ σ'.
Proof.
  intros Hw [Hrw Hst Hb Hd _] Hfresh Hdc Hds Hjs Hc Hwk Hh Hsb. pose proof (cn_json _ _ _ _ _ Hc) as Hjc.
  assert (checkpoint_at σ' r (c_ID c) = Some c) as Hlc by (unfold checkpoint_at, load; rewrite Hdc; by apply json_roundtrip_indent).
  split; [done|done|done|..].
  - intros id [x Hx]. apply Hd; [right; left| |done]. intros [= ->]. by rewrite Hfresh in Hx.
  - intros id c' Hn Hc'. destruct (decide (id = c_ID c)) as [->|Hne]; [congruence|].
    destruct (load_present _ _ _ _ _ Hc') as [x Hx]. by rewrite Hd, Hn in Hx; [|right; left|naive_solver..].
  - intros id Hne. apply Hd; [left|done|naive_solver].
  - intros s' Hs'. right. unfold sandbox_at, load in Hs'. rewrite Hds in Hs'. simpl in Hs'.
    rewrite json_roundtrip_indent in Hs' by done. injection Hs' as <-. split; [done|done|done|]. exists c. by rewrite Hh.
Qed.

(** A step that moves the head of a sandbox to one of its checkpoints. *)
Lemma evolves_head r c s σ σ' :
  whole r σ → checkpoint_at σ r (c_ID c) = Some c → c_Sandbox c = s_ID s → work_id (s_ID s) →
  kept U r "" (s_ID s) σ σ' → (∀ id, doc σ' r "checkpoints" id = doc σ r "checkpoints" id) →
  doc σ' r "sandboxes" (s_ID s) = Some (json_MarshalIndent (set_head (c_ID c) s)) →
  json_dom (set_head (c_ID c) s) → evolves r (s_ID s) σ σ'.
Proof.
  intros Hw Hc Hsb Hwk [Hrw Hst Hb Hd _] Hdc Hds Hj. split; [done|done|done|by intros id _|..].
  - intros id c' Hn (y & Hy)%load_present. by rewrite Hdc, Hn in Hy.
  - intros id Hne. apply Hd; [left|done|naive_solver].
  - intros s' Hs'. right. unfold sandbox_at, load in Hs'. rewrite Hds in Hs'. simpl in Hs'.
    rewrite json_roundtrip_indent in Hs' by done. injection Hs' as <-. split; [done|done|done|].
    exists c. split; [|done]. unfold checkpoint_at in *. by rewrite (load_same _ σ).
Qed.

(** The working directory is the sandbox's by its identifier alone. *)
Lemma workable_same r s s' σ : s_ID s' = s_ID s → workable U r s σ → workable U r s' σ.
Proof. intros He [Hp Ht]. split; by rewrite He. Qed.

(** What a recorded step says of its tree. *)
Lemma describes_tree r s cmd code note σe σ' c :
  fs_wf σe → workable U r s σe → describes r s cmd code note σe σ' c → ∃ t, tree_whole r σ' (c_TreeHash c) t.
Proof.
  intros Hfs Hwa Hd. destruct (de_tree _ _ _ _ _ _ _ _ Hd) as (t & Ht & Hh & Hst & Hes & _). exists t. split.
  - rewrite Hh. apply hashOf_digest.
  - unfold tree_at. rewrite Hh. unfold stored in Hst. rewrite Hst. simpl. apply json_roundtrip. by apply (wa_tree _ _ _ _ Hwa).
  - eapply snapshot_tree_ok; [exact Hfs|apply Hwa|exact Ht].
  - exact Hes.
Qed.

End whole.

(** ** The operations *)

Section operations.
Context `{OsEnv, Sched, GoJSON Manifest, GoJSON Tree, GoJSON Sandbox, GoJSON Checkpoint}.
Context (U : bytes → Prop) {NC : NoCollision U}.
Context {B : Type} `{Backend B}.
Context (no_memory : as_memory (B:=B) = None) (no_guest : as_guest (B:=B) = None).
Implicit Types (w : world) (r : Repo) (σ : fs).

(** No identifier of a sandbox still to come is in use. *)
Definition unused r w : Prop :=
  ∀ id cs, next_id (w_tick w) "sbx-" id → w_fs w !! (WorkDir r id ++ cs) = None.

(** The empty tree is one of the contents in play. *)
Definition empty_in : Prop := U (json_Marshal (mkTree [])) ∧ json_dom (mkTree []).

Lemma snapshot_empty ign d σ t :
  (∀ cs, cs ≠ [] → σ !! (d ++ cs) = None) → snapshot_of ign d σ t → t = mkTree [].
Proof.
  intros Hn Hs. destruct t as [[|e l]]; [done|]. exfalso.
  assert (e ∈ t_Entries (mkTree (e :: l))) as He by left. apply (so_entries _ _ _ _ Hs) in He as (cs & nd & Hne & Hnd & _).
  by rewrite Hn in Hnd.
Qed.

(** A working directory just made. *)
Lemma made_workable r s σ m :
  repo_wf r σ → work_id (s_ID s) → empty_in → (∀ cs, σ !! (WorkDir r (s_ID s) ++ cs) = None) →
  let σ1 := <[WorkDir r (s_ID s) := NDir m]> σ in worked r (s_ID s) σ σ1 ∧ workable U r s σ1 ∧
    (∀ t, snapshot_of (Some defaultIgnore) (WorkDir r (s_ID s)) σ1 t → t = mkTree []).
Proof.
  intros Hwf Hid [HU Hj] Hn. cbn zeta. rewrite WorkDir_eq in * by done.
  set (σ1 := <[work_dir r (s_ID s) := NDir m]> σ).
  assert (∀ cs n, σ1 !! (work_dir r (s_ID s) ++ cs) = Some n → cs = [] ∧ n = NDir m) as Hnodes.
  { intros cs n. unfold σ1. rewrite lookup_insert_Some, Hn. intros [[He <-]|[_ ?]]; [|done]. split; [|done].
    rewrite <- (app_nil_r (work_dir _ _)) in He at 1. by apply app_inv_head in He. }
  assert (σ !! work_dir r (s_ID s) = None) as Hn0 by by rewrite <- (app_nil_r (work_dir _ _)).
  assert (∀ t, snapshot_of (Some defaultIgnore) (work_dir r (s_ID s)) σ1 t → t = mkTree []) as Hem.
  { intros t. apply snapshot_empty. intros cs Hne. destruct (σ1 !! _) as [n|] eqn:E; [|done]. by apply Hnodes in E as [-> _]. }
  split_and!; [split| |done].
  - unfold σ1, work_dir. apply fs_wf_insert; [apply Hwf|apply Hwf; do 3 right; left|apply Hid|].
    intros [? He]. unfold work_dir in Hn0. by rewrite Hn0 in He.
  - intros q Hq. unfold σ1. rewrite lookup_insert_ne; [done|]. intros <-. apply Hq. by exists [].
  - split; [split|]; rewrite ?WorkDir_eq by done.
    + intros q Hq Hb. rewrite (rw_cas _ _ Hwf) in Hb. by apply (work_apart r (s_ID s)) in Hb.
    + exists m. apply lookup_insert_eq.
    + intros cs [n Hcs]. by apply Hnodes in Hcs as [-> _].
    + intros q t [k ->] Hk. by apply Hnodes in Hk as [_ ?].
    + intros q f [k ->] Hk. by apply Hnodes in Hk as [_ ?].
    + by intros t ->%Hem.
Qed.

(** A new sandbox: its first checkpoint is of an empty directory. *)
Lemma wp_CreateSandbox r name w b :
  live (r_cas r) w → whole U r (w_fs w) → unused r w → empty_in →
  wp (Create r name) (λ x wb, live (r_cas r) wb.1 ∧ ∃ s c σ1, x = inr s ∧ next_id (w_tick w) "sbx-" (s_ID s) ∧
    s_Head s = c_ID c ∧ made_sandbox name "" s ∧ new_id "ck-" (c_ID c) ∧ c_Sandbox c = s_ID s ∧ c_Parent c = "" ∧
    worked r (s_ID s) (w_fs w) σ1 ∧ workable U r s σ1 ∧
    (∀ t, snapshot_of (Some defaultIgnore) (WorkDir r (s_ID s)) σ1 t → t = mkTree []) ∧ kept U r (c_ID c) (s_ID s) (w_fs w) (w_fs wb.1) ∧
    describes r (set_head "" s) None 0 "created" σ1 (w_fs wb.1) c ∧
    doc (w_fs wb.1) r "sandboxes" (s_ID s) = Some (json_MarshalIndent s)) (w, b).
Proof.
  intros Hlive Hw Hun Hem. pose proof (wh_repo _ _ _ Hw) as Hwf. unfold Create, new_sandbox. wp_step. wp_step. wp_step.
  apply wp_newID_next. intros id Hnx. wp_step. apply wp_time_Now. wp_step. set (s := mkSandbox _ _ _ _ _ _ _). simpl.
  pose proof (new_work_id _ (next_id_new _ _ _ Hnx)) as Hid. pose proof (WorkDir_eq r id Hid) as Hwd.
  assert (∀ cs, w_fs w !! (WorkDir r id ++ cs) = None) as Hn by (intros cs; by apply Hun).
  destruct (made_workable r s (w_fs w) (perm o755) Hwf Hid Hem Hn) as (Hw1 & Ha1 & He1).
  wp_step. wp_step. rewrite Hwd. unfold work_dir.
  eapply wp_mono; [apply wp_MkdirAll_child; [apply Hwf|apply Hwf; do 3 right; left|apply Hid|]|].
  { simpl. specialize (Hn []). by rewrite app_nil_r, Hwd in Hn. }
  intros x w1 (Hz1 & Hx). destruct x as [[]|[]]; try done; [by destruct Hx as [[] _]; apply Hlive|].
  change (w_fs w1 = <[work_dir r id := NDir (perm o755)]> (w_fs w)) in Hx. simpl in Hw1, Ha1, He1. rewrite Hwd, <- Hx in Hw1, Ha1. rewrite Hwd, <- Hx, <- Hwd in He1.
  assert (step_ready U r s (w_fs w1)) as Hr1.
  { split; [by eapply worked_repo|by eapply worked_store; [|apply Hw|]| |done|apply Ha1|intros t Ht; by apply Ha1].
    intros i c Hgi Hl. apply (whole_named _ _ _ Hw i c Hgi). by rewrite (load_same _ (w_fs w)) in Hl
      by (eapply worked_doc; [done|right; left]). }
  assert (live (r_cas r) w1) as Hl1 by (eapply live_agree; [done|by eapply worked_blobs]).
  wp_step. eapply wp_mono; [by apply wp_checkpoint|]. intros x [w2 b2] (ck & Hck & Hrec & _ & Hc & Hl2). simpl in *.
  destruct (Hl2 Hl1) as [Hl2' [c ->]]. destruct (Hc c eq_refl) as [<- Hdesc].
  assert (good_id (c_ID c)) as Hgck by (eapply (new_id_good "ck-"); done).
  assert (kept U r (c_ID c) id (w_fs w) (w_fs w2)) as Hk2.
  { eapply kept_trans; [by eapply kept_worked; [|apply Hw|]|].
    eapply (kept_recorded U r _ id "checkpoints" (c_ID c)); [apply Hr1|right; left|done|done|by left]. }
  wp_step. wp_step. eapply wp_mono; [apply (wp_putJSON r "sandboxes" id (set_head (c_ID c) s)); [apply Hk2|left|apply Hid]|].
  intros x w3 (Hz3 & Hx3). destruct x as [e|[]]; [by destruct Hx3 as [[] _]; apply Hlive|]. destruct Hx3 as (f & Hf & Hfs3).
  assert (kept U r (c_ID c) id (w_fs w2) (w_fs w3)) as Hk3.
  { eapply (kept_recorded U r _ id "sandboxes" id); [apply Hk2|left|apply Hid| |by right].
    apply recorded_write; [apply Hk2|right; by exists f]. }
  wp_step. split.
  { eapply live_agree; [exact Hl2'|]. simpl. rewrite Hfs3. eapply store_step_outside; [apply Hk2|apply Hk2|left|apply Hid]. }
  exists (set_head (c_ID c) s), c, (w_fs w1). simpl. split_and!; try done; [by repeat split; eexists|..].
  - apply (de_sandbox _ _ _ _ _ _ _ _ Hdesc).
  - apply (de_parent _ _ _ _ _ _ _ _ Hdesc).
  - by apply (workable_same U r s).
  - by eapply kept_trans.
  - eapply describes_keep; [exact Hdesc| |apply Hk3]. by rewrite Hfs3, doc_insert, decide_False by naive_solver.
  - by rewrite Hfs3, doc_insert, decide_True, Hf.
Qed.

End operations.
