(* ===== verification/WholeProps.v ===== *)
(** * What any sequence of operations leaves of a repository

    The operations of the engine on the process backend, in any order and
    number, with anything happening in the working directories between them, but
    for a checkout that would write through a symbolic link it finds there. *)

From S2P Require Import Prelude Sha256 Os OsFacts Cas Parallel Blobs Chunked Tree TreeFacts Snap SnapFacts SnapProps Model Json GoTime Codec Codecs ChunkedProps Repo RepoFacts RepoProps Backend Engine EngineFacts StepFacts StepProps WholeFacts.
Import Cas Chunked Tree Snap Model Repo Backend Engine.
Open Scope Z_scope.

Section props.
Context `{OsEnv, Sched, Processes} (U : bytes → Prop) {NC : NoCollision U}.
Implicit Types (w : world) (r : Repo) (σ : fs).

(** What a checkout finds in the working directory has names, and no symbolic link
    stands for the directory, or where the tree has a file or a directory. *)
Record unlinked r (s : Sandbox) (t : Tree) σ : Prop := {
  ul_dir : ∀ l, σ !! WorkDir r (s_ID s) ≠ Some (NLink l);
  ul_names : ∀ cs, is_Some (σ !! (WorkDir r (s_ID s) ++ cs)) → Forall (λ c, has_char slash c = false) cs;
  ul_entries : ∀ e, e ∈ t_Entries t → ¬ link_in_way e (σ !! (WorkDir r (s_ID s) ++ cs_of e))
}.

(** One operation, whatever its outcome; or a change in a working directory.
    The random identifier of a new checkpoint is not one in use. *)
Inductive op_step r : world → world → Prop :=
| op_work id w w' :
    worked r id (w_fs w) (w_fs w') → op_step r w w'
| op_create name x w w' :
    utf8 name → unused r w →
    Create r name (w, tt) = (x, (w', tt)) →
    (∀ s, x = Ok s → doc (w_fs w) r "checkpoints" (s_Head s) = None) → op_step r w w'
| op_run s command x w w' s' :
    sandbox_at (w_fs w) r (s_ID s) = Some s → behaves U r s command w tt →
    Run r command (w, tt, s) = (x, (w', tt, s')) →
    (∀ c, x = Ok c → doc (w_fs w) r "checkpoints" (c_ID c) = None ∧ json_dom c) → op_step r w w'
| op_checkout s id x w w' s' :
    sandbox_at (w_fs w) r (s_ID s) = Some s → good_id id →
    (∀ c t, checkpoint_at (w_fs w) r id = Some c → c_Sandbox c = s_ID s →
       tree_at (w_fs w) r (c_TreeHash c) = Some t → unlinked r s t (w_fs w)) →
    Checkout r id (w, tt, s) = (x, (w', tt, s')) → op_step r w w'
| op_fork id name x w w' :
    good_id id → utf8 name → unused r w →
    Fork r id name (w, tt) = (x, (w', tt)) →
    (∀ s, x = Ok s → doc (w_fs w) r "checkpoints" (s_Head s) = None) → op_step r w w'.

(** ** Each operation *)

Context (clock_ok : ∀ n, GoTime.in_range (clock n)) (no_files : empty_in U).

Definition healthy r w : Prop := live (r_cas r) w ∧ whole U r (w_fs w).

(** The outcome of a step: the host is still healthy and the repository evolved. *)
Definition stepped r w w' : Prop := live (r_cas r) w' ∧ ∃ sb, evolves U r sb (w_fs w) (w_fs w').

Lemma stepped_same r w w' : healthy r w → w_fs w' = w_fs w → stepped r w w'.
Proof.
  intros [Hl Hw] He. unfold stepped. rewrite He. split; [by eapply live_agree; [|intros q _; by rewrite He]|].
  exists "". by apply evolves_refl.
Qed.

Lemma stepped_worked r id w w' : healthy r w → worked r id (w_fs w) (w_fs w') → stepped r w w'.
Proof.
  intros [Hl Hw] Hk. split; [eapply live_agree; [done|eapply worked_blobs; [apply Hw|done]]|].
  exists id. by apply evolves_worked.
Qed.

Lemma made_dom name from s h :
  utf8 name → utf8 from → utf8 h → new_id "sbx-" (s_ID s) → made_sandbox name from s → s_Head s = h → json_dom s.
Proof.
  intros Hn Hf Hh Hid (Hnm & Hb & Hff & (n & Hc) & Hst) He.
  assert (utf8 (s_ID s)) as Hu by (apply (new_id_utf8 "sbx-"); [by repeat constructor|done]).
  change (codec_dom s). unfold codec_dom, sandbox_codec. rewrite Hnm, Hb, Hff, Hc, Hst, He.
  split_and!; try done. by destruct (decide (name = "")).
Qed.

Lemma new_id_ne pre id : good_id pre → pre ≠ "" → new_id pre id → good_id id ∧ id ≠ "".
Proof. intros Hg Hp Hn. destruct (new_id_good pre id Hg Hn) as [? He]. split; [done|]. by intros ->; apply Hp, He. Qed.

Lemma create_steps r name x w w' :
  healthy r w → utf8 name → unused r w → Create r name (w, tt) = (x, (w', tt)) →
  (∀ s, x = Ok s → doc (w_fs w) r "checkpoints" (s_Head s) = None) → stepped r w w'.
Proof.
  intros [Hl Hw] Hname Hun Hrun Hfresh.
  destruct (wp_exists _ _ _ (wp_CreateSandbox U proc_memory proc_guest r name w tt Hl Hw Hun no_files))
    as (y & [w2 []] & Hrun2 & Hl2 & s & c & σ1 & -> & Hsid & Hh & Hmade & Hck & Hsb & Hpar & Hw1 & Ha1 & He1 & Hk & Hd & Hds).
  rewrite Hrun in Hrun2. injection Hrun2 as -> <-. simpl in *. split; [done|]. exists (s_ID s).
  pose proof (next_id_new _ _ _ Hsid) as Hnew. destruct (new_id_ne "ck-" _ eq_refl (λ He, ltac:(discriminate He)) Hck) as [Hgck Hne].
  assert (utf8 (c_ID c)) as Huc by (apply (new_id_utf8 "ck-"); [by repeat constructor|done]).
  assert (utf8 (s_ID s)) as Hus by (apply (new_id_utf8 "sbx-"); [by repeat constructor|done]).
  assert (json_dom c) as Hjc.
  { destruct (de_tree _ _ _ _ _ _ _ _ Hd) as (t & Ht & Hth & _ & _ & Hcnt).
    pose proof (hashOf_utf8 (json_Marshal t)) as Hut. set (th := hashOf (json_Marshal t)) in *. clearbody th.
    pose proof (He1 t Ht) as Het. subst t.
    destruct (Hcnt (proj1 Hl) None (or_introl (conj eq_refl eq_refl))) as (Hadd & Hmod & Hdel).
    destruct (de_created _ _ _ _ _ _ _ _ Hd) as [n Hn]. destruct (de_image _ _ _ _ _ _ _ _ Hd) as (Hi1 & Hi2 & Hi3 & Hi4).
    change (codec_dom c). unfold codec_dom, checkpoint_codec. rewrite Hsb, Hpar, Hth, Hn, Hadd, Hmod, Hdel, Hi1, Hi2, Hi3, Hi4,
      (de_seq _ _ _ _ _ _ _ _ Hd), (de_command _ _ _ _ _ _ _ _ Hd), (de_code _ _ _ _ _ _ _ _ Hd), (de_note _ _ _ _ _ _ _ _ Hd).
    destruct Hmade as (_ & _ & _ & _ & Hst). simpl. rewrite Hst.
    split_and!; try assumption; try apply clock_ok; try (by constructor); vm_compute; done. }
  eapply (evolves_step U r c s); try done.
  - rewrite <- Hh. by apply Hfresh.
  - apply (de_doc _ _ _ _ _ _ _ _ Hd).
  - eapply made_dom; [exact Hname| |exact Huc|exact Hnew|exact Hmade|exact Hh]. vm_compute. done.
  - split; [done|done| |by left]. eapply describes_tree; [apply Hw1| |exact Hd]. by apply (workable_same U r s).
  - by apply new_work_id.
Qed.

Lemma run_dom s c : json_dom s → json_dom c → c_Seq c = s_Steps (add_step s) → json_dom (set_head (c_ID c) (add_step s)).
Proof.
  intros (H1' & H2' & H3' & H4' & H5' & H6' & H7') (Hc & _ & Hseq & _) He. rewrite He in Hseq.
  exact (conj H1' (conj H2' (conj H3' (conj Hc (conj H5' (conj H6' Hseq)))))).
Qed.

Lemma run_steps r s command x w w' s' :
  healthy r w → sandbox_at (w_fs w) r (s_ID s) = Some s → behaves U r s command w tt →
  Run r command (w, tt, s) = (x, (w', tt, s')) →
  (∀ c, x = Ok c → doc (w_fs w) r "checkpoints" (c_ID c) = None ∧ json_dom c) → stepped r w w'.
Proof.
  intros [Hl Hw] Hs Hb Hrun Hfresh. pose proof (whole_ready U r _ _ _ Hw Hs) as Hr.
  destruct (wh_sandboxes _ _ _ Hw _ _ Hs) as [_ Hjs Hwk (p & Hp & Hps)].
  destruct (wp_exists _ _ _ (wp_Run U proc_memory proc_guest r s command w tt Hr Hb))
    as (y & [[w2 []] s2] & Hrun2 & ck & Hck & Hk & Hc & Hlive).
  rewrite Hrun in Hrun2. injection Hrun2 as -> <- <-. simpl in *. destruct (Hlive Hl) as [Hl2 Hex].
  assert (match y with inl _ => worked r (s_ID s) (w_fs w) (w_fs w') | inr _ => True end) as Hfail.
  { destruct y as [e|c]; [|done]. destruct (_.1) as [code|?|]; [by destruct Hex as [? ?]|by destruct Hex..]. }
  destruct y as [e|c]; [by eapply stepped_worked|].
  destruct (Hc c eq_refl) as (code & we & be & _ & Hwe & Ha & Hid & -> & Hd & _ & Hds). destruct (Hfresh c eq_refl) as [Hfr Hjc].
  destruct (new_id_ne "ck-" _ eq_refl (λ He, ltac:(discriminate He)) Hck) as [Hgck Hne]. rewrite <- Hid in *.
  split; [done|]. exists (s_ID s). eapply (evolves_step U r c (set_head (c_ID c) (add_step s))); try done.
  - apply (de_doc _ _ _ _ _ _ _ _ Hd).
  - apply run_dom; [done|done|apply (de_seq _ _ _ _ _ _ _ _ Hd)].
  - split; [done|done| |].
    + eapply describes_tree; [apply Hwe| |exact Hd]. by apply (workable_same U r s).
    + right. exists p. rewrite (de_parent _ _ _ _ _ _ _ _ Hd), (de_sandbox _ _ _ _ _ _ _ _ Hd). done.
  - apply (de_sandbox _ _ _ _ _ _ _ _ Hd).
Qed.

Lemma tree_restore r id h t σ :
  whole U r σ → tree_whole r σ h t → work_id id →
  (is_dir σ (WorkDir r id) ∨ σ !! WorkDir r id = None) →
  (∀ cs, is_Some (σ !! (WorkDir r id ++ cs)) → Forall (λ c, has_char slash c = false) cs) →
  (∀ e, e ∈ t_Entries t → ¬ link_in_way e (σ !! (WorkDir r id ++ cs_of e))) →
  restore_able U (r_cas r) (WorkDir r id) t σ.
Proof.
  intros Hw [Hd Ht Hok Hes] Hid Hdst Hnames Hlinks. pose proof (wh_repo _ _ _ Hw) as Hwf. split; try done; [apply Hw|..].
  - intros cs Hb. rewrite (rw_cas _ _ Hwf) in Hb. apply (work_apart _ id) in Hb. apply Hb.
    rewrite WorkDir_eq by done. by eexists.
  - destruct Hdst as [Hdir|Hn]; [by left|right]. exists (r_root r ++ ["work"]), id. rewrite WorkDir_eq in * by done.
    split_and!; [done|apply Hwf; do 3 right; left|apply Hid|done].
  - by apply Forall_forall.
Qed.

Lemma head_dom s c : json_dom s → json_dom c → json_dom (set_head (c_ID c) s).
Proof.
  intros (H1' & H2' & H3' & H4' & H5') [Hc _]. exact (conj H1' (conj H2' (conj H3' (conj Hc H5')))).
Qed.

Lemma workdir_cases r s σ :
  (∀ l, σ !! WorkDir r (s_ID s) ≠ Some (NLink l)) →
  (is_dir σ (WorkDir r (s_ID s)) ∨ σ !! WorkDir r (s_ID s) = None) ∨
  ∃ n, σ !! WorkDir r (s_ID s) = Some n ∧ is_dir_node n = false ∧ ∀ l, n ≠ NLink l.
Proof.
  intros Hl. unfold is_dir. destruct (σ !! WorkDir r (s_ID s)) as [[f|m|l|m]|]; [right|left; left|by destruct (Hl l)|right|left; by right].
  - by exists (NFile f).
  - by exists m.
  - by exists (NOther m).
Qed.

Lemma checkout_steps r s id x w w' s' :
  healthy r w → sandbox_at (w_fs w) r (s_ID s) = Some s → good_id id →
  (∀ c t, checkpoint_at (w_fs w) r id = Some c → c_Sandbox c = s_ID s →
     tree_at (w_fs w) r (c_TreeHash c) = Some t → unlinked r s t (w_fs w)) →
  Checkout r id (w, tt, s) = (x, (w', tt, s')) → stepped r w w'.
Proof.
  intros Hh Hs Hid Hfits Hrun. pose proof Hh as [Hl Hw]. pose proof (proj1 Hl) as Hq.
  destruct (wh_sandboxes _ _ _ Hw _ _ Hs) as [_ Hjs Hwk _].
  destruct (checkpoint_at (w_fs w) r id) as [c|] eqn:Hc.
  2: { eapply stepped_same; [done|].
       assert (wp (Checkout r id) (λ _ wbs, w_fs wbs.1.1 = w_fs w) (w, tt, s)) as Hwp.
       { unfold Checkout. wp_step. wp_step. simpl. wp_step. wp_step. wp_step. wp_use wp_GetCheckpoint; [apply Hw|done|].
         unfold checkpoint_at in Hc. rewrite Hc. by intros [e|c'] w1 (Hfs1 & Hz1 & Hx). }
       pose proof (wp_run _ _ _ _ _ Hwp Hrun) as Hr. by destruct x. }
  destruct (wh_checkpoints _ _ _ Hw _ _ Hc) as [Hcid Hjc _ _]. subst id.
  destruct (decide (c_Sandbox c = s_ID s)) as [Hsb|Hne].
  2: { eapply stepped_same; [done|].
       pose proof (wp_run _ _ _ _ _ (wp_Checkout_other r s c w tt Hq (wh_repo _ _ _ Hw) Hid Hc Hne) Hrun) as Hr.
       by destruct x as [?|?|]; [apply Hr..|]. }
  destruct (whole_readable U r _ _ _ Hw Hc) as (t & Ht & Hre).
  destruct (Hfits c t eq_refl Hsb (tw_tree _ _ _ _ Ht)) as [Hdir Hnames Hlinks].
  destruct (workdir_cases r s _ Hdir) as [Hdst|(n & Hn & Hnd & Hnl)].
  2: { eapply stepped_same; [done|].
       pose proof (wp_run _ _ _ _ _ (wp_Checkout_nowhere U r s c t n w tt Hq Hre Hsb Hn Hnd Hnl) Hrun) as Hr.
       by destruct x as [?|?|]; [apply Hr..|]. }
  pose proof (tree_restore r (s_ID s) _ t _ Hw Ht Hwk Hdst Hnames Hlinks) as Hpre.
  pose proof (wp_run _ _ _ _ _ (wp_Checkout_able U proc_memory r s c t w tt Hq Hwk Hre Hsb Hpre) Hrun) as Hr.
  destruct x as [[]|?|]; [|by eapply stepped_worked; [|apply Hr]|done].
  destruct Hr as (_ & Hs' & Hk & (σ1 & f & Hres & Hfs) & Hds). cbn [fst snd] in *. subst s'.
  pose proof (restored_worked _ _ _ _ _ _ Hwk Hres) as Hwk1.
  assert (∀ i, doc (w_fs w') r "checkpoints" i = doc (w_fs w) r "checkpoints" i) as Hdc.
  { intros i. rewrite Hfs, doc_insert, decide_False by naive_solver. eapply worked_doc; [done|right; left]. }
  split.
  - eapply live_agree; [done|]. intros q Hq'. rewrite Hfs, lookup_insert_ne.
    + by eapply worked_blobs; [apply Hw|..].
    + intros <-. rewrite (rw_cas _ _ (wh_repo _ _ _ Hw)) in Hq'. by apply repo_blobs_disjoint in Hq'; [|left].
  - exists (s_ID s). eapply evolves_head; try done. by apply head_dom.
Qed.

Lemma fork_root_dom src c id :
  json_dom src → utf8 id → utf8 (c_ID c) → fork_root src c id → json_dom c.
Proof.
  intros Hj Hid Hc (Hsb & Hseq & Hpar & Ht & Hm & Hst & Hdk & Hb & Hcmd & Hcode & (n & Hcr) & Hnote & Ha & Hmo & Hde).
  change (codec_dom src) in Hj. change (codec_dom c). unfold codec_dom, checkpoint_codec in *.
  rewrite Hsb, Hseq, Hpar, Ht, Hm, Hst, Hdk, Hb, Hcmd, Hcode, Hcr, Hnote, Ha, Hmo, Hde. destruct_and! Hj.
  split_and!; try assumption; try apply clock_ok; try (by constructor);
    try (apply utf8_ascii_app; [by repeat constructor|assumption]); vm_compute; done.
Qed.

(** A fork of any checkpoint of a whole repository. *)
Lemma fork_whole r c w :
  healthy r w → checkpoint_at (w_fs w) r (c_ID c) = Some c → unused r w →
  ∃ t, tree_whole r (w_fs w) (c_TreeHash c) t ∧ readable U r (w_fs w) c t ∧
    ∀ id, next_id (w_tick w) "sbx-" id → restore_pre U (r_cas r) (WorkDir r id) t (w_fs w).
Proof.
  intros [Hl Hw] Hc Hun. destruct (whole_readable U r _ _ _ Hw Hc) as (t & Ht & Hre). exists t. split_and!; [done|done|].
  intros id Hid. apply able_pre; [eapply tree_restore; [done|done|by eapply new_work_id, next_id_new|..]|].
  - right. rewrite <- (app_nil_r (WorkDir r id)). by apply Hun.
  - intros cs [n Hn]. by rewrite Hun in Hn.
  - intros e He. rewrite Hun by done. by intros [].
  - intros e He. by rewrite Hun.
Qed.

Lemma fork_steps r id name x w w' :
  healthy r w → good_id id → utf8 name → unused r w → Fork r id name (w, tt) = (x, (w', tt)) →
  (∀ s, x = Ok s → doc (w_fs w) r "checkpoints" (s_Head s) = None) → stepped r w w'.
Proof.
  intros Hh Hid Hname Hun Hrun Hfresh. pose proof Hh as [Hl Hw]. pose proof (proj1 Hl) as Hq.
  destruct (checkpoint_at (w_fs w) r id) as [c|] eqn:Hc.
  2: { eapply stepped_same; [done|]. assert (wp (Fork r id name) (λ _ wb, w_fs wb.1 = w_fs w) (w, tt)) as Hwp.
       { unfold Fork. wp_step. wp_step. wp_use wp_GetCheckpoint; [apply Hw|done|].
         unfold checkpoint_at in Hc. rewrite Hc. by intros [e|c'] w1 (Hfs1 & Hz1 & Hx). }
       pose proof (wp_run _ _ _ _ _ Hwp Hrun) as Hr. by destruct x. }
  destruct (wh_checkpoints _ _ _ Hw _ _ Hc) as [Hcid Hjc _ _]. subst id.
  destruct (fork_whole r c w Hh Hc Hun) as (t & Ht & Hre & Hpre).
  pose proof (wp_run _ _ _ _ _ (wp_Fork_tree U proc_memory r c t name w tt Hq Hre Hpre) Hrun) as Hr.
  destruct x as [s|?|]; [|by destruct Hr as (? & ? & ? & _)|done].
  destruct Hr as (s' & ck & Hs' & Hsid & Hck & Hhd & Hmade & Hroot & Hk & (σ1 & f & f' & Hres & Hfs) & Hdc & Hds).
  injection Hs' as <-. cbn [fst snd] in *. pose proof (next_id_new _ _ _ Hsid) as Hnew. pose proof (new_work_id _ Hnew) as Hwk.
  destruct (new_id_ne "ck-" _ eq_refl (λ He, ltac:(discriminate He)) Hck) as [Hgck Hne].
  assert (utf8 (c_ID ck)) as Huc by (apply (new_id_utf8 "ck-"); [by repeat constructor|done]).
  assert (utf8 (s_ID s)) as Hus by (apply (new_id_utf8 "sbx-"); [by repeat constructor|done]).
  assert (json_dom ck) as Hjk by by eapply fork_root_dom.
  split.
  - eapply live_agree; [done|]. intros q Hq'. rewrite Hfs, !lookup_insert_ne.
    + eapply worked_blobs; [apply Hw|by eapply restored_worked|done].
    + intros <-. rewrite (rw_cas _ _ (wh_repo _ _ _ Hw)) in Hq'. by apply repo_blobs_disjoint in Hq'; [|right; left].
    + intros <-. rewrite (rw_cas _ _ (wh_repo _ _ _ Hw)) in Hq'. by apply repo_blobs_disjoint in Hq'; [|left].
  - exists (s_ID s). destruct Hroot as (Hsb & Hseq & Hpar & Hth & _). eapply (evolves_step U r ck s); try done.
    + rewrite <- Hhd. by apply Hfresh.
    + destruct Hjc as [Hcu _]. eapply made_dom; [exact Hname|exact Hcu|exact Huc|exact Hnew|exact Hmade|exact Hhd].
    + split; [done|done| |by left]. exists t. rewrite Hth. eapply tree_whole_keep; [|exact Ht]. exact (kp_blobs _ _ _ _ _ _ Hk).
Qed.

Lemma work_doc_ne r id d x cs : work_id id → d ∈ doc_dirs → doc_file r d x ≠ WorkDir r id ++ cs.
Proof.
  intros Hid Hd He. apply (work_not_doc r id d (x +:+ ".json") Hd). unfold doc_file in He. rewrite He.
  rewrite WorkDir_eq by done. by eexists.
Qed.

(** What a restore into an empty place makes of an entry whose contents were
    in the store before. *)
Definition made_as r σ (e : Entry) (n : option node) : Prop :=
  match n with
  | Some (NDir m) => e_Dir e = true ∧ m = perm (e_Mode e)
  | Some (NLink l) => e_Dir e = false ∧ l = e_Link e
  | Some (NFile f) => e_Dir e = false ∧ e_Link e = "" ∧ f_mode f = perm (e_Mode e) ∧
      blob_of σ (r_cas r) (e_Hash e) = Some (contents f)
  | _ => False
  end.

Lemma matches_past r dst σ σ' e n l :
  blobs_kept r σ σ' → Forall (entry_stored (r_cas r) σ) l → e ∈ l → σ' !! (dst ++ cs_of e) = None →
  node_matches (r_cas r) dst σ' e n → made_as r σ e n.
Proof.
  intros Hb Hes He Hn Hm. rewrite Forall_forall in Hes. specialize (Hes e He). unfold node_matches in Hm.
  destruct (e_Dir e) eqn:Hdir; [destruct Hm as (m & -> & Hmode); by split; [|apply Hmode]|].
  case_decide as Hlk; [by subst n|]. destruct Hm as (f & -> & Hf & Hmode).
  assert (e_Link e = "") as Hl0 by (destruct (decide (e_Link e = "")); [done|by destruct Hlk]).
  destruct (Hes Hdir Hl0) as (x & Hh & _ & Hst). split_and!; [done|done|by apply Hmode|].
  unfold stored in Hst. rewrite Hh in *. pose proof (Hb _ _ (hashOf_digest x) Hst) as Hx. rewrite Hst, <- Hx. exact Hf.
Qed.

(** ** Any sequence *)

Lemma op_stepped r w w' : healthy r w → op_step r w w' → stepped r w w'.
Proof.
  intros Hh Hs. destruct Hs.
  - by eapply stepped_worked.
  - by eapply create_steps.
  - by eapply run_steps.
  - by eapply checkout_steps.
  - by eapply fork_steps.
Qed.

Lemma ops_healthy r w w' : healthy r w → rtc (op_step r) w w' →
  healthy r w' ∧ blobs_kept r (w_fs w) (w_fs w') ∧ checkpoints_kept r (w_fs w) (w_fs w').
Proof.
  intros Hh Hs. revert Hh. induction Hs as [w|w w1 w' Hs _ IH]; intros Hh; [by split_and!; [|intros h x|intros id]|].
  destruct (op_stepped r w w1 Hh Hs) as (Hl1 & sb & Hev). destruct Hh as [Hl Hw].
  destruct IH as (Hh' & Hb & Hk); [split; [done|by eapply evolves_whole]|]. split_and!; [done|..].
  - intros h x Hd Hx. apply Hb; [done|]. by apply (ev_blobs _ _ _ _ _ Hev).
  - intros id Hi. pose proof (ev_checkpoints _ _ _ _ _ Hev id Hi) as He. rewrite Hk; [done|]. by rewrite He.
Qed.

(** C1 (repository_whole): the operations [Create], [Run], [Checkout] and [Fork] on
    the process backend, in any order and number and whatever each returns, and
    changes in the working directories between them: the repository stays whole.
    Every checkpoint is under its own identifier, its tree and the contents of
    every file of it are in the store, its parents lead to a root and all belong to
    its sandbox, and every sandbox's head is one of its own checkpoints; no
    checkpoint and no tree of one is ever lost or changed.

    The host's calls do not fail; names and commands are UTF-8; commands change
    their working directory only and leave names in UTF-8 in it; the identifiers
    drawn are not in use; SHA-256 does not collide on the contents in play; and a
    checkout finds no symbolic link for the working directory, or in it where the
    tree has a file or a directory ([unlinked]): [Restore] would write through it,
    see [SnapFaults.restore_through_link].  Anything else of another kind in the
    way makes a checkout fail, and the repository is whole then too. *)
Theorem repository_whole r w w' :
  live (r_cas r) w → whole U r (w_fs w) → rtc (op_step r) w w' →
  whole U r (w_fs w') ∧
  ∀ id c, checkpoint_at (w_fs w) r id = Some c → checkpoint_at (w_fs w') r id = Some c ∧
    ∃ t, tree_whole r (w_fs w) (c_TreeHash c) t ∧ tree_whole r (w_fs w') (c_TreeHash c) t.
Proof.
  intros Hl Hw Hs. destruct (ops_healthy r w w' (conj Hl Hw) Hs) as ([_ Hw'] & Hb & Hk). split; [done|].
  intros id c Hc. split; [by eapply checkpoint_kept|]. destruct (wh_checkpoints _ _ _ Hw id c Hc) as [_ _ [t Ht] _].
  exists t. split; [done|by eapply tree_whole_keep].
Qed.

(** C2 (past_forks): whatever operations of [op_step] follow, a checkpoint can be
    forked: the fork succeeds and its working directory has the entries of the tree
    the checkpoint had, each file with the contents the store held then, and
    nothing else.

    As above: the process backend on a host whose calls do not fail, commands that
    change their working directory only and leave UTF-8 names, identifiers not in use, and no checkout
    in between that finds a symbolic link where it would write through it. *)
Theorem past_forks r id c name w w' :
  live (r_cas r) w → whole U r (w_fs w) → rtc (op_step r) w w' →
  checkpoint_at (w_fs w) r id = Some c → unused r w' →
  ∃ t s w'', tree_whole r (w_fs w) (c_TreeHash c) t ∧ Fork r id name (w', tt) = (Ok s, (w'', tt)) ∧
    s_ForkedFrom s = id ∧
    (∀ e, e ∈ t_Entries t → made_as r (w_fs w) e (w_fs w'' !! (WorkDir r (s_ID s) ++ cs_of e))) ∧
    (∀ cs, cs ≠ [] → is_Some (w_fs w'' !! (WorkDir r (s_ID s) ++ cs)) → ∃ e, e ∈ t_Entries t ∧ cs_of e = cs).
Proof.
  intros Hl Hw Hs Hc Hun. destruct (ops_healthy r w w' (conj Hl Hw) Hs) as (Hh' & Hb & Hk).
  destruct (wh_checkpoints _ _ _ Hw _ _ Hc) as [Hcid _ [t Ht] _]. subst id.
  pose proof (checkpoint_kept r _ _ _ _ Hk Hc) as Hc'.
  destruct (fork_whole r c w' Hh' Hc' Hun) as (t' & Ht' & Hre & Hpre).
  assert (t' = t) as ->.
  { pose proof (tw_tree _ _ _ _ (tree_whole_keep r _ _ _ _ Hb Ht)) as H1'. rewrite (tw_tree _ _ _ _ Ht') in H1'. congruence. }
  destruct (wp_exists _ _ _ (wp_Fork_tree U proc_memory r c t name w' tt (proj1 Hl) Hre Hpre))
    as (x & [w2 []] & Hrun & s & ck & -> & Hsid & _ & _ & Hmade & _ & _ & (σ1 & f & f' & Hres & Hfs) & _ & _).
  pose proof (new_work_id _ (next_id_new _ _ _ Hsid)) as Hwk. cbn [fst snd] in *.
  assert (∀ cs, w_fs w2 !! (WorkDir r (s_ID s) ++ cs) = σ1 !! (WorkDir r (s_ID s) ++ cs)) as Hag.
  { intros cs. by rewrite Hfs, !lookup_insert_ne by (apply work_doc_ne; [done|]; first [left|right; left]). }
  exists t, s, w2. split_and!; [done|exact Hrun|apply Hmade|..].
  - intros e He. rewrite Hag. eapply matches_past; [exact Hb|apply Ht|exact He|by apply Hun|by apply (rs_entries _ _ _ _ _ Hres)].
  - intros cs Hne Hi. rewrite Hag in Hi. by apply (rs_only _ _ _ _ _ Hres).
Qed.

End props.

(** ** A sandbox made, changed and forked *)

(** A host that draws three identifiers. *)
Definition draws : OsEnv :=
  {| fault := λ _, None; partial := λ _, 0%nat; clock := λ _, 0; umask := 0x12;
     entropy := λ t, if (t <? 1)%nat then 1%N else if (t <? 24)%nat then 2%N else 3%N;
     tempdir := ["tmp"]; getenv := λ _, ""; device := 1; st_blocks := λ _ _, 0; link_mtime := λ _, 0 |}.

#[local] Existing Instance draws.
#[local] Existing Instance in_order.
#[local] Instance idle : Processes := {| cmd_Run := λ _ _ w, (Ok (Exited 0), w) |}.

Definition demo_U (b : bytes) : Prop := b = json_Marshal (mkTree []).
#[global] Instance demo_no_collision : NoCollision demo_U.
Proof. by intros b c -> ->. Qed.

Definition demo_0 : world := World repo_fs 0 ∅.
Definition demo_box : Sandbox := mkSandbox "sbx-010000000000" "demo" "process" "ck-020000000000" "" 0 0.
Definition demo_1 : world := (Create small_repo "demo" (demo_0, tt)).2.1.
Definition demo_note : path := ["repo"; "work"; "sbx-010000000000"; "note"].
Definition demo_2 : world := set_fs (<[demo_note := NFile job_out]> (w_fs demo_1)) demo_1.
Definition demo_3 : world := (Fork small_repo "ck-020000000000" "copy" (demo_2, tt)).2.1.

Lemma demo_clock n : GoTime.in_range (@clock draws n).
Proof. vm_compute. split; discriminate. Qed.

Lemma demo_empty : empty_in demo_U.
Proof. split; [reflexivity|]. constructor. Qed.

Lemma demo_quiet : @quiet draws.
Proof. done. Qed.

Lemma demo_healthy : healthy demo_U small_repo demo_0.
Proof.
  pose proof repo_fs_wf as Hwf.
  assert (∀ c, repo_fs !! (["repo"; "blobs"] ++ [c]) = None) as Hb.
  { intros c. destruct (repo_fs !! _) as [n|] eqn:E; [|done]. apply repo_nodes in E as [_ E]. simpl in E. naive_solver. }
  destruct (store_wf_fresh repo_fs ["repo"; "blobs"]) as [Hst Hc]; [apply Hwf|by eexists|done|].
  assert (∀ d id, d ∈ doc_dirs → doc repo_fs small_repo d id = None) as Hd.
  { intros d id _. unfold doc. destruct (repo_fs !! _) as [n|] eqn:E; [|done]. by apply repo_nodes in E as [-> _]. }
  split; [split; [apply demo_quiet|done]|]. split; [done| |..].
  - split; [done|]. intros h c Hh Hbl. unfold blob_of in Hbl.
    destruct (w_fs demo_0 !! slot (r_cas small_repo) h) as [n|] eqn:E; [|done]. by apply repo_nodes in E as [-> _].
  - intros id c (y & Hy)%load_present. change (doc repo_fs small_repo "checkpoints" id = Some y) in Hy. rewrite Hd in Hy; [done|right; left].
  - intros id s (y & Hy)%load_present. change (doc repo_fs small_repo "sandboxes" id = Some y) in Hy. rewrite Hd in Hy; [done|left].
Qed.

Lemma demo_created : Create small_repo "demo" (demo_0, tt) = (Ok demo_box, (demo_1, tt)).
Proof.
  unfold demo_1. assert ((Create small_repo "demo" (demo_0, tt)).1 = Ok demo_box) as He by (vm_compute; reflexivity).
  destruct (Create _ _ _) as [x [w []]]. simpl in *. by subst x.
Qed.


Lemma repo_no_work id cs : work_id id → repo_fs !! (WorkDir small_repo id ++ cs) = None.
Proof.
  intros Hid. rewrite WorkDir_eq by done. destruct (repo_fs !! _) as [n|] eqn:E; [|done]. apply repo_nodes in E as [_ E].
  unfold work_dir in E. simpl in E. naive_solver.
Qed.

Lemma demo_unused_0 : unused small_repo demo_0.
Proof. intros id cs Hid. apply repo_no_work. by eapply new_work_id, next_id_new. Qed.

(** What [Create] left. *)
Lemma demo_kept : kept demo_U small_repo "ck-020000000000" "sbx-010000000000" repo_fs (w_fs demo_1).
Proof.
  destruct demo_healthy as [Hl Hw]. pose proof demo_created as Hrun. generalize dependent demo_1. intros w1 Hrun.
  pose proof (wp_run _ _ _ _ _ (wp_CreateSandbox demo_U proc_memory proc_guest small_repo "demo" demo_0 tt Hl Hw demo_unused_0 demo_empty)
    Hrun) as (_ & s & c & σ1 & Hs & _ & Hh & _ & _ & _ & _ & _ & _ & _ & Hk & _).
  apply (inj inr) in Hs. subst s. rewrite <- Hh in Hk. exact Hk.
Qed.

Lemma demo_tick : w_tick demo_1 = 24%nat.
Proof. vm_compute. reflexivity. Qed.

Lemma demo_next id : next_id 24 "sbx-" id → id = "sbx-030000000000".
Proof.
  intros (t & Ht & ->). unfold entropy, draws. rewrite (proj2 (Nat.ltb_ge t 1)), (proj2 (Nat.ltb_ge t 24)) by lia. reflexivity.
Qed.

Lemma demo_unused w :
  w_tick w = 24%nat → kept demo_U small_repo "ck-020000000000" "sbx-010000000000" repo_fs (w_fs w) →
  unused small_repo (set_fs (<[demo_note := NFile job_out]> (w_fs w)) w).
Proof.
  intros Ht Hk id cs Hid. simpl in *. rewrite Ht in Hid. pose proof (new_work_id _ (next_id_new _ _ _ Hid)) as Hwk.
  apply demo_next in Hid as ->. rewrite (WorkDir_eq small_repo) by done.
  rewrite lookup_insert_ne by (intros He; discriminate He).
  rewrite (kp_frame _ _ _ _ _ _ Hk); [|..].
  - rewrite <- (WorkDir_eq small_repo) by done. by apply repo_no_work.
  - intros Hb. eapply (work_apart small_repo "sbx-030000000000"); [exact Hb|]. by eexists.
  - intros [k He]. discriminate He.
  - intros He. discriminate He.
  - intros He. discriminate He.
Qed.

Lemma demo_unused_2 : unused small_repo demo_2.
Proof. exact (demo_unused demo_1 demo_tick demo_kept). Qed.

Lemma demo_worked : worked small_repo "sbx-010000000000" (w_fs demo_1) (w_fs demo_2).
Proof.
  split.
  - apply (fs_wf_insert _ ["repo"; "work"; "sbx-010000000000"] "note").
    + apply demo_kept.
    + exists 0x1ed. vm_compute. reflexivity.
    + by repeat split.
    + intros [m Hm]. vm_compute in Hm. discriminate Hm.
  - intros q Hq. unfold demo_2. simpl. apply lookup_insert_ne. intros <-. apply Hq. by exists ["note"].
Qed.

Lemma demo_forked : ∃ s, Fork small_repo "ck-020000000000" "copy" (demo_2, tt) = (Ok s, (demo_3, tt)) ∧ s_Head s = "ck-030000000000".
Proof.
  assert (match (Fork small_repo "ck-020000000000" "copy" (demo_2, tt)).1 with Ok s => s_Head s = "ck-030000000000" | _ => False end) as He
    by (vm_compute; reflexivity).
  unfold demo_3. destruct (Fork _ _ _ _) as [[s|?|] [w []]]; [|done..]. by exists s.
Qed.

Lemma demo_made : rtc (op_step demo_U small_repo) demo_0 demo_1.
Proof.
  apply rtc_once. eapply (op_create _ _ "demo"); [reflexivity|apply demo_unused_0|apply demo_created|].
  intros s [= <-]. vm_compute. reflexivity.
Qed.

Lemma demo_changed : rtc (op_step demo_U small_repo) demo_1 demo_2.
Proof. apply rtc_once. eapply op_work, demo_worked. Qed.

Lemma demo_copied : rtc (op_step demo_U small_repo) demo_2 demo_3.
Proof.
  destruct demo_forked as (s & Hf & Hh). apply rtc_once.
  eapply (op_fork _ _ "ck-020000000000" "copy"); [done|reflexivity|apply demo_unused_2|exact Hf|].
  intros s' [= <-]. rewrite Hh. vm_compute. reflexivity.
Qed.

(** C1 at a repository where a sandbox is made, changed and forked. *)
Lemma repository_whole_witness : whole demo_U small_repo (w_fs demo_3).
Proof.
  destruct demo_healthy as [Hl Hw].
  apply (repository_whole demo_U demo_clock demo_empty small_repo demo_0 demo_3 Hl Hw).
  exact (transitivity demo_made (transitivity demo_changed demo_copied)).
Defined.

(** C2 at that repository: the change is not in the fork. *)
Lemma past_forks_witness : ∃ s w, Fork small_repo "ck-020000000000" "copy" (demo_2, tt) = (Ok s, (w, tt)) ∧
  s_ForkedFrom s = "ck-020000000000" ∧ w_fs w !! (WorkDir small_repo (s_ID s) ++ ["note"]) = None.
Proof.
  destruct (ops_healthy demo_U demo_clock demo_empty small_repo demo_0 demo_1 demo_healthy demo_made) as ([Hl Hw] & _).
  assert ((c ← checkpoint_at (w_fs demo_1) small_repo "ck-020000000000";
    t_Entries <$> tree_at (w_fs demo_1) small_repo (c_TreeHash c)) = Some []) as Ht by (vm_compute; reflexivity).
  destruct (checkpoint_at (w_fs demo_1) small_repo "ck-020000000000") as [c|] eqn:Hc; [|discriminate Ht].
  change (t_Entries <$> tree_at (w_fs demo_1) small_repo (c_TreeHash c) = Some []) in Ht.
  destruct (past_forks demo_U demo_clock demo_empty small_repo "ck-020000000000" c "copy" demo_1 demo_2 Hl Hw demo_changed Hc demo_unused_2)
    as (t & s & w & Htw & Hf & Hff & _ & Honly).
  exists s, w. split; [exact Hf|]. split; [exact Hff|]. rewrite (tw_tree _ _ _ _ Htw) in Ht. apply (inj Some) in Ht.
  destruct (w_fs w !! _) as [n|] eqn:E; [|reflexivity]. exfalso.
  destruct (Honly ["note"]) as (e & He & _); [discriminate|by eexists|]. rewrite Ht in He. by apply not_elem_of_nil in He.
Defined.
