(* ===== verification/Remote.v ===== *)
(** * Object stores (src/internal/remote/store.go, dir.go, s3.go)

    A remote keeps bytes under flat keys.  Its own state has a type [R] (an
    HTTP service; nothing for a directory), and its operations run on the world
    and that state. *)

From S2P Require Import Prelude Sha256 GoTime Os OsFacts.
Open Scope Z_scope.

Module Remote.

Class ObjectStore (R : Type) := {
  store_Put : string → bytes → M (world * R) unit;
  store_Get : string → M (world * R) bytes;
  store_Has : string → M (world * R) bool;
  store_List : string → M (world * R) (list string)
}.

(** ** A directory *)

Section dir.
Context `{OsEnv}.

Definition NewDirStore (root : path) : M world path := os_MkdirAll root o755;; mret root.

Definition key_path (root : path) (key : string) : path := join root key.

Definition with_tmp (p : path) : path := dir_of p ++ [base_of p +:+ ".tmp"].

Definition dir_Put (root : path) (key : string) (data : bytes) : M world unit :=
  let p := key_path root key in
  os_MkdirAll (dir_of p) o755;;
  os_WriteFile (with_tmp p) data o644;;
  os_Rename (with_tmp p) p.

Definition dir_Get (root : path) (key : string) : M world bytes :=
  r ← attempt (os_ReadFile (key_path root key));
  match r with
  | inl e => throw (if errors_Is e (Errno ENOENT) then ErrObjectNotFound else e)
  | inr b => mret b
  end.

Definition dir_Has (root : path) (key : string) : M world bool :=
  r ← attempt (os_Stat (key_path root key));
  match r with
  | inr _ => mret true
  | inl e => if errors_Is e (Errno ENOENT) then mret false else throw e
  end.

(** The text of an absolute path. *)
Definition path_string (p : path) : string := "/" +:+ join_with "/" p.
Definition ends_with (suf s : string) : bool :=
  bool_decide (String.length suf ≤ String.length s)%nat &&
  bool_decide (String.substring (String.length s - String.length suf) (String.length suf) s = suf).

(** The callback of [List]; errors of the walk are dropped. *)
Definition list_fn (root base : path) (p : path) (isDir : bool) (err : option gerr) : M (world * list string) unit :=
  match err with
  | Some _ => mret tt
  | None =>
      if isDir then mret tt else
      if ends_with ".tmp" (path_string p) then mret tt else
      if negb (has_prefix (path_string base) (path_string p)) then mret tt else
      modify_snd (λ keys, keys ++ [rel_of root p])
  end.

Definition dir_List (root : path) (prefix : string) : M world (list string) :=
  with_local [] (ignore (filepath_WalkDir (list_fn root (join root prefix)) root)).

(** A directory store has no state beside the files. *)
Definition DirStore (root : path) : ObjectStore unit := {|
  store_Put k b := on_fst (dir_Put root k b);
  store_Get k := on_fst (dir_Get root k);
  store_Has k := on_fst (dir_Has root k);
  store_List p := on_fst (dir_List root p)
|}.

End dir.

(** ** S3 *)

Record S3Config := mkS3Config {
  cfg_Endpoint : string;
  cfg_Region : string;
  cfg_Bucket : string;
  cfg_Prefix : string;
  cfg_AccessKey : string;
  cfg_SecretKey : string;
  cfg_PathStyle : bool
}.

Record S3 := mkS3 { s3_cfg : S3Config; s3_host : string; s3_base : string }.

(** A request as the client sends it, and a response: its body is absent when
    reading it fails. *)
Record request := mkRequest {
  rq_Method : string;
  rq_URL : string;
  rq_Headers : list (string * string);
  rq_Body : bytes
}.
Record response := mkResponse { rs_StatusCode : Z; rs_Status : string; rs_Body : option bytes }.

(** A page of a listing. *)
Record listResult := mkListResult { lr_Contents : list string; lr_IsTruncated : bool; lr_NextToken : string }.

(** [strings.TrimRight(s, "/")]. *)
Fixpoint trim_right_slash (s : string) : string :=
  match s with
  | EmptyString => EmptyString
  | String a s' =>
      match trim_right_slash s' with
      | EmptyString => if decide (a = slash) then EmptyString else String a EmptyString
      | t => String a t
      end
  end.

Definition in_range_b (lo hi b : byte) : bool := (Byte.to_N lo <=? Byte.to_N b)%N && (Byte.to_N b <=? Byte.to_N hi)%N.

(** [strings.TrimSpace] of ASCII text. *)
Definition is_space (b : byte) : bool := Byte.eqb b x20 || in_range_b x09 x0d b.
Fixpoint trim_left (b : bytes) : bytes :=
  match b with x :: r => if is_space x then trim_left r else b | [] => [] end.
Definition trim_space (b : bytes) : bytes := reverse (trim_left (reverse (trim_left b))).

(** [uriEncodeSegment]: SigV4's unreserved bytes stay, every other byte is
    [%XX]. *)
Definition unreserved (c : byte) : bool :=
  in_range_b x41 x5a c || in_range_b x61 x7a c || in_range_b x30 x39 c ||
  Byte.eqb c x2d || Byte.eqb c x5f || Byte.eqb c x2e || Byte.eqb c x7e.
Definition upper_digits : bytes := Eval vm_compute in to_bytes "0123456789ABCDEF".
Definition upper_hex (n : N) : byte := nth (N.to_nat n) upper_digits x30.
Definition percent (c : byte) : bytes := [x25; upper_hex (Byte.to_N c / 16); upper_hex (Byte.to_N c mod 16)].
Definition uriEncodeSegment (s : string) : string :=
  of_bytes (to_bytes s ≫= λ c, if unreserved c then [c] else percent c).

Definition uriEncodePath (p : string) : string := join_with "/" (uriEncodeSegment <$> split_on slash p).

(** [url.Values.Encode] of single values in key order: [QueryEscape] writes a
    space as a plus sign. *)
Definition query_escape (s : string) : string :=
  of_bytes (to_bytes s ≫= λ c, if unreserved c then [c] else if Byte.eqb c x20 then [x2b] else percent c).
Definition query_encode (q : list (string * string)) : string :=
  join_with "&" ((λ kv, query_escape kv.1 +:+ "=" +:+ query_escape kv.2) <$> q).

Definition sha256hex (b : bytes) : string := hashOf b.

(** HMAC of RFC 2104 with SHA-256's 64-byte blocks. *)
Definition xor_byte (k : Z) (b : byte) : byte := byte_of_Z (Z.lxor k (byte_to_Z b)).
Definition hmacSHA256 (key : bytes) (data : string) : bytes :=
  let k := if decide (64 < length key)%nat then Sha256.Sum256 key else key in
  let k := k ++ replicate (64 - length k) x00 in
  Sha256.Sum256 ((xor_byte 0x5c <$> k) ++ Sha256.Sum256 ((xor_byte 0x36 <$> k) ++ to_bytes data)).

(** [now.Format("20060102T150405Z")] and [now.Format("20060102")]. *)
Definition date_stamp (t : Z) : string :=
  let '(y, mo, d) := GoTime.civil (t / GoTime.nanos / 86400) in
  of_bytes (GoTime.pad 4 y ++ GoTime.pad 2 mo ++ GoTime.pad 2 d).
Definition amz_date (t : Z) : string :=
  let secs := (t / GoTime.nanos) mod 86400 in
  date_stamp t +:+ "T" +:+
  of_bytes (GoTime.pad 2 (secs / 3600) ++ GoTime.pad 2 (secs / 60 mod 60) ++ GoTime.pad 2 (secs mod 60)) +:+ "Z".

Definition newline : string := String (Ascii.ascii_of_byte x0a) "".

Section s3.
(** [net/url.Parse]: the scheme and the host of a URL; [encoding/xml] on a
    listing. *)
Context (url_Parse : string → option (string * string)) (xml_Unmarshal : bytes → option listResult).

Definition NewS3 (cfg : S3Config) : gerr + S3 :=
  if decide (cfg_Bucket cfg = "") then inl (Errorf "bucket is required") else
  let region := if decide (cfg_Region cfg = "") then "us-east-1" else cfg_Region cfg in
  let endpoint := if decide (cfg_Endpoint cfg = "") then "https://s3." +:+ region +:+ ".amazonaws.com" else cfg_Endpoint cfg in
  let cfg' := mkS3Config endpoint region (cfg_Bucket cfg) (cfg_Prefix cfg) (cfg_AccessKey cfg) (cfg_SecretKey cfg) (cfg_PathStyle cfg) in
  match url_Parse endpoint with
  | None => inl (Errorf "parse url")
  | Some (scheme, host) =>
      if cfg_PathStyle cfg then inr (mkS3 cfg' host (endpoint +:+ "/" +:+ cfg_Bucket cfg))
      else let h := cfg_Bucket cfg +:+ "." +:+ host in inr (mkS3 cfg' h (scheme +:+ "://" +:+ h))
  end.

Definition s3_key (s : S3) (k : string) : string :=
  if decide (cfg_Prefix (s3_cfg s) = "") then k
  else trim_right_slash (cfg_Prefix (s3_cfg s)) +:+ "/" +:+ k.

(** [sign]: the headers it sets. *)
Definition canonical_request (req_method host canonicalPath : string) (query : list (string * string))
    (amzDate payloadHash : string) : string :=
  let signedHeaders := "host;x-amz-content-sha256;x-amz-date" in
  let canonicalHeaders := "host:" +:+ host +:+ newline +:+ "x-amz-content-sha256:" +:+ payloadHash +:+ newline +:+
                          "x-amz-date:" +:+ amzDate +:+ newline in
  req_method +:+ newline +:+ uriEncodePath canonicalPath +:+ newline +:+ query_encode query +:+ newline +:+
  canonicalHeaders +:+ newline +:+ signedHeaders +:+ newline +:+ payloadHash.

Definition signing_key (s : S3) (dateStamp : string) : bytes :=
  let kDate := hmacSHA256 (to_bytes ("AWS4" +:+ cfg_SecretKey (s3_cfg s))) dateStamp in
  let kRegion := hmacSHA256 kDate (cfg_Region (s3_cfg s)) in
  let kService := hmacSHA256 kRegion "s3" in
  hmacSHA256 kService "aws4_request".

Definition sign (s : S3) (now : Z) (method urlHost canonicalPath : string) (query : list (string * string))
    (body : bytes) : list (string * string) :=
  let amzDate := amz_date now in
  let dateStamp := date_stamp now in
  let payloadHash := sha256hex body in
  let host := if cfg_PathStyle (s3_cfg s) then urlHost else s3_host s in
  let canonicalRequest := canonical_request method host canonicalPath query amzDate payloadHash in
  let scope := dateStamp +:+ "/" +:+ cfg_Region (s3_cfg s) +:+ "/s3/aws4_request" in
  let stringToSign := "AWS4-HMAC-SHA256" +:+ newline +:+ amzDate +:+ newline +:+ scope +:+ newline +:+
                      sha256hex (to_bytes canonicalRequest) in
  let signature := hex_EncodeToString (hmacSHA256 (signing_key s dateStamp) stringToSign) in
  [("Host", host); ("X-Amz-Date", amzDate); ("X-Amz-Content-Sha256", payloadHash);
   ("Authorization", "AWS4-HMAC-SHA256 Credential=" +:+ cfg_AccessKey (s3_cfg s) +:+ "/" +:+ scope +:+
      ", SignedHeaders=host;x-amz-content-sha256;x-amz-date, Signature=" +:+ signature)].

(** The URL [do] requests. *)
Definition request_url (s : S3) (p : string) (query : list (string * string)) : string :=
  let raw := if cfg_PathStyle (s3_cfg s) && bool_decide (p = "/" +:+ cfg_Bucket (s3_cfg s))
             then cfg_Endpoint (s3_cfg s) +:+ p else s3_base s +:+ p in
  if decide (query = []) then raw else raw +:+ "?" +:+ query_encode query.

(** The HTTP client: what sending a request does. *)
Context `{OsEnv} {R : Type} (http_Do : request → M (world * R) response).

Definition s3_do (s : S3) (method p : string) (query : list (string * string)) (body : bytes) : M (world * R) response :=
  let raw := request_url s p query in
  match url_Parse raw with
  | None => throw (Errorf "parse url")
  | Some (_, host) =>
      now ← on_fst time_Now;
      http_Do (mkRequest method raw (sign s now method host p query body) body)
  end.

(** [httpErr]: the status and the start of the body. *)
Definition httpErr (what : string) (resp : response) : gerr :=
  Errorf (what +:+ ": " +:+ rs_Status resp +:+ ": " +:+
          of_bytes (trim_space (take 2048 (default [] (rs_Body resp))))).

Definition s3_Put (s : S3) (key : string) (data : bytes) : M (world * R) unit :=
  resp ← s3_do s "PUT" ("/" +:+ s3_key s key) [] data;
  if decide (Z.quot (rs_StatusCode resp) 100 ≠ 2) then throw (httpErr ("put " +:+ key) resp) else mret tt.

Definition s3_Get (s : S3) (key : string) : M (world * R) bytes :=
  resp ← s3_do s "GET" ("/" +:+ s3_key s key) [] [];
  if decide (rs_StatusCode resp = 404) then throw ErrObjectNotFound else
  if decide (Z.quot (rs_StatusCode resp) 100 ≠ 2) then throw (httpErr ("get " +:+ key) resp) else
  match rs_Body resp with
  | Some b => mret b
  | None => throw (Errorf "unexpected EOF")
  end.

Definition s3_Has (s : S3) (key : string) : M (world * R) bool :=
  resp ← s3_do s "HEAD" ("/" +:+ s3_key s key) [] [];
  if decide (rs_StatusCode resp = 404) then mret false else
  if decide (Z.quot (rs_StatusCode resp) 100 ≠ 2) then throw (httpErr ("head " +:+ key) resp) else mret true.

(** The loop of [List] over the pages; the service decides when it ends. *)
Fixpoint s3_pages (fuel : nat) (s : S3) (prefix full token : string) (keys : list string) : M (world * R) (list string) :=
  match fuel with
  | O => panic
  | S k =>
      let q := (if decide (token = "") then [] else [("continuation-token", token)]) ++
               [("list-type", "2"); ("prefix", full)] in
      let p := if cfg_PathStyle (s3_cfg s) then "/" +:+ cfg_Bucket (s3_cfg s) else "/" in
      resp ← s3_do s "GET" p q [];
      let body := default [] (rs_Body resp) in
      if decide (Z.quot (rs_StatusCode resp) 100 ≠ 2)
      then throw (Errorf ("list " +:+ prefix +:+ ": " +:+ rs_Status resp +:+ ": " +:+ of_bytes (trim_space body))) else
      match xml_Unmarshal body with
      | None => throw (Errorf "xml: cannot unmarshal")
      | Some lr =>
          let strip := trim_right_slash (cfg_Prefix (s3_cfg s)) in
          let page := (λ k, if decide (strip = "") then k else trim_prefix (strip +:+ "/") k) <$> lr_Contents lr in
          if negb (lr_IsTruncated lr) || bool_decide (lr_NextToken lr = "") then mret (keys ++ page)
          else s3_pages k s prefix full (lr_NextToken lr) (keys ++ page)
      end
  end.

Definition s3_List (fuel : nat) (s : S3) (prefix : string) : M (world * R) (list string) :=
  keys ← s3_pages fuel s prefix (s3_key s prefix) "" [];
  mret (merge_sort String.le keys).

Definition S3Store (fuel : nat) (s : S3) : ObjectStore R := {|
  store_Put := s3_Put s; store_Get := s3_Get s; store_Has := s3_Has s; store_List := s3_List fuel s
|}.

End s3.
End Remote.
