(* ===== verification/Sync.v ===== *)
(** * Pushing and pulling checkpoints (src/internal/engine/sync.go) *)

From S2P Require Import Prelude Sha256 Os OsFacts Cas Parallel Chunked Tree Model Repo Backend Engine Remote.
Import Cas Chunked Tree Model Repo Engine Remote.
Open Scope Z_scope.

Module Sync.

Definition blobKey (sha : string) : string := "blobs/" +:+ sha.
Definition checkpointKey (id : string) : string := "checkpoints/" +:+ id +:+ ".json".
Definition sandboxKey (id : string) : string := "sandboxes/" +:+ id +:+ ".json".

Record PushStats := mkPushStats { ps_Checkpoints : Z; ps_Blobs : Z; ps_BlobsSkipped : Z }.
Definition count_checkpoint (st : PushStats) : PushStats := mkPushStats (ps_Checkpoints st + 1) (ps_Blobs st) (ps_BlobsSkipped st).
Definition count_blob (st : PushStats) : PushStats := mkPushStats (ps_Checkpoints st) (ps_Blobs st + 1) (ps_BlobsSkipped st).
Definition count_skip (st : PushStats) : PushStats := mkPushStats (ps_Checkpoints st) (ps_Blobs st) (ps_BlobsSkipped st + 1).

Section sync.
Context `{OsEnv, Sched, GoJSON Manifest, GoJSON Tree, GoJSON Sandbox, GoJSON Checkpoint} {R : Type} `{ObjectStore R}.

(** [pushBlob]; the statistics are threaded through. *)
Definition pushBlob (r : Repo) (st : PushStats) (sha : string) : M (world * R) PushStats :=
  has ← store_Has (blobKey sha);
  if has : bool then mret (count_skip st) else
  data ← attempt (on_fst (Get (r_cas r) sha));
  match data with
  | inl e => throw (Wrap ("reading blob " +:+ sha +:+ ": ") e)
  | inr data => store_Put (blobKey sha) data;; mret (count_blob st)
  end.

(** The names a manifest adds: its own and its chunks'. *)
Definition image_shas (r : Repo) (shas : list string) (h : string) : M world (list string) :=
  if decide (h = "") then mret shas else
  m ← ReadManifest (r_cas r) h;
  mret (shas ++ [h] ++ m_Chunks m).

(** Everything a checkpoint needs, in the order it is pushed. *)
Definition checkpoint_shas (r : Repo) (c : Checkpoint) : M world (list string) :=
  t ← loadTree r (c_TreeHash c);
  let shas := c_TreeHash c :: filter (λ h, h ≠ "") (e_Hash <$> t_Entries t) in
  let shas := shas ++ (if decide (c_StateHash c = "") then [] else [c_StateHash c]) in
  fold_m (image_shas r) shas [c_MemHash c; c_DiskHash c; c_BaseHash c].

Definition pushCheckpoint (r : Repo) (st : PushStats) (c : Checkpoint) : M (world * R) PushStats :=
  shas ← on_fst (checkpoint_shas r c);
  st ← fold_m (pushBlob r) st shas;
  store_Put (checkpointKey (c_ID c)) (json_Marshal c);;
  mret (count_checkpoint st).

Definition Push (r : Repo) (sandboxID : string) : M (world * R) PushStats :=
  s ← on_fst (GetSandbox r sandboxID);
  hist ← on_fst (History r (s_ID s));
  st ← fold_m (pushCheckpoint r) (mkPushStats 0 0 0) hist;
  store_Put (sandboxKey (s_ID s)) (json_Marshal s);;
  mret st.

(** [pullBlob]: fetched only if absent, and checked against its name. *)
Definition pullBlob (r : Repo) (sha : string) : M (world * R) bytes :=
  has ← on_fst (Has (r_cas r) sha);
  if has : bool then on_fst (Get (r_cas r) sha) else
  data ← attempt (store_Get (blobKey sha));
  match data with
  | inl e => throw (Wrap ("pulling blob " +:+ sha +:+ ": ") e)
  | inr data =>
      got ← on_fst (Put (r_cas r) data);
      if decide (got ≠ sha) then throw (Errorf ("blob " +:+ sha +:+ " in the store hashes to " +:+ got))
      else mret data
  end.

(** An image: the manifest, then its chunks. *)
Definition pull_image (r : Repo) (h : string) : M (world * R) unit :=
  if decide (h = "") then mret tt else
  pullBlob r h;;
  m ← on_fst (ReadManifest (r_cas r) h);
  for_each (m_Chunks m) (λ ch, pullBlob r ch;; mret tt).

Definition pull_entry (r : Repo) (e : Entry) : M (world * R) unit :=
  if decide (e_Hash e = "") then mret tt else pullBlob r (e_Hash e);; mret tt.

Definition Pull (r : Repo) (checkpointID : string) : M (world * R) Checkpoint :=
  cb ← attempt (store_Get (checkpointKey checkpointID));
  match cb with
  | inl e => throw (if decide (e = ErrObjectNotFound) then Errorf ("no checkpoint " +:+ checkpointID +:+ " in the store") else e)
  | inr cb =>
      match json_Unmarshal cb with
      | None => throw (Errorf "json: cannot unmarshal")
      | Some c =>
          tb ← pullBlob r (c_TreeHash c);
          match json_Unmarshal tb with
          | None => throw (Errorf "json: cannot unmarshal")
          | Some t =>
              for_each (t_Entries t) (pull_entry r);;
              (if decide (c_StateHash c = "") then mret tt else pullBlob r (c_StateHash c);; mret tt);;
              for_each [c_MemHash c; c_DiskHash c; c_BaseHash c] (pull_image r);;
              on_fst (SaveCheckpoint r c);;
              mret c
          end
      end
  end.

End sync.
End Sync.
