(* ===== verification/SyncFacts.v ===== *)
(** * Facts about pushing and pulling, against the interface of a store

    [StoreSpec] is what the engine relies on of an object store: a map from
    keys to bytes that an operation changes at one key, and that lives apart
    from the local files. *)

From S2P Require Import Prelude Sha256 Os OsFacts Cas Parallel Blobs Chunked Tree Model Repo RepoFacts Backend Engine EngineFacts Remote Sync.
Import Cas Chunked Tree Model Repo Engine Remote Sync.
Open Scope Z_scope.

(** ** The interface *)

(** The local files, where [here] says, are as they were. *)
Record local_same {R} (here : path → Prop) (x x' : world * R) : Prop := {
  ls_wf : fs_wf (w_fs x.1) → fs_wf (w_fs x'.1);
  ls_files : ∀ q, here q → w_fs x'.1 !! q = w_fs x.1 !! q;
  ls_memo : w_zero x'.1 = w_zero x.1
}.

Class StoreSpec (R : Type) `{OsEnv, ObjectStore R} (here : path → Prop) := {
  objs : world * R → string → option bytes;
  objs_ok : world * R → Prop;
  key_ok : string → Prop;
  (** No operation of the store fails. *)
  reliable : Prop;
  spec_Put k b x : objs_ok x → fs_wf (w_fs x.1) → key_ok k →
    wp (store_Put k b) (λ r x', objs_ok x' ∧ local_same here x x' ∧
      (∀ k', key_ok k' → k' ≠ k → objs x' k' = objs x k') ∧
      match r with
      | inr _ => objs x' k = Some b
      | inl _ => ¬ reliable ∧ (objs x' k = objs x k ∨ objs x' k = Some b)
      end) x;
  spec_Get k x : objs_ok x → fs_wf (w_fs x.1) → key_ok k →
    wp (store_Get k) (λ r x', objs_ok x' ∧ local_same here x x' ∧ (∀ k', key_ok k' → objs x' k' = objs x k') ∧
      match r with
      | inr b => objs x k = Some b
      | inl e => reliable → objs x k = None ∧ e = ErrObjectNotFound
      end) x;
  spec_Has k x : objs_ok x → fs_wf (w_fs x.1) → key_ok k →
    wp (store_Has k) (λ r x', objs_ok x' ∧ local_same here x x' ∧ (∀ k', key_ok k' → objs x' k' = objs x k') ∧
      match r with
      | inr h => (h = true → is_Some (objs x k)) ∧ (h = false → reliable → objs x k = None)
      | inl _ => ¬ reliable
      end) x;
  spec_here x w' : objs_ok x → fs_wf (w_fs w') → (∀ q, ¬ here q → w_fs w' !! q = w_fs x.1 !! q) →
    objs_ok (w', x.2) ∧ ∀ k, key_ok k → objs (w', x.2) k = objs x k;
  blob_key_ok sha : is_digest sha = true → key_ok (blobKey sha)
}.

Lemma local_same_refl {R} here (x : world * R) : local_same here x x.
Proof. by split. Qed.

Lemma local_same_trans {R} here (x y z : world * R) : local_same here x y → local_same here y z → local_same here x z.
Proof. intros [Hw1 Hf1 Hz1] [Hw2 Hf2 Hz2]. split; [auto|intros q Hq; by rewrite Hf2, Hf1|congruence]. Qed.

(** ** Keys *)

Lemma string_app_inj_l (s a b : string) : s +:+ a = s +:+ b → a = b.
Proof. induction s as [|c s IH]; [done|]. intros He. apply IH. by injection He. Qed.

Lemma blobKey_inj a b : blobKey a = blobKey b → a = b.
Proof. apply (string_app_inj_l "blobs/"). Qed.
Lemma checkpointKey_inj a b : checkpointKey a = checkpointKey b → a = b.
Proof. intros He. apply json_name_inj. by apply (string_app_inj_l "checkpoints/"). Qed.
Lemma blob_not_checkpoint a b : blobKey a ≠ checkpointKey b.
Proof. by intros He. Qed.
Lemma blob_not_sandbox a b : blobKey a ≠ sandboxKey b.
Proof. by intros He. Qed.
Lemma checkpoint_not_sandbox a b : checkpointKey a ≠ sandboxKey b.
Proof. by intros He. Qed.

(** ** What a checkpoint needs *)

Section needs.
Context `{GoJSON Manifest, GoJSON Tree}.

Definition manifest_in (get : string → option bytes) (h : string) : option Manifest :=
  b ← get h; m ← json_Unmarshal b; if decide (m_Chunked m = 1) then Some m else None.

Definition image_names (get : string → option bytes) (h : string) : option (list string) :=
  if decide (h = "") then Some [] else m ← manifest_in get h; Some (h :: m_Chunks m).

Definition tree_names (t : Tree) : list string := filter (λ h, h ≠ "") (e_Hash <$> t_Entries t).

(** Every blob a checkpoint refers to, in the order of [pushCheckpoint]. *)
Definition names (get : string → option bytes) (c : Checkpoint) : option (list string) :=
  b ← get (c_TreeHash c); t ← json_Unmarshal b;
  mem ← image_names get (c_MemHash c);
  disk ← image_names get (c_DiskHash c);
  base ← image_names get (c_BaseHash c);
  Some ((((c_TreeHash c :: tree_names t) ++ (if decide (c_StateHash c = "") then [] else [c_StateHash c])) ++ mem) ++ disk ++ base).

Lemma image_names_agree get get' h l :
  image_names get h = Some l → (∀ sha, sha ∈ l → get' sha = get sha) → image_names get' h = Some l.
Proof.
  unfold image_names. case_decide; [done|]. intros (m & Hm & [= <-])%bind_Some Ha. unfold manifest_in in *.
  rewrite Ha by left. by rewrite Hm.
Qed.

Lemma names_agree get get' c l :
  names get c = Some l → (∀ sha, sha ∈ l → get' sha = get sha) → names get' c = Some l.
Proof.
  unfold names. intros (b & Hb & (t & Ht & (mem & Hmem & (disk & Hdisk & (base & Hbase & [= <-])%bind_Some)%bind_Some)%bind_Some)%bind_Some)%bind_Some Ha.
  rewrite Ha by left. rewrite Hb. simpl. rewrite Ht. simpl.
  assert (∀ h part, image_names get h = Some part → (∀ sha, sha ∈ part → sha ∈ mem ++ disk ++ base) →
    image_names get' h = Some part) as Hi.
  { intros h part Hp Hs. eapply image_names_agree; [done|]. intros sha Hsha. apply Ha.
    specialize (Hs sha Hsha). rewrite !elem_of_app in Hs. right. rewrite !elem_of_app. tauto. }
  rewrite (Hi _ _ Hmem), (Hi _ _ Hdisk), (Hi _ _ Hbase); [done|..]; intros sha Hs; rewrite !elem_of_app; auto.
Qed.

(** What a checkpoint names depends only on the blobs its hashes name. *)
Lemma image_names_unique get get' h l l' :
  (∀ b b', h ≠ "" → get h = Some b → get' h = Some b' → b = b') →
  image_names get h = Some l → image_names get' h = Some l' → l' = l.
Proof.
  unfold image_names. case_decide; [intros _ [= <-] [= <-]; done|]. intros Hs (m & Hm & [= <-])%bind_Some (m' & Hm' & [= <-])%bind_Some.
  unfold manifest_in in *. apply bind_Some in Hm as (b & Hb & Hm), Hm' as (b' & Hb' & Hm'). rewrite (Hs b b') in Hm by done. congruence.
Qed.

Lemma names_unique get get' c l l' :
  (∀ h b b', h ∈ [c_TreeHash c; c_MemHash c; c_DiskHash c; c_BaseHash c] → h ≠ "" ∨ h = c_TreeHash c →
     get h = Some b → get' h = Some b' → b = b') →
  names get c = Some l → names get' c = Some l' → l' = l.
Proof.
  intros Hs. unfold names.
  intros (b & Hb & (t & Ht & (mem & Hmem & (disk & Hdisk & (base & Hbase & [= <-])%bind_Some)%bind_Some)%bind_Some)%bind_Some)%bind_Some.
  intros (b' & Hb' & (t' & Ht' & (mem' & Hmem' & (disk' & Hdisk' & (base' & Hbase' & [= <-])%bind_Some)%bind_Some)%bind_Some)%bind_Some)%bind_Some.
  rewrite (Hs (c_TreeHash c) b b') in Ht; [|left|by right|done|done]. rewrite Ht in Ht'. injection Ht' as <-.
  rewrite (image_names_unique get get' (c_MemHash c) mem mem'); [|intros ?? Hne; apply Hs; [right; left|by left]|done|done].
  rewrite (image_names_unique get get' (c_DiskHash c) disk disk'); [|intros ?? Hne; apply Hs; [do 2 right; left|by left]|done|done].
  rewrite (image_names_unique get get' (c_BaseHash c) base base'); [|intros ?? Hne; apply Hs; [do 3 right; left|by left]|done|done].
  done.
Qed.

(** The names in documents are digests. *)
Definition named (h : string) : Prop := h = "" ∨ is_digest h = true.
Record well_named (U : bytes → Prop) : Prop := {
  wn_tree : ∀ b t e, U b → json_Unmarshal b = Some t → e ∈ t_Entries t → named (e_Hash e);
  wn_manifest : ∀ b m ch, U b → json_Unmarshal b = Some m → ch ∈ m_Chunks m → is_digest ch = true
}.
Record ck_named (c : Checkpoint) : Prop := {
  cn_id : good_id (c_ID c);
  cn_tree : is_digest (c_TreeHash c) = true;
  cn_hashes : ∀ h, h ∈ [c_StateHash c; c_MemHash c; c_DiskHash c; c_BaseHash c] → named h
}.

End needs.

(** ** A repository beside a store *)

Lemma repo_wf_agree r σ σ' :
  repo_wf r σ → fs_wf σ' → (∀ q, below (r_root r) q → σ' !! q = σ !! q) → repo_wf r σ'.
Proof.
  intros [Hfs Hcas Hdirs Hdocs] Hfs' Ha. split; [done|done|..].
  - intros d Hd. destruct (Hdirs d Hd) as [m Hm]. exists m. rewrite Ha; [done|by eexists].
  - intros d c n Hd. rewrite Ha; [by apply Hdocs|]. rewrite <- app_assoc. by eexists.
Qed.

Lemma below_cas r σ q : repo_wf r σ → below (r_cas r) q → below (r_root r) q.
Proof. intros Hwf [k ->]. rewrite (rw_cas _ _ Hwf), <- app_assoc. by eexists. Qed.

Section specs.
Context `{OsEnv, Sched, GoJSON Manifest, GoJSON Tree, GoJSON Sandbox, GoJSON Checkpoint}.
Context (U : bytes → Prop) {NC : NoCollision U} {R : Type} `{ObjectStore R} (here : path → Prop) `{!StoreSpec R here}.
Context (r : Repo) (here_repo : ∀ q, below (r_root r) q → here q).
Implicit Types (x : world * R).

(** Both sides are healthy. *)
Record ready x : Prop := {
  rd_objs : objs_ok x;
  rd_repo : repo_wf r (w_fs x.1);
  rd_store : store_inv U (r_cas r) (w_fs x.1)
}.

(** The local repository gained blobs at most; the remote is as it was. *)
Record pulled x x' : Prop := {
  pl_ready : ready x';
  pl_objs : ∀ k, key_ok k → objs x' k = objs x k;
  pl_step : ∀ h c, is_digest h = true → blob_of (w_fs x.1) (r_cas r) h = Some c → blob_of (w_fs x'.1) (r_cas r) h = Some c;
  pl_frame : ∀ q, here q → ¬ below (r_cas r) q → w_fs x'.1 !! q = w_fs x.1 !! q;
  pl_clean : quiet → store_clean (w_fs x.1) (r_cas r) → store_clean (w_fs x'.1) (r_cas r)
}.

Lemma pulled_refl x : ready x → pulled x x.
Proof. intros Hr. by split. Qed.

Lemma pulled_trans x y z : pulled x y → pulled y z → pulled x z.
Proof.
  intros [_ Ho1 Hs1 Hf1 Hc1] [Hr2 Ho2 Hs2 Hf2 Hc2]. split; auto.
  - intros k Hk. by rewrite Ho2, Ho1.
  - intros q Hq Hb. by rewrite Hf2, Hf1.
Qed.

Lemma local_below x x' : repo_wf r (w_fs x.1) → local_same here x x' → ∀ q, below (r_cas r) q → w_fs x'.1 !! q = w_fs x.1 !! q.
Proof. intros Hwf Hl q Hq. apply Hl, here_repo. by eapply below_cas. Qed.

(** A call to the remote keeps the local side. *)
Lemma ready_local x x' : ready x → local_same here x x' → objs_ok x' → ready x'.
Proof.
  intros [Ho Hr Hs] Hl Ho'. pose proof (ls_wf _ _ _ Hl (rw_fs _ _ Hr)) as Hfs. split; [done|..].
  - eapply repo_wf_agree; [done|done|]. intros q Hq. by apply Hl, here_repo.
  - eapply store_inv_agree; [done|done|]. by apply local_below.
Qed.

Lemma pulled_local x x' :
  ready x → local_same here x x' → objs_ok x' → (∀ k, key_ok k → objs x' k = objs x k) → pulled x x'.
Proof.
  intros Hr Hl Ho' Ho. split; [by eapply ready_local|done|..].
  - intros h c _. rewrite (blob_of_agree (w_fs x.1) (w_fs x'.1)); [done|]. apply local_below; [apply Hr|done].
  - intros q Hq _. by apply Hl.
  - intros _ Hc. eapply store_clean_agree; [done|]. apply local_below; [apply Hr|done].
Qed.

(** A local call that grows the store keeps the remote. *)
Lemma pulled_grows {A} (w : world) (ρ : R) (Post : A → world → Prop) v w' :
  ready (w, ρ) → grows U (r_cas r) w Post v w' → pulled (w, ρ) (w', ρ).
Proof.
  intros [Ho Hr Hs] Hg. simpl in *. pose proof (gr_step _ _ _ _ _ _ Hg) as Hst.
  destruct (spec_here (w, ρ) w') as [Ho' Hobjs]; [done|apply (st_inv _ _ _ _ Hst)|..].
  { intros q Hq. apply Hst. intros Hb. by eapply Hq, here_repo, below_cas. }
  split; [split|..]; simpl; try done.
  - by eapply repo_wf_store.
  - apply Hst.
  - apply Hst.
  - intros q _ Hq. by apply Hst.
  - intros Hq Hc. by apply (gr_live _ _ _ _ _ _ Hg).
Qed.

(** ** Pulling a blob *)

Definition calm_sides x : Prop := quiet ∧ reliable ∧ store_clean (w_fs x.1) (r_cas r).

(** The remote has [sha] and it hashes to its name. *)
Definition remote_has x (sha : string) : Prop := ∃ b, objs x (blobKey sha) = Some b ∧ hashOf b = sha.

(** What the remote names as blobs is in play. *)
Definition in_play x : Prop := ∀ sha b, is_digest sha = true → objs x (blobKey sha) = Some b → U b.

Lemma calm_pulled x x' : pulled x x' → calm_sides x → calm_sides x'.
Proof. intros Hp (Hq & Hr & Hc). split_and!; [done..|]. by apply Hp. Qed.
Lemma remote_has_pulled x x' sha : is_digest sha = true → pulled x x' → remote_has x sha ↔ remote_has x' sha.
Proof. intros Hd Hp. unfold remote_has. by rewrite (pl_objs _ _ Hp) by by apply blob_key_ok. Qed.
Lemma in_play_pulled x x' : pulled x x' → in_play x → in_play x'.
Proof. intros Hp Hu sha b Hd. rewrite (pl_objs _ _ Hp) by by apply blob_key_ok. by apply Hu. Qed.

Definition pull_blob_post (sha : string) x (v : gerr + bytes) x' : Prop :=
  pulled x x' ∧
  match v with
  | inr b => blob_of (w_fs x'.1) (r_cas r) sha = Some b
  | inl _ => calm_sides x → ¬ remote_has x sha
  end.

Lemma wp_pullBlob sha x :
  ready x → in_play x → is_digest sha = true → wp (pullBlob r sha) (pull_blob_post sha x) x.
Proof.
  intros Hr Hu Hd. destruct x as [w ρ]. pose proof Hr as [Ho Hrepo Hs]. simpl in *. unfold pullBlob. wp_step. wp_step.
  wp_use (grows_Has U (r_cas r) sha); [done..|]. intros v w1 Hg.
  pose proof (pulled_grows _ _ _ _ _ Hr Hg) as Hp1. destruct v as [e|has].
  { split; [done|]. intros (Hq & _ & Hc). by destruct (gr_live _ _ _ _ _ _ Hg (conj Hq Hc)) as [_ [? ?]]. }
  destruct (gr_post _ _ _ _ _ _ Hg has eq_refl) as (Hfs & Ht & Hf). destruct has.
  - wp_step. apply wp_Get; [rewrite Hfs; apply Hs|done|..]; rewrite Hfs.
    + intros b w2 Hfs2 Hz2 Hb. split; simpl; [|by rewrite Hfs2].
      eapply pulled_trans; [done|]. eapply (pulled_grows _ _ (λ _ _, True) (inr b)); [apply Hp1|].
      apply grows_unchanged; [by apply Hp1|congruence|done|done|eauto].
    + intros e w2 Hfs2 Hz2 Hq. split; simpl.
      * eapply pulled_trans; [done|]. apply pulled_local; [apply Hp1|..].
        -- split; simpl; [|intros; congruence|done]. by rewrite Hfs2, Hfs.
        -- eapply (spec_here (w1, ρ) w2); [apply Hp1|rewrite Hfs2; apply Hs|intros; simpl; congruence].
        -- eapply (spec_here (w1, ρ) w2); [apply Hp1|rewrite Hfs2; apply Hs|intros; simpl; congruence].
      * intros (Hqu & _). destruct (Hq Hqu) as [Hn _]. destruct (Ht eq_refl). congruence.
  - wp_step. wp_step. wp_use (spec_Get (blobKey sha) (w1, ρ)); [apply Hp1|by eapply rw_fs, rd_repo, pl_ready|by apply blob_key_ok|].
    intros v x2 (Ho2 & Hl2 & Hk2 & Hv). pose proof (pulled_local _ _ (pl_ready _ _ Hp1) Hl2 Ho2 Hk2) as Hp2.
    pose proof (pulled_trans _ _ _ Hp1 Hp2) as Hp12. destruct v as [e|data].
    + wp_step. split; [done|]. intros (_ & Hrel & _) (b & Hb & _). destruct (Hv Hrel) as [Hn _].
      rewrite <- (pl_objs _ _ Hp1) in Hb by by apply blob_key_ok. congruence.
    + wp_step. destruct x2 as [w2 ρ2]. wp_step.
      rewrite (pl_objs _ _ Hp1) in Hv by by apply blob_key_ok.
      wp_use (grows_Put U (r_cas r) data); [apply (rd_store _ (pl_ready _ _ Hp2))|by eapply Hu, Hv|].
      intros v w3 Hg3. pose proof (pulled_grows _ _ _ _ _ (pl_ready _ _ Hp2) Hg3) as Hp3.
      pose proof (pulled_trans _ _ _ Hp12 Hp3) as Hp13. destruct v as [e|got].
      { split; [done|]. intros Hcalm. destruct (calm_pulled _ _ Hp12 Hcalm) as (Hq & _ & Hc).
        by destruct (gr_live _ _ _ _ _ _ Hg3 (conj Hq Hc)) as [_ [? ?]]. }
      destruct (gr_post _ _ _ _ _ _ Hg3 got eq_refl) as [-> Hst]. case_decide as Hne; wp_step.
      * split; [done|]. intros _ (b & Hb & Hh). rewrite Hv in Hb. injection Hb as <-. done.
      * split; [done|]. assert (hashOf data = sha) as <- by (destruct (decide (hashOf data = sha)); tauto). done.
Qed.

(** ** Pulling an image *)

Definition lget x (sha : string) : option bytes := blob_of (w_fs x.1) (r_cas r) sha.
Definition rget x (sha : string) : option bytes := objs x (blobKey sha).

(** The same digest names the same bytes on both sides. *)
Lemma sides_agree x sha b :
  ready x → in_play x → is_digest sha = true → lget x sha = Some b → remote_has x sha → rget x sha = Some b.
Proof.
  intros Hr Hu Hd Hl (b' & Hb & Hh). unfold rget. rewrite Hb. f_equal. apply no_collision; [by eapply Hu|by eapply Hr, Hl|].
  rewrite Hh. symmetry. eapply store_wf_blob; [apply Hr|done|done].
Qed.

Lemma lget_pulled x x' sha b : pulled x x' → is_digest sha = true → lget x sha = Some b → lget x' sha = Some b.
Proof. intros Hp. apply (pl_step _ _ Hp). Qed.

(** All of [l] is here. *)
Definition all_here x (l : list string) : Prop := ∀ sha, sha ∈ l → is_digest sha = true ∧ is_Some (lget x sha).
Definition all_there x (l : list string) : Prop := ∀ sha, sha ∈ l → remote_has x sha.

Lemma all_here_pulled x x' l : pulled x x' → all_here x l → all_here x' l.
Proof. intros Hp Hl sha Hs. destruct (Hl sha Hs) as [Hd [b Hb]]. split; [done|]. exists b. by eapply lget_pulled. Qed.

Lemma here_same x x' l : pulled x x' → all_here x l → ∀ sha, sha ∈ l → lget x' sha = lget x sha.
Proof. intros Hp Hl sha Hs. destruct (Hl sha Hs) as [Hd [b Hb]]. rewrite Hb. by eapply lget_pulled. Qed.

Lemma wp_pull_list l x :
  ready x → in_play x → (∀ sha, sha ∈ l → is_digest sha = true) →
  wp (for_each l (λ sha, pullBlob r sha;; mret tt)) (λ v x', pulled x x' ∧
    match v with inr _ => all_here x' l | inl _ => calm_sides x → ¬ all_there x l end) x.
Proof.
  intros Hr Hu Hd. eapply (wp_for_each _ _ (λ done x', pulled x x' ∧ all_here x' done)).
  - split; [by apply pulled_refl|]. by intros ? ?%elem_of_nil.
  - intros done sha todo x1 -> [Hp1 Hh1]. assert (is_digest sha = true) as Hds by (apply Hd, elem_of_app; right; left).
    wp_step. wp_use wp_pullBlob; [apply Hp1|by eapply in_play_pulled|done|]. intros [e|b] x2 [Hp2 Hv].
    + split; [by eapply pulled_trans|]. intros Hc Ha. apply Hv; [by eapply calm_pulled|].
      apply (remote_has_pulled x x1); [done|done|]. apply Ha, elem_of_app. right; left.
    + wp_step. split; [by eapply pulled_trans|]. intros s [Hs|Hs]%elem_of_app; [|apply list_elem_of_singleton in Hs as ->].
      * by eapply all_here_pulled.
      * split; [done|by exists b].
  - by intros x1 HI.
Qed.

Lemma wp_ReadManifest sha x :
  ready x → is_digest sha = true →
  wp (on_fst (ReadManifest (r_cas r) sha)) (λ v x', pulled x x' ∧ local_same (λ _, True) x x' ∧
    match v with
    | inr m => manifest_in (lget x) sha = Some m
    | inl _ => quiet → manifest_in (lget x) sha = None
    end) x.
Proof.
  intros Hr Hd. destruct x as [w ρ]. wp_step. pose proof Hr as [Ho Hrepo Hs]. simpl in *. unfold ReadManifest. wp_step.
  assert (∀ w', w_fs w' = w_fs w → w_zero w' = w_zero w → pulled (w, ρ) (w', ρ) ∧ local_same (λ _, True) (w, ρ) (w', ρ)) as Hsame.
  { intros w' Hfs Hz. split; [|by split; simpl; [rewrite Hfs|intros; rewrite Hfs|]].
    destruct (spec_here (w, ρ) w') as [Ho' Hobjs]; [done|rewrite Hfs; apply Hs|intros; simpl; congruence|].
    apply pulled_local; [done| |done|done]. by split; simpl; [rewrite Hfs|intros; rewrite Hfs|]. }
  apply wp_Get; [apply Hs|done|..].
  - intros b w' Hfs Hz Hb. unfold manifest_in, lget. simpl. rewrite Hb. simpl.
    destruct (json_Unmarshal b) as [m|]; simpl; [case_decide|]; wp_step; destruct (Hsame w' Hfs Hz); by split_and!.
  - intros e w' Hfs Hz Hq. destruct (Hsame w' Hfs Hz). split_and!; [done..|]. intros Hqu. unfold manifest_in, lget. simpl.
    by destruct (Hq Hqu) as [-> _].
Qed.

(** An image is whole: its manifest and all its chunks. *)
Definition image_here x (h : string) : Prop := ∃ l, image_names (lget x) h = Some l ∧ all_here x l.
Definition image_there x (h : string) : Prop := ∃ l, image_names (rget x) h = Some l ∧ all_there x l.

Lemma image_here_pulled x x' h : pulled x x' → image_here x h → image_here x' h.
Proof.
  intros Hp (l & Hl & Hh). exists l. split; [|by eapply all_here_pulled].
  eapply image_names_agree; [exact Hl|]. by eapply here_same.
Qed.

Lemma rget_pulled x x' h : pulled x x' → is_digest h = true → rget x' h = rget x h.
Proof. intros Hp Hd. by apply (pl_objs _ _ Hp), blob_key_ok. Qed.

Lemma remote_has_digest x sha : remote_has x sha → is_digest sha = true.
Proof. intros (b & _ & <-). apply hashOf_digest. Qed.

Lemma all_there_pulled x x' l : pulled x x' → all_there x l → all_there x' l.
Proof. intros Hp Ha sha Hs. apply (remote_has_pulled x x'); [by eapply remote_has_digest, Ha|done|by apply Ha]. Qed.

Lemma image_there_pulled x x' h : pulled x x' → image_there x h → image_there x' h.
Proof.
  intros Hp (l & Hl & Ha). exists l. split; [|by eapply all_there_pulled].
  eapply image_names_agree; [exact Hl|]. intros sha Hs. apply rget_pulled; [done|]. by eapply remote_has_digest, Ha.
Qed.

Lemma manifest_in_one get get' h : get' h = get h → manifest_in get' h = manifest_in get h.
Proof. intros He. unfold manifest_in. by rewrite He. Qed.

(** The manifest that was read here is the one the remote has. *)
Lemma manifest_sides x x1 h m :
  pulled x x1 → in_play x → is_digest h = true → remote_has x h →
  manifest_in (lget x1) h = Some m → manifest_in (rget x) h = Some m.
Proof.
  intros Hp Hu Hd Hr Hm. rewrite (manifest_in_one (lget x1) (rget x)); [done|].
  assert (is_Some (lget x1 h)) as [b Hb].
  { unfold manifest_in in Hm. by destruct (lget x1 h). }
  rewrite Hb, <- (rget_pulled x x1) by done.
  eapply sides_agree; [apply Hp|by eapply in_play_pulled|done|done|by apply (remote_has_pulled x x1)].
Qed.

Context (Hwn : well_named U).

Lemma wp_pull_image h x :
  ready x → in_play x → named h →
  wp (pull_image r h) (λ v x', pulled x x' ∧
    match v with inr _ => image_here x' h | inl _ => calm_sides x → ¬ image_there x h end) x.
Proof.
  intros Hr Hu Hn. unfold pull_image. case_decide as He.
  { wp_step. split; [by apply pulled_refl|]. exists []. unfold image_names. rewrite decide_True by done.
    split; [done|]. by intros ? ?%elem_of_nil. }
  assert (is_digest h = true) as Hd by by destruct Hn.
  wp_step. wp_use wp_pullBlob; [done..|]. intros [e|b] x1 [Hp1 Hv].
  { split; [done|]. intros Hc (l & Hl & Ha). apply Hv; [done|]. apply Ha. unfold image_names in Hl.
    rewrite decide_False in Hl by done. apply bind_Some in Hl as (m & _ & [= <-]). left. }
  wp_step. wp_use wp_ReadManifest; [apply Hp1|done|]. intros [e|m] x2 (Hp2 & Hls & Hm).
  { split; [by eapply pulled_trans|]. intros Hc (l & Hl & Ha). unfold image_names in Hl. rewrite decide_False in Hl by done.
    apply bind_Some in Hl as (m & Hm' & [= <-]).
    rewrite (manifest_in_one (rget x) (lget x1)) in Hm; [rewrite Hm in Hm'; [done|apply Hc]|].
    change (lget x1 h = Some b) in Hv. rewrite Hv. symmetry. rewrite <- (rget_pulled x x1) by done.
    eapply sides_agree; [apply Hp1|by eapply in_play_pulled|done|done|].
    apply (remote_has_pulled x x1); [done|done|]. apply Ha. left. }
  pose proof (pulled_trans _ _ _ Hp1 Hp2) as Hp12.
  assert (∀ ch, ch ∈ m_Chunks m → is_digest ch = true) as Hch.
  { intros ch Hin. pose proof Hm as Hm'. unfold manifest_in in Hm'.
    apply bind_Some in Hm' as (bm & Hbm & (m' & Hum & Hdec)%bind_Some). case_decide; [|done]. injection Hdec as ->.
    eapply (wn_manifest _ Hwn bm m); [|done|done]. eapply (si_in _ _ _ (rd_store _ (pl_ready _ _ Hp1))); [|exact Hbm]. done. }
  wp_use wp_pull_list; [apply Hp12|by eapply in_play_pulled|done|]. intros [e|[]] x3 [Hp3 Hv3].
  - split; [by eapply pulled_trans|]. intros Hc (l & Hl & Ha). unfold image_names in Hl. rewrite decide_False in Hl by done.
    apply bind_Some in Hl as (m' & Hm' & [= <-]).
    assert (remote_has x h) as Hrh by (apply Ha; left).
    rewrite (manifest_sides x x1 h m) in Hm' by done. injection Hm' as <-.
    apply Hv3; [by eapply calm_pulled|]. intros sha Hs. apply (remote_has_pulled x x2); [by apply Hch|done|]. apply Ha. by right.
  - pose proof (pulled_trans _ _ _ Hp2 Hp3) as Hp23. split; [by eapply pulled_trans|].
    assert (lget x3 h = lget x1 h) as Hsame.
    { change (lget x1 h = Some b) in Hv. rewrite Hv. by eapply lget_pulled. }
    exists (h :: m_Chunks m). split.
    + unfold image_names. rewrite decide_False by done. by rewrite (manifest_in_one (lget x1) (lget x3)), Hm.
    + intros sha [->|Hs]%elem_of_cons; [|by apply Hv3]. split; [done|]. rewrite Hsame. by exists b.
Qed.

(** ** Pulling a checkpoint *)

Lemma for_entries (f : string → M (world * R) unit) (l : list Entry) x :
  for_each l (λ e, if decide (e_Hash e = "") then mret tt else f (e_Hash e)) x =
  for_each (filter (λ h, h ≠ "") (e_Hash <$> l)) f x.
Proof.
  revert x. induction l as [|e l IH]; intros x; [done|]. rewrite fmap_cons, filter_cons. simpl.
  destruct (decide (e_Hash e = "")) as [He|He].
  - rewrite (decide_False (P := e_Hash e ≠ "")) by tauto. apply IH.
  - rewrite (decide_True (P := e_Hash e ≠ "")) by done. simpl. unfold mbind, M_bind.
    destruct (f (e_Hash e) x) as [[[]|e'|] x1]; [apply IH|done|done].
Qed.

Lemma wp_pull_entries t x :
  ready x → in_play x → (∀ sha, sha ∈ tree_names t → is_digest sha = true) →
  wp (for_each (t_Entries t) (pull_entry r)) (λ v x', pulled x x' ∧
    match v with inr _ => all_here x' (tree_names t) | inl _ => calm_sides x → ¬ all_there x (tree_names t) end) x.
Proof.
  intros Hr Hu Hd. pose proof (wp_pull_list (tree_names t) x Hr Hu Hd) as Hwp. unfold wp in *. unfold pull_entry.
  by rewrite (for_entries (λ h, pullBlob r h;; mret tt)).
Qed.

Definition state_names (c : Checkpoint) : list string := if decide (c_StateHash c = "") then [] else [c_StateHash c].

Lemma wp_pull_state c x :
  ready x → in_play x → ck_named c →
  wp (if decide (c_StateHash c = "") then mret tt else pullBlob r (c_StateHash c);; mret tt) (λ v x', pulled x x' ∧
    match v with inr _ => all_here x' (state_names c) | inl _ => calm_sides x → ¬ all_there x (state_names c) end) x.
Proof.
  intros Hr Hu Hn. unfold state_names. case_decide as He.
  { wp_step. split; [by apply pulled_refl|]. by intros ? ?%elem_of_nil. }
  assert (is_digest (c_StateHash c) = true) as Hd by (destruct (cn_hashes _ Hn (c_StateHash c)); [left|done|done]).
  wp_step. wp_use wp_pullBlob; [done..|]. intros [e|b] x1 [Hp Hv].
  - split; [done|]. intros Hc Ha. apply Hv; [done|]. apply Ha. left.
  - wp_step. split; [done|]. intros sha Hs. apply list_elem_of_singleton in Hs as ->. split; [done|by exists b].
Qed.

Lemma wp_pull_images l x :
  ready x → in_play x → (∀ h, h ∈ l → named h) →
  wp (for_each l (pull_image r)) (λ v x', pulled x x' ∧
    match v with inr _ => ∀ h, h ∈ l → image_here x' h | inl _ => calm_sides x → ¬ ∀ h, h ∈ l → image_there x h end) x.
Proof.
  intros Hr Hu Hn. eapply (wp_for_each _ _ (λ done x', pulled x x' ∧ ∀ h, h ∈ done → image_here x' h)).
  - split; [by apply pulled_refl|]. by intros ? ?%elem_of_nil.
  - intros done h todo x1 -> [Hp1 Hh1].
    wp_use wp_pull_image; [apply Hp1|by eapply in_play_pulled|apply Hn, elem_of_app; right; left|].
    intros [e|[]] x2 [Hp2 Hv]; (split; [by eapply pulled_trans|]).
    + intros Hc Ha. apply Hv; [by eapply calm_pulled|]. eapply image_there_pulled, Ha; [done|]. apply elem_of_app; right; left.
    + intros h' [Hs|Hs]%elem_of_app; [by eapply image_here_pulled, Hh1|]. by apply list_elem_of_singleton in Hs as ->.
  - by intros x1 HI.
Qed.

(** Everything a checkpoint names is here, or there. *)
Definition closed_here x (c : Checkpoint) : Prop := ∃ l, names (lget x) c = Some l ∧ all_here x l.
Definition closed_there x (c : Checkpoint) : Prop := ∃ l, names (rget x) c = Some l ∧ all_there x l.

Lemma closed_here_parts x c tb t :
  is_digest (c_TreeHash c) = true → lget x (c_TreeHash c) = Some tb → json_Unmarshal tb = Some t →
  all_here x (tree_names t) → all_here x (state_names c) →
  (∀ h, h ∈ [c_MemHash c; c_DiskHash c; c_BaseHash c] → image_here x h) → closed_here x c.
Proof.
  intros Hd Htb Ht Hes Hst Him.
  destruct (Him (c_MemHash c)) as (mem & Hmem & Hm); [left|].
  destruct (Him (c_DiskHash c)) as (disk & Hdisk & Hdk); [right; left|].
  destruct (Him (c_BaseHash c)) as (base & Hbase & Hb); [right; right; left|].
  eexists. split; [unfold names; rewrite Htb; cbn; rewrite Ht; cbn; rewrite Hmem; cbn; rewrite Hdisk; cbn; rewrite Hbase; reflexivity|].
  intros sha [->|Hs]%elem_of_cons; [split; [done|by exists tb]|].
  rewrite !elem_of_app in Hs. destruct Hs as [[[Hs|Hs]|Hs]|[Hs|Hs]]; auto.
Qed.

Lemma closed_there_parts x c :
  closed_there x c → remote_has x (c_TreeHash c) ∧
  (∀ tb t, rget x (c_TreeHash c) = Some tb → json_Unmarshal tb = Some t → all_there x (tree_names t)) ∧
  (∃ tb t, rget x (c_TreeHash c) = Some tb ∧ json_Unmarshal (A:=Tree) tb = Some t) ∧
  all_there x (state_names c) ∧ (∀ h, h ∈ [c_MemHash c; c_DiskHash c; c_BaseHash c] → image_there x h).
Proof.
  intros (l & Hl & Ha). unfold names in Hl.
  apply bind_Some in Hl as (tb & Htb & (t & Ht & (mem & Hmem & (disk & Hdisk & (base & Hbase & [= <-])%bind_Some)%bind_Some)%bind_Some)%bind_Some).
  assert (∀ part, (∀ sha, sha ∈ part → sha ∈ tree_names t ++ state_names c ++ mem ++ disk ++ base) → all_there x part) as Hpart.
  { intros part Hsub sha Hs. apply Ha. right. specialize (Hsub sha Hs). unfold state_names in Hsub.
    rewrite !elem_of_app in Hsub. rewrite !elem_of_app. tauto. }
  split_and!.
  - apply Ha. left.
  - intros tb' t' Htb' Ht'. rewrite Htb in Htb'. injection Htb' as <-. rewrite Ht in Ht'. injection Ht' as <-.
    apply Hpart. intros sha Hs. rewrite !elem_of_app. tauto.
  - eauto.
  - apply Hpart. intros sha Hs. rewrite !elem_of_app. tauto.
  - intros h. rewrite !elem_of_cons. intros [->|[->|[->|Hh%elem_of_nil]]]; [| | |done];
      (eexists; split; [done|]; apply Hpart; intros sha Hs; rewrite !elem_of_app; tauto).
Qed.

(** The checkpoint document of the remote. *)
Definition remote_doc x (id : string) : option Checkpoint := objs x (checkpointKey id) ≫= json_Unmarshal.

(** What a pull of [id] may change here: the store grows, and the document of
    that checkpoint is written. *)
Record pull_frame (id : string) x x' : Prop := {
  pf_ready : ready x';
  pf_objs : ∀ k, key_ok k → objs x' k = objs x k;
  pf_keep : ∀ h b, is_digest h = true → lget x h = Some b → lget x' h = Some b;
  pf_files : ∀ q, here q → ¬ below (r_cas r) q →
    (∀ c, remote_doc x id = Some c → q ≠ doc_file r "checkpoints" (c_ID c)) → w_fs x'.1 !! q = w_fs x.1 !! q
}.

Lemma pulled_pull_frame id x x' : pulled x x' → pull_frame id x x'.
Proof. intros Hp. split; try apply Hp. intros q Hq Hb _. by apply Hp. Qed.

Lemma wp_SaveCheckpoint id c x x0 :
  pulled x0 x → good_id (c_ID c) → remote_doc x0 id = Some c →
  wp (on_fst (SaveCheckpoint r c)) (λ v x', pull_frame id x0 x' ∧ (∀ sha, lget x' sha = lget x sha) ∧
    match v with
    | inr _ => doc (w_fs x'.1) r "checkpoints" (c_ID c) = Some (json_MarshalIndent c)
    | inl _ => ¬ quiet
    end) x.
Proof.
  intros Hp Hid Hdoc. destruct x as [w ρ]. wp_step. pose proof (pl_ready _ _ Hp) as [Ho Hwf Hst]. simpl in *.
  unfold SaveCheckpoint. wp_use wp_putJSON; [done|right; left|done|]. intros v w' [_ Hv].
  assert (w_fs w' = w_fs w ∨ ∃ f, w_fs w' = <[doc_file r "checkpoints" (c_ID c) := NFile f]> (w_fs w)) as Hshape
    by (destruct v; naive_solver).
  assert (repo_wf r (w_fs w') ∧ store_inv U (r_cas r) (w_fs w') ∧
    (∀ q, below (r_cas r) q → w_fs w' !! q = w_fs w !! q) ∧
    ∀ q, q ≠ doc_file r "checkpoints" (c_ID c) → w_fs w' !! q = w_fs w !! q) as (Hwf' & Hst' & Hbel & Hoth).
  { destruct Hshape as [->|[f ->]]; [done|].
    destruct (store_step_outside U r (w_fs w) "checkpoints" (c_ID c) f) as [? ?]; try done; [right; left|].
    split_and!; [by apply repo_wf_doc; [|right; left|]|done|done|]. intros q Hq. by apply lookup_insert_ne. }
  assert (here (doc_file r "checkpoints" (c_ID c))) as Hh.
  { apply here_repo. unfold doc_file. rewrite <- app_assoc. by eexists. }
  destruct (spec_here (w, ρ) w') as [Ho' Hobjs]; [done|apply Hwf'|intros q Hq; apply Hoth; by intros ->|].
  split_and!.
  - split; [by split|..].
    + intros k Hk. rewrite Hobjs by done. by apply Hp.
    + intros h b Hh' Hb. unfold lget. simpl. rewrite (blob_of_agree (w_fs w)) by done. by eapply (pl_step _ _ Hp).
    + intros q Hq Hb Hne. simpl. rewrite Hoth by by apply Hne. by apply (pl_frame _ _ Hp).
  - intros sha. unfold lget. simpl. by apply blob_of_agree.
  - destruct v; [by destruct Hv|]. destruct Hv as (f & Hf & ->). simpl. by rewrite doc_insert, decide_True, Hf.
Qed.

(** The outcome of a pull. *)
Definition pull_post (id : string) x (v : gerr + Checkpoint) x' : Prop :=
  pull_frame id x x' ∧
  match v with
  | inr c => remote_doc x id = Some c ∧ closed_here x' c ∧
      doc (w_fs x'.1) r "checkpoints" (c_ID c) = Some (json_MarshalIndent c)
  | inl _ => calm_sides x → ¬ ∃ c, remote_doc x id = Some c ∧ closed_there x c
  end.

Lemma pull_post_fail id x x' e :
  pulled x x' → (calm_sides x → ¬ ∃ c, remote_doc x id = Some c ∧ closed_there x c) → pull_post id x (inl e) x'.
Proof. intros Hp Hn. split; [by apply pulled_pull_frame|done]. Qed.

(** A part of a pull that fails only when the remote lacks something of [c]. *)
Lemma wp_pull_part {A} (m : M (world * R) A) (k : A → M (world * R) Checkpoint) (P : A → world * R → Prop)
    (T : world * R → Prop) id c x x1 :
  remote_doc x id = Some c → pulled x x1 → (closed_there x c → T x1) →
  wp m (λ v x2, pulled x1 x2 ∧ match v with inr a => P a x2 | inl _ => calm_sides x1 → ¬ T x1 end) x1 →
  (∀ a x2, pulled x1 x2 → pulled x x2 → P a x2 → wp (k a) (pull_post id x) x2) →
  wp (m ≫= k) (pull_post id x) x1.
Proof.
  intros Hdoc Hp1 HT Hm Hk. wp_step. eapply wp_mono; [exact Hm|]. intros v x2 [Hp2 Hv].
  pose proof (pulled_trans _ _ _ Hp1 Hp2) as Hp12. destruct v as [e|a]; [|by apply Hk].
  apply pull_post_fail; [done|]. intros Hcalm (c' & Hc' & Hcl). rewrite Hdoc in Hc'. injection Hc' as <-.
  apply Hv; [by eapply calm_pulled|by apply HT].
Qed.

(** The tree the remote has is the one that was pulled. *)
Lemma pulled_tree x x2 c tb :
  pulled x x2 → in_play x → is_digest (c_TreeHash c) = true → lget x2 (c_TreeHash c) = Some tb →
  closed_there x c → rget x (c_TreeHash c) = Some tb.
Proof.
  intros Hp Hu Hd Hl (Hrh & _)%closed_there_parts. rewrite <- (rget_pulled x x2) by done.
  eapply sides_agree; [apply Hp|by eapply in_play_pulled|done|done|by apply (remote_has_pulled x x2)].
Qed.

Lemma tree_names_digest tb t sha : U tb → json_Unmarshal tb = Some t → sha ∈ tree_names t → is_digest sha = true.
Proof.
  intros HU Ht Hs. unfold tree_names in Hs. apply list_elem_of_filter in Hs as [Hne (e & -> & He)%list_elem_of_fmap].
  by destruct (wn_tree _ Hwn tb t e).
Qed.

(** What follows once the checkpoint's document and tree are read. *)
Lemma wp_pull_rest id x x2 c tb t :
  remote_doc x id = Some c → ck_named c → in_play x → pulled x x2 →
  lget x2 (c_TreeHash c) = Some tb → json_Unmarshal tb = Some t →
  wp (for_each (t_Entries t) (pull_entry r);;
      (if decide (c_StateHash c = "") then mret tt else pullBlob r (c_StateHash c);; mret tt);;
      for_each [c_MemHash c; c_DiskHash c; c_BaseHash c] (pull_image r);;
      on_fst (SaveCheckpoint r c);; mret c) (pull_post id x) x2.
Proof.
  intros Hdoc Hck Hu Hp2 Htb Ht. pose proof (cn_tree _ Hck) as Hdt.
  assert (∀ sha, sha ∈ tree_names t → is_digest sha = true) as Hdn.
  { intros sha. eapply tree_names_digest; [|done]. by eapply (si_in _ _ _ (rd_store _ (pl_ready _ _ Hp2))), Htb. }
  eapply (wp_pull_part _ _ (λ _ x', all_here x' (tree_names t)) (λ x', all_there x' (tree_names t))); [done|done| |..].
  { intros Hcl. eapply all_there_pulled; [done|]. by eapply closed_there_parts; [|eapply pulled_tree|]. }
  { eapply wp_pull_entries; [apply Hp2|by eapply in_play_pulled|done]. }
  intros [] x3 Hp23 Hp3 Hes.
  eapply (wp_pull_part _ _ (λ _ x', all_here x' (state_names c)) (λ x', all_there x' (state_names c))); [done|done| |..].
  { intros Hcl. eapply all_there_pulled; [done|]. by eapply closed_there_parts. }
  { eapply wp_pull_state; [apply Hp3|by eapply in_play_pulled|done]. }
  intros [] x4 Hp34 Hp4 Hst.
  set (ims := [c_MemHash c; c_DiskHash c; c_BaseHash c]).
  eapply (wp_pull_part _ _ (λ _ x', ∀ h, h ∈ ims → image_here x' h) (λ x', ∀ h, h ∈ ims → image_there x' h)); [done|done| |..].
  { intros Hcl h Hh. eapply image_there_pulled; [done|]. by eapply closed_there_parts. }
  { eapply wp_pull_images; [apply Hp4|by eapply in_play_pulled|intros h Hh; apply (cn_hashes _ Hck); by right]. }
  intros [] x5 Hp45 Hp5 Him.
  assert (closed_here x5 c) as (l & Hl & Hall).
  { eapply closed_here_parts; [done| |exact Ht| | |done].
    - eapply lget_pulled; [exact Hp45|done|]. eapply lget_pulled; [exact Hp34|done|].
      by eapply lget_pulled; [exact Hp23|..].
    - eapply all_here_pulled; [exact Hp45|]. by eapply all_here_pulled; [exact Hp34|].
    - by eapply all_here_pulled; [exact Hp45|]. }
  wp_step. wp_use wp_SaveCheckpoint; [exact Hp5|apply Hck|exact Hdoc|]. intros v x6 (Hf6 & Hl6 & Hv6). destruct v as [e|[]].
  { split; [done|]. by intros [Hq _]. }
  wp_step. split; [done|]. split_and!; [done| |done]. exists l. split.
  - eapply names_agree; [exact Hl|done].
  - intros sha Hs. rewrite Hl6. by apply Hall.
Qed.

Lemma wp_Pull id x :
  ready x → in_play x → good_id id → key_ok (checkpointKey id) → (∀ c, remote_doc x id = Some c → ck_named c) →
  wp (Pull r id) (pull_post id x) x.
Proof.
  intros Hr Hu Hid Hkey Hn. unfold Pull. wp_step. wp_step.
  wp_use (spec_Get (checkpointKey id)); [apply Hr|by eapply rw_fs, rd_repo|done|].
  intros v x1 (Ho1 & Hl1 & Hk1 & Hv).
  pose proof (pulled_local _ _ Hr Hl1 Ho1 Hk1) as Hp1. destruct v as [e|cb].
  { wp_step. apply pull_post_fail; [done|]. intros (_ & Hrel & _) (c & Hc & _). unfold remote_doc in Hc.
    destruct (Hv Hrel) as [Hnone _]. by rewrite Hnone in Hc. }
  assert (remote_doc x id = json_Unmarshal cb) as Hdoc by (unfold remote_doc; by rewrite Hv).
  destruct (json_Unmarshal cb) as [c|] eqn:Hc.
  2: { wp_step. apply pull_post_fail; [done|]. intros _ (c & Hc' & _). congruence. }
  pose proof (Hn c Hdoc) as Hck.
  eapply (wp_pull_part _ _ (λ b x', lget x' (c_TreeHash c) = Some b) (λ x', remote_has x' (c_TreeHash c))); [done|done| |..].
  { intros (Hrh & _)%closed_there_parts. apply (remote_has_pulled x x1); [apply Hck|done|done]. }
  { eapply wp_pullBlob; [apply Hp1|by eapply in_play_pulled|apply Hck]. }
  intros tb x2 Hp12 Hp2 Htb. destruct (json_Unmarshal tb) as [t|] eqn:Ht.
  - by eapply wp_pull_rest.
  - wp_step. apply pull_post_fail; [done|]. intros _ (c' & Hc' & Hcl). rewrite Hdoc in Hc'. injection Hc' as <-.
    pose proof (pulled_tree _ _ _ _ Hp2 Hu (cn_tree _ Hck) Htb Hcl) as Htb'.
    apply closed_there_parts in Hcl as (_ & _ & (tb' & t & Htb2 & Ht') & _). rewrite Htb' in Htb2. injection Htb2 as <-. congruence.
Qed.

End specs.
