(* ===== verification/PullFacts.v ===== *)
(** * A pull whatever the remote holds

    The names in a remote's documents need not be digests and its blobs need not
    be what their names say.  What a pull does to the local repository is bounded
    all the same: the blobs that were there stay, blobs are added only under their
    own digests, and outside the store only the document of the checkpoint is
    written. *)

From S2P Require Import Prelude Sha256 Os OsFacts Cas Parallel Blobs Chunked Tree Model Repo RepoFacts Backend Engine EngineFacts Remote Sync SyncFacts.
Import Cas Chunked Tree Model Repo Engine Remote Sync.
Open Scope Z_scope.

(** ** Reading the store under any name *)

Section reads.
Context `{OsEnv, GoJSON Manifest}.

Lemma wp_Has_any root h w : wp (Has root h) (λ v w', w_fs w' = w_fs w) w.
Proof. unfold Has. wp_step. wp_step. by apply wp_sys_read; [done|]; destruct (snd <$> _); wp_step. Qed.

Lemma wp_ReadFile_any p w : wp (os_ReadFile p) (λ _ w', w_fs w' = w_fs w ∧ w_zero w' = w_zero w) w.
Proof.
  unfold os_ReadFile. wp_step. apply wp_sys_read; [done|]. destruct (fst <$> _) as [e|q]; [done|]. by apply wp_sys_read.
Qed.

Lemma wp_Get_any root h w : wp (Get root h) (λ _ w', w_fs w' = w_fs w) w.
Proof. unfold Get. wp_step. wp_step. wp_use wp_ReadFile_any. intros [e|b] w' [Hw _]; by wp_step. Qed.

Lemma wp_ReadManifest_any root h w : wp (ReadManifest root h) (λ _ w', w_fs w' = w_fs w) w.
Proof.
  unfold ReadManifest. wp_step. wp_use wp_Get_any. intros [e|b] w' Hw; [done|].
  destruct (json_Unmarshal b); [case_decide|]; by wp_step.
Qed.
End reads.

(** A store whose [Get] only reads, under any key. *)
Class StoreReads (R : Type) `{StoreSpec R here} : Prop :=
  reads_Get k x : objs_ok x → fs_wf (w_fs x.1) →
    wp (store_Get k) (λ _ x', objs_ok x' ∧ local_same here x x' ∧ ∀ k', key_ok k' → objs x' k' = objs x k') x.

Section any.
Context `{OsEnv, Sched, GoJSON Manifest, GoJSON Tree, GoJSON Sandbox, GoJSON Checkpoint}.
Context {R : Type} `{ObjectStore R} (here : path → Prop) `{!StoreSpec R here, !StoreReads R}.
Context (r : Repo) (here_repo : ∀ q, below (r_root r) q → here q).
Implicit Types (x : world * R).

(** A repository with a store of blobs under their own digests, beside a remote. *)
Record sides_ok x : Prop := {
  so_objs : objs_ok x;
  so_repo : repo_wf r (w_fs x.1);
  so_store : store_wf (w_fs x.1) (r_cas r)
}.

(** The store may have grown (a digest still names bytes with that digest: the
    same bytes, short of a collision), at most the files of [D] outside it
    changed, and the remote is as it was. *)
Record pull_keeps (D : path → Prop) x x' : Prop := {
  kp_ok : sides_ok x';
  kp_objs : ∀ k, key_ok k → objs x' k = objs x k;
  kp_blobs : ∀ h b, is_digest h = true → lget r x h = Some b → ∃ b', lget r x' h = Some b' ∧ hashOf b' = hashOf b;
  kp_files : ∀ q, here q → ¬ below (r_cas r) q → ¬ D q → w_fs x'.1 !! q = w_fs x.1 !! q
}.
Definition nothing (q : path) : Prop := False.

Lemma pull_keeps_refl D x : sides_ok x → pull_keeps D x x.
Proof. split; eauto. Qed.
Lemma pull_keeps_trans D x y z : pull_keeps D x y → pull_keeps D y z → pull_keeps D x z.
Proof.
  intros [_ Ho1 Hb1 Hf1] [Hok Ho2 Hb2 Hf2]. split; [done|..].
  - intros k Hk. by rewrite Ho2, Ho1.
  - intros h b Hh (b1 & Hb & He)%Hb1; [|done]. destruct (Hb2 h b1 Hh Hb) as (b2 & ? & ?). exists b2. split; congruence.
  - intros q Hq Hc HD. by rewrite Hf2, Hf1.
Qed.
Lemma pull_keeps_weaken (D D' : path → Prop) x x' : (∀ q, D q → D' q) → pull_keeps D x x' → pull_keeps D' x x'.
Proof. intros HD [? ? ? Hf]. split; try done. intros q ?? Hn. apply Hf; [done|done|]. by intros ?%HD. Qed.

(** A call to the remote, and one that reads here. *)
Lemma pull_keeps_local x x' : sides_ok x → local_same here x x' → objs_ok x' → (∀ k, key_ok k → objs x' k = objs x k) → pull_keeps nothing x x'.
Proof.
  intros [Ho Hr [Hfs Hroot Hsh Hsl]] Hl Ho' Hk. pose proof (ls_wf _ _ _ Hl Hfs) as Hfs'.
  pose proof (local_below here r here_repo x x' Hr Hl) as Hb. split; [split; [done|..]|done|..].
  - eapply repo_wf_agree; [done|done|]. intros q Hq. by apply Hl, here_repo.
  - split; [done|..].
    + destruct Hroot as [m Hm]. exists m. by rewrite Hb.
    + intros h n Hh. rewrite Hb by by eexists. by apply Hsh.
    + intros h n Hh. rewrite Hb by apply below_slot. by apply Hsl.
  - intros h b _. unfold lget. rewrite (blob_of_agree (w_fs x.1) (w_fs x'.1)) by done. eauto.
  - intros q Hq _ _. by apply Hl.
Qed.

Lemma pull_keeps_read (w w' : world) (ρ : R) : sides_ok (w, ρ) → w_fs w' = w_fs w → pull_keeps nothing (w, ρ) (w', ρ).
Proof.
  intros Hok Hfs. pose proof Hok as [Ho Hr Hs]. cbn [fst] in *.
  destruct (spec_here (w, ρ) w') as [Ho' Hk]; [done|by rewrite Hfs; apply Hs|by intros; rewrite Hfs|].
  split; [split; cbn [fst]; by rewrite ?Hfs|done|..]; unfold lget; cbn [fst]; rewrite Hfs; eauto.
Qed.

(** Adding a blob. *)
Lemma pull_keeps_put b v (w w' : world) (ρ : R) : sides_ok (w, ρ) → put_result (r_cas r) b w v w' → pull_keeps nothing (w, ρ) (w', ρ).
Proof.
  intros [Ho Hr Hs] (_ & [Hwf Hfr Hoth Hyes Hno _] & _). cbn [fst] in *.
  assert (∀ q, ¬ here q → w_fs w' !! q = w_fs w !! q) as Hnh by (intros q Hq; apply Hfr; intros Hb; by eapply Hq, here_repo, below_cas).
  destruct (spec_here (w, ρ) w') as [Ho' Hk]; [done|apply Hwf|done|]. split; [split; cbn [fst]; [done| |done]|done|..].
  - destruct Hr as [Hfs Hcas Hdirs Hdocs]. split; [apply Hwf|done|..].
    + intros d Hd. destruct (decide (d = "blobs")) as [->|Hne]; [rewrite <- Hcas; apply Hwf|].
      destruct (Hdirs d Hd) as [m Hm]. exists m. rewrite Hfr; [done|]. rewrite Hcas.
      intros [k Hk']. rewrite <- app_assoc in Hk'. apply app_inv_head in Hk'. by simplify_eq/=.
    + intros d c n Hd. rewrite Hfr; [by apply Hdocs|]. rewrite Hcas. by apply repo_blobs_disjoint.
  - intros h c Hh Hc. unfold lget in *. cbn [fst] in *. destruct (decide (h = hashOf b)) as [->|Hne]; [|rewrite Hoth; eauto].
    destruct (ok_of v); [|rewrite Hno; eauto]. destruct (Hyes eq_refl) as [Hnew|[_ ->]]; [|eauto]. exists b. split; [done|].
    symmetry. eapply store_wf_blob; [exact Hs|exact Hh|exact Hc].
  - intros q _ Hb _. by apply Hfr.
Qed.

Lemma wp_pullBlob_any sha x : sides_ok x → wp (pullBlob r sha) (λ _ x', pull_keeps nothing x x') x.
Proof.
  destruct x as [w ρ]. intros Hok. unfold pullBlob. wp_step. wp_step. wp_use wp_Has_any. intros v w1 Hw1.
  pose proof (pull_keeps_read w w1 ρ Hok Hw1) as Hk1. destruct v as [e|[]]; [done| |].
  - wp_step. wp_use wp_Get_any. intros v w2 Hw2. apply pull_keeps_read; [done|congruence].
  - wp_step. wp_step. wp_use (reads_Get (blobKey sha)); [apply Hk1|apply Hk1|]. intros v x2 (Ho2 & Hl2 & Hobj2).
    pose proof (pull_keeps_trans _ _ _ _ Hk1 (pull_keeps_local _ _ (kp_ok _ _ _ Hk1) Hl2 Ho2 Hobj2)) as Hk2. destruct v as [e|data]; [by wp_step|].
    destruct x2 as [w2 ρ2]. wp_step. wp_step. wp_use (wp_Put (r_cas r) data); [apply Hk2|]. intros v w3 Hp.
    pose proof (pull_keeps_trans _ _ _ _ Hk2 (pull_keeps_put data v w2 w3 ρ2 (kp_ok _ _ _ Hk2) Hp)) as Hk3. destruct v as [e|got]; [done|].
    case_decide; by wp_step.
Qed.

(** Calls one after the other. *)
Lemma wp_kept_bind {A B} (m : M (world * R) A) (k : A → M (world * R) B) D x0 x :
  pull_keeps D x0 x → wp m (λ _ x', pull_keeps D x x') x → (∀ a x', pull_keeps D x0 x' → wp (k a) (λ _ x'', pull_keeps D x0 x'') x') →
  wp (m ≫= k) (λ _ x', pull_keeps D x0 x') x.
Proof.
  intros Hk Hm Hb. wp_step. eapply wp_mono; [exact Hm|]. intros [e|a] x1 Hk1; [by eapply pull_keeps_trans|]. apply Hb. by eapply pull_keeps_trans.
Qed.

Lemma wp_each_any {A} (l : list A) (f : A → M (world * R) unit) D x :
  sides_ok x → (∀ a x, sides_ok x → wp (f a) (λ _ x', pull_keeps D x x') x) → wp (for_each l f) (λ _ x', pull_keeps D x x') x.
Proof.
  intros Hok Hf. eapply (wp_for_each _ _ (λ _ x', pull_keeps D x x')).
  - by apply pull_keeps_refl.
  - intros dn a todo x1 _ Hk. wp_use Hf; [apply Hk|]. intros [e|[]] x2 Hk2; by eapply pull_keeps_trans.
  - done.
Qed.

Lemma wp_pull_entry_any e x : sides_ok x → wp (pull_entry r e) (λ _ x', pull_keeps nothing x x') x.
Proof.
  intros Hok. unfold pull_entry. case_decide; [wp_step; by apply pull_keeps_refl|].
  wp_step. wp_use wp_pullBlob_any; [done|]. intros [er|b] x1 Hk; [done|]. by wp_step.
Qed.

Lemma wp_pull_image_any h x : sides_ok x → wp (pull_image r h) (λ _ x', pull_keeps nothing x x') x.
Proof.
  intros Hok. unfold pull_image. case_decide; [wp_step; by apply pull_keeps_refl|].
  apply wp_kept_bind; [by apply pull_keeps_refl|by apply wp_pullBlob_any|]. intros _ [w1 ρ1] Hk1.
  eapply wp_kept_bind; [done| |].
  { wp_step. wp_use wp_ReadManifest_any. intros v w2 Hw2. apply pull_keeps_read; [apply Hk1|done]. }
  intros m x2 Hk2. eapply wp_mono; [apply wp_each_any; [apply Hk2|]|intros v x3 Hk3; exact (pull_keeps_trans _ _ _ _ Hk2 Hk3)].
  intros ch x3 Hok3. wp_step. wp_use wp_pullBlob_any; [done|]. intros [er|b] x4 Hk4; [done|]. by wp_step.
Qed.

(** The checkpoint the store gives for [id]. *)
Definition fetched x (id : string) (c : Checkpoint) : Prop :=
  ∃ cb x', store_Get (checkpointKey id) x = (Ok cb, x') ∧ json_Unmarshal cb = Some c.
(** Its document here. *)
Definition its_doc x (id : string) (q : path) : Prop := ∃ c, fetched x id c ∧ q = doc_file r "checkpoints" (c_ID c).

Lemma wp_Save_any c x :
  sides_ok x → good_id (c_ID c) →
  wp (on_fst (SaveCheckpoint r c)) (λ v x', pull_keeps (λ q, q = doc_file r "checkpoints" (c_ID c)) x x' ∧
    (∀ u, v = inr u → doc (w_fs x'.1) r "checkpoints" (c_ID c) = Some (json_MarshalIndent c))) x.
Proof.
  destruct x as [w ρ]. intros Hok Hid. pose proof Hok as [Ho Hr Hs]. cbn [fst] in *. wp_step. unfold SaveCheckpoint.
  wp_use wp_putJSON; [done|right; left|done|]. intros v w' [_ Hv]. set (D := doc_file r "checkpoints" (c_ID c)) in *.
  assert (w_fs w' = w_fs w ∨ ∃ f, w_fs w' = <[D := NFile f]> (w_fs w)) as Hshape by (destruct v; naive_solver).
  assert (∀ q, q ≠ D → w_fs w' !! q = w_fs w !! q) as Hoth.
  { intros q Hq. destruct Hshape as [->|[f ->]]; [done|]. by rewrite lookup_insert_ne. }
  assert (repo_wf r (w_fs w')) as Hr' by (destruct Hshape as [->|[f ->]]; [done|apply repo_wf_doc; [done|right; left|done]]).
  assert (∀ q, below (r_cas r) q → w_fs w' !! q = w_fs w !! q) as Hb.
  { intros q Hq. apply Hoth. intros ->. rewrite (rw_cas _ _ Hr) in Hq. unfold D, doc_file in Hq. by apply repo_blobs_disjoint in Hq; [|right; left]. }
  destruct (spec_here (w, ρ) w') as [Ho' Hk]; [done|apply Hr'| |].
  { intros q Hq. apply Hoth. intros ->. apply Hq, here_repo. unfold D, doc_file. rewrite <- app_assoc. by eexists. }
  split; [split; [split; cbn [fst]; [done|done|]|done|..]|].
  - destruct Hs as [Hfs [m Hm] Hsh Hsl]. split; [apply Hr'|exists m; by rewrite Hb|..].
    + intros h n Hh. rewrite Hb by by eexists. by apply Hsh.
    + intros h n Hh. rewrite Hb by apply below_slot. by apply Hsl.
  - intros h b _. unfold lget. cbn [fst]. rewrite (blob_of_agree (w_fs w) (w_fs w')) by done. eauto.
  - intros q _ _ Hq. by apply Hoth.
  - intros u ->. destruct Hv as (f & Hf & Hw'). cbn [fst]. rewrite Hw'. unfold D. by rewrite doc_insert, decide_True, Hf.
Qed.

(** The outcome of a pull whatever the remote holds: when it succeeds, the
    document the store gave is saved, under the identifier inside it. *)
Definition any_post (id : string) x (v : gerr + Checkpoint) x' : Prop :=
  pull_keeps (its_doc x id) x x' ∧
  ∀ c, v = inr c → fetched x id c ∧ doc (w_fs x'.1) r "checkpoints" (c_ID c) = Some (json_MarshalIndent c).

Lemma any_fail id x e x' : pull_keeps nothing x x' → any_post id x (inl e) x'.
Proof. intros Hk. split; [|done]. eapply pull_keeps_weaken; [|exact Hk]. by intros q []. Qed.

Lemma wp_any_bind {A} (m : M (world * R) A) (k : A → M (world * R) Checkpoint) id x0 x :
  pull_keeps nothing x0 x → wp m (λ _ x', pull_keeps nothing x x') x → (∀ a x', pull_keeps nothing x0 x' → wp (k a) (any_post id x0) x') →
  wp (m ≫= k) (any_post id x0) x.
Proof.
  intros Hk Hm Hb. wp_step. eapply wp_mono; [exact Hm|]. intros [e|a] x1 Hk1; [by eapply any_fail, pull_keeps_trans|]. apply Hb. by eapply pull_keeps_trans.
Qed.

Lemma wp_Pull_any id x :
  sides_ok x → (∀ c, fetched x id c → good_id (c_ID c)) → wp (Pull r id) (any_post id x) x.
Proof.
  intros Hok Hid. unfold Pull. wp_step. wp_step.
  pose proof (reads_Get (checkpointKey id) x (so_objs _ Hok) ltac:(apply Hok)) as Hget.
  destruct (wp_exists _ _ _ Hget) as (v & x1 & Hrun & Ho1 & Hl1 & Hk1). unfold wp at 1. rewrite Hrun. clear Hget.
  pose proof (pull_keeps_local _ _ Hok Hl1 Ho1 Hk1) as Hkp1. destruct v as [e|cb]; [wp_step; by apply any_fail|].
  destruct (json_Unmarshal cb) as [c|] eqn:Hc; [|wp_step; by apply any_fail].
  assert (fetched x id c) as Hf by by exists cb, x1. pose proof (Hid c Hf) as Hgid.
  apply wp_any_bind; [done|apply wp_pullBlob_any, Hkp1|]. intros tb x2 Hkp2.
  destruct (json_Unmarshal tb) as [t|]; [|wp_step; by apply any_fail].
  apply wp_any_bind; [done|apply wp_each_any; [apply Hkp2|apply wp_pull_entry_any]|]. intros _ x3 Hkp3.
  apply wp_any_bind; [done| |].
  { case_decide; [wp_step; apply pull_keeps_refl, Hkp3|]. wp_step. wp_use wp_pullBlob_any; [apply Hkp3|]. intros [er|b] x' Hk'; [done|by wp_step]. }
  intros _ x4 Hkp4. apply wp_any_bind; [done|apply wp_each_any; [apply Hkp4|apply wp_pull_image_any]|]. intros _ x5 Hkp5.
  wp_step. wp_use (wp_Save_any c); [apply Hkp5|done|]. intros v x6 [Hkp6 Hdoc].
  assert (pull_keeps (its_doc x id) x x6) as Hall.
  { eapply pull_keeps_trans; eapply pull_keeps_weaken; [|exact Hkp5| |exact Hkp6]; [by intros q []|]. intros q ->. by exists c. }
  destruct v as [e|[]]; [by split|]. wp_step. split; [done|]. intros c' [= <-]. split; [done|by eapply Hdoc].
Qed.
End any.
