(* ===== verification/PushFacts.v ===== *)
(** * Facts about pushing a sandbox's history *)

From S2P Require Import Prelude Sha256 Os OsFacts Cas Parallel Blobs Chunked Tree Model Repo RepoFacts Backend Engine EngineFacts Remote Sync SyncFacts.
Import Cas Chunked Tree Model Repo Engine Remote Sync.
Open Scope Z_scope.

(** ** The names to push *)

Section names.
Context `{OsEnv, Sched, GoJSON Manifest, GoJSON Tree, GoJSON Sandbox, GoJSON Checkpoint} (r : Repo).

Definition here_get (w : world) (sha : string) : option bytes := blob_of (w_fs w) (r_cas r) sha.

Lemma wp_image_shas shas h w :
  store_wf (w_fs w) (r_cas r) → named h →
  wp (image_shas r shas h) (λ v w', w_fs w' = w_fs w ∧ w_zero w' = w_zero w ∧
    match v with
    | inr l => ∃ part, image_names (here_get w) h = Some part ∧ l = shas ++ part
    | inl _ => quiet → image_names (here_get w) h = None
    end) w.
Proof.
  intros Hwf Hn. unfold image_shas, image_names. case_decide as He.
  { wp_step. split_and!; [done..|]. exists []. by rewrite app_nil_r. }
  assert (is_digest h = true) as Hd by by destruct Hn.
  wp_step. unfold ReadManifest. wp_step. unfold manifest_in, here_get. apply wp_Get; [done|done|..].
  - intros b w' Hfs Hz ->. simpl. destruct (json_Unmarshal b) as [m|]; simpl; [case_decide|]; repeat wp_step; split_and!; eauto.
  - intros e w' Hfs Hz Hq. split_and!; [done..|]. intros Hqu. by destruct (Hq Hqu) as [-> _].
Qed.

Lemma wp_image_shas_list l shas w :
  store_wf (w_fs w) (r_cas r) → (∀ h, h ∈ l → named h) →
  wp (fold_m (image_shas r) shas l) (λ v w', w_fs w' = w_fs w ∧ w_zero w' = w_zero w ∧
    match v with
    | inr out => ∃ parts, mapM (image_names (here_get w)) l = Some parts ∧ out = shas ++ concat parts
    | inl _ => quiet → mapM (image_names (here_get w)) l = None
    end) w.
Proof.
  revert shas w. induction l as [|h l IH]; intros shas w Hwf Hn; simpl.
  { wp_step. split_and!; [done..|]. exists []. by rewrite app_nil_r. }
  wp_step. wp_use wp_image_shas; [done|apply Hn; left|]. intros [e|l1] w1 (Hfs & Hz & Hv).
  { split_and!; [done..|]. intros Hq. by rewrite Hv. }
  destruct Hv as (part & Hp & ->). rewrite Hp. simpl.
  assert (here_get w1 = here_get w) as Hg by (unfold here_get; by rewrite Hfs).
  wp_use IH; [by rewrite Hfs|intros; apply Hn; by right|]. rewrite Hg.
  intros [e|out] w2 (Hfs2 & Hz2 & Hv2); (split_and!; [congruence..|]).
  - intros Hq. by rewrite Hv2.
  - destruct Hv2 as (parts & Hps & ->). rewrite Hps. exists (part :: parts). split; [done|]. simpl. by rewrite <- app_assoc.
Qed.

Lemma wp_checkpoint_shas c w :
  store_wf (w_fs w) (r_cas r) → ck_named c →
  wp (checkpoint_shas r c) (λ v w', w_fs w' = w_fs w ∧ w_zero w' = w_zero w ∧
    match v with
    | inr l => names (here_get w) c = Some l
    | inl _ => quiet → names (here_get w) c = None
    end) w.
Proof.
  intros Hwf Hn. unfold checkpoint_shas, names. wp_step. wp_use wp_loadTree; [done|apply Hn|].
  unfold tree_at. change (blob_of (w_fs w) (r_cas r) (c_TreeHash c)) with (here_get w (c_TreeHash c)).
  intros [e|t] w1 (Hfs & Hz & Hv).
  { split_and!; [done..|]. intros Hq. specialize (Hv Hq). destruct (here_get w (c_TreeHash c)); [simpl in *|done]. by rewrite Hv. }
  apply bind_Some in Hv as (b & Hb & Ht). rewrite Hb. cbn [mbind option_bind]. rewrite Ht. cbn [mbind option_bind].
  assert (here_get w1 = here_get w) as Hg by (unfold here_get; by rewrite Hfs).
  wp_use wp_image_shas_list; [by rewrite Hfs|intros h Hh; apply (cn_hashes _ Hn); by right|]. rewrite Hg. simpl.
  intros [e|out] w2 (Hfs2 & Hz2 & Hv2); (split_and!; [congruence..|]).
  - intros Hq. specialize (Hv2 Hq). by destruct (image_names _ (c_MemHash c)), (image_names _ (c_DiskHash c)), (image_names _ (c_BaseHash c)).
  - destruct Hv2 as (parts & Hps & ->). apply bind_Some in Hps as (mem & -> & (tail & Hps & [= <-])%bind_Some).
    apply bind_Some in Hps as (disk & -> & (tail2 & Hps & [= <-])%bind_Some).
    apply bind_Some in Hps as (base & -> & [= <-]). simpl. by rewrite app_nil_r, <- !app_assoc.
Qed.

Lemma wp_History sid s l w :
  quiet → repo_wf r (w_fs w) → good_id sid → sandbox_named (w_fs w) r sid = Some s → chain (w_fs w) r (s_Head s) l →
  wp (History r sid) (λ v w', w_fs w' = w_fs w ∧ w_zero w' = w_zero w ∧ v = inr l) w.
Proof.
  intros Hq Hwf Hid Hs Hl. unfold History. wp_step. wp_use wp_GetSandbox; [done..|]. rewrite Hs.
  intros [e|s'] w1 (Hfs & Hz & Hv); [done|]. injection Hv as <-. wp_step. wp_step.
  wp_use wp_history_loop; [done|by rewrite Hfs|by rewrite Hfs|rewrite Hfs; by eapply chain_bounded|].
  intros v w2 (Hfs2 & Hz2 & ->). split_and!; congruence.
Qed.

End names.

(** ** Pushing blobs *)

Section specs.
Context `{OsEnv, Sched, GoJSON Manifest, GoJSON Tree, GoJSON Sandbox, GoJSON Checkpoint}.
Context (U : bytes → Prop) {NC : NoCollision U} {R : Type} `{ObjectStore R} (here : path → Prop) `{!StoreSpec R here}.
Context (r : Repo) (here_repo : ∀ q, below (r_root r) q → here q).
Implicit Types (x : world * R).

Abbreviation rget := (rget here).
Abbreviation lget := (lget r).
Abbreviation ready := (ready U here r).

(** What the remote holds under a digest hashes to it. *)
Definition sound x : Prop := ∀ sha b, is_digest sha = true → rget x sha = Some b → U b ∧ hashOf b = sha.

(** The remote gained local blobs, and documents with keys in [W]. *)
Record pushed (W : list string) x x' : Prop := {
  pu_ready : ready x';
  pu_local : local_same here x x';
  pu_keep : ∀ sha b, is_digest sha = true → rget x sha = Some b → rget x' sha = Some b;
  pu_new : ∀ sha b, is_digest sha = true → rget x' sha = Some b → rget x sha = Some b ∨ lget x sha = Some b;
  pu_docs : ∀ k, key_ok k → (∀ sha, k ≠ blobKey sha) → k ∉ W → objs x' k = objs x k
}.

Lemma pushed_refl W x : ready x → pushed W x x.
Proof. intros Hr. split; auto using local_same_refl. Qed.

Lemma lget_local x x' sha : ready x → local_same here x x' → lget x' sha = lget x sha.
Proof. intros Hr Hl. apply blob_of_agree. eapply local_below; [done|apply Hr|done]. Qed.

Lemma pushed_weaken W W' x y : W ⊆ W' → pushed W x y → pushed W' x y.
Proof. intros Hs [Hr Hl Hk Hn Hd]. split; auto. Qed.

Lemma pushed_trans W x y z : ready x → pushed W x y → pushed W y z → pushed W x z.
Proof.
  intros Hr [Hr1 Hl1 Hk1 Hn1 Hd1] [Hr2 Hl2 Hk2 Hn2 Hd2]. split; eauto using local_same_trans.
  - intros sha b Hd Hb. destruct (Hn2 sha b Hd Hb) as [Hy|Hy]; [eauto|]. right. by rewrite <- (lget_local x y).
  - intros k Hk Hnb HW. by rewrite Hd2, Hd1.
Qed.

(** A call that left the files and the remote alone. *)
Lemma same_files (w w' : world) (ρ : R) k : ready (w, ρ) → w_fs w' = w_fs w → key_ok k → objs (w', ρ) k = objs (w, ρ) k.
Proof.
  intros [Ho Hwf Hs] Hfs Hk. simpl in *.
  destruct (spec_here (w, ρ) w') as [_ Hobjs]; [done|rewrite Hfs; apply Hs|intros; simpl; congruence|by apply Hobjs].
Qed.

Lemma pushed_same W (w w' : world) (ρ : R) : ready (w, ρ) → w_fs w' = w_fs w → w_zero w' = w_zero w → pushed W (w, ρ) (w', ρ).
Proof.
  intros Hr Hfs Hz. pose proof Hr as [Ho Hwf Hs]. simpl in *.
  destruct (spec_here (w, ρ) w') as [Ho' Hobjs]; [done|rewrite Hfs; apply Hs|intros; simpl; congruence|].
  assert (local_same here (w, ρ) (w', ρ)) as Hl by (split; simpl; [by rewrite Hfs|intros; by rewrite Hfs|done]).
  split; [by eapply ready_local|done|..].
  - intros sha b Hd Hb. unfold SyncFacts.rget in *. by rewrite Hobjs by by apply blob_key_ok.
  - intros sha b Hd Hb. left. unfold SyncFacts.rget in *. by rewrite Hobjs in Hb by by apply blob_key_ok.
  - intros k Hk _ _. by apply Hobjs.
Qed.

Lemma pushed_call W x x' :
  ready x → objs_ok x' → local_same here x x' → (∀ k, key_ok k → objs x' k = objs x k) → pushed W x x'.
Proof.
  intros Hr Ho Hl Hk. assert (∀ h, is_digest h = true → rget x' h = rget x h) as Hsame by (intros h Hh; by apply Hk, blob_key_ok).
  split; [by eapply ready_local|done|..]; intros; [by rewrite Hsame|left; by rewrite <- Hsame|by apply Hk].
Qed.

(** The blobs pushed so far, [done], are what the remote gained; [st] counts
    them. *)
Definition missing x (l : list string) : Z := Z.of_nat (size (filter (λ sha, rget x sha = None) (list_to_set l : gset string))).

Record progress (W : list string) (done : list string) x0 (st : PushStats) x : Prop := {
  pg_pushed : pushed W x0 x;
  pg_there : ∀ sha, is_digest sha = true → is_Some (rget x sha) ↔ is_Some (rget x0 sha) ∨ sha ∈ done;
  pg_blobs : reliable → ps_Blobs st = missing x0 done;
  pg_total : ps_Blobs st + ps_BlobsSkipped st = Z.of_nat (length done)
}.

Lemma missing_seen x l sha : is_Some (rget x sha) ∨ sha ∈ l → missing x (l ++ [sha]) = missing x l.
Proof.
  intros Hs. unfold missing. do 2 f_equal. apply set_eq. intros h. rewrite !elem_of_filter, !elem_of_list_to_set, elem_of_app, list_elem_of_singleton.
  split; [|tauto]. intros [Hn [Hh| ->]]; [done|]. destruct Hs as [[b Hb]|Hs]; [congruence|done].
Qed.

Lemma missing_new x l sha : rget x sha = None → sha ∉ l → missing x (l ++ [sha]) = missing x l + 1.
Proof.
  intros Hn Hl. unfold missing.
  assert (filter (λ h, rget x h = None) (list_to_set (l ++ [sha]) : gset string) =
          {[sha]} ∪ filter (λ h, rget x h = None) (list_to_set l : gset string)) as ->.
  { apply set_eq. intros h. rewrite elem_of_union, elem_of_singleton, !elem_of_filter, !elem_of_list_to_set, elem_of_app, list_elem_of_singleton.
    split; [naive_solver|]. intros [->|[? ?]]; auto. }
  rewrite size_union, size_singleton by (intros h ->%elem_of_singleton; rewrite elem_of_filter, elem_of_list_to_set; tauto). lia.
Qed.

(** A name the remote holds has the local bytes. *)
Lemma pushed_blob W x0 x sha b c :
  ready x0 → sound x0 → pushed W x0 x → is_digest sha = true → lget x0 sha = Some b → rget x sha = Some c → c = b.
Proof.
  intros Hr0 Hs Hp Hd Hb Hc. destruct (pu_new _ _ _ Hp sha c Hd Hc) as [Hold|Hnew]; [|congruence].
  destruct (Hs sha c Hd Hold) as [HU Hh]. apply no_collision; [done|by eapply (si_in _ _ _ (rd_store _ _ _ _ Hr0))|].
  rewrite Hh. symmetry. eapply store_wf_blob; [apply Hr0|done|done].
Qed.

Lemma wp_put_new W sha b x :
  ready x → is_digest sha = true → (∀ c, rget x sha = Some c → c = b) → lget x sha = Some b →
  wp (store_Put (blobKey sha) b) (λ v x', (∀ k, key_ok k → k ≠ blobKey sha → objs x' k = objs x k) ∧ pushed W x x' ∧
    match v with inr _ => rget x' sha = Some b | inl _ => ¬ reliable end) x.
Proof.
  intros Hr Hd Hno Hb. pose proof (blob_key_ok _ Hd) as Hk.
  wp_use (spec_Put (blobKey sha) b); [apply Hr|by eapply rw_fs, rd_repo|done|]. intros v x' (Ho & Hl & Hk' & Hv).
  assert (∀ h, is_digest h = true → h ≠ sha → rget x' h = rget x h) as Hoth.
  { intros h Hh Hne. apply Hk'; [by apply blob_key_ok|by intros ?%blobKey_inj]. }
  split_and!; [auto| |by destruct v; [destruct Hv|]].
  split; [by eapply ready_local|done|..].
  - intros h c Hh Hc. destruct (decide (h = sha)) as [->|Hne]; [|by rewrite Hoth].
    pose proof (Hno c Hc) as ->. unfold SyncFacts.rget in *. destruct v as [e|[]]; [destruct Hv as [_ [-> | ->]]; done|done].
  - intros h c Hh Hc. destruct (decide (h = sha)) as [->|Hne]; [|left; by rewrite <- Hoth].
    unfold SyncFacts.rget in *. destruct v as [e|[]]; [destruct Hv as [_ [Hv|Hv]]; [left|right]; congruence|]. right. congruence.
  - intros k Hkk Hnb _. apply Hk'; [done|apply Hnb].
Qed.

Lemma wp_pushBlob W done st sha x0 x :
  quiet → ready x0 → sound x0 → progress W done x0 st x → is_digest sha = true → is_Some (lget x0 sha) →
  wp (pushBlob r st sha) (λ v x', (∀ k, key_ok k → k ≠ blobKey sha → objs x' k = objs x k) ∧
    match v with
    | inr st' => progress W (done ++ [sha]) x0 st' x' ∧ ps_Checkpoints st' = ps_Checkpoints st
    | inl _ => ¬ reliable ∧ pushed W x0 x'
    end) x.
Proof.
  intros Hq Hr0 Hso [Hpu Hth Hbl Htot] Hd [b Hb]. pose proof (pu_ready _ _ _ Hpu) as Hr.
  pose proof (blob_key_ok _ Hd) as Hk. unfold pushBlob. wp_step.
  wp_use (spec_Has (blobKey sha)); [apply Hr|by eapply rw_fs, rd_repo|done|]. intros v x1 (Ho1 & Hl1 & Hk1 & Hv).
  assert (pushed W x x1) as Hp1 by by eapply pushed_call.
  assert (∀ h, is_digest h = true → rget x1 h = rget x h) as Hsame by (intros h Hh; by apply Hk1, blob_key_ok).
  pose proof (pushed_trans _ _ _ _ Hr0 Hpu Hp1) as Hp01. destruct v as [e|[]]; [by split_and!; [auto|..]|..].
  { wp_step. split; [auto|]. split; [|done]. split; [done|..].
    - intros h Hh. rewrite Hsame, elem_of_app, list_elem_of_singleton, Hth by done. split; [tauto|]. intros [?|[?| ->]]; [auto..|]. by apply Hth, Hv.
    - simpl. intros Hrel. rewrite Hbl, missing_seen; [done|by apply Hth, Hv|done].
    - simpl. rewrite length_app. simpl. lia. }
  assert (∀ c, rget x sha = Some c → c = b) as Hno by (intros c Hc; by apply (pushed_blob W x0 x sha b c)).
  assert (reliable → rget x0 sha = None ∧ sha ∉ done) as Hnew.
  { intros Hrel. destruct Hv as [_ Hv]. change (false = false → reliable → rget x sha = None) in Hv. specialize (Hv eq_refl Hrel).
    split; [apply eq_None_not_Some|]; intros Hc; assert (is_Some (rget x sha)) as [? ?] by (apply Hth; auto); congruence. }
  wp_step. wp_step. destruct x1 as [w1 ρ1]. wp_step. pose proof (pu_ready _ _ _ Hp01) as [Ho1' Hwf1 Hst1]. simpl in *.
  assert (blob_of (w_fs w1) (r_cas r) sha = Some b) as Hb1 by by rewrite <- Hb, <- (lget_local x0 (w1, ρ1)) by (done || apply Hp01).
  apply wp_Get; [apply Hst1|done|..]; rewrite Hb1; [|intros e w2 _ _ Hn; by destruct (Hn Hq)].
  intros b' w2 Hfs2 Hz2 [= <-]. wp_step.
  assert (pushed W (w1, ρ1) (w2, ρ1)) as Hp2 by (apply pushed_same; [apply Hp01|done|done]).
  pose proof (pushed_trans _ _ _ _ Hr0 Hp01 Hp2) as Hp02. pose proof (pu_ready _ _ _ Hp02) as Hr2.
  assert (∀ k, key_ok k → objs (w2, ρ1) k = objs x k) as Hobj2.
  { intros k Hkk. rewrite <- Hk1 by done. apply same_files; [apply Hp01|done|done]. }
  wp_use (wp_put_new W sha b (w2, ρ1)); [done|done|intros c; unfold SyncFacts.rget; rewrite Hobj2 by done; apply Hno|unfold SyncFacts.lget; simpl; congruence|].
  intros v x3 (Hk3 & Hp3 & Hv3). pose proof (pushed_trans _ _ _ _ Hr0 Hp02 Hp3) as Hp03.
  assert (∀ k, key_ok k → k ≠ blobKey sha → objs x3 k = objs x k) as Hoth by (intros k Hkk Hne; by rewrite Hk3, Hobj2).
  destruct v as [e|[]]; [done|]. wp_step. split; [done|]. split; [|done]. split; [done|..].
  - intros h Hh. rewrite elem_of_app, list_elem_of_singleton. destruct (decide (h = sha)) as [->|Hne]; [rewrite Hv3; naive_solver|].
    assert (rget x3 h = rget x h) as ->.
    { unfold SyncFacts.rget. apply Hoth; [by apply blob_key_ok|by intros ?%blobKey_inj]. }
    rewrite Hth by done. tauto.
  - simpl. intros Hrel. destruct (Hnew Hrel). by rewrite Hbl, missing_new.
  - simpl. rewrite length_app. simpl. lia.
Qed.

Definition other_key (k : string) : Prop := ∀ sha, k ≠ blobKey sha.

Lemma wp_push_blobs W shas done st x0 x :
  quiet → ready x0 → sound x0 → progress W done x0 st x → all_here r x0 shas →
  wp (fold_m (pushBlob r) st shas) (λ v x', (∀ k, key_ok k → other_key k → objs x' k = objs x k) ∧
    match v with
    | inr st' => progress W (done ++ shas) x0 st' x' ∧ ps_Checkpoints st' = ps_Checkpoints st
    | inl _ => ¬ reliable ∧ pushed W x0 x'
    end) x.
Proof.
  intros Hq Hr0 Hso. revert done st x. induction shas as [|sha shas IH]; intros done st x Hpg Hall; simpl.
  { wp_step. rewrite app_nil_r. done. }
  destruct (Hall sha) as [Hd Hb]; [left|]. wp_step. wp_use wp_pushBlob; [done..|]. intros v x1 [Hk1 Hv].
  assert (∀ k, key_ok k → other_key k → objs x1 k = objs x k) as Hk1' by (intros k Hk Ho; by apply Hk1).
  destruct v as [e|st1]; [done|]. destruct Hv as [Hpg1 Hc1].
  wp_use IH; [exact Hpg1|intros h Hh; apply Hall; by right|]. intros v x2 [Hk2 Hv].
  split; [intros k Hk Ho; by rewrite Hk2, Hk1'|]. destruct v as [e|st2]; [done|].
  destruct Hv as [Hpg2 Hc2]. rewrite <- app_assoc in Hpg2. split; [done|congruence].
Qed.

(** Writing a document. *)
Lemma wp_put_doc W k b x :
  ready x → key_ok k → other_key k → k ∈ W →
  wp (store_Put k b) (λ v x', pushed W x x' ∧ (∀ sha, is_digest sha = true → rget x' sha = rget x sha) ∧
    (∀ k', key_ok k' → k' ≠ k → objs x' k' = objs x k') ∧
    match v with inr _ => objs x' k = Some b | inl _ => ¬ reliable end) x.
Proof.
  intros Hr Hk Ho HW. wp_use (spec_Put k b); [apply Hr|by eapply rw_fs, rd_repo|done|]. intros v x' (Ho' & Hl & Hk' & Hv).
  assert (∀ sha, is_digest sha = true → rget x' sha = rget x sha) as Hsame.
  { intros sha Hd. apply Hk'; [by apply blob_key_ok|]. intros He. by apply (Ho sha). }
  split_and!; [|done|auto|by destruct v; [destruct Hv|]].
  split; [by eapply ready_local|done|..]; intros; [by rewrite Hsame|left; by rewrite <- Hsame|].
  apply Hk'; [done|]. by intros ->.
Qed.

Lemma progress_doc W done x0 st st' x x' :
  ready x0 → progress W done x0 st x → pushed W x x' → (∀ sha, is_digest sha = true → rget x' sha = rget x sha) →
  ps_Blobs st' = ps_Blobs st → ps_BlobsSkipped st' = ps_BlobsSkipped st → progress W done x0 st' x'.
Proof.
  intros Hr0 [Hp Ht Hb Hn] Hp' Hs Hb' Hn'. split; [by eapply pushed_trans|..|intros Hrel; rewrite Hb'; auto|congruence].
  intros sha Hd. rewrite Hs by done. by apply Ht.
Qed.

Lemma wp_pushCheckpoint W c l done st x0 x :
  quiet → ready x0 → sound x0 → progress W done x0 st x → ck_named c → names (lget x0) c = Some l → all_here r x0 l →
  checkpointKey (c_ID c) ∈ W → key_ok (checkpointKey (c_ID c)) →
  wp (pushCheckpoint r st c) (λ v x',
    match v with
    | inr st' => progress W (done ++ l) x0 st' x' ∧ objs x' (checkpointKey (c_ID c)) = Some (json_Marshal c) ∧
        (∀ k, key_ok k → other_key k → k ≠ checkpointKey (c_ID c) → objs x' k = objs x k) ∧
        ps_Checkpoints st' = ps_Checkpoints st + 1
    | inl _ => ¬ reliable ∧ pushed W x0 x'
    end) x.
Proof.
  intros Hq Hr0 Hso Hpg Hn Hl Hall HW Hkey. pose proof (pg_pushed _ _ _ _ _ Hpg) as Hp. pose proof (pu_ready _ _ _ Hp) as Hr.
  assert (other_key (checkpointKey (c_ID c))) as Hok by (intros sha He; symmetry in He; by apply blob_not_checkpoint in He).
  destruct x as [w ρ]. unfold pushCheckpoint. wp_step. wp_step. wp_use wp_checkpoint_shas; [apply Hr|done|].
  assert (names (here_get r w) c = Some l) as Hl'.
  { eapply names_agree; [exact Hl|]. intros sha _. change (lget (w, ρ) sha = lget x0 sha). apply lget_local; [done|apply Hp]. }
  intros v w1 (Hfs & Hz & Hv). destruct v as [e|l1]; [by rewrite Hv in Hl'|]. rewrite Hv in Hl'. injection Hl' as ->.
  assert (progress W done x0 st (w1, ρ)) as Hpg1.
  { eapply progress_doc; [done|exact Hpg|by apply pushed_same| |done|done].
    intros sha Hd. by apply same_files; [..|apply blob_key_ok]. }
  wp_step. wp_use wp_push_blobs; [done|exact Hr0|done|exact Hpg1|done|]. intros v x2 [Hk2 Hv2]. destruct v as [e|st2]; [done|]. destruct Hv2 as [Hpg2 Hc2].
  wp_step. wp_use (wp_put_doc W (checkpointKey (c_ID c))); [apply Hpg2|done|done|done|].
  intros v x3 (Hp3 & Hs3 & Hk3 & Hv3). pose proof (progress_doc _ _ _ _ (count_checkpoint st2) _ _ Hr0 Hpg2 Hp3 Hs3 eq_refl eq_refl) as Hpg3.
  destruct v as [e|[]]; [split; [done|by apply Hpg3]|]. wp_step. split_and!; [done|done| |simpl; congruence].
  intros k Hk Ho Hne. rewrite Hk3, Hk2 by done. by apply same_files.
Qed.

(** ** Pushing a history *)

(** A checkpoint that can be pushed: its document is under its identifier and
    everything it names is here. *)
Record pushable x (c : Checkpoint) : Prop := {
  pb_doc : load (w_fs x.1) r "checkpoints" (c_ID c) = Some c;
  pb_named : ck_named c;
  pb_closed : closed_here r x c
}.

Definition history_names x (hist : list Checkpoint) : list string := concat (omap (names (lget x)) hist).
Definition doc_keys (s : Sandbox) (hist : list Checkpoint) : list string :=
  (checkpointKey ∘ c_ID <$> hist) ++ [sandboxKey (s_ID s)].

Lemma wp_push_history W hist x0 x :
  quiet → ready x0 → sound x0 → progress W [] x0 (mkPushStats 0 0 0) x → (∀ c, c ∈ hist → pushable x0 c) → (∀ c, c ∈ hist → checkpointKey (c_ID c) ∈ W) →
  (∀ c, c ∈ hist → key_ok (checkpointKey (c_ID c))) →
  wp (fold_m (pushCheckpoint r) (mkPushStats 0 0 0) hist) (λ v x',
    match v with
    | inr st => progress W (history_names x0 hist) x0 st x' ∧ ps_Checkpoints st = Z.of_nat (length hist) ∧
        ∀ c, c ∈ hist → objs x' (checkpointKey (c_ID c)) = Some (json_Marshal c)
    | inl _ => ¬ reliable ∧ pushed W x0 x'
    end) x.
Proof.
  intros Hq Hr0 Hso Hstart Hpb HW Hkeys.
  eapply (wp_fold_m _ _ _ (λ done st x1, progress W (history_names x0 done) x0 st x1 ∧ ps_Checkpoints st = Z.of_nat (length done) ∧
    ∀ c, c ∈ done → objs x1 (checkpointKey (c_ID c)) = Some (json_Marshal c))).
  - split_and!; [done|done|by intros ? ?%elem_of_nil].
  - intros done c todo st x1 -> (Hpg & Hn & Hdocs).
    assert (c ∈ done ++ c :: todo) as Hin by (apply elem_of_app; right; left).
    destruct (Hpb c Hin) as [Hdoc Hck (l & Hl & Hall)].
    wp_use (wp_pushCheckpoint W c l); [done|done|done|exact Hpg|done|done|done|by apply HW|by apply Hkeys|].
    intros v x2 Hv. destruct v as [e|st2]; [done|]. destruct Hv as (Hpg2 & Hd2 & Hk2 & Hc2). split_and!.
    + unfold history_names. rewrite omap_app, concat_app. simpl. rewrite Hl. simpl. by rewrite app_nil_r.
    + rewrite length_app, Hc2, Hn. simpl. lia.
    + intros c' [Hc'|Hc']%elem_of_app; [|by apply list_elem_of_singleton in Hc' as ->].
      assert (c' ∈ done ++ c :: todo) as Hin' by (apply elem_of_app; by left).
      destruct (decide (c_ID c' = c_ID c)) as [He|Hne].
      * pose proof (pb_doc _ _ (Hpb c' Hin')) as Hdoc'. rewrite He, Hdoc in Hdoc'. injection Hdoc' as <-. done.
      * rewrite Hk2; [by apply Hdocs|by apply Hkeys|..].
        -- intros sha He. symmetry in He. by apply blob_not_checkpoint in He.
        -- by intros ?%checkpointKey_inj.
  - by intros st x1 HI.
Qed.

(** The remote has the checkpoint whole, byte for byte as it is here. *)
Definition copied_there x0 x (c : Checkpoint) : Prop :=
  ∃ l, names (lget x0) c = Some l ∧ names (rget x) c = Some l ∧
    ∀ sha, sha ∈ l → ∃ b, rget x sha = Some b ∧ lget x0 sha = Some b ∧ hashOf b = sha.

Lemma copied_closed x0 x c : copied_there x0 x c → closed_there here x c.
Proof. intros (l & _ & Hl & Hb). exists l. split; [done|]. intros sha Hs. destruct (Hb sha Hs) as (b & ? & _ & ?). by exists b. Qed.

Lemma pushed_copied W x0 x c l :
  ready x0 → sound x0 → pushed W x0 x → names (lget x0) c = Some l → all_here r x0 l →
  (∀ sha, sha ∈ l → is_Some (rget x sha)) → copied_there x0 x c.
Proof.
  intros Hr0 Hs Hp Hl Hall Hth.
  assert (∀ sha, sha ∈ l → ∃ b, rget x sha = Some b ∧ lget x0 sha = Some b ∧ hashOf b = sha) as Hboth.
  { intros sha Hsha. destruct (Hall sha Hsha) as [Hd [b Hb]]. destruct (Hth sha Hsha) as [b' Hb'].
    assert (hashOf b = sha) as Hh by (eapply store_wf_blob; [apply Hr0|done|done]).
    exists b. split_and!; [|done|done]. rewrite Hb'. f_equal. by apply (pushed_blob W x0 x sha b b'). }
  exists l. split_and!; [done| |done].
  eapply names_agree; [exact Hl|]. intros sha Hsha. destruct (Hboth sha Hsha) as (b & -> & Hb & _). by rewrite Hb.
Qed.

(** The outcome of a push of [s] with history [hist]. *)
Definition push_post (s : Sandbox) (hist : list Checkpoint) x0 (v : gerr + PushStats) x : Prop :=
  pushed (doc_keys s hist) x0 x ∧
  match v with
  | inr st => (∀ c, c ∈ hist → objs x (checkpointKey (c_ID c)) = Some (json_Marshal c) ∧ copied_there x0 x c) ∧
      objs x (sandboxKey (s_ID s)) = Some (json_Marshal s) ∧
      ps_Checkpoints st = Z.of_nat (length hist) ∧
      (reliable → ps_Blobs st = missing x0 (history_names x0 hist)) ∧
      ps_Blobs st + ps_BlobsSkipped st = Z.of_nat (length (history_names x0 hist))
  | inl _ => ¬ reliable
  end.

Lemma history_names_in x hist c l : c ∈ hist → names (lget x) c = Some l → ∀ sha, sha ∈ l → sha ∈ history_names x hist.
Proof.
  intros Hc Hl sha Hs. unfold history_names. apply list_elem_of_In, in_concat. exists l. rewrite <- !list_elem_of_In. split; [|done].
  apply list_elem_of_omap. eauto.
Qed.

Lemma wp_Push sid s hist x0 :
  quiet → ready x0 → sound x0 → good_id sid → good_id (s_ID s) → good_id (s_Head s) →
  sandbox_named (w_fs x0.1) r sid = Some s → sandbox_named (w_fs x0.1) r (s_ID s) = Some s →
  chain (w_fs x0.1) r (s_Head s) hist → (∀ c, c ∈ hist → pushable x0 c) →
  key_ok (sandboxKey (s_ID s)) → (∀ c, c ∈ hist → key_ok (checkpointKey (c_ID c))) →
  wp (Push r sid) (push_post s hist x0) x0.
Proof.
  intros Hq Hr0 Hs Hid Hsid Hhd Hn Hn' Hch Hpb Hskey Hkeys. destruct x0 as [w ρ]. simpl in *. set (W := doc_keys s hist).
  unfold Push. wp_step. wp_step. wp_use wp_GetSandbox; [done|apply Hr0|done|]. rewrite Hn.
  intros [e|s'] w1 (Hfs1 & Hz1 & Hv); [done|]. injection Hv as <-.
  wp_step. wp_step. wp_use (wp_History r (s_ID s) s hist); [done|rewrite Hfs1; apply Hr0|done|by rewrite Hfs1|by rewrite Hfs1|].
  intros v w2 (Hfs2 & Hz2 & ->). rewrite Hfs1 in Hfs2. rewrite Hz1 in Hz2.
  assert (progress W [] (w, ρ) (mkPushStats 0 0 0) (w2, ρ)) as Hstart.
  { split; [by apply pushed_same| |done|done]. intros sha Hd. split.
    - intros Hsome. left. unfold SyncFacts.rget in *. by rewrite (same_files w w2) in Hsome by (done || by apply blob_key_ok).
    - intros [Hsome|?%elem_of_nil]; [|done]. unfold SyncFacts.rget in *. by rewrite (same_files w w2) by (done || by apply blob_key_ok). }
  wp_step. wp_use (wp_push_history W hist (w, ρ)); [done|done|done|done|done| |done|].
  { intros c Hc. apply elem_of_app. left. by apply (list_elem_of_fmap_2 (checkpointKey ∘ c_ID)). }
  intros v x3 Hv. destruct v as [e|st]; [by split; [apply Hv|apply Hv]|]. destruct Hv as (Hpg & Hck & Hdocs).
  pose proof (pg_pushed _ _ _ _ _ Hpg) as Hp3.
  wp_step. wp_use (wp_put_doc W (sandboxKey (s_ID s)) (json_Marshal s)); [apply Hp3|done| | |].
  { intros sha He. symmetry in He. by apply blob_not_sandbox in He. }
  { apply elem_of_app. right; left. }
  intros v x4 (Hp4 & Hs4 & Hk4 & Hv4). pose proof (pushed_trans _ _ _ _ Hr0 Hp3 Hp4) as Hp04.
  destruct v as [e|[]]; [by split|]. wp_step. split; [done|]. split_and!; [|done|done|apply Hpg|apply Hpg].
  intros c Hc. destruct (Hpb c Hc) as [_ Hckn (l & Hl & Hall)]. split.
  - rewrite Hk4; [by apply Hdocs|by apply Hkeys|apply checkpoint_not_sandbox].
  - eapply pushed_copied; [exact Hr0|done|exact Hp04|exact Hl|done|]. intros sha Hsha. destruct (Hall sha Hsha) as [Hd _].
    rewrite Hs4 by done. apply (pg_there _ _ _ _ _ Hpg); [done|]. right. by eapply history_names_in.
Qed.

End specs.
