(* ===== verification/StoreFacts.v ===== *)
(** * A store is a map

    What a client sees of an object store that keeps [StoreSpec] and whose calls
    do not fail: every sequence of [Put], [Get] and [Has] is answered as a map
    from keys to bytes answers it. *)

From S2P Require Import Prelude Sha256 Os OsFacts Remote Sync SyncFacts.
Import Remote Sync.
Open Scope Z_scope.

(** Calls of a client, and what it sees of them. *)
Inductive store_op := OpPut (k : string) (b : bytes) | OpGet (k : string) | OpHas (k : string).
Inductive store_out := Stored | Found (o : option bytes) | Present (h : bool).

Definition op_key (o : store_op) : string := match o with OpPut k _ | OpGet k | OpHas k => k end.

(** The calls on a map. *)
Definition map_op (m : string → option bytes) (o : store_op) : store_out * (string → option bytes) :=
  match o with
  | OpPut k b => (Stored, λ k', if decide (k' = k) then Some b else m k')
  | OpGet k => (Found (m k), m)
  | OpHas k => (Present (bool_decide (is_Some (m k))), m)
  end.
Fixpoint map_ops (m : string → option bytes) (os : list store_op) : list store_out :=
  match os with [] => [] | o :: os' => let '(out, m') := map_op m o in out :: map_ops m' os' end.

Section store.
Context `{OsEnv} {R : Type} `{ObjectStore R}.

(** The calls on the store; only "not found" is an answer. *)
Definition do_op (o : store_op) : M (world * R) store_out :=
  match o with
  | OpPut k b => store_Put k b;; mret Stored
  | OpGet k => r ← attempt (store_Get k);
      match r with
      | inr b => mret (Found (Some b))
      | inl e => if decide (e = ErrObjectNotFound) then mret (Found None) else throw e
      end
  | OpHas k => h ← store_Has k; mret (Present h)
  end.
Definition store_ops (os : list store_op) : M (world * R) (list store_out) :=
  fold_m (λ outs o, out ← do_op o; mret (outs ++ [out])) [] os.

(** Calls answered one by one as a map answers them are answered so in sequence. *)
Lemma wp_ops_refine (St : (string → option bytes) → world * R → Prop) (K : string → Prop) os m x :
  (∀ m o x, St m x → K (op_key o) → wp (do_op o) (λ v x', v = inr (map_op m o).1 ∧ St (map_op m o).2 x') x) →
  St m x → (∀ o, o ∈ os → K (op_key o)) → wp (store_ops os) (λ v x', v = inr (map_ops m os) ∧ ∃ m', St m' x') x.
Proof.
  intros Hop Hm Hk. unfold store_ops.
  cut (∀ outs, wp (fold_m (λ outs o, out ← do_op o; mret (outs ++ [out])) outs os) (λ v x', v = inr (outs ++ map_ops m os) ∧ ∃ m', St m' x') x); [auto|].
  revert m x Hm. induction os as [|o os IH]; intros m x Hm outs; simpl; [wp_step; rewrite app_nil_r; eauto|].
  wp_step. wp_step. wp_use Hop; [done|apply Hk; left|]. intros v x1 [-> Hm1]. wp_step.
  destruct (map_op m o) as [out m'] eqn:E. simpl in *. wp_use IH; [intros o' Ho'; apply Hk; by right|exact Hm1|].
  intros v x2 [-> Hx]. by rewrite <- app_assoc.
Qed.

Context (here : path → Prop) `{!StoreSpec R here}.

(** The store stands for the map. *)
Definition stands_for (m : string → option bytes) (x : world * R) : Prop :=
  objs_ok x ∧ fs_wf (w_fs x.1) ∧ ∀ k, key_ok k → objs x k = m k.

Lemma wp_do_op m o x :
  reliable → stands_for m x → key_ok (op_key o) →
  wp (do_op o) (λ v x', v = inr (map_op m o).1 ∧ stands_for (map_op m o).2 x') x.
Proof.
  intros Hrel (Hok & Hfs & Hm) Hk. destruct o as [k b|k|k]; simpl in *; wp_step.
  - wp_use (spec_Put k b); [done..|]. intros [e|[]] x' (Ho & Hl & Hoth & Hv); [by destruct Hv|]. wp_step.
    split; [done|]. split_and!; [done|by apply Hl|]. intros k' Hk'. simpl. case_decide; [by subst|]. by rewrite Hoth, Hm.
  - wp_step. wp_use (spec_Get k); [done..|]. rewrite Hm by done. intros [e|b] x' (Ho & Hl & Hsame & Hv).
    + destruct (Hv Hrel) as [-> ->]. rewrite decide_True by done. wp_step. split; [done|]. split_and!; [done|by apply Hl|].
      intros k' Hk'. by rewrite Hsame, Hm.
    + rewrite Hv. wp_step. split; [done|]. split_and!; [done|by apply Hl|]. intros k' Hk'. by rewrite Hsame, Hm.
  - wp_use (spec_Has k); [done..|]. rewrite Hm by done. intros [e|h] x' (Ho & Hl & Hsame & Hv); [done|]. wp_step.
    split; [|split_and!; [done|by apply Hl|]; intros k' Hk'; by rewrite Hsame, Hm].
    destruct Hv as [Ht Hfa]. do 2 f_equal. destruct h; symmetry; [apply bool_decide_eq_true_2; auto|].
    apply bool_decide_eq_false_2. rewrite Hfa by done. by intros [? ?].
Qed.

Lemma wp_store_ops os m x :
  reliable → stands_for m x → (∀ o, o ∈ os → key_ok (op_key o)) → wp (store_ops os) (λ v _, v = inr (map_ops m os)) x.
Proof.
  intros Hrel Hm Hk. eapply wp_mono; [apply (wp_ops_refine stands_for key_ok); [intros; by apply wp_do_op|done|done]|]. by intros v x' [-> _].
Qed.

End store.
