(* ===== verification/S3Props.v ===== *)
(** * What the S3 store promises *)

From S2P Require Import Prelude Sha256 GoTime Os OsFacts Cas Repo RepoFacts Remote Sync SyncFacts StoreFacts S3Facts.
Import Cas Repo Remote Sync.
Open Scope Z_scope.

Section props.
Context (url_Parse url_target : string → option (string * string)) (xml_Unmarshal : bytes → option listResult).
Context `{OsEnv, !UrlSpec url_Parse url_target}.

(** The endpoint [NewS3] uses. *)
Definition endpoint_of (cfg : S3Config) : string :=
  if decide (cfg_Endpoint cfg = "")
  then "https://s3." +:+ (if decide (cfg_Region cfg = "") then "us-east-1" else cfg_Region cfg) +:+ ".amazonaws.com"
  else cfg_Endpoint cfg.

(** A bucket with virtual-hosted addressing whose names stand for themselves in
    a URL. *)
Record plain_config (cfg : S3Config) (scheme h : string) : Prop := {
  pc_style : cfg_PathStyle cfg = false;
  pc_bucket : cfg_Bucket cfg ≠ "" ∧ all_chars unreserved (cfg_Bucket cfg) = true;
  pc_endpoint : url_Parse (endpoint_of cfg) = Some (scheme, h);
  pc_host : plain_scheme scheme = true ∧ plain_host h = true;
  pc_prefix : plain_text (cfg_Prefix cfg) = true
}.

Lemma NewS3_hosted cfg scheme h :
  plain_config cfg scheme h → ∃ s, NewS3 url_Parse cfg = inr s ∧ hosted s scheme (cfg_Bucket cfg +:+ "." +:+ h).
Proof.
  intros [Hps [Hb Hbp] He [Hsc Hh] Hpre]. unfold NewS3. rewrite decide_False by done. fold (endpoint_of cfg). rewrite He, Hps.
  eexists. split; [reflexivity|]. split; simpl; [done|done|done| |done]. split; [done|].
  unfold plain_host in *. apply andb_true_iff in Hh as [_ Hh]. rewrite !all_chars_app, Hbp, Hh, andb_true_r.
  rewrite bool_decide_false; [done|]. intros Hemp. apply (f_equal String.length) in Hemp. rewrite !string_length_app in Hemp. simpl in Hemp. lia.
Qed.

(** C29 (s3_store_refines): a store [NewS3] makes for a bucket with
    virtual-hosted addressing, on a service that keeps the promises of S3 for
    requests with a correct signature and is up, answers every sequence of
    [Put], [Get] and [Has] as a map from keys to bytes does. *)
Theorem s3_store_refines {R} (http_Do : request → M (world * R) response) cfg scheme h s (fuel : nat) os m (x : world * R)
    {svc : S3Service url_Parse url_target http_Do (client_creds s) (cfg_Bucket cfg +:+ "." +:+ h)} :
  plain_config cfg scheme h → NewS3 url_Parse cfg = inr s → up svc → fs_wf (w_fs x.1) →
  (∀ k, plain_text k = true → bucket svc x.2 ("/" +:+ s3_key s k) = m k) → (∀ o, o ∈ os → plain_text (op_key o) = true) →
  ∃ x', store_ops (H0 := S3Store url_Parse xml_Unmarshal http_Do fuel s) os x = (Ok (map_ops m os), x').
Proof.
  intros Hcfg Hnew Hup Hfs Hm Hk. destruct (NewS3_hosted cfg scheme h Hcfg) as (s' & Hs' & Hho).
  rewrite Hnew in Hs'. injection Hs' as <-.
  destruct (wp_exists _ _ _ (wp_store_ops (H0 := S3Store url_Parse xml_Unmarshal http_Do fuel s)
    (StoreSpec0 := s3_spec url_Parse url_target xml_Unmarshal s scheme _ http_Do Hho fuel) (λ _, True) os m x Hup (conj I (conj Hfs Hm)) Hk))
    as (v & x' & Hrun & ->). by exists x'.
Qed.

End props.

(** ** A service that checks signatures *)

Fixpoint cut_at (c : ascii) (s : string) : string * string :=
  match s with
  | "" => ("", "")
  | String a s' => if decide (a = c) then ("", s) else let '(x, y) := cut_at c s' in (String a x, y)
  end.

Definition strip_scheme (u : string) : option (string * string) :=
  if has_prefix "https://" u then Some ("https", trim_prefix "https://" u)
  else if has_prefix "http://" u then Some ("http", trim_prefix "http://" u) else None.
Definition url_Parse0 (u : string) : option (string * string) :=
  sr ← strip_scheme u; Some (sr.1, (cut_at slash sr.2).1).
Definition url_target0 (u : string) : option (string * string) :=
  sr ← strip_scheme u; let '(p, q) := cut_at (Ascii.ascii_of_byte x3f) (cut_at slash sr.2).2 in Some (p, trim_prefix "?" q).

Lemma cut_here c s t : has_char c s = false → cut_at c (s +:+ String c t) = (s, String c t).
Proof.
  induction s as [|a s IH]; [intros _|intros [Ha Hs]%orb_false_iff].
  - change ("" +:+ String c t) with (String c t). cbn [cut_at]. by rewrite decide_True.
  - change (String a s +:+ String c t) with (String a (s +:+ String c t)). cbn [cut_at]. apply bool_decide_eq_false in Ha.
    rewrite decide_False by done. by rewrite IH.
Qed.

Lemma cut_none c s : has_char c s = false → cut_at c s = (s, "").
Proof.
  induction s as [|a s IH]; [done|]. intros [Ha Hs]%orb_false_iff. cbn [cut_at]. apply bool_decide_eq_false in Ha.
  rewrite decide_False by done. by rewrite IH.
Qed.

Lemma all_chars_no f c s : f (Ascii.byte_of_ascii c) = false → all_chars f s = true → has_char c s = false.
Proof.
  intros Hc. induction s as [|a s IH]; [done|]. cbn [all_chars has_char]. intros [Ha Hs]%andb_true_iff. rewrite IH by done.
  rewrite orb_false_r. apply bool_decide_eq_false. intros ->. by rewrite Hc in Ha.
Qed.

Lemma trim_prefix_app p s : trim_prefix p (p +:+ s) = s.
Proof.
  unfold trim_prefix. rewrite has_prefix_app, string_length_app.
  replace (String.length p + String.length s - String.length p)%nat with (String.length s) by lia.
  induction p as [|a p IH]; [apply substring_all|]. exact IH.
Qed.

#[local] Instance url0 : UrlSpec url_Parse0 url_target0.
Proof.
  split. intros scheme host p Hs Hh Hp. cbn zeta. apply bool_decide_eq_true in Hs.
  assert (strip_scheme (scheme +:+ "://" +:+ host +:+ "/" +:+ p) = Some (scheme, host +:+ String slash p)) as Hst.
  { unfold strip_scheme. set (rest := host +:+ String slash p). destruct Hs as [-> | ->].
    - change ("http" +:+ "://" +:+ host +:+ "/" +:+ p) with ("http://" +:+ rest).
      assert (has_prefix "https://" ("http://" +:+ rest) = false) as -> by reflexivity. by rewrite has_prefix_app, trim_prefix_app.
    - change ("https" +:+ "://" +:+ host +:+ "/" +:+ p) with ("https://" +:+ rest). by rewrite has_prefix_app, trim_prefix_app. }
  unfold plain_host in Hh. apply andb_true_iff in Hh as [_ Hh].
  assert (has_char slash host = false) as Hns by (eapply all_chars_no; [|exact Hh]; reflexivity).
  unfold url_Parse0, url_target0. rewrite Hst. cbn [mbind option_bind fst snd]. rewrite cut_here by done. split; [done|]. cbn [snd].
  rewrite cut_none; [done|]. eapply (all_chars_no plain_char); [reflexivity|]. exact Hp.
Qed.

Section service.
Context (k : creds) (host : string).

Definition authentic (h p q : string) (rq : request) : bool :=
  match header "X-Amz-Date" (rq_Headers rq) with
  | None => false
  | Some date =>
      bool_decide (h = host) &&
      bool_decide (header "X-Amz-Content-Sha256" (rq_Headers rq) = Some (hashOf (rq_Body rq))) &&
      bool_decide (header "Authorization" (rq_Headers rq) =
        Some (sigv4 k (rq_Method rq) p q h date (hashOf (rq_Body rq))))
  end.

(** The objects by path. *)
Definition s3_service (rq : request) : M (world * gmap string bytes) response := λ x,
  match url_Parse0 (rq_URL rq), url_target0 (rq_URL rq) with
  | Some (_, h), Some (p, q) =>
      if authentic h p q rq then
        if decide (rq_Method rq = "PUT") then (Ok (mkResponse 200 "200 OK" (Some [])), (x.1, <[p := rq_Body rq]> x.2))
        else match x.2 !! p with
             | Some b => (Ok (mkResponse 200 "200 OK" (Some (if decide (rq_Method rq = "GET") then b else []))), x)
             | None => (Ok (mkResponse 404 "404 Not Found" (Some [])), x)
             end
      else (Ok (mkResponse 403 "403 Forbidden" (Some [])), x)
  | _, _ => (Ok (mkResponse 400 "400 Bad Request" (Some [])), x)
  end.

Lemma s3_service_asked method p rq x :
  asks url_Parse0 url_target0 k host method p rq →
  s3_service rq x = if decide (method = "PUT") then (Ok (mkResponse 200 "200 OK" (Some [])), (x.1, <[p := rq_Body rq]> x.2))
        else match x.2 !! p with
             | Some b => (Ok (mkResponse 200 "200 OK" (Some (if decide (method = "GET") then b else []))), x)
             | None => (Ok (mkResponse 404 "404 Not Found" (Some [])), x)
             end.
Proof.
  intros (Hm & Hh & Ht & date & Hd & Hs & Ha). unfold s3_service. destruct (url_Parse0 (rq_URL rq)) as [[sc h]|]; [|discriminate Hh].
  apply (inj Some) in Hh. simpl in Hh. subst h. rewrite Ht. unfold authentic. rewrite Hm, Hd, Hs, Ha.
  rewrite !bool_decide_true by done. reflexivity.
Qed.

#[refine] Instance s3_service_spec : S3Service url_Parse0 url_target0 s3_service k host := {|
  bucket := λ ρ p, ρ !! p;
  up := True
|}.
Proof.
  - intros rq p [w ρ] Hrq. unfold wp. rewrite (s3_service_asked _ _ _ _ Hrq). rewrite decide_True by done. cbn [fst snd].
    split; [done|]. split; [intros p' Hne; by apply lookup_insert_ne|]. rewrite lookup_insert_eq. split; [|by right].
    split; [done|]. intros []. reflexivity.
  - intros rq p [w ρ] Hrq. unfold wp. rewrite (s3_service_asked _ _ _ _ Hrq). rewrite decide_False by done. cbn [fst snd].
    destruct (ρ !! p) as [b|] eqn:E; (split; [done|]; split; [done|]).
    + rewrite decide_True by done. split; [by intros _ b' [= <-]|]. intros _. left. split; [reflexivity|]. by eexists.
    + split; [intros Hs; discriminate Hs|]. intros _. right. by split.
  - intros rq p [w ρ] Hrq. unfold wp. rewrite (s3_service_asked _ _ _ _ Hrq). rewrite decide_False by done. cbn [fst snd].
    destruct (ρ !! p) as [b|] eqn:E; (split; [done|]; split; [done|]).
    + split; [by intros _; eexists|]. intros _. by left.
    + split; [intros Hs; discriminate Hs|]. intros _. right. by split.
Defined.

End service.

#[local] Existing Instance calm.

Definition no_xml (b : bytes) : option listResult := None.
Definition aws : S3Config := mkS3Config "" "" "box" "team/" "AKIA" "secret" false.
Definition aws_s3 : S3 :=
  mkS3 (mkS3Config "https://s3.us-east-1.amazonaws.com" "us-east-1" "box" "team/" "AKIA" "secret" false)
    "box.s3.us-east-1.amazonaws.com" "https://box.s3.us-east-1.amazonaws.com".
Definition aws_do := s3_service (client_creds aws_s3) "box.s3.us-east-1.amazonaws.com".
Definition aws_state : world * gmap string bytes := (World fs_root 0 ∅, ∅).
Definition aws_ops : list store_op := [OpHas "blobs/a"; OpPut "blobs/a" [x61]; OpGet "blobs/a"; OpGet "blobs/b"].

(** C29 at a service that checks the signature of every request. *)
Lemma s3_store_refines_witness :
  ∃ x', store_ops (H0 := S3Store url_Parse0 no_xml aws_do 1 aws_s3) aws_ops aws_state =
    (Ok [Present false; Stored; Found (Some [x61]); Found None], x').
Proof.
  change [Present false; Stored; Found (Some [x61]); Found None] with (map_ops (λ _, None) aws_ops).
  apply (s3_store_refines url_Parse0 url_target0 no_xml aws_do aws "https" "s3.us-east-1.amazonaws.com" aws_s3 1 aws_ops (λ _, None) aws_state
    (svc := s3_service_spec (client_creds aws_s3) "box.s3.us-east-1.amazonaws.com")).
  - split; [reflexivity|split; [discriminate|reflexivity]|reflexivity|split; reflexivity|reflexivity].
  - reflexivity.
  - exact I.
  - apply fs_root_wf.
  - intros k0 _. apply lookup_empty.
  - intros o. unfold aws_ops. rewrite !elem_of_cons, elem_of_nil. by intros [->|[->|[->|[->|[]]]]].
Defined.

(** With path-style addressing the same service refuses every object: the
    request goes to /bucket/key and the signature is of /key. *)
Definition minio_s3 : S3 :=
  mkS3 (mkS3Config "http://minio" "us-east-1" "box" "" "AKIA" "secret" true) "minio" "http://minio/box".

Lemma path_style_refused :
  NewS3 url_Parse0 (mkS3Config "http://minio" "" "box" "" "AKIA" "secret" true) = inr minio_s3 ∧
  (s3_Put url_Parse0 (s3_service (client_creds minio_s3) "minio") minio_s3 "blobs/a" [x61] aws_state).1 =
    Err (Errorf "put blobs/a: 403 Forbidden: ").
Proof. split; [reflexivity|]. vm_compute. reflexivity. Qed.
