(* ===== verification/DirFacts.v ===== *)
(** * A directory as an object store

    [DirStore] keeps each object in a file of its own, written beside its place
    and renamed into it.  It is an instance of [StoreSpec]: the objects are a
    map, a write that fails changes none of them, and no file outside the
    store's directory moves. *)

From S2P Require Import Prelude Sha256 Os OsFacts Cas Repo RepoFacts Backend Engine Remote Sync SyncFacts PullFacts StoreFacts.
Import Cas Repo Remote Sync.
Open Scope Z_scope.

(** ** Keys *)

Definition store_dirs : list string := ["blobs"; "checkpoints"; "sandboxes"].

Definition not_tmp (n : string) : Prop := ∀ m, n ≠ m +:+ ".tmp".

(** A key of the program: a known directory and a file name in it. *)
Definition store_key (d n k : string) : Prop :=
  d ∈ store_dirs ∧ has_char slash n = false ∧ good_name n ∧ not_tmp n ∧ k = d +:+ "/" +:+ n.

Lemma store_dir_name d : d ∈ store_dirs → has_char slash d = false ∧ good_name d.
Proof. unfold store_dirs. rewrite !elem_of_cons, elem_of_nil. intros [->|[->|[->|[]]]]; by repeat split. Qed.

Definition dot : ascii := Ascii.ascii_of_byte x2e.

Lemma all_hex_no_dot s : all_hex s = true → has_char dot s = false.
Proof.
  induction s as [|c s IH]; [done|]. unfold all_hex. simpl. intros [Hc Hs]%andb_true_iff. rewrite IH by done.
  rewrite orb_false_r. apply bool_decide_eq_false. intros ->. by vm_compute in Hc.
Qed.

Lemma digest_not_tmp h : is_digest h = true → not_tmp h.
Proof.
  intros [_ Hx]%andb_true_iff m ->. apply all_hex_no_dot in Hx. rewrite has_char_app in Hx.
  apply orb_false_iff in Hx as [_ Hx]. by vm_compute in Hx.
Qed.

Fixpoint last_char (s : string) : option ascii :=
  match s with "" => None | String a "" => Some a | String _ s' => last_char s' end.
Lemma last_char_app s t : t ≠ "" → last_char (s +:+ t) = last_char t.
Proof.
  intros Ht. induction s as [|a s IH]; [done|]. change (String a s +:+ t) with (String a (s +:+ t)). simpl.
  destruct (s +:+ t) eqn:E; [|done]. destruct s; [by subst|done].
Qed.

Lemma json_not_tmp id : not_tmp (id +:+ ".json").
Proof. intros m He%(f_equal last_char). by rewrite !last_char_app in He. Qed.

Lemma digest_key sha : is_digest sha = true → store_key "blobs" sha (blobKey sha).
Proof.
  intros Hd. pose proof Hd as [Hl Hx]%andb_true_iff. apply bool_decide_eq_true in Hl.
  destruct (all_hex_name sha Hx) as [Hs Hg]; [by intros ->|]. split_and!; [left|done|apply Hg..|by apply digest_not_tmp|done].
Qed.

Lemma json_key d id : d ∈ store_dirs → good_id id → store_key d (id +:+ ".json") (d +:+ "/" +:+ id +:+ ".json").
Proof.
  intros Hd Hid. destruct (json_name_good id Hid) as [Hs Hg]. split_and!; [done|done|apply Hg..|apply json_not_tmp|done].
Qed.

(** ** The store's files *)

Section dir.
Context `{OsEnv} (sroot : path).

Definition object_file (d n : string) : path := (sroot ++ [d]) ++ [n].

Lemma key_path_file d n k : store_key d n k → key_path sroot k = object_file d n.
Proof.
  intros (Hd & Hs & Hg & _ & ->). unfold key_path, join, object_file. destruct (store_dir_name d Hd) as [Hsd Hgd].
  change (d +:+ "/" +:+ n) with (d +:+ String slash n). rewrite split_on_app_sep, split_on_no_sep by done.
  rewrite clean_onto_good by (repeat constructor; apply Hg || apply Hgd). by rewrite <- app_assoc.
Qed.

Lemma object_file_inj d n d' n' : object_file d n = object_file d' n' → d = d' ∧ n = n'.
Proof. unfold object_file. intros [[_ ->]%app_inj_tail ->]%app_inj_tail. done. Qed.

(** A directory that holds a store. *)
Record dir_ok (σ : fs) : Prop := {
  do_root : is_dir σ sroot;
  do_dirs : ∀ d n, d ∈ store_dirs → σ !! (sroot ++ [d]) = Some n → ∃ m, n = NDir m;
  do_files : ∀ d c n, d ∈ store_dirs → σ !! object_file d c = Some n → ∃ f, n = NFile f
}.

Definition object_at (σ : fs) (p : path) : option bytes :=
  match σ !! p with Some (NFile f) => Some (contents f) | _ => None end.
Definition dir_objs (x : world * unit) (k : string) : option bytes := object_at (w_fs x.1) (key_path sroot k).
Definition dir_key (k : string) : Prop := ∃ d n, store_key d n k.
Definition apart (q : path) : Prop := ¬ below sroot q.

Lemma below_object d n : below sroot (object_file d n).
Proof. unfold object_file. rewrite <- app_assoc. by eexists. Qed.

(** Writing one file of the store. *)
Lemma dir_ok_file σ d n f :
  fs_wf σ → dir_ok σ → d ∈ store_dirs → is_dir σ (sroot ++ [d]) → good_name n →
  fs_wf (<[object_file d n := NFile f]> σ) ∧ dir_ok (<[object_file d n := NFile f]> σ).
Proof.
  intros Hfs [[mr Hr] Hd Hf] Hin Hdir Hn.
  assert (length (object_file d n) = S (S (length sroot))) as Hlen by (unfold object_file; rewrite !length_app; simpl; lia).
  split; [apply fs_wf_insert; [done|done|done|]|split].
  - intros [m Hm]. destruct (Hf d n (NDir m) Hin Hm) as [? ?]. done.
  - exists mr. rewrite lookup_insert_ne; [done|]. intros He. rewrite He in Hlen. lia.
  - intros d' n' Hd'. rewrite lookup_insert_ne; [by apply Hd|]. intros He. rewrite He, length_app in Hlen. simpl in Hlen. lia.
  - intros d' c n' Hd'. rewrite lookup_insert. case_decide; [intros [= <-]; eauto|by apply Hf].
Qed.

Lemma dir_ok_mkdir σ d m :
  fs_wf σ → dir_ok σ → d ∈ store_dirs → σ !! (sroot ++ [d]) = None →
  fs_wf (<[sroot ++ [d] := NDir m]> σ) ∧ dir_ok (<[sroot ++ [d] := NDir m]> σ).
Proof.
  intros Hfs [[mr Hr] Hd Hf] Hin Hn. split; [apply fs_wf_insert; [done|by exists mr|by apply store_dir_name|done]|split].
  - exists mr. rewrite lookup_insert_ne; [done|]. intros He%(f_equal length). rewrite length_app in He. simpl in He. lia.
  - intros d' n' Hd'. rewrite lookup_insert. case_decide; [intros [= <-]; eauto|by apply Hd].
  - intros d' c n' Hd'. rewrite lookup_insert_ne; [by apply Hf|]. unfold object_file.
    intros He%(f_equal length). rewrite !length_app in He. simpl in He. lia.
Qed.

Lemma tmp_name_good n : good_name n → good_name (n +:+ ".tmp").
Proof.
  intros _. assert (String.length (n +:+ ".tmp") = (String.length n + 4)%nat) as Hl by apply string_length_app.
  split_and!; intros He; rewrite He in Hl; simpl in Hl; lia.
Qed.

Lemma with_tmp_file d n : with_tmp (object_file d n) = object_file d (n +:+ ".tmp").
Proof. unfold with_tmp, object_file, dir_of, base_of. by rewrite removelast_snoc, last_snoc. Qed.

(** The directory is there, or is made. *)
Lemma wp_object_dir d w :
  fs_wf (w_fs w) → dir_ok (w_fs w) → d ∈ store_dirs →
  wp (os_MkdirAll (sroot ++ [d]) o755) (λ v w', w_zero w' = w_zero w ∧ fs_wf (w_fs w') ∧ dir_ok (w_fs w') ∧
    (∀ q, q ≠ sroot ++ [d] → w_fs w' !! q = w_fs w !! q) ∧
    match v with inl _ => ¬ quiet | inr _ => is_dir (w_fs w') (sroot ++ [d]) end) w.
Proof.
  intros Hfs Hok Hd. destruct (w_fs w !! (sroot ++ [d])) as [n|] eqn:E.
  - destruct (do_dirs _ Hok d n Hd E) as [m ->].
    wp_use wp_MkdirAll_dir; [done|by exists m|]. intros v w' (Hf & Hz & Hv). rewrite Hf. split_and!; try done.
    destruct v as [[]|]; try done. by exists m.
  - wp_use wp_MkdirAll_child; [done|apply Hok|by apply store_dir_name|done|]. intros v w' [Hz Hv].
    destruct v as [[]|]; try done.
    + destruct Hv as [? ->]. by split_and!.
    + rewrite Hv. destruct (dir_ok_mkdir _ _ (perm o755) Hfs Hok Hd E). split_and!; try done.
      * intros q Hq. by apply lookup_insert_ne.
      * eexists. by rewrite lookup_insert_eq.
Qed.

Lemma dir_ok_delete σ d n f :
  fs_wf σ → dir_ok σ → σ !! object_file d n = Some (NFile f) →
  fs_wf (delete (object_file d n) σ) ∧ dir_ok (delete (object_file d n) σ).
Proof.
  intros Hfs [[mr Hr] Hd Hf] Hn.
  assert (length (object_file d n) = S (S (length sroot))) as Hlen by (unfold object_file; rewrite !length_app; simpl; lia).
  split; [apply fs_wf_delete; [done|by intros He; rewrite He in Hlen|]|split].
  - intros c. apply eq_None_not_Some. intros Hc. apply Hfs in Hc as [[m Hm] _]. congruence.
  - exists mr. rewrite lookup_delete_ne; [done|]. intros He. rewrite He in Hlen. lia.
  - intros d' n' Hd' [_ Hl]%lookup_delete_Some. by apply (Hd d').
  - intros d' c n' Hd' [_ Hl]%lookup_delete_Some. by apply (Hf d' c).
Qed.

(** ** The operations *)

(** What writing object [n] of [d] may touch. *)
Definition touches (d n : string) (σ σ' : fs) : Prop :=
  ∀ q, q ≠ sroot ++ [d] → q ≠ object_file d n → q ≠ object_file d (n +:+ ".tmp") → σ' !! q = σ !! q.

Lemma object_not_dir d n d' : object_file d n ≠ sroot ++ [d'].
Proof. unfold object_file. intros He%(f_equal length). rewrite !length_app in He. simpl in He. lia. Qed.

(** The object is written beside its place. *)
Lemma wp_dir_stage d n b w :
  fs_wf (w_fs w) → dir_ok (w_fs w) → d ∈ store_dirs → good_name n → not_tmp n →
  wp (os_MkdirAll (sroot ++ [d]) o755;; os_WriteFile (object_file d (n +:+ ".tmp")) b o644) (λ v w',
    w_zero w' = w_zero w ∧ fs_wf (w_fs w') ∧ dir_ok (w_fs w') ∧ touches d n (w_fs w) (w_fs w') ∧
    w_fs w' !! object_file d n = w_fs w !! object_file d n ∧
    match v with
    | inl _ => ¬ quiet
    | inr _ => is_dir (w_fs w') (sroot ++ [d]) ∧ ∃ f, w_fs w' !! object_file d (n +:+ ".tmp") = Some (NFile f) ∧ contents f = b
    end) w.
Proof.
  intros Hfs Hok Hd Hg Ht. set (tmp := n +:+ ".tmp"). pose proof (tmp_name_good n Hg) as Hgt.
  assert (object_file d n ≠ object_file d tmp) as Hne by (intros [_ He]%object_file_inj; by apply (Ht n)).
  pose proof (object_not_dir d n d) as Hnd.
  wp_step. wp_use wp_object_dir; [done..|]. intros v w1 (Hz1 & Hfs1 & Hok1 & Hq1 & Hv1).
  destruct v as [e|[]]; [split_and!; try done; [intros q ???; auto|auto]|].
  wp_use (wp_WriteFile (sroot ++ [d]) tmp); [done|done|done|..].
  { destruct (w_fs w1 !! _) as [x|] eqn:E; [|done]. by destruct (do_files _ Hok1 d tmp x Hd E) as [? ->]. }
  fold (object_file d tmp). intros v w2 [Hz2 Hv2].
  assert (w_fs w2 = w_fs w1 ∨ ∃ f, w_fs w2 = <[object_file d tmp := NFile f]> (w_fs w1)) as Hshape by (destruct v; naive_solver).
  assert (∀ q, q ≠ object_file d tmp → w_fs w2 !! q = w_fs w1 !! q) as Hq2.
  { intros q Hq. destruct Hshape as [->|[f ->]]; [done|]. by rewrite lookup_insert_ne. }
  assert (fs_wf (w_fs w2) ∧ dir_ok (w_fs w2)) as [Hfs2 Hok2] by (destruct Hshape as [->|[f ->]]; [done|by apply dir_ok_file]).
  split_and!; [congruence|done|done|intros q ???; by rewrite Hq2, Hq1|by rewrite Hq2, Hq1|]. destruct v as [e|[]]; [by destruct Hv2|].
  destruct Hv2 as (f & Hf & Hw2). split; [|exists f; by rewrite Hw2, lookup_insert_eq].
  destruct Hv1 as [m Hm]. exists m. rewrite Hq2; [done|]. intros He. symmetry in He. by apply object_not_dir in He.
Qed.

Lemma wp_dir_Put d n k b w :
  fs_wf (w_fs w) → dir_ok (w_fs w) → store_key d n k →
  wp (dir_Put sroot k b) (λ v w', w_zero w' = w_zero w ∧ fs_wf (w_fs w') ∧ dir_ok (w_fs w') ∧ touches d n (w_fs w) (w_fs w') ∧
    match v with
    | inl _ => ¬ quiet ∧ w_fs w' !! object_file d n = w_fs w !! object_file d n
    | inr _ => object_at (w_fs w') (object_file d n) = Some b
    end) w.
Proof.
  intros Hfs Hok Hk. pose proof Hk as (Hd & Hs & Hg & Ht & _). unfold dir_Put. rewrite (key_path_file d n k) by done.
  assert (dir_of (object_file d n) = sroot ++ [d]) as -> by apply removelast_snoc. rewrite with_tmp_file.
  pose proof (wp_dir_stage d n b w Hfs Hok Hd Hg Ht) as Hst. apply wp_bind_inv in Hst.
  wp_step. eapply wp_mono; [exact Hst|]. intros [e|[]] w1 Hw1; [naive_solver|]. clear Hst.
  wp_step. eapply wp_mono; [exact Hw1|]. clear Hw1 w1. intros v w2 (Hz2 & Hfs2 & Hok2 & Hq2 & Hsame & Hv). set (tmp := n +:+ ".tmp") in *.
  destruct v as [e|[]]; [by split_and!|]. destruct Hv as (Hdir & f & Hf & Hb).
  assert (object_file d tmp ≠ object_file d n) as Hne by (intros [_ He]%object_file_inj; by apply (Ht n)).
  eapply (wp_Rename_file (object_file d tmp) f (sroot ++ [d]) n); [done|done|done|done|..].
  { intros [m Hm]. by destruct (do_files _ Hok2 d n _ Hd Hm). }
  { intros e He. by split_and!. }
  fold (object_file d n). cbn [tick set_fs w_fs w_zero].
  destruct (dir_ok_delete (w_fs w2) d tmp f Hfs2 Hok2 Hf) as [Hfs3 Hok3].
  destruct (dir_ok_file (delete (object_file d tmp) (w_fs w2)) d n f Hfs3 Hok3 Hd) as [Hfs4 Hok4]; [|done|].
  { destruct Hdir as [m Hm]. exists m. rewrite lookup_delete_ne; [done|apply object_not_dir]. }
  split_and!; [done|done|done|..].
  - intros q Hq1' Hq2' Hq3'. rewrite lookup_insert_ne, lookup_delete_ne by done. by apply Hq2.
  - unfold object_at. by rewrite lookup_insert_eq, Hb.
Qed.

(** Finding an object. *)
Lemma find_object σ follow d n k :
  fs_wf σ → dir_ok σ → store_key d n k →
  find_node σ follow (object_file d n) =
    match σ !! object_file d n with Some x => inr (object_file d n, x) | None => inl ENOENT end.
Proof.
  intros Hfs Hok (Hd & _ & Hg & _). destruct (σ !! object_file d n) as [x|] eqn:E.
  - destruct (do_files _ Hok d n x Hd E) as [f ->]. apply find_node_some; [done..|]. intros _ t; done.
  - destruct (σ !! (sroot ++ [d])) as [y|] eqn:Ed.
    + destruct (do_dirs _ Hok d y Hd Ed) as [m ->]. apply find_node_none; [done|by exists m|done|done].
    + unfold find_node, resolve, object_file. rewrite <- app_assoc. rewrite namei_dirs by (done || apply Hok).
      cbn [app]. rewrite namei_good by by apply store_dir_name. by rewrite Ed.
Qed.

Lemma wp_dir_Get d n k w :
  fs_wf (w_fs w) → dir_ok (w_fs w) → store_key d n k →
  wp (dir_Get sroot k) (λ v w', w_fs w' = w_fs w ∧ w_zero w' = w_zero w ∧
    match v with
    | inl e => quiet → object_at (w_fs w) (object_file d n) = None ∧ e = ErrObjectNotFound
    | inr b => object_at (w_fs w) (object_file d n) = Some b
    end) w.
Proof.
  intros Hfs Hok Hk. pose proof Hk as (Hd & _). unfold dir_Get. rewrite (key_path_file d n k) by done. unfold object_at.
  wp_step. wp_step. unfold os_ReadFile. wp_step. apply wp_sys_read.
  { intros e Hnq. by case_match; wp_step; split_and!. }
  rewrite (find_object _ _ d n k) by done. destruct (w_fs w !! object_file d n) as [x|] eqn:E; simpl; [|wp_step; by split_and!].
  destruct (do_files _ Hok d n x Hd E) as [f ->].
  eapply (wp_read _ f); [done|..]; simpl; [intros e Hnq; by case_match; wp_step; split_and!|wp_step; by split_and!].
Qed.

Lemma wp_dir_Has d n k w :
  fs_wf (w_fs w) → dir_ok (w_fs w) → store_key d n k →
  wp (dir_Has sroot k) (λ v w', w_fs w' = w_fs w ∧ w_zero w' = w_zero w ∧
    match v with
    | inl _ => ¬ quiet
    | inr h => (h = true → is_Some (object_at (w_fs w) (object_file d n))) ∧
        (h = false → quiet → object_at (w_fs w) (object_file d n) = None)
    end) w.
Proof.
  intros Hfs Hok Hk. pose proof Hk as (Hd & _). unfold dir_Has. rewrite (key_path_file d n k) by done. unfold object_at.
  wp_step. wp_step. apply wp_sys_read.
  { intros e Hnq. simpl. by case_match; wp_step; split_and!. }
  rewrite (find_object _ _ d n k) by done. destruct (w_fs w !! object_file d n) as [x|] eqn:E; simpl; wp_step; [|by split_and!].
  destruct (do_files _ Hok d n x Hd E) as [f ->]. split_and!; [done..| |done]. intros _. eauto.
Qed.

(** ** The instance *)

Definition dir_store_ok (x : world * unit) : Prop := dir_ok (w_fs x.1).

Lemma dir_ok_agree σ σ' : (∀ q, below sroot q → σ' !! q = σ !! q) → dir_ok σ → dir_ok σ'.
Proof.
  intros Ha [[m Hm] Hd Hf]. split.
  - exists m. rewrite Ha; [done|]. exists []. by rewrite app_nil_r.
  - intros d n Hin. rewrite Ha by by eexists. by apply Hd.
  - intros d c n Hin. rewrite Ha by apply below_object. by apply Hf.
Qed.

Lemma below_dir d : below sroot (sroot ++ [d]).
Proof. by eexists. Qed.

(** A write touches no other object. *)
Lemma touches_other d n k k' σ σ' :
  touches d n σ σ' → store_key d n k → dir_key k' → k' ≠ k →
  object_at σ' (key_path sroot k') = object_at σ (key_path sroot k').
Proof.
  intros Ht Hk (d' & n' & Hk') Hne. rewrite (key_path_file d' n') by done. unfold object_at. rewrite Ht; [done|apply object_not_dir|..].
  - intros [-> ->]%object_file_inj. apply Hne. destruct Hk as (_ & _ & _ & _ & ->), Hk' as (_ & _ & _ & _ & ->). done.
  - intros [_ He]%object_file_inj. destruct Hk' as (_ & _ & _ & Hnt & _). by apply (Hnt n).
Qed.

Lemma touches_apart d n σ σ' q : touches d n σ σ' → apart q → σ' !! q = σ !! q.
Proof.
  intros Ht Hq. apply Ht; intros ->; apply Hq; [apply below_dir|apply below_object..].
Qed.

#[refine] Instance dir_spec : @StoreSpec unit _ (DirStore sroot) apart := {|
  objs := dir_objs;
  objs_ok := dir_store_ok;
  key_ok := dir_key;
  reliable := quiet
|}.
Proof.
  - intros k b [w []] Hok Hfs (d & n & Hk). simpl. wp_step. wp_use (wp_dir_Put d n); [done..|].
    intros v w' (Hz & Hfs' & Hok' & Ht & Hv). split_and!; [done| | |].
    + split; simpl; [done|intros q Hq; by eapply touches_apart|done].
    + intros k' Hk' Hne. by eapply touches_other.
    + unfold dir_objs. simpl. rewrite !(key_path_file d n k) by done. destruct v as [e|[]]; [|done].
      destruct Hv as [Hnq He]. split; [done|left]. unfold object_at. by rewrite He.
  - intros k [w []] Hok Hfs (d & n & Hk). simpl. wp_step. wp_use (wp_dir_Get d n); [done..|]. intros v w' (Hf & Hz & Hv).
    unfold dir_store_ok, dir_objs in *. simpl in *. rewrite Hf, (key_path_file d n k) by done. split_and!; try done.
    split; simpl; [by rewrite Hf|intros; by rewrite Hf|done].
  - intros k [w []] Hok Hfs (d & n & Hk). simpl. wp_step. wp_use (wp_dir_Has d n); [done..|]. intros v w' (Hf & Hz & Hv).
    unfold dir_store_ok, dir_objs in *. simpl in *. rewrite Hf, (key_path_file d n k) by done. split_and!; try done.
    split; simpl; [by rewrite Hf|intros; by rewrite Hf|done].
  - intros [w []] w' Hok Hfs Ha. simpl in *.
    assert (∀ q, below sroot q → w_fs w' !! q = w_fs w !! q) as Hb by (intros q Hq; apply Ha; by intros Hn).
    split; [by eapply dir_ok_agree|]. intros k (d & n & Hk). unfold dir_objs, object_at. simpl.
    rewrite (key_path_file d n k) by done. by rewrite Hb by apply below_object.
  - intros sha Hd. eexists _, _. by apply digest_key.
Defined.

Lemma dir_checkpoint_key id : good_id id → dir_key (checkpointKey id).
Proof. intros Hid. exists "checkpoints", (id +:+ ".json"). apply (json_key "checkpoints"); [right; left|done]. Qed.

Lemma dir_sandbox_key id : good_id id → dir_key (sandboxKey id).
Proof. intros Hid. exists "sandboxes", (id +:+ ".json"). apply (json_key "sandboxes"); [right; right; left|done]. Qed.

(** [Get] only reads, under any key. *)
#[export] Instance dir_reads : @StoreReads unit _ _ apart dir_spec.
Proof.
  intros k [w []] Hok Hfs. cbn [fst] in *. cbn [store_Get DirStore]. wp_step. unfold dir_Get. wp_step. wp_step.
  wp_use wp_ReadFile_any. intros v w1 [Hw1 Hz1].
  assert (dir_store_ok (w1, tt) ∧ local_same apart (w, tt) (w1, tt) ∧ ∀ k', dir_key k' → dir_objs (w1, tt) k' = dir_objs (w, tt) k') as HQ.
  { unfold dir_store_ok, dir_objs in *. cbn [fst] in *. rewrite Hw1. split_and!; [done|split; cbn [fst]; rewrite ?Hw1; try done|done].  }
  destruct v as [e|b]; by wp_step.
Qed.

End dir.
