(* ===== verification/Checks.v ===== *)
(** * Deciding the invariants of a concrete state

    The invariants of a file system, a repository, a blob store and a directory
    store quantify over paths and names; on a given file system each of them is
    a check over its nodes. *)

From S2P Require Import Prelude Sha256 Os OsFacts Cas Blobs Chunked Tree Model Repo RepoFacts Backend Engine Remote Sync SyncFacts DirFacts.
Import Cas Chunked Tree Model Repo.
Open Scope Z_scope.

Definition dir_b (σ : fs) (p : path) : bool := match σ !! p with Some (NDir _) => true | _ => false end.
Lemma dir_b_ok σ p : dir_b σ p = true → is_dir σ p.
Proof. unfold dir_b, is_dir. destruct (σ !! p) as [[]|]; try done. eauto. Qed.

(** A check of every node. *)
Definition nodes_b (σ : fs) (P : path → node → bool) : bool := forallb (λ qn, P qn.1 qn.2) (map_to_list σ).
Lemma nodes_b_ok σ P q n : nodes_b σ P = true → σ !! q = Some n → P q n = true.
Proof.
  intros Hc Hq. unfold nodes_b in Hc. rewrite forallb_forall in Hc. apply (Hc (q, n)). by apply list_elem_of_In, elem_of_map_to_list.
Qed.

Definition name_b (c : string) : bool := bool_decide (c ≠ "" ∧ c ≠ "." ∧ c ≠ "..").
Definition fs_node_b (σ : fs) (q : path) (n : node) : bool :=
  match reverse q with [] => true | c :: up => dir_b σ (reverse up) && name_b c end.
Definition fs_check (σ : fs) : bool := dir_b σ [] && nodes_b σ (fs_node_b σ).

Lemma fs_check_ok σ : fs_check σ = true → fs_wf σ.
Proof.
  intros [Hr Hn]%andb_true_iff. split; [by apply dir_b_ok|]. intros p c [n Hp].
  pose proof (nodes_b_ok _ _ _ _ Hn Hp) as Hc. unfold fs_node_b in Hc. rewrite reverse_snoc in Hc.
  apply andb_true_iff in Hc as [Hd Hg]. rewrite reverse_involutive in Hd. split; [by apply dir_b_ok|].
  by apply bool_decide_eq_true in Hg.
Qed.

(** The path below a root. *)
Definition under (root q : path) : option path := if decide (take (length root) q = root) then Some (drop (length root) q) else None.
Lemma under_app root k : under root (root ++ k) = Some k.
Proof. unfold under. by rewrite take_app_length, drop_app_length, decide_True. Qed.

Definition doc_node_b (root : path) (q : path) (n : node) : bool :=
  match under root q with
  | Some [d; c] => if decide (d ∈ doc_dirs) then
      match n, trimJSON c with
      | NFile _, Some id => bool_decide (c = id +:+ ".json") && negb (has_char slash id)
      | _, _ => false
      end else true
  | _ => true
  end.
Definition repo_check (r : Repo) (σ : fs) : bool :=
  fs_check σ && bool_decide (r_cas r = r_root r ++ ["blobs"]) && forallb (λ d, dir_b σ (r_root r ++ [d])) repo_dirs &&
  nodes_b σ (doc_node_b (r_root r)).

Lemma repo_check_ok r σ : repo_check r σ = true → repo_wf r σ.
Proof.
  intros [[[Hf Hc]%andb_true_iff Hd]%andb_true_iff Hn]%andb_true_iff. split.
  - by apply fs_check_ok.
  - by apply bool_decide_eq_true in Hc.
  - intros d Hin. rewrite forallb_forall in Hd. apply dir_b_ok, Hd. by apply list_elem_of_In.
  - intros d c n Hin Hq. pose proof (nodes_b_ok _ _ _ _ Hn Hq) as Hb. unfold doc_node_b in Hb.
    rewrite <- app_assoc, under_app in Hb. simpl in Hb. rewrite decide_True in Hb by done.
    destruct n as [f|?|?|?]; try done. destruct (trimJSON c) as [id|]; [|done].
    apply andb_true_iff in Hb as [He Hs]. apply bool_decide_eq_true in He. exists f, id. split_and!; [done|done|].
    unfold good_id. by destruct (has_char slash id).
Qed.

(** A blob store holding strings of [us] only. *)
Definition blob_node_b (us : list bytes) (root : path) (q : path) (n : node) : bool :=
  match under root q with
  | Some [s] => is_dir_node n
  | Some [a; b] => negb (has_prefix put_prefix b) &&
      match n with NFile f => bool_decide (hashOf (contents f) = a +:+ b) && bool_decide (contents f ∈ us) | _ => false end
  | _ => true
  end.
Definition store_check (us : list bytes) (root : path) (σ : fs) : bool :=
  fs_check σ && dir_b σ root && nodes_b σ (blob_node_b us root).

Lemma shard_leaf h : is_digest h = true → shard h +:+ leaf h = h.
Proof. intros Hh. destruct (digest_cases h Hh) as (a & b & r & -> & -> & -> & _). done. Qed.

Lemma store_check_ok us root σ :
  store_check us root σ = true → store_inv (λ b, b ∈ us) root σ ∧ store_clean σ root.
Proof.
  intros [[Hf Hr]%andb_true_iff Hn]%andb_true_iff.
  assert (∀ h n, is_digest h = true → σ !! slot root h = Some n →
    ∃ f, n = NFile f ∧ hashOf (contents f) = h ∧ contents f ∈ us) as Hslot.
  { intros h n Hh Hq. pose proof (nodes_b_ok _ _ _ _ Hn Hq) as Hb. unfold blob_node_b, slot in Hb.
    rewrite <- app_assoc, under_app in Hb. simpl in Hb. apply andb_true_iff in Hb as [_ Hb]. destruct n as [f|?|?|?]; try done.
    apply andb_true_iff in Hb as [He Hu]. apply bool_decide_eq_true in He, Hu. exists f. rewrite shard_leaf in He by done. done. }
  split; [split; [split|]|].
  - by apply fs_check_ok.
  - by apply dir_b_ok.
  - intros h n Hh Hq. pose proof (nodes_b_ok _ _ _ _ Hn Hq) as Hb. unfold blob_node_b in Hb. by rewrite under_app in Hb.
  - intros h n Hh Hq. destruct (Hslot h n Hh Hq) as (f & ? & ? & _). eauto.
  - intros h c Hh Hb. unfold blob_of in Hb. destruct (σ !! slot root h) as [n|] eqn:E; [|done].
    destruct (Hslot h n Hh E) as (f & -> & _ & Hu). by injection Hb as <-.
  - intros s k. apply eq_None_not_Some. intros [n Hq]. pose proof (nodes_b_ok _ _ _ _ Hn Hq) as Hb. unfold blob_node_b in Hb.
    rewrite <- app_assoc, under_app in Hb. simpl in Hb. apply andb_true_iff in Hb as [Hb _].
    change (negb (has_prefix put_prefix (put_prefix +:+ pretty k)) = true) in Hb. by rewrite has_prefix_app in Hb.
Qed.

(** No two of a list of strings collide. *)
Definition apart_b (us : list bytes) : bool := bool_decide (NoDup (hashOf <$> us)).
Lemma NoDup_fmap_inv {A B} (f : A → B) (l : list A) a c : NoDup (f <$> l) → a ∈ l → c ∈ l → f a = f c → a = c.
Proof.
  induction l as [|b l IH]; [by intros _ ?%elem_of_nil|]. rewrite fmap_cons, NoDup_cons. intros [Hb Hl] Ha Hc He.
  apply elem_of_cons in Ha as [->|Ha], Hc as [->|Hc]; [done|..|by apply IH].
  - exfalso. apply Hb. rewrite He. by apply list_elem_of_fmap_2.
  - exfalso. apply Hb. rewrite <- He. by apply list_elem_of_fmap_2.
Qed.
Lemma apart_b_ok us : apart_b us = true → NoCollision (λ b, b ∈ us).
Proof. intros Hb%bool_decide_eq_true b c Hbu Hcu He. by eapply (NoDup_fmap_inv hashOf us). Qed.

(** A directory store. *)
Definition object_node_b (sroot : path) (q : path) (n : node) : bool :=
  match under sroot q, n with
  | Some [_], NDir _ => true
  | Some [_], _ => false
  | Some [_; _], NFile _ => true
  | Some [_; _], _ => false
  | _, _ => true
  end.
Definition dir_check (sroot : path) (σ : fs) : bool := dir_b σ sroot && nodes_b σ (object_node_b sroot).
Lemma dir_check_ok sroot σ : dir_check sroot σ = true → dir_ok sroot σ.
Proof.
  intros [Hr Hn]%andb_true_iff. split; [by apply dir_b_ok|..].
  - intros d n _ Hq. pose proof (nodes_b_ok _ _ _ _ Hn Hq) as Hb. unfold object_node_b in Hb. rewrite under_app in Hb.
    destruct n; try done. eauto.
  - intros d c n _ Hq. pose proof (nodes_b_ok _ _ _ _ Hn Hq) as Hb. unfold object_node_b, object_file in Hb.
    rewrite <- app_assoc, under_app in Hb. destruct n; try done. eauto.
Qed.

(** ** Documents and what they name *)

Section documents.
Context `{GoJSON Manifest, GoJSON Tree}.

Definition named_b (h : string) : bool := bool_decide (h = "") || is_digest h.
Lemma named_b_ok h : named_b h = true → named h.
Proof. intros [Hb|Hd]%orb_true_iff; [left; by apply bool_decide_eq_true in Hb|by right]. Qed.

Definition well_named_b (us : list bytes) : bool :=
  forallb (λ b, match json_Unmarshal (A:=Tree) b with Some t => forallb (λ e, named_b (e_Hash e)) (t_Entries t) | None => true end &&
                match json_Unmarshal (A:=Manifest) b with Some m => forallb is_digest (m_Chunks m) | None => true end) us.
Lemma well_named_b_ok us : well_named_b us = true → well_named (λ b, b ∈ us).
Proof.
  unfold well_named_b. rewrite forallb_forall. intros Hb. split.
  - intros b t e Hu Ht He. apply list_elem_of_In in Hu. apply Hb, andb_true_iff in Hu as [Hu _]. rewrite Ht, forallb_forall in Hu.
    apply named_b_ok, Hu. by apply list_elem_of_In.
  - intros b m ch Hu Hm Hc. apply list_elem_of_In in Hu. apply Hb, andb_true_iff in Hu as [_ Hu]. rewrite Hm, forallb_forall in Hu.
    apply Hu. by apply list_elem_of_In.
Qed.

Definition ck_named_b (c : Checkpoint) : bool :=
  negb (has_char slash (c_ID c)) && is_digest (c_TreeHash c) &&
  forallb named_b [c_StateHash c; c_MemHash c; c_DiskHash c; c_BaseHash c].
Lemma ck_named_b_ok c : ck_named_b c = true → ck_named c.
Proof.
  intros [[Hi Ht]%andb_true_iff Hn]%andb_true_iff. split; [|done|].
  - unfold good_id. by destruct (has_char slash (c_ID c)).
  - intros h Hh. rewrite forallb_forall in Hn. apply named_b_ok, Hn. by apply list_elem_of_In.
Qed.

Definition closed_b (get : string → option bytes) (c : Checkpoint) : bool :=
  match names get c with
  | Some l => forallb (λ sha, is_digest sha && bool_decide (is_Some (get sha))) l
  | None => false
  end.
Lemma closed_b_ok {R} (r : Repo) (x : world * R) c : closed_b (lget r x) c = true → closed_here r x c.
Proof.
  unfold closed_b, closed_here. destruct (names (lget r x) c) as [l|]; [|done]. rewrite forallb_forall. intros Hl. exists l. split; [done|].
  intros sha Hs. apply list_elem_of_In in Hs. apply Hl, andb_true_iff in Hs as [Hd Hb]. by apply bool_decide_eq_true in Hb.
Qed.

End documents.
