(* ===== verification/SyncProps.v ===== *)
(** * Properties of pushing and pulling *)

From S2P Require Import Prelude Sha256 Os OsFacts Cas Parallel Blobs Chunked Tree Model Repo RepoFacts Backend Engine EngineFacts Remote Sync SyncFacts PullFacts PushFacts StoreFacts DirFacts Checks Json JsonFacts Codec Codecs RepoProps.
Import Cas Chunked Tree Model Repo Engine Remote Sync.
Open Scope Z_scope.

Section props.
Context `{OsEnv, Sched, GoJSON Manifest, GoJSON Tree, GoJSON Sandbox, GoJSON Checkpoint}.
Context (U : bytes → Prop) {NC : NoCollision U} {R : Type} `{ObjectStore R} (here : path → Prop) `{!StoreSpec R here}.
Implicit Types (x : world * R) (r : Repo).

(** A sandbox ready to be pushed: its documents and everything its history
    names are in the repository. *)
Record push_ready r (sid : string) (s : Sandbox) (hist : list Checkpoint) x : Prop := {
  pr_ready : ready U here r x;
  pr_sound : sound U here x;
  pr_ids : good_id sid ∧ good_id (s_ID s) ∧ good_id (s_Head s);
  pr_named : sandbox_named (w_fs x.1) r sid = Some s;
  pr_self : sandbox_named (w_fs x.1) r (s_ID s) = Some s;
  pr_chain : chain (w_fs x.1) r (s_Head s) hist;
  pr_whole : ∀ c, c ∈ hist → pushable r x c;
  pr_keys : key_ok (sandboxKey (s_ID s)) ∧ ∀ c, c ∈ hist → key_ok (checkpointKey (c_ID c))
}.

(** C25 (push_complete): pushing a sandbox either meets a failure of the
    store, or leaves there the sandbox's document and every checkpoint of its
    history, each with its document and all the blobs it names under their
    digests; a blob the store had keeps its bytes, only the documents of this
    sandbox are written, the local files stay as they were, and each missing
    blob is counted (and so sent) exactly once. *)
Theorem push_complete r sid s hist x :
  quiet → (∀ q, below (r_root r) q → here q) → push_ready r sid s hist x →
  ∃ v x', Push r sid x = (match v with inl e => Err e | inr st => Ok st end, x') ∧ push_post U here r s hist x v x'.
Proof.
  intros Hq Hh [Hr Hs (Hi1 & Hi2 & Hi3) Hn Hn' Hc Hw [Hk1 Hk2]]. apply (wp_exists (Push r sid)). by apply wp_Push.
Qed.

(** ** Pushing again *)

Lemma load_agree {A} `{GoJSON A} r d id x x' :
  (∀ q, below (r_root r) q → here q) → local_same here x x' →
  load (A:=A) (w_fs x'.1) r d id = load (w_fs x.1) r d id.
Proof.
  intros Hh Hl. unfold load, doc. rewrite (ls_files _ _ _ Hl); [done|]. apply Hh. unfold doc_file. rewrite <- app_assoc. by eexists.
Qed.

Lemma chain_agree r id l x x' :
  (∀ q, below (r_root r) q → here q) → local_same here x x' → chain (w_fs x.1) r id l → chain (w_fs x'.1) r id l.
Proof.
  intros Hh Hl. induction 1 as [|id c l Hne Hid Hc Hch IH]; [constructor|].
  econstructor; [done|done| |exact IH]. by rewrite (load_agree r "checkpoints" id x x').
Qed.

Lemma pushable_agree r c x x' :
  (∀ q, below (r_root r) q → here q) → ready U here r x → local_same here x x' → pushable r x c → pushable r x' c.
Proof.
  intros Hh Hr Hl [Hd Hn (l & Hnames & Hall)].
  assert (∀ sha, lget r x' sha = lget r x sha) as Hg by (intros sha; by eapply lget_local).
  split; [by rewrite (load_agree r "checkpoints" _ x x')|done|]. exists l. split; [by eapply names_agree|].
  intros sha Hs. rewrite Hg. by apply Hall.
Qed.

Lemma sound_pushed r W x x' : ready U here r x → sound U here x → pushed U here r W x x' → sound U here x'.
Proof.
  intros Hr Hs Hp sha b Hd Hb. destruct (pu_new _ _ _ _ _ _ Hp sha b Hd Hb) as [Hold|Hnew]; [by apply Hs|].
  split; [by eapply (si_in _ _ _ (rd_store _ _ _ _ Hr))|]. eapply store_wf_blob; [apply Hr|done|done].
Qed.

(** Nothing a push reads here has changed. *)
Lemma push_ready_again r s hist x x' :
  (∀ q, below (r_root r) q → here q) → load (w_fs x.1) r "sandboxes" (s_ID s) = Some s →
  push_ready r (s_ID s) s hist x → pushed U here r (doc_keys s hist) x x' → push_ready r (s_ID s) s hist x'.
Proof.
  intros Hh Hld [Hr Hs Hi Hn Hn' Hc Hw Hk] Hp. pose proof (pu_local _ _ _ _ _ _ Hp) as Hl.
  assert (sandbox_named (w_fs x'.1) r (s_ID s) = Some s) as Hn2.
  { unfold sandbox_named. by rewrite (load_agree r "sandboxes" _ x x'), Hld. }
  split; [apply Hp|by eapply sound_pushed|done|done|done|by eapply chain_agree| |done].
  intros c Hin. by eapply pushable_agree, Hw.
Qed.

Lemma missing_none x l : (∀ sha, sha ∈ l → is_Some (rget here x sha)) → missing here x l = 0.
Proof.
  intros Ha. unfold missing. replace (filter _ (list_to_set l : gset string)) with (∅ : gset string); [done|].
  apply set_eq. intros sha. rewrite elem_of_filter, elem_of_list_to_set. split; [set_solver|].
  intros [Hn Hs]. destruct (Ha sha Hs). congruence.
Qed.

Lemma history_names_agree r hist x x' :
  (∀ c, c ∈ hist → names (lget r x') c = names (lget r x) c) → history_names r x' hist = history_names r x hist.
Proof.
  intros Ha. unfold history_names. f_equal. induction hist as [|c hist IH]; [done|]. simpl.
  rewrite Ha by left. destruct (names (lget r x) c); [f_equal|]; apply IH; intros c' Hc'; apply Ha; by right.
Qed.

Lemma history_names_inv r x hist sha :
  sha ∈ history_names r x hist → ∃ c l, c ∈ hist ∧ names (lget r x) c = Some l ∧ sha ∈ l.
Proof.
  unfold history_names. rewrite list_elem_of_In, in_concat. intros (l & Hl & Hs).
  apply list_elem_of_In, list_elem_of_omap in Hl as (c & Hc & Hl). exists c, l. split_and!; [done|done|by apply list_elem_of_In].
Qed.

(** A push that follows a successful one sends no blob. *)
Theorem push_twice r s hist x st x1 :
  quiet → reliable → (∀ q, below (r_root r) q → here q) → load (w_fs x.1) r "sandboxes" (s_ID s) = Some s →
  push_ready r (s_ID s) s hist x → Push r (s_ID s) x = (Ok st, x1) →
  ∃ x2, Push r (s_ID s) x1 =
    (Ok (mkPushStats (Z.of_nat (length hist)) 0 (Z.of_nat (length (history_names r x hist)))), x2).
Proof.
  intros Hq Hrel Hh Hld Hpr Hrun. pose proof Hpr as [Hr Hs (Hi1 & Hi2 & Hi3) Hn Hn' Hc Hw [Hk1 Hk2]].
  pose proof (wp_run _ _ _ _ _ (wp_Push U here r Hh _ s hist x Hq Hr Hs Hi1 Hi2 Hi3 Hn Hn' Hc Hw Hk1 Hk2) Hrun) as [Hp (Hck & _)].
  destruct (push_ready_again r s hist x x1 Hh Hld Hpr Hp) as [Hr1 Hs1 _ Hn1 Hn1' Hc1 Hw1 _].
  destruct (wp_exists _ _ _ (wp_Push U here r Hh _ s hist x1 Hq Hr1 Hs1 Hi1 Hi2 Hi3 Hn1 Hn1' Hc1 Hw1 Hk1 Hk2)) as (v & x2 & Hrun2 & Hp2 & Hv).
  exists x2. rewrite Hrun2. destruct v as [e|[a b c]]; [done|]. destruct Hv as (_ & _ & Ha & Hb & Ht). simpl in *.
  assert (history_names r x1 hist = history_names r x hist) as Hsame.
  { apply history_names_agree. intros ck Hin. destruct (pb_closed _ _ _ (Hw ck Hin)) as (l & Hl & _).
    rewrite Hl. eapply names_agree; [exact Hl|]. intros sha _. eapply lget_local; [done|done|apply Hp]. }
  rewrite Hsame in *. rewrite missing_none in Hb; [specialize (Hb Hrel); do 2 f_equal; f_equal; lia|].
  intros sha (ck & l & Hin & Hl & Hs')%history_names_inv. destruct (Hck ck Hin) as [_ (l' & Hl' & _ & Hall)].
  rewrite Hl in Hl'. injection Hl' as <-. destruct (Hall sha Hs') as (b' & -> & _). eauto.
Qed.

(** ** Pulling *)

(** C26 (pull_verified): for a store whose [Get] only reads, whatever it holds, damaged
    or made up, and whatever fails: a pull adds blobs only under their own
    digests, under every digest that named a blob here stand bytes with that
    digest, the remote is unchanged, and of the files outside the store none
    changes but the document with the identifier that stands in the fetched
    checkpoint (a plain name, it is assumed; it need not be the one asked for),
    which is saved when the pull succeeds.  If moreover the names in the documents
    are digests, a pull that succeeds has brought here everything the checkpoint
    names, and it fails only if a call failed or the store lacks, or holds damaged,
    something the checkpoint names. *)
Theorem pull_verified r id x :
  (∀ q, below (r_root r) q → here q) →
  (StoreReads R → sides_ok here r x → (∀ c, fetched x id c → good_id (c_ID c)) →
     ∃ v x', Pull r id x = (match v with inl e => Err e | inr c => Ok c end, x') ∧ any_post here r id x v x') ∧
  (well_named U → ready U here r x → in_play U here x → good_id id → key_ok (checkpointKey id) →
     (∀ c, remote_doc here x id = Some c → ck_named c) →
     ∃ v x', Pull r id x = (match v with inl e => Err e | inr c => Ok c end, x') ∧ pull_post U here r id x v x').
Proof.
  intros Hh. split.
  - intros Hreads Hok Hid. apply (wp_exists (Pull r id)). by apply wp_Pull_any.
  - intros Hwn Hr Hu Hid Hkey Hck. apply (wp_exists (Pull r id)). by apply wp_Pull.
Qed.

(** C27 (push_pull): a checkpoint pushed from one repository and pulled into
    another arrives whole: the same document, and under every name it refers to
    the same bytes. *)
Theorem push_pull r r2 sid s hist c st x x1 :
  quiet → reliable → well_named U → (∀ q, below (r_root r) q → here q) → (∀ q, below (r_root r2) q → here q) →
  push_ready r sid s hist x → ready U here r2 x → store_clean (w_fs x.1) (r_cas r2) →
  c ∈ hist → json_dom c → Push r sid x = (Ok st, x1) →
  ∃ x2 l, Pull r2 (c_ID c) x1 = (Ok c, x2) ∧
    doc (w_fs x2.1) r2 "checkpoints" (c_ID c) = Some (json_MarshalIndent c) ∧
    names (lget r x) c = Some l ∧ names (lget r2 x2) c = Some l ∧
    ∀ sha, sha ∈ l → is_Some (lget r x sha) ∧ lget r2 x2 sha = lget r x sha.
Proof.
  intros Hq Hrel Hwn Hh Hh2 [Hr Hs (Hi1 & Hi2 & Hi3) Hn Hn' Hc Hw [Hk1 Hk2]] Hr2 Hcl2 Hin Hdom Hrun.
  pose proof (wp_run _ _ _ _ _ (wp_Push U here r Hh _ s hist x Hq Hr Hs Hi1 Hi2 Hi3 Hn Hn' Hc Hw Hk1 Hk2) Hrun) as [Hp (Hck & _)].
  destruct (Hck c Hin) as [Hdoc Hcopy]. pose proof Hcopy as (l & Hl & Hl1 & Hall).
  pose proof (pb_named _ _ _ (Hw c Hin)) as Hckn. pose proof (pu_local _ _ _ _ _ _ Hp) as Hloc.
  assert (ready U here r2 x1) as Hr21 by (eapply ready_local; [done|done|done|apply Hp]).
  assert (sound U here x1) as Hs1 by by eapply (sound_pushed r).
  assert (in_play U here x1) as Hu1 by (intros sha b Hd Hb; by apply (Hs1 sha b)).
  assert (remote_doc here x1 (c_ID c) = Some c) as Hrd by (unfold remote_doc; rewrite Hdoc; by apply json_roundtrip).
  assert (calm_sides here r2 x1) as Hcalm.
  { split_and!; [done|done|]. eapply store_clean_agree; [done|]. by eapply local_below; [|apply Hr2|]. }
  destruct (wp_exists _ _ _ (wp_Pull U here r2 Hh2 Hwn (c_ID c) x1 Hr21 Hu1 (cn_id _ Hckn) (Hk2 c Hin)
    ltac:(intros c' Hc'; rewrite Hrd in Hc'; injection Hc' as <-; exact Hckn))) as (v & x2 & Hrun2 & Hf & Hv).
  destruct v as [e|c2]; [destruct (Hv Hcalm); exists c; split; [done|by eapply copied_closed]|].
  destruct Hv as (Hrd2 & (l2 & Hl2 & Hall2) & Hdoc2). rewrite Hrd in Hrd2. injection Hrd2 as <-.
  assert (∀ sha b b', is_digest sha = true → rget here x1 sha = Some b → lget r2 x2 sha = Some b' → b = b') as Hsame.
  { intros sha b b' Hd Hb Hb'. destruct (Hs1 sha b Hd Hb) as [HU Hh1]. pose proof (pf_ready _ _ _ _ _ _ Hf) as Hr22.
    apply no_collision; [done|by eapply (si_in _ _ _ (rd_store _ _ _ _ Hr22))|]. rewrite Hh1. symmetry.
    eapply store_wf_blob; [apply Hr22|done|done]. }
  assert (l2 = l) as ->.
  { eapply (names_unique (rget here x1) (lget r2 x2)); [|done|done]. intros h b b' Hh' Hne Hb Hb'.
    apply (Hsame h); [|done|done]. destruct Hne as [Hne| ->]; [|apply Hckn].
    apply elem_of_cons in Hh' as [->|Hh']; [apply Hckn|]. by destruct (cn_hashes _ Hckn h); [right|..]. }
  exists x2, l. split_and!; [exact Hrun2|done|done|done|]. intros sha Hsha. destruct (Hall sha Hsha) as (b & Hb & Hb0 & _).
  destruct (Hall2 sha Hsha) as [Hd [b2 Hb2]]. split; [by eexists|]. rewrite Hb0, Hb2. f_equal. symmetry. by eapply Hsame.
Qed.

End props.

(** ** Two repositories and a directory *)

#[local] Existing Instance calm.
#[local] Existing Instance in_order.

Definition other_repo : Repo := mkRepo ["other"] ["other"; "blobs"].
Definition remote_root : path := ["remote"].
Definition the_tree : Tree := mkTree [mkEntry "out" o644 2 (hashOf (to_bytes "hi")) "" false].
Definition the_ck : Checkpoint :=
  mkCheckpoint "ck-1" "sbx-1" 0 "" (hashOf (json_Marshal the_tree)) [] 0 1 0 0 0 "created" "" "" "" "".
Definition the_sbx : Sandbox := mkSandbox "sbx-1" "box" "process" "ck-1" "" 0 1.
Definition the_blobs : list bytes := [to_bytes "hi"; json_Marshal the_tree].
Definition the_U (b : bytes) : Prop := b ∈ the_blobs.

Definition repo_nodes_of (root : string) : list (path * node) :=
  ([root], NDir o755) :: ((λ d, ([root; d], NDir o755)) <$> repo_dirs).
Definition blob_nodes (b : bytes) : list (path * node) :=
  [(["repo"; "blobs"; shard (hashOf b)], NDir o755); (slot ["repo"; "blobs"] (hashOf b), doc_node b)].
Definition sync_fs : fs := Eval vm_compute in list_to_map (
  [([], NDir o755); (remote_root, NDir o755);
   (doc_file small_repo "checkpoints" "ck-1", doc_node (json_MarshalIndent the_ck));
   (doc_file small_repo "sandboxes" "sbx-1", doc_node (json_MarshalIndent the_sbx))] ++
  repo_nodes_of "repo" ++ repo_nodes_of "other" ++ (the_blobs ≫= blob_nodes)).
Definition sync_state : world * unit := (World sync_fs 0 ∅, tt).

#[local] Existing Instance dir_spec.
#[local] Instance the_store : ObjectStore unit := DirStore remote_root.

Lemma the_no_collision : NoCollision the_U.
Proof. apply apart_b_ok. vm_compute. reflexivity. Qed.
Lemma the_well_named : well_named the_U.
Proof. apply well_named_b_ok. vm_compute. reflexivity. Qed.

Lemma sync_store r : r = small_repo ∨ r = other_repo →
  store_inv the_U (r_cas r) sync_fs ∧ store_clean sync_fs (r_cas r).
Proof. intros [-> | ->]; apply store_check_ok; vm_compute; reflexivity. Qed.

Lemma sync_ready r : r = small_repo ∨ r = other_repo → ready the_U (apart remote_root) r sync_state.
Proof.
  intros Hr. split; [|destruct Hr as [-> | ->]; apply repo_check_ok; vm_compute; reflexivity|by apply sync_store].
  apply dir_check_ok. vm_compute. reflexivity.
Qed.


Lemma sync_apart r : r = small_repo ∨ r = other_repo → ∀ q, below (r_root r) q → apart remote_root q.
Proof. intros [-> | ->] q [k ->] [k' Hk]; discriminate. Qed.

Lemma remote_empty d n : sync_fs !! object_file remote_root d n = None.
Proof.
  assert (nodes_b sync_fs (λ q _, match under remote_root q with Some (_ :: _) => false | _ => true end) = true) as Hn
    by (vm_compute; reflexivity).
  apply eq_None_not_Some. intros [x Hx]. pose proof (nodes_b_ok _ _ _ _ Hn Hx) as Hb. unfold object_file in Hb.
  by rewrite <- app_assoc, under_app in Hb.
Qed.

Lemma sync_sound : sound the_U (apart remote_root) sync_state.
Proof.
  intros sha b Hd Hb. unfold rget in Hb. cbn [objs dir_spec] in Hb. unfold dir_objs, object_at in Hb.
  rewrite (key_path_file remote_root "blobs" sha) in Hb by by apply digest_key.
  cbn [fst sync_state w_fs] in Hb. by rewrite remote_empty in Hb.
Qed.

Lemma the_doms : json_dom the_ck ∧ json_dom the_sbx.
Proof.
  change (codec_dom the_ck ∧ codec_dom the_sbx). unfold codec_dom, checkpoint_codec, sandbox_codec.
  split_and!; try (vm_compute; done); try (by repeat constructor).
Qed.

Lemma sync_docs :
  load sync_fs small_repo "checkpoints" "ck-1" = Some the_ck ∧ load sync_fs small_repo "sandboxes" "sbx-1" = Some the_sbx.
Proof. destruct the_doms as [Hc Hs]. split; (apply load_doc; [vm_compute; reflexivity|assumption]). Qed.

Lemma the_push_ready : push_ready the_U (apart remote_root) small_repo "sbx-1" the_sbx [the_ck] sync_state.
Proof.
  destruct sync_docs as [Hc Hs].
  assert (sandbox_named sync_fs small_repo "sbx-1" = Some the_sbx) as Hn by (unfold sandbox_named; by rewrite Hs).
  split.
  - apply sync_ready. by left.
  - apply sync_sound.
  - split_and!; reflexivity.
  - exact Hn.
  - exact Hn.
  - econstructor; [done|done|exact Hc|constructor].
  - intros c Hin. apply list_elem_of_singleton in Hin as ->.
    split; [exact Hc|apply ck_named_b_ok; vm_compute; reflexivity|apply closed_b_ok; vm_compute; reflexivity].
  - split; [by apply dir_sandbox_key|]. intros c Hin. apply list_elem_of_singleton in Hin as ->. by apply dir_checkpoint_key.
Qed.

(** C25 at a concrete input. *)
Lemma push_complete_witness :
  ∃ v x', Push small_repo "sbx-1" sync_state = (match v with inl e => Err e | inr st => Ok st end, x') ∧
    push_post the_U (apart remote_root) small_repo the_sbx [the_ck] sync_state v x'.
Proof.
  pose proof the_no_collision as NC.
  apply (push_complete the_U (apart remote_root) small_repo "sbx-1" the_sbx [the_ck] sync_state calm_quiet);
    [apply sync_apart; by left|exact the_push_ready].
Defined.

(** The first push sends both blobs. *)
Lemma first_push : ∃ x1, Push small_repo "sbx-1" sync_state = (Ok (mkPushStats 1 2 0), x1).
Proof.
  assert ((Push small_repo "sbx-1" sync_state).1 = Ok (mkPushStats 1 2 0)) as Hr by (vm_compute; reflexivity).
  exists (Push small_repo "sbx-1" sync_state).2. rewrite <- Hr. apply surjective_pairing.
Qed.

(** The second push at a concrete input. *)
Lemma push_twice_witness :
  ∃ x1 x2, Push small_repo "sbx-1" sync_state = (Ok (mkPushStats 1 2 0), x1) ∧
    Push small_repo "sbx-1" x1 = (Ok (mkPushStats 1 0 2), x2).
Proof.
  pose proof the_no_collision as NC. destruct first_push as [x1 Hrun].
  destruct (push_twice the_U (apart remote_root) small_repo the_sbx [the_ck] sync_state (mkPushStats 1 2 0) x1)
    as [x2 Hrun2]; [exact calm_quiet|exact calm_quiet|apply sync_apart; by left|exact (proj2 sync_docs)|exact the_push_ready|exact Hrun|].
  exists x1, x2. split; [exact Hrun|exact Hrun2].
Defined.

(** The files once the checkpoint is in the remote. *)
Definition pushed_fs : fs := Eval vm_compute in w_fs (Push small_repo "sbx-1" sync_state).2.1.
Definition pushed_state : world * unit := (World pushed_fs 0 ∅, tt).

Lemma pushed_ready : ready the_U (apart remote_root) other_repo pushed_state.
Proof.
  split; [apply dir_check_ok; vm_compute; reflexivity|apply repo_check_ok; vm_compute; reflexivity|].
  apply (store_check_ok the_blobs). vm_compute. reflexivity.
Qed.

Lemma pushed_in_play : in_play the_U (apart remote_root) pushed_state.
Proof.
  intros sha b Hd Hb. cbn [objs dir_spec] in Hb. unfold dir_objs, object_at in Hb.
  rewrite (key_path_file remote_root "blobs" sha) in Hb by by apply digest_key. cbn [fst pushed_state w_fs] in Hb.
  destruct (pushed_fs !! object_file remote_root "blobs" sha) as [n|] eqn:E; [|done].
  assert (nodes_b pushed_fs (λ q n, match under remote_root q, n with Some ("blobs" :: _ :: _), NFile f => bool_decide (contents f ∈ the_blobs) | _, _ => true end) = true) as Hn
    by (vm_compute; reflexivity).
  apply (nodes_b_ok _ _ _ _ Hn) in E. unfold object_file in E. rewrite <- app_assoc, under_app in E. cbn [app] in E.
  destruct n as [f|?|?|?]; [|discriminate Hb..]. injection Hb as <-. exact (bool_decide_eq_true_1 _ E).
Qed.

Lemma pushed_doc c : remote_doc (apart remote_root) pushed_state "ck-1" = Some c → c = the_ck.
Proof. intros Hc. assert (remote_doc (apart remote_root) pushed_state "ck-1" = Some the_ck) as He by (vm_compute; reflexivity). congruence. Qed.

(** C26 at a concrete input: the checkpoint arrives. *)
Lemma pull_verified_witness :
  ∃ x1 x2, Pull other_repo "ck-1" pushed_state = (Ok the_ck, x1) ∧ any_post (apart remote_root) other_repo "ck-1" pushed_state (inr the_ck) x1 ∧
    Pull other_repo "ck-1" pushed_state = (Ok the_ck, x2) ∧ pull_post the_U (apart remote_root) other_repo "ck-1" pushed_state (inr the_ck) x2.
Proof.
  pose proof the_no_collision as NC.
  assert ((Pull other_repo "ck-1" pushed_state).1 = Ok the_ck) as Hr by (vm_compute; reflexivity).
  destruct (pull_verified the_U (apart remote_root) other_repo "ck-1" pushed_state (sync_apart other_repo (or_intror eq_refl))) as [HA HB].
  destruct HA as (v1 & x1 & Hrun1 & Hp1).
  - apply dir_reads.
  - destruct pushed_ready as [? ? [? _]]. by split.
  - intros c (cb & x' & Hg & Hc).
    assert (store_Get (checkpointKey "ck-1") pushed_state = (Ok (json_Marshal the_ck), (World pushed_fs 2 ∅, tt))) as Hg' by (vm_compute; reflexivity).
    rewrite Hg' in Hg. injection Hg as <- _. assert (c = the_ck) as -> by (apply pushed_doc; unfold remote_doc; rewrite <- Hc; vm_compute; reflexivity). reflexivity.
  - destruct HB as (v2 & x2 & Hrun2 & Hp2); [exact the_well_named|exact pushed_ready|exact pushed_in_play|done|by apply dir_checkpoint_key| |].
    + intros c ->%pushed_doc. apply ck_named_b_ok. vm_compute. reflexivity.
    + exists x1, x2. rewrite Hrun1 in Hr. cbn [fst] in Hr. destruct v1 as [e|c]; [discriminate Hr|]. injection Hr as ->.
      rewrite Hrun1 in Hrun2. destruct v2 as [e|c]; [discriminate Hrun2|]. injection Hrun2 as <- <-.
      split; [exact Hrun1|]. split; [exact Hp1|]. split; [exact Hrun1|exact Hp2].
Defined.

(** The document is saved under the identifier inside it: pulling [ck-9], whose
    document says [ck-1], overwrites the checkpoint [ck-1] of the repository. *)
Definition other_ck : Checkpoint :=
  mkCheckpoint "ck-1" "sbx-1" 0 "" (hashOf (json_Marshal the_tree)) [] 0 1 0 0 0 "another" "" "" "" "".
Definition crossed_state : world * unit := (World (<[["remote"; "checkpoints"; "ck-9.json"] := doc_node (json_Marshal other_ck)]> pushed_fs) 0 ∅, tt).
Lemma pull_overwrites :
  let '(v, x') := Pull small_repo "ck-9" crossed_state in
  v = Ok other_ck ∧ doc (w_fs crossed_state.1) small_repo "checkpoints" "ck-1" = Some (json_MarshalIndent the_ck) ∧
  doc (w_fs x'.1) small_repo "checkpoints" "ck-1" = Some (json_MarshalIndent other_ck).
Proof. vm_compute. done. Qed.

(** C27 at a concrete input. *)
Lemma push_pull_witness :
  ∃ x1 x2, Push small_repo "sbx-1" sync_state = (Ok (mkPushStats 1 2 0), x1) ∧ Pull other_repo "ck-1" x1 = (Ok the_ck, x2) ∧
    lget other_repo x2 (hashOf (to_bytes "hi")) = Some (to_bytes "hi").
Proof.
  pose proof the_no_collision as NC. destruct first_push as [x1 Hrun].
  destruct (push_pull the_U (apart remote_root) small_repo other_repo "sbx-1" the_sbx [the_ck] the_ck (mkPushStats 1 2 0) sync_state x1)
    as (x2 & l & Hpull & _ & Hl & _ & Hall);
    [exact calm_quiet|exact calm_quiet|exact the_well_named|apply sync_apart; by left|apply sync_apart; by right|exact the_push_ready
    |apply sync_ready; by right|apply (sync_store other_repo); by right|left|apply the_doms|exact Hrun|].
  exists x1, x2. split; [exact Hrun|]. split; [exact Hpull|].
  destruct (Hall (hashOf (to_bytes "hi"))) as [_ ->]; [|vm_compute; reflexivity].
  assert (names (lget small_repo sync_state) the_ck = Some [hashOf (json_Marshal the_tree); hashOf (to_bytes "hi")]) as Hl'
    by (vm_compute; reflexivity).
  rewrite Hl in Hl'. injection Hl' as ->. right; left.
Defined.
