(* ===== verification/Agent.v ===== *)
(** * The protocol with the guest agent (src/internal/agent/agent.go, client.go)

    One request per connection: a JSON line, the bytes of a file after it for a
    write; one JSON line back, the bytes of a file after it for a read.  The
    agent runs in the guest on the guest's files; commands are run by a
    parameter, and so are the texts of errors. *)

From S2P Require Import Prelude Sha256 Json JsonFacts Codec Os OsFacts Tree Remote.
Import Json Tree Remote.
Open Scope Z_scope.

Module Agent.

(** ** Messages *)

Record Entry := mkAEntry {
  a_Path : string;
  a_Mode : Z;
  a_Size : Z;
  a_Hash : string;
  a_Link : string;
  a_Dir : bool
}.

#[global] Instance AEntry_eq_decision : EqDecision Entry.
Proof. solve_decision. Defined.

Record Request := mkRequest {
  q_Op : string;
  q_Dir : string;
  q_Env : list string;
  q_Cmd : list string;
  q_Path : string;
  q_Mode : Z;
  q_Size : Z;
  q_Link : string;
  q_IsDir : bool
}.

Record Reply := mkReply {
  y_OK : bool;
  y_Error : string;
  y_Exit : Z;
  y_Stdout : string;
  y_Stderr : string;
  y_Entries : list Entry;
  y_Size : Z
}.

(** The zero values the sources start their literals from. *)
Definition request (op : string) : Request := mkRequest op "" [] [] "" 0 0 "" false.
Definition empty_reply : Reply := mkReply false "" 0 "" "" [] 0.
Definition ok_reply : Reply := mkReply true "" 0 "" "" [] 0.
Definition error_reply (e : string) : Reply := mkReply false e 0 "" "" [] 0.

Definition nonzero (z : Z) : bool := bool_decide (z ≠ 0).
Lemma nonzero_false z : nonzero z = false → z = 0.
Proof. unfold nonzero. intros Hz%bool_decide_eq_false. lia. Qed.

Lemma dec_entries {A} `{Codec A} (old l : list A) : Forall codec_dom l → dec_list of_json old (JArr (map to_json l)) = Some l.
Proof.
  intros Hl. unfold dec_list. apply mapM_enc. eapply Forall_impl; [exact Hl|]. intros x Hx. by apply codec_ok.
Qed.
Lemma entries_wf {A} `{Codec A} (l : list A) : Forall codec_dom l → json_wf (JArr (map to_json l)).
Proof. intros Hl. apply json_wf_list. eapply Forall_impl; [exact Hl|]. intros x Hx. by apply codec_ok. Qed.

Ltac agent_dec := first [by dec_go | by (cbv beta; rewrite dec_entries by assumption)].
Ltac agent_fill :=
  lazymatch goal with
  | |- fill _ ((_, _) :: _) _ = _ => erewrite fill_field; [|reflexivity|agent_dec]
  | |- fill _ (opt_field _ _ _ ++ _) _ = _ =>
      erewrite fill_opt; [|reflexivity|agent_dec|
        intros Hempty; first [apply nonempty_false in Hempty | apply nonnil_false in Hempty | apply nonzero_false in Hempty | idtac]; by subst]
  end.
Ltac agent_wf :=
  first [ apply opt_wf; [reflexivity|..] | apply field_wf; [reflexivity|..] | apply enc_int_wf
        | apply strings_wf; done | apply entries_wf; done | done ].

Definition agent_entry_fields : list (field Entry) :=
  [("path", λ x j, (λ v, mkAEntry v (a_Mode x) (a_Size x) (a_Hash x) (a_Link x) (a_Dir x)) <$> dec_string (a_Path x) j);
   ("mode", λ x j, (λ v, mkAEntry (a_Path x) v (a_Size x) (a_Hash x) (a_Link x) (a_Dir x)) <$> dec_int uint32 (a_Mode x) j);
   ("size", λ x j, (λ v, mkAEntry (a_Path x) (a_Mode x) v (a_Hash x) (a_Link x) (a_Dir x)) <$> dec_int int64 (a_Size x) j);
   ("hash", λ x j, (λ v, mkAEntry (a_Path x) (a_Mode x) (a_Size x) v (a_Link x) (a_Dir x)) <$> dec_string (a_Hash x) j);
   ("link", λ x j, (λ v, mkAEntry (a_Path x) (a_Mode x) (a_Size x) (a_Hash x) v (a_Dir x)) <$> dec_string (a_Link x) j);
   ("dir", λ x j, (λ v, mkAEntry (a_Path x) (a_Mode x) (a_Size x) (a_Hash x) (a_Link x) v) <$> dec_bool (a_Dir x) j)].

#[global] Program Instance agent_entry_codec : Codec Entry := {|
  to_json x := JObj (
    ("path", JStr (a_Path x)) ::
    ("mode", enc_int (a_Mode x)) ::
    ("size", enc_int (a_Size x)) ::
    opt_field (nonempty (a_Hash x)) "hash" (JStr (a_Hash x)) ++
    opt_field (nonempty (a_Link x)) "link" (JStr (a_Link x)) ++
    opt_field (a_Dir x) "dir" (JBool (a_Dir x)) ++ []);
  of_json := dec_struct (mkAEntry "" 0 0 "" "" false) agent_entry_fields;
  codec_dom x := utf8 (a_Path x) ∧ uint32 (a_Mode x) ∧ int64 (a_Size x) ∧ utf8 (a_Hash x) ∧ utf8 (a_Link x)
|}.
Next Obligation.
  intros x Hx. destruct x. cbn [a_Path a_Mode a_Size a_Hash a_Link a_Dir] in Hx. destruct_and! Hx. split.
  - cbn [a_Path a_Mode a_Size a_Hash a_Link a_Dir]. repeat agent_wf.
  - unfold dec_struct. cbn [a_Path a_Mode a_Size a_Hash a_Link a_Dir]. do 6 agent_fill. done.
Qed.

Definition request_fields : list (field Request) :=
  [("op", λ x j, (λ v, mkRequest v (q_Dir x) (q_Env x) (q_Cmd x) (q_Path x) (q_Mode x) (q_Size x) (q_Link x) (q_IsDir x)) <$> dec_string (q_Op x) j);
   ("dir", λ x j, (λ v, mkRequest (q_Op x) v (q_Env x) (q_Cmd x) (q_Path x) (q_Mode x) (q_Size x) (q_Link x) (q_IsDir x)) <$> dec_string (q_Dir x) j);
   ("env", λ x j, (λ v, mkRequest (q_Op x) (q_Dir x) v (q_Cmd x) (q_Path x) (q_Mode x) (q_Size x) (q_Link x) (q_IsDir x)) <$> dec_list (dec_string "") (q_Env x) j);
   ("cmd", λ x j, (λ v, mkRequest (q_Op x) (q_Dir x) (q_Env x) v (q_Path x) (q_Mode x) (q_Size x) (q_Link x) (q_IsDir x)) <$> dec_list (dec_string "") (q_Cmd x) j);
   ("path", λ x j, (λ v, mkRequest (q_Op x) (q_Dir x) (q_Env x) (q_Cmd x) v (q_Mode x) (q_Size x) (q_Link x) (q_IsDir x)) <$> dec_string (q_Path x) j);
   ("mode", λ x j, (λ v, mkRequest (q_Op x) (q_Dir x) (q_Env x) (q_Cmd x) (q_Path x) v (q_Size x) (q_Link x) (q_IsDir x)) <$> dec_int uint32 (q_Mode x) j);
   ("size", λ x j, (λ v, mkRequest (q_Op x) (q_Dir x) (q_Env x) (q_Cmd x) (q_Path x) (q_Mode x) v (q_Link x) (q_IsDir x)) <$> dec_int int64 (q_Size x) j);
   ("link", λ x j, (λ v, mkRequest (q_Op x) (q_Dir x) (q_Env x) (q_Cmd x) (q_Path x) (q_Mode x) (q_Size x) v (q_IsDir x)) <$> dec_string (q_Link x) j);
   ("is_dir", λ x j, (λ v, mkRequest (q_Op x) (q_Dir x) (q_Env x) (q_Cmd x) (q_Path x) (q_Mode x) (q_Size x) (q_Link x) v) <$> dec_bool (q_IsDir x) j)].

#[global] Program Instance request_codec : Codec Request := {|
  to_json x := JObj (
    ("op", JStr (q_Op x)) ::
    opt_field (nonempty (q_Dir x)) "dir" (JStr (q_Dir x)) ++
    opt_field (nonnil (q_Env x)) "env" (JArr (map JStr (q_Env x))) ++
    opt_field (nonnil (q_Cmd x)) "cmd" (JArr (map JStr (q_Cmd x))) ++
    opt_field (nonempty (q_Path x)) "path" (JStr (q_Path x)) ++
    opt_field (nonzero (q_Mode x)) "mode" (enc_int (q_Mode x)) ++
    opt_field (nonzero (q_Size x)) "size" (enc_int (q_Size x)) ++
    opt_field (nonempty (q_Link x)) "link" (JStr (q_Link x)) ++
    opt_field (q_IsDir x) "is_dir" (JBool (q_IsDir x)) ++ []);
  of_json := dec_struct (mkRequest "" "" [] [] "" 0 0 "" false) request_fields;
  codec_dom x := utf8 (q_Op x) ∧ utf8 (q_Dir x) ∧ Forall utf8 (q_Env x) ∧ Forall utf8 (q_Cmd x) ∧ utf8 (q_Path x) ∧ uint32 (q_Mode x) ∧ int64 (q_Size x) ∧ utf8 (q_Link x)
|}.
Next Obligation.
  intros x Hx. destruct x. cbn [q_Op q_Dir q_Env q_Cmd q_Path q_Mode q_Size q_Link q_IsDir] in Hx. destruct_and! Hx. split.
  - cbn [q_Op q_Dir q_Env q_Cmd q_Path q_Mode q_Size q_Link q_IsDir]. repeat agent_wf.
  - unfold dec_struct. cbn [q_Op q_Dir q_Env q_Cmd q_Path q_Mode q_Size q_Link q_IsDir]. do 9 agent_fill. done.
Qed.

Definition reply_fields : list (field Reply) :=
  [("ok", λ x j, (λ v, mkReply v (y_Error x) (y_Exit x) (y_Stdout x) (y_Stderr x) (y_Entries x) (y_Size x)) <$> dec_bool (y_OK x) j);
   ("error", λ x j, (λ v, mkReply (y_OK x) v (y_Exit x) (y_Stdout x) (y_Stderr x) (y_Entries x) (y_Size x)) <$> dec_string (y_Error x) j);
   ("exit", λ x j, (λ v, mkReply (y_OK x) (y_Error x) v (y_Stdout x) (y_Stderr x) (y_Entries x) (y_Size x)) <$> dec_int int64 (y_Exit x) j);
   ("stdout", λ x j, (λ v, mkReply (y_OK x) (y_Error x) (y_Exit x) v (y_Stderr x) (y_Entries x) (y_Size x)) <$> dec_string (y_Stdout x) j);
   ("stderr", λ x j, (λ v, mkReply (y_OK x) (y_Error x) (y_Exit x) (y_Stdout x) v (y_Entries x) (y_Size x)) <$> dec_string (y_Stderr x) j);
   ("entries", λ x j, (λ v, mkReply (y_OK x) (y_Error x) (y_Exit x) (y_Stdout x) (y_Stderr x) v (y_Size x)) <$> dec_list of_json (y_Entries x) j);
   ("size", λ x j, (λ v, mkReply (y_OK x) (y_Error x) (y_Exit x) (y_Stdout x) (y_Stderr x) (y_Entries x) v) <$> dec_int int64 (y_Size x) j)].

#[global] Program Instance reply_codec : Codec Reply := {|
  to_json x := JObj (
    opt_field (y_OK x) "ok" (JBool (y_OK x)) ++
    opt_field (nonempty (y_Error x)) "error" (JStr (y_Error x)) ++
    ("exit", enc_int (y_Exit x)) ::
    opt_field (nonempty (y_Stdout x)) "stdout" (JStr (y_Stdout x)) ++
    opt_field (nonempty (y_Stderr x)) "stderr" (JStr (y_Stderr x)) ++
    opt_field (nonnil (y_Entries x)) "entries" (JArr (map to_json (y_Entries x))) ++
    opt_field (nonzero (y_Size x)) "size" (enc_int (y_Size x)) ++ []);
  of_json := dec_struct (mkReply false "" 0 "" "" [] 0) reply_fields;
  codec_dom x := utf8 (y_Error x) ∧ int64 (y_Exit x) ∧ utf8 (y_Stdout x) ∧ utf8 (y_Stderr x) ∧ Forall codec_dom (y_Entries x) ∧ int64 (y_Size x)
|}.
Next Obligation.
  intros x Hx. destruct x. cbn [y_OK y_Error y_Exit y_Stdout y_Stderr y_Entries y_Size] in Hx. destruct_and! Hx. split.
  - cbn [y_OK y_Error y_Exit y_Stdout y_Stderr y_Entries y_Size]. repeat agent_wf.
  - unfold dec_struct. cbn [y_OK y_Error y_Exit y_Stdout y_Stderr y_Entries y_Size]. do 7 agent_fill. done.
Qed.

(** ** The guest *)

(** The text of an error, [err.Error()]. *)
Class ErrorText := { error_text : gerr → string; json_error_text : bytes → string }.

(** [exec.Command(cmd...).Run()] in a directory with an environment added to
    the agent's own: how it ended and what it printed. *)
Inductive ending := EndExit (code : Z) | EndError (e : gerr).
Class GuestProcesses := { guest_Run : list string → string → list string → M world (ending * string * string) }.

(** One connection as the agent has it: what is still to be read, and what has
    been written. *)
Record conn := mkConn { c_in : bytes; c_out : bytes }.

(** [bufio.Reader.ReadBytes('\n')]: the line with its newline, what is left,
    and whether a newline was met. *)
Definition newline : byte := x0a.
Fixpoint cut_line (b : bytes) : bytes * bytes * bool :=
  match b with
  | [] => ([], [], false)
  | c :: r => if decide (c = newline) then ([c], r, true) else let '(l, rest, nl) := cut_line r in (c :: l, rest, nl)
  end.

(** [strings.Contains]. *)
Fixpoint contains (sub s : string) : bool :=
  has_prefix sub s || match s with EmptyString => false | String _ s' => contains sub s' end.

Section agent.
Context `{OsEnv, ErrorText, GuestProcesses}.

Definition read_line : M (world * conn) (bytes * bool) := λ wc,
  let '(l, rest, nl) := cut_line (c_in wc.2) in (Ok (l, nl), (wc.1, mkConn rest (c_out wc.2))).
Definition emit (b : bytes) : M (world * conn) unit := modify_snd (λ c, mkConn (c_in c) (c_out c ++ b)).

(** [io.LimitReader(r, n)] read to its end. *)
Definition take_body (n : Z) : M (world * conn) bytes := λ wc,
  let k := Z.to_nat n in (Ok (take k (c_in wc.2)), (wc.1, mkConn (drop k (c_in wc.2)) (c_out wc.2))).

Definition reply (r : Reply) : M (world * conn) unit := emit (json_Marshal r ++ [newline]).

(** [inside]. *)
Definition inside (root : path) (rel : string) : gerr + path :=
  if bool_decide (rel = "") || has_prefix "/" rel || contains "/../" ("/" +:+ rel +:+ "/")
  then inl (Errorf ("unsafe path " +:+ rel))
  else inr (join root rel).

Definition run (req : Request) (root : path) : M world Reply :=
  match q_Cmd req with
  | [] => mret (mkReply false "" (-1) "" "empty command" [] 0)
  | cmd =>
      let dir := if decide (q_Dir req = "") then path_string root else q_Dir req in
      r ← guest_Run cmd dir (q_Env req);
      let '(e, out, errb) := r in
      match e with
      | EndExit code => mret (mkReply false "" code out errb [] 0)
      | EndError e => mret (mkReply false "" (-1) "" (error_text e) [] 0)
      end
  end.

(** The digest and size of a file, read through a hash. *)
Definition hash_file (p : path) : M world (string * Z) :=
  f ← os_Open p;
  r ← attempt (fd_read f);
  ignore (fd_close f);;
  b ← of_sum r;
  mret (hashOf b, Z.of_nat (length b)).

Definition add_aentry (e : Entry) : M (world * list Entry) unit := modify_snd (λ es, es ++ [e]).

(** The callback of [list]. *)
Definition agent_list_fn (root : path) (p : path) (isDir : bool) (err : option gerr) : M (world * list Entry) unit :=
  match err with
  | Some e => throw e
  | None =>
      let rel := rel_of root p in
      if decide (rel = "") then mret tt else
      info ← on_fst (os_Lstat p);
      let mode := node_mode info in
      if isDir then add_aentry (mkAEntry rel mode 0 "" "" true) else
      match info with
      | NLink _ =>
          target ← on_fst (os_Readlink p);
          add_aentry (mkAEntry rel mode 0 "" target false)
      | NFile _ =>
          r ← on_fst (hash_file p);
          add_aentry (mkAEntry rel mode r.2 r.1 "" false)
      | _ => mret tt
      end
  end.

Definition apath_le (a b : Entry) : Prop := String.le (a_Path a) (a_Path b).
#[global] Instance apath_le_dec a b : Decision (apath_le a b) := _.

Definition agent_list (root : path) : M world (list Entry) :=
  out ← with_local [] (filepath_WalkDir (agent_list_fn root) root);
  mret (merge_sort apath_le out).

(** [io.CopyN(f, r, n)]: too few bytes are [io.EOF]. *)
Definition copy_n (f : path) (n : Z) : M (world * conn) unit :=
  b ← take_body n;
  (if decide (b = []) then mret tt else on_fst (fd_write f b));;
  if decide (Z.of_nat (length b) < n) then throw (Errorf "EOF") else mret tt.

Definition write (root : path) (req : Request) : M (world * conn) unit :=
  p ← of_sum (inside root (q_Path req));
  let mode := if decide (q_Mode req = 0) then o644 else q_Mode req in
  if q_IsDir req then on_fst (os_MkdirAll p (Z.lor mode o700)) else
  if decide (q_Link req ≠ "") then
    on_fst (Prelude.ignore (os_MkdirAll (dir_of p) o755));;
    on_fst (Prelude.ignore (os_Remove p));;
    on_fst (os_Symlink (q_Link req) p)
  else
  on_fst (os_MkdirAll (dir_of p) o755);;
  f ← attempt (on_fst (os_Create p mode));
  match f with
  | inl e => take_body (q_Size req);; throw e
  | inr f =>
      r ← attempt (copy_n f (q_Size req));
      match r with
      | inl e => on_fst (Prelude.ignore (fd_close f));; throw e
      | inr _ => on_fst (fd_close f)
      end
  end.

(** The cases of [Handle]. *)
Definition handle_tree (root : path) : M (world * conn) unit :=
  r ← attempt (on_fst (agent_list root));
  match r with
  | inl e => reply (error_reply (error_text e))
  | inr entries => reply (mkReply true "" 0 "" "" entries 0)
  end.
Definition handle_read (root : path) (req : Request) : M (world * conn) unit :=
  match inside root (q_Path req) with
  | inl e => reply (error_reply (error_text e))
  | inr p =>
      r ← attempt (on_fst (os_ReadFile p));
      match r with
      | inl e => reply (error_reply (error_text e))
      | inr b => reply (mkReply true "" 0 "" "" [] (Z.of_nat (length b)));; emit b
      end
  end.
Definition handle_write (root : path) (req : Request) : M (world * conn) unit :=
  r ← attempt (write root req);
  reply (match r with inl e => error_reply (error_text e) | inr _ => ok_reply end).
Definition handle_clear (root : path) : M (world * conn) unit :=
  ents ← attempt (on_fst (os_ReadDir root));
  on_fst (for_each (match ents with inl _ => [] | inr l => l end) (λ e, Prelude.ignore (os_RemoveAll (join root e.1))));;
  on_fst (Prelude.ignore (os_MkdirAll root o755));;
  reply ok_reply.

Definition handle_op (root : path) (req : Request) : M (world * conn) unit :=
  let op := if decide (q_Op req = "" ∧ q_Cmd req ≠ []) then "exec" else q_Op req in
  if decide (op = "ping") then reply ok_reply else
  if decide (op = "exec") then (r ← on_fst (run req root); reply r) else
  if decide (op = "tree") then handle_tree root else
  if decide (op = "read") then handle_read root req else
  if decide (op = "write") then handle_write root req else
  if decide (op = "clear") then handle_clear root else
  reply (error_reply ("unknown op " +:+ op)).

Definition Handle (root : path) : M (world * conn) unit :=
  l ← read_line;
  let '(line, nl) := l in
  if decide (nl = false ∧ line = []) then mret tt else
  match json_Unmarshal (trim_space line) with
  | None => reply (error_reply ("bad request: " +:+ json_error_text (trim_space line)))
  | Some req => handle_op root req
  end.

End agent.

(** ** The client *)

(** A connection as the client has it. *)
Class ClientConn (S : Type) := {
  conn_Write : bytes → M S unit;
  conn_ReadBytes : M S (bytes * bool);
  conn_ReadFull : Z → M S bytes;
  conn_Close : M S unit
}.

(** [net.DialTimeout("unix", path, ...)]: the connection calls are then on. *)
Class Dialer (S : Type) := { dial : path → M S unit }.

Definition Port : Z := 1024.

Section client.
Context {S : Type} `{Dialer S, ClientConn S, ErrorText}.

Definition connect_line : bytes := to_bytes ("CONNECT " +:+ pretty Port) ++ [newline].

(** [DialFirecracker]; the deadlines are not modelled. *)
Definition DialFirecracker (udsPath : path) : M S unit :=
  dial udsPath;;
  r ← attempt (conn_Write connect_line);
  match r with
  | inl e => Prelude.ignore conn_Close;; throw e
  | inr _ =>
      l ← attempt conn_ReadBytes;
      match l with
      | inr (line, true) =>
          if has_prefix "OK " (of_bytes line) then mret tt
          else Prelude.ignore conn_Close;; throw (Errorf ("guest agent did not accept the connection " +:+ of_bytes line))
      | inr (line, false) => Prelude.ignore conn_Close;; throw (Errorf ("guest agent did not accept the connection " +:+ of_bytes line))
      | inl e => Prelude.ignore conn_Close;; throw (Errorf "guest agent did not accept the connection ")
      end
  end.

(** [Call] up to the close of the connection. *)
Definition call_body (req : Request) (body : bytes) : M S (Reply * bytes) :=
  conn_Write (json_Marshal req ++ [newline]);;
  (if decide (body = []) then mret tt else conn_Write body);;
  l ← attempt conn_ReadBytes;
  match l with
  | inl e => throw (Wrap "reading agent reply: " e)
  | inr (line, false) => throw (Wrap "reading agent reply: " (Errorf "EOF"))
  | inr (line, true) =>
      match json_Unmarshal line with
      | None => throw (Errorf ("bad agent reply " +:+ of_bytes line +:+ ": " +:+ json_error_text line))
      | Some r =>
          if decide (y_Error r ≠ "") then throw (Errorf ("guest agent: " +:+ y_Error r)) else
          if decide (q_Op req = "read") then
            if decide (y_Size r < 0) then panic else
            data ← conn_ReadFull (y_Size r);
            mret (r, data)
          else mret (r, [])
      end
  end.

(** The deferred close runs however the call ends; its error is dropped. *)
Definition Call (req : Request) (body : bytes) : M S (Reply * bytes) :=
  r ← attempt (call_body req body);
  Prelude.ignore conn_Close;;
  of_sum r.

End client.

End Agent.
