(* ===== verification/AgentFacts.v ===== *)
(** * Facts about the agent protocol *)

From S2P Require Import Prelude Sha256 Json JsonFacts Codec Os OsFacts WalkFacts Tree TreeFacts Remote Agent.
Import Json Tree Remote Agent.
Open Scope Z_scope.

(** ** A message is one line *)

Definition plain_byte (b : byte) : Prop := b ≠ newline.

Lemma escape_plain a : Forall plain_byte (escape a).
Proof. destruct a; vm_compute; repeat constructor; discriminate. Qed.

Lemma multi_plain a r l : next_rune a r = Multi l → Forall plain_byte l.
Proof.
  assert ((bN a <? 0x80)%N = false → plain_byte a) as Ha by (intros Ha ->; by vm_compute in Ha).
  assert (∀ b, ok2 a b = true → plain_byte b) as H2.
  { intros b Hb ->. unfold ok2 in Hb. change (cont newline) with false in Hb. by rewrite andb_false_r in Hb. }
  assert (∀ b c, ok3 a b c = true → plain_byte b ∧ plain_byte c) as H3.
  { intros b c Hb. unfold ok3 in Hb. apply andb_true_iff in Hb as [Hb Hc]. split; intros ->; [|done].
    repeat case_match; try done. by rewrite andb_false_r in Hb. }
  assert (∀ b c d, ok4 a b c d = true → plain_byte b ∧ plain_byte c ∧ plain_byte d) as H4.
  { intros b c d Hb. unfold ok4 in Hb. apply andb_true_iff in Hb as [[Hb Hc]%andb_true_iff Hd]. split_and!; intros ->; [|done|done].
    repeat case_match; try done. by rewrite andb_false_r in Hb. }
  unfold next_rune. destruct (bN a <? 0x80)%N; [done|]. specialize (Ha eq_refl).
  destruct r as [|b r]; [done|]. destruct (ok2 a b) eqn:E2; [intros [= <-]; repeat constructor; auto|].
  destruct r as [|c r]; [done|]. destruct (ok3 a b c) eqn:E3; [intros [= <-]; destruct (H3 _ _ E3); by repeat constructor|].
  destruct r as [|d r]; [done|]. destruct (ok4 a b c d) eqn:E4; [intros [= <-]; destruct (H4 _ _ _ E4) as (? & ? & ?); by repeat constructor|done].
Qed.

Lemma runes_plain n s : Forall plain_byte (runes n s ≫= quote_rune).
Proof.
  revert s. induction n as [|n IH]; intros s; [destruct s; constructor|]. destruct s as [|a r]; [constructor|]. simpl.
  apply Forall_app. split; [|apply IH]. destruct (next_rune a r) as [x|l|] eqn:E; simpl.
  - apply escape_plain.
  - repeat case_decide; try (by vm_compute; repeat constructor). by eapply multi_plain.
  - by vm_compute; repeat constructor.
Qed.

Lemma quote_plain s : Forall plain_byte (quote s).
Proof.
  unfold quote. constructor; [done|]. apply Forall_app. split; [apply runes_plain|by repeat constructor].
Qed.

Lemma int_lit_plain z : Forall plain_byte (int_lit z).
Proof.
  assert (∀ u, Forall plain_byte (udigits u)) as Hu.
  { intros u. pose proof (udigits_all u) as Hd. rewrite forallb_forall in Hd. apply Forall_forall. intros b Hb ->.
    specialize (Hd newline). rewrite <- list_elem_of_In in Hd. by specialize (Hd Hb). }
  destruct (int_lit_cases z) as (u & _ & [-> | ->]); [apply Hu|by constructor].
Qed.

Lemma commas_plain d l : Forall (Forall plain_byte) l → Forall plain_byte (commas (λ _, []) d l).
Proof.
  intros Hl. destruct Hl as [|x l Hx Hl]; [constructor|]. simpl. apply Forall_app. split; [done|].
  induction Hl as [|y l Hy _ IH]; [constructor|]. simpl. constructor; [done|]. apply Forall_app. by split.
Qed.

(** Compact JSON is on one line. *)
Lemma print_plain j d : json_wf j → Forall plain_byte (print (λ _, []) [x3a] d j).
Proof.
  revert d. induction j as [|b|lit|s|l IH|l IH] using json_ind'; intros d Hwf.
  - by vm_compute; repeat constructor.
  - by destruct b; vm_compute; repeat constructor.
  - destruct Hwf as [z ->]. apply int_lit_plain.
  - apply quote_plain.
  - apply json_wf_arr in Hwf. destruct l as [|x l]; [by vm_compute; repeat constructor|].
    change (Forall plain_byte (x5b :: commas (λ _, []) (S d) (map (print (λ _, []) [x3a] (S d)) (x :: l)) ++ [x5d])).
    constructor; [done|]. apply Forall_app. split; [|by repeat constructor]. apply commas_plain.
    apply List.Forall_map. rewrite Forall_forall in *. intros y Hy. apply IH; auto.
  - apply json_wf_obj in Hwf. destruct l as [|x l]; [by vm_compute; repeat constructor|].
    change (Forall plain_byte (x7b :: commas (λ _, []) (S d) (map (λ '(k, v), quote (to_bytes k) ++ [x3a] ++ print (λ _, []) [x3a] (S d) v) (x :: l)) ++ [x7d])).
    constructor; [done|]. apply Forall_app. split; [|by repeat constructor]. apply commas_plain.
    apply List.Forall_map. rewrite Forall_forall in *. intros [k v] Hy. cbv beta iota. apply Forall_app. split; [apply quote_plain|]. constructor; [done|].
    apply (IH (k, v) Hy). by apply (Hwf (k, v)).
Qed.

Lemma marshal_plain {A} `{Codec A} (a : A) : json_dom a → Forall plain_byte (json_Marshal a).
Proof. intros Ha. apply print_plain. by apply codec_ok. Qed.

Lemma cut_line_plain l rest : Forall plain_byte l → cut_line (l ++ newline :: rest) = (l ++ [newline], rest, true).
Proof.
  induction 1 as [|b l Hb _ IH]; [done|]. simpl. rewrite decide_False by done. by rewrite IH.
Qed.

(** Trimming a struct's line gives the struct. *)
Lemma trim_object j l : j = JObj l → trim_space (Marshal j ++ [newline]) = Marshal j.
Proof.
  intros ->. assert (∃ m, Marshal (JObj l) = x7b :: m ++ [x7d]) as [m ->].
  { destruct l as [|x l]; [by exists []|].
    exists (commas (λ _, []) 1 (map (λ '(k, v), quote (to_bytes k) ++ [x3a] ++ print (λ _, []) [x3a] 1 v) (x :: l))).
    reflexivity. }
  unfold trim_space. cbn [app trim_left]. change (is_space x7b) with false. cbv iota.
  replace (x7b :: (m ++ [x7d]) ++ [newline]) with ((x7b :: m) ++ [x7d] ++ [newline]) by (cbn; by rewrite <- app_assoc).
  rewrite !reverse_app. cbn [reverse app]. change (reverse [newline]) with [newline]. change (reverse [x7d]) with [x7d].
  cbn [app trim_left]. change (is_space newline) with true. change (is_space x7d) with false. cbv iota.
  rewrite reverse_cons, reverse_involutive. reflexivity.
Qed.

(** ** Paths inside the work tree *)

Lemma string_app_nil_r (s : string) : s +:+ "" = s.
Proof. induction s as [|a s IH]; [done|]. change (String a (s +:+ "") = String a s). by rewrite IH. Qed.

Lemma split_on_app c s1 s2 : split_on c (s1 +:+ String c s2) = split_on c s1 ++ split_on c s2.
Proof.
  induction s1 as [|a s1 IH]; [simpl; by rewrite decide_True|].
  change (split_on c (String a (s1 +:+ String c s2)) = split_on c (String a s1) ++ split_on c s2). cbn [split_on].
  rewrite IH. case_decide; [done|]. pose proof (split_on_not_nil c s1). by destruct (split_on c s1).
Qed.

Lemma contains_spec sub s : contains sub s = true ↔ ∃ a b, s = a +:+ sub +:+ b.
Proof.
  induction s as [|c s IH]; cbn [contains]; rewrite orb_true_iff.
  - split.
    + intros [Hp|]; [|done]. apply has_prefix_inv in Hp as [k Hk]. by exists "", k.
    + intros (a & b & He). left. destruct a; [|done]. change ("" +:+ sub +:+ b) with (sub +:+ b) in He. rewrite He. apply has_prefix_app.
  - rewrite IH. split.
    + intros [Hp|(a & b & ->)]; [apply has_prefix_inv in Hp as [k Hk]; by exists "", k|]. by exists (String c a), b.
    + intros (a & b & He). destruct a as [|c' a]; [left; change ("" +:+ sub +:+ b) with (sub +:+ b) in He; rewrite He; apply has_prefix_app|].
      right. exists a, b. by injection He.
Qed.

Lemma join_around x l1 l2 : ∃ a b, "/" +:+ join_with "/" (l1 ++ x :: l2) +:+ "/" = a +:+ ("/" +:+ x +:+ "/") +:+ b.
Proof.
  induction l1 as [|y l1 (a & b & IH)].
  - destruct l2 as [|y l2]; [exists "", ""; by rewrite string_app_nil_r|].
    exists "", (join_with "/" (y :: l2) +:+ "/"). change ([] ++ x :: y :: l2) with (x :: y :: l2).
    change (join_with "/" (x :: y :: l2)) with (x +:+ "/" +:+ join_with "/" (y :: l2)). cbn [app]. by rewrite <- !string_app_assoc.
  - exists ("/" +:+ y +:+ a), b. cbn [app].
    assert (join_with "/" (y :: l1 ++ x :: l2) = y +:+ "/" +:+ join_with "/" (l1 ++ x :: l2)) as ->.
    { destruct (l1 ++ x :: l2) eqn:E; [by destruct l1|done]. }
    rewrite <- !string_app_assoc in *. do 2 f_equal. exact IH.
Qed.

(** The test of [inside] finds exactly the parent components. *)
Lemma contains_dotdot rel : contains "/../" ("/" +:+ rel +:+ "/") = true ↔ ".." ∈ split_on slash rel.
Proof.
  assert (split_on slash ("/" +:+ rel +:+ "/") = "" :: split_on slash rel ++ [""]) as Hs.
  { change ("/" +:+ rel +:+ "/") with ("" +:+ String slash (rel +:+ String slash "")). by rewrite !split_on_app. }
  rewrite contains_spec. split.
  - intros (a & b & He). rewrite He in Hs. change (a +:+ "/../" +:+ b) with (a +:+ String slash (".." +:+ String slash b)) in Hs.
    rewrite !split_on_app in Hs. assert (".." ∈ "" :: split_on slash rel ++ [""]) as Hin.
    { rewrite <- Hs. apply elem_of_app. right. apply elem_of_app. left. left. }
    rewrite elem_of_cons, elem_of_app, list_elem_of_singleton in Hin. by destruct Hin as [|[|]].
  - intros Hin. apply list_elem_of_split in Hin as (l1 & l2 & Hl).
    destruct (join_around ".." l1 l2) as (a & b & He). exists a, b. rewrite <- (join_split slash rel), Hl. exact He.
Qed.

Lemma clean_onto_filter (p : path) cs :
  ".." ∉ cs → clean_onto p cs = p ++ filter (λ c, c ≠ "" ∧ c ≠ ".") cs.
Proof.
  revert p. induction cs as [|c cs IH]; intros p Hn; [by rewrite app_nil_r|].
  apply not_elem_of_cons in Hn as [Hc Hn]. cbn [clean_onto]. rewrite filter_cons.
  destruct (decide (c = "" ∨ c = ".")) as [Hs|Hs].
  - rewrite decide_False by tauto. by apply IH.
  - rewrite decide_False by done. rewrite decide_True by tauto. rewrite IH by done. by rewrite <- app_assoc.
Qed.

(** C30 (inside_confined): a path the agent accepts is one below the work tree
    with no parent component; it refuses the empty path, an absolute one and
    one with a parent component, and nothing else. *)
Theorem inside_confined root rel :
  match inside root rel with
  | inr p => rel ≠ "" ∧ has_prefix "/" rel = false ∧ ".." ∉ split_on slash rel ∧ below root p ∧
      p = root ++ filter (λ c, c ≠ "" ∧ c ≠ ".") (split_on slash rel)
  | inl _ => rel = "" ∨ has_prefix "/" rel = true ∨ ".." ∈ split_on slash rel
  end.
Proof.
  unfold inside. destruct (bool_decide (rel = "")) eqn:He; cbn [orb]; [left; by apply bool_decide_eq_true in He|].
  destruct (has_prefix "/" rel) eqn:Hp; cbn [orb]; [by right; left|].
  destruct (contains _ _) eqn:Hc; cbn [orb]; [right; right; by apply contains_dotdot|].
  assert (".." ∉ split_on slash rel) as Hd by (intros Hin%contains_dotdot; congruence).
  apply bool_decide_eq_false in He. unfold join. rewrite clean_onto_filter by done. split_and!; try done. by eexists.
Qed.

(** An accepted path, by its components. *)
Lemma inside_good root cs :
  Forall good_name cs → Forall (λ c, has_char slash c = false) cs → cs ≠ [] → inside root (join_with "/" cs) = inr (root ++ cs).
Proof.
  intros Hg Hs Hne. assert (split_on slash (join_with "/" cs) = cs) as Hsp by by apply (split_join slash).
  pose proof (inside_confined root (join_with "/" cs)) as Hi. destruct (inside root _) as [e|p].
  - exfalso. destruct Hi as [He|[Hp|Hd]].
    + apply join_empty in He; done.
    + apply has_prefix_inv in Hp as [k Hk]. rewrite Hk in Hsp. change ("/" +:+ k) with ("" +:+ String slash k) in Hsp.
      rewrite split_on_app in Hsp. destruct cs as [|c cs]; [done|]. injection Hsp as <- _. inversion Hg as [|?? [? _] _]. done.
    + rewrite Hsp in Hd. rewrite Forall_forall in Hg. destruct (Hg _ Hd) as (_ & _ & ?). done.
  - destruct Hi as (_ & _ & _ & _ & ->). rewrite Hsp. do 2 f_equal. clear Hsp Hs Hne.
    induction Hg as [|c cs [? [? ?]] _ IH]; [done|]. rewrite filter_cons, decide_True by done. by rewrite IH.
Qed.

(** ** Listing the work tree *)

Definition to_agent (e : Tree.Entry) : Entry := mkAEntry (e_Path e) (e_Mode e) (e_Size e) (e_Hash e) (e_Link e) (e_Dir e).
Definition to_tree (e : Entry) : Tree.Entry := Tree.mkEntry (a_Path e) (a_Mode e) (a_Size e) (a_Hash e) (a_Link e) (a_Dir e).

Lemma to_tree_agent e : to_tree (to_agent e) = e.
Proof. by destruct e. Qed.

Section list.
Context `{OsEnv} (root : path) (σ0 : fs).

Definition avisit (p : path) (n : node) : list Entry * bool := let v := visit None root p n in (to_agent <$> v.1, v.2).

Definition list_inv (es : list Entry) (w : world) : Prop := w_fs w = σ0.
Definition list_fail (w : world) : Prop := w_fs w = σ0 ∧ ¬ quiet.

Lemma wp_hash_file p f w :
  fs_wf (w_fs w) → w_fs w !! p = Some (NFile f) →
  wp (hash_file p) (λ v w', w_fs w' = w_fs w ∧
    match v with inr r => r = (hashOf (contents f), f_size f) | inl e => e ≠ SkipDir ∧ ¬ quiet end) w.
Proof.
  intros Hwf Hp. unfold hash_file. wp_step. eapply (wp_Open p (NFile f)); [done|done|by intros t|by intros e He; split_and!|].
  wp_step. wp_step. eapply (wp_read p f); [done|..].
  - intros e He. wp_step. wp_step. apply wp_close; intros; wp_step; wp_step; by split_and!.
  - wp_step. wp_step. apply wp_close; intros; wp_step; wp_step; wp_step; (split; [done|]);
      unfold f_size, contents; by rewrite length_fmap.
Qed.

Lemma list_walk_ok : fs_wf σ0 → walk_ok (agent_list_fn root) σ0 root avisit list_inv list_fail.
Proof.
  intros Hwf. unfold list_inv, list_fail. split; try done.
  - by intros xs w ->.
  - by intros xs w -> q Hq.
  - intros p nd xs w Hp Hnd HI. unfold agent_list_fn, avisit, visit. cbn [ignored].
    case_decide as Hrel; [wp_step; cbn; by rewrite app_nil_r|]. cbn [fst snd].
    wp_step. wp_step. apply (wp_Lstat_some p nd); [by rewrite HI|by rewrite HI|by intros e Hq; simpl|].
    destruct nd as [f|m|t|m]; cbn [is_dir_node].
    + wp_step. wp_step. wp_use (wp_hash_file p f); [by simpl; rewrite HI|by simpl; rewrite HI|]. intros [e|r] w1 [Hfs Hv].
      * destruct Hv. rewrite decide_False by done. simpl in *. by rewrite Hfs.
      * subst r. unfold add_aentry. wp_step. simpl in *. by rewrite Hfs.
    + unfold add_aentry. wp_step. done.
    + wp_step. wp_step. apply (wp_Readlink p t); [by simpl; rewrite HI|by simpl; rewrite HI|by intros e Hq; simpl|].
      unfold add_aentry. wp_step. done.
    + wp_step. simpl. by rewrite app_nil_r.
  - intros p d xs e w HI Hq. simpl. wp_step. by exists (Errno e).
Qed.

Lemma walk_items_agent n p : walk_items σ0 avisit n p = to_agent <$> walk_items σ0 (visit None root) n p.
Proof.
  revert p. induction n as [|k IH]; intros p; [done|]. cbn [walk_items]. destruct (σ0 !! p) as [nd|]; [|done].
  rewrite fmap_app. unfold avisit at 1 2. cbn [fst snd]. f_equal. destruct (_ && _); [|done].
  induction (children σ0 p) as [|c l IHl]; [done|]. cbn. rewrite fmap_app, IH. f_equal. exact IHl.
Qed.

#[local] Instance apath_le_trans : Transitive apath_le.
Proof. intros a b c. unfold apath_le. apply transitivity. Qed.
#[local] Instance apath_le_total : Total apath_le.
Proof. intros a b. unfold apath_le. apply (total String.le). Qed.

Lemma sorted_to_tree l : StronglySorted apath_le l → StronglySorted path_le (to_tree <$> l).
Proof.
  induction 1 as [|a l Hl IH Ha]; [constructor|]. rewrite fmap_cons. constructor; [done|].
  apply Forall_fmap. eapply Forall_impl; [exact Ha|]. by intros b.
Qed.

(** The agent lists what a snapshot of the work tree records. *)
Lemma wp_agent_list w :
  w_fs w = σ0 → fs_wf σ0 → is_dir σ0 root → (∀ cs, is_Some (σ0 !! (root ++ cs)) → Forall (λ c, has_char slash c = false) cs) →
  wp (agent_list root) (λ v w', w_fs w' = σ0 ∧
    match v with inr es => snapshot_of None root σ0 (mkTree (to_tree <$> es)) | inl _ => ¬ quiet end) w.
Proof.
  intros Hσ Hwf [m Hdir] Hnames. unfold agent_list. wp_step. wp_step.
  wp_use (wp_WalkDir (agent_list_fn root) σ0 root avisit list_inv list_fail); [by apply list_walk_ok|done|done|done|].
  intros [e|[]] [w1 es]; unfold walk_post; cbn [fst snd]; [by intros [_ ?]|]. intros [HI ->]. wp_step. split; [done|].
  pose proof (snapshot_of_items None root σ0 Hwf Hnames) as [He _ Hnd]. cbn [t_Entries] in *.
  set (items := walk_items σ0 (visit None root) (S (depth σ0)) root) in *. rewrite walk_items_agent. fold items.
  assert (to_tree <$> merge_sort apath_le (to_agent <$> items) ≡ₚ items) as Hperm.
  { rewrite merge_sort_Permutation, <- list_fmap_compose. rewrite (list_fmap_ext _ id); [by rewrite list_fmap_id|].
    intros i e _. apply to_tree_agent. }
  split; cbn [t_Entries].
  - intros e. rewrite <- He, elem_of_Sorted. by rewrite Hperm.
  - apply sorted_to_tree, StronglySorted_merge_sort; apply _.
  - rewrite Hperm. unfold Sorted in Hnd. by rewrite merge_sort_Permutation in Hnd.
Qed.

End list.

(** ** One request *)

Lemma cut_request {A} `{Codec A} (a : A) rest :
  json_dom a → cut_line (json_Marshal a ++ newline :: rest) = (json_Marshal a ++ [newline], rest, true).
Proof. intros Ha. apply cut_line_plain. by apply marshal_plain. Qed.

(** The newline that ends a message is space to the parser. *)
Lemma unmarshal_line {A} `{Codec A} (a : A) : json_dom a → json_Unmarshal (json_Marshal a ++ [newline]) = Some a.
Proof.
  intros Ha. cbn [json_Unmarshal json_Marshal codec_GoJSON]. destruct (codec_ok a Ha) as [Hwf Hdec].
  unfold Marshal. rewrite parse_print_ws; [exact Hdec|done|done|done|done].
Qed.

Section handle.
Context `{OsEnv, ErrorText, GuestProcesses} (root : path).

Lemma wp_Handle req body out Q w :
  json_dom req → wp (handle_op root req) Q (w, mkConn body out) →
  wp (Handle root) Q (w, mkConn (json_Marshal req ++ newline :: body) out).
Proof.
  intros Hd Hq. unfold Handle. wp_step. unfold wp at 1, read_line. cbn [c_in c_out fst snd].
  rewrite cut_request by done. rewrite decide_False by (by intros [Hfalse Hl]).
  assert (trim_space (json_Marshal req ++ [newline]) = json_Marshal req) as -> by by eapply trim_object.
  by rewrite json_roundtrip.
Qed.

Lemma wp_reply y Q w i o :
  Q (inr tt) (w, mkConn i (o ++ json_Marshal y ++ [newline])) → wp (reply y) Q (w, mkConn i o).
Proof. intros HQ. unfold reply, emit. by wp_step. Qed.

(** A request with a name goes to its case. *)
Lemma named_op req : q_Op req ≠ "" → (if decide (q_Op req = "" ∧ q_Cmd req ≠ []) then "exec" else q_Op req) = q_Op req.
Proof. intros Hne. by rewrite decide_False by (intros [He Hc]; done). Qed.
Lemma op_read req : q_Op req = "read" → handle_op root req = handle_read root req.
Proof. intros Ho. unfold handle_op. rewrite named_op by by rewrite Ho. by rewrite Ho. Qed.
Lemma op_write req : q_Op req = "write" → handle_op root req = handle_write root req.
Proof. intros Ho. unfold handle_op. rewrite named_op by by rewrite Ho. by rewrite Ho. Qed.
Lemma op_tree req : q_Op req = "tree" → handle_op root req = handle_tree root.
Proof. intros Ho. unfold handle_op. rewrite named_op by by rewrite Ho. by rewrite Ho. Qed.

(** Reading a file answers with its size and its bytes. *)
Lemma wp_handle_read req cs f w i :
  quiet → fs_wf (w_fs w) → q_Op req = "read" → inside root (q_Path req) = inr (root ++ cs) →
  w_fs w !! (root ++ cs) = Some (NFile f) →
  wp (handle_op root req) (λ v wc, v = inr tt ∧ w_fs wc.1 = w_fs w ∧
    c_out wc.2 = (json_Marshal (mkReply true "" 0 "" "" [] (Z.of_nat (length (contents f)))) ++ [newline]) ++ contents f)
    (w, mkConn i []).
Proof.
  intros Hq Hwf Hop Hp Hf. rewrite op_read by done. unfold handle_read. rewrite Hp. wp_step. wp_step. wp_step. eapply (wp_ReadFile _ f); [done|done|done|].
  intros w' Hfs _. wp_step. apply wp_reply. unfold emit. wp_step. split_and!; [done|done|]. done.
Qed.

(** Copying the body into an empty file. *)
Lemma wp_copy_n p f body w :
  quiet → w_fs w !! p = Some (NFile f) → f_cells f = [] →
  wp (copy_n p (Z.of_nat (length body))) (λ v wc, v = inr tt ∧ c_out wc.2 = [] ∧
    ∃ f', w_fs wc.1 = <[p := NFile f']> (w_fs w) ∧ contents f' = body ∧ f_mode f' = f_mode f) (w, mkConn body []).
Proof.
  intros Hq Hp Hf. unfold copy_n. wp_step. unfold wp at 1, take_body. cbn [c_in c_out fst snd].
  rewrite Nat2Z.id, firstn_all, drop_all.
  destruct (decide (body = [])) as [->|Hb].
  - wp_step. wp_step. rewrite decide_False by lia. wp_step. split_and!; [done|done|]. exists f. split_and!; [by rewrite insert_id| |done].
    unfold contents. by rewrite Hf.
  - wp_step. wp_step. eapply (wp_write _ f); [done|done|]. intros t. rewrite decide_False by lia. wp_step.
    split_and!; [done|done|]. eexists. split_and!; [done| |done]. unfold contents. simpl. rewrite Hf. simpl. rewrite <- list_fmap_compose.
    apply (list_fmap_id body).
Qed.

(** The mode a write asks for. *)
Definition want_mode (m : Z) : Z := if decide (m = 0) then o644 else m.

(** What a write request makes at a path where nothing was. *)
Definition made (req : Request) (body : bytes) (n : node) : Prop :=
  if q_IsDir req then n = NDir (perm (Z.lor (want_mode (q_Mode req)) o700))
  else if decide (q_Link req ≠ "") then n = NLink (q_Link req)
  else ∃ f, n = NFile f ∧ contents f = body ∧ f_mode f = perm (want_mode (q_Mode req)).

Lemma wp_write_dir req p Q (w : world) c :
  q_IsDir req = true → inside root (q_Path req) = inr p →
  wp (os_MkdirAll p (Z.lor (want_mode (q_Mode req)) o700)) (λ r w', Q r (w', c)) w → wp (write root req) Q (w, c).
Proof. intros Hd Hin HQ. unfold write. rewrite Hin, Hd. wp_step. wp_step. by wp_step. Qed.

(** A path is made in a directory that exists. *)
Lemma wp_write_new req d c body w :
  quiet → fs_wf (w_fs w) → q_Size req = Z.of_nat (length body) →
  inside root (q_Path req) = inr (d ++ [c]) → is_dir (w_fs w) d → good_name c → w_fs w !! (d ++ [c]) = None →
  wp (write root req) (λ v wc, v = inr tt ∧ c_out wc.2 = [] ∧
    ∃ n, w_fs wc.1 = <[d ++ [c] := n]> (w_fs w) ∧ made req body n) (w, mkConn body []).
Proof.
  intros Hq Hwf Hsz Hin Hd Hg Hn. unfold made. destruct (q_IsDir req) eqn:Hdir.
  { eapply wp_write_dir; [done|done|]. wp_use wp_MkdirAll_child; [done|done|done|done|].
    intros v w1 [_ Hv]. destruct v as [[]|[]]; try (by destruct Hv). split_and!; [done|done|]. by eexists. }
  unfold write. rewrite Hin, Hdir, Hsz. fold (want_mode (q_Mode req)). wp_step. wp_step.
  assert (dir_of (d ++ [c]) = d) as -> by apply removelast_snoc. destruct (decide (q_Link req ≠ "")) as [Hl|Hl].
  - wp_step. wp_step. wp_step. wp_use wp_MkdirAll_dir; [done|done|]. intros v w1 (Hfs1 & _ & _).
    wp_step. wp_step. wp_step. apply wp_sys; [by intros e Hne|]. rewrite Hfs1, find_node_none by done. cbn [lift_errno fst snd].
    wp_step. apply wp_Symlink; simpl; rewrite ?Hfs1; [done|done|done|by intros e Hne|].
    rewrite Hn. split_and!; [done|done|]. eexists. simpl. by rewrite ?Hfs1.
  - wp_step. wp_step. wp_use wp_MkdirAll_dir; [done|done|]. intros v w1 (Hfs1 & _ & Hv). destruct v as [[]|[]]; try done. clear Hv.
    wp_step. wp_step. wp_step. apply wp_Create; rewrite ?Hfs1; [done|done|done|done|]. rewrite Hn. intros t i.
    wp_step. wp_step. wp_use (wp_copy_n (d ++ [c])); [done|simpl; apply lookup_insert_eq|done|].
    intros v [w3 [ci o]] (-> & Ho & f' & Hw3 & Hc & Hm). cbn [fst snd c_out] in *. wp_step. apply wp_close; [done|].
    split_and!; [done|done|]. exists (NFile f'). split; [|by exists f'].
    simpl in *. by rewrite Hw3, ?Hfs1, insert_insert_eq.
Qed.

Lemma handled_write req body Q w :
  q_Op req = "write" →
  wp (write root req) (λ v wc, v = inr tt ∧ c_out wc.2 = [] ∧
    ∀ i, Q (inr tt) (wc.1, mkConn i (json_Marshal ok_reply ++ [newline]))) (w, mkConn body []) →
  wp (handle_op root req) Q (w, mkConn body []).
Proof.
  intros Hop Hw. rewrite op_write by done. unfold handle_write. wp_step. wp_step. wp_use Hw.
  intros v [w' [i o]] (-> & Ho & HQ). cbn [c_out fst snd] in *. subst o. apply wp_reply. apply HQ.
Qed.

(** Clearing leaves the work tree an empty directory. *)
Definition cleared (σ σ' : fs) : Prop :=
  fs_wf σ' ∧ ∀ q, σ' !! q = if decide (below root q ∧ q ≠ root) then None else σ !! q.

Lemma wp_clear_children w :
  quiet → fs_wf (w_fs w) → is_dir (w_fs w) root →
  (∀ c, is_Some (w_fs w !! (root ++ [c])) → has_char slash c = false) →
  wp (for_each (dirent_of (w_fs w) root <$> children (w_fs w) root) (λ e, Prelude.ignore (os_RemoveAll (join root e.1))))
    (λ v w', v = inr tt ∧ cleared (w_fs w) (w_fs w')) w.
Proof.
  intros Hq Hwf [m Hm] Hslash. set (σ := w_fs w) in *. set (at_name (e : dirent) := root ++ [e.1]).
  eapply wp_for_each with (I := λ dn w1, fs_wf (w_fs w1) ∧ without (at_name <$> dn) σ (w_fs w1)).
  - split; [done|]. apply without_nil.
  - intros dn [c b] todo w1 Hl [Hwf1 Hlook]. cbn [fst].
    assert (is_Some (σ !! (root ++ [c]))) as Hc.
    { apply elem_of_children. assert ((c, b) ∈ dirent_of σ root <$> children σ root) as Hin.
      { rewrite Hl. apply elem_of_app. right. left. }
      apply list_elem_of_fmap in Hin as (c' & Heq & Hc'). by injection Heq as -> _. }
    assert (good_name c) as Hg by (apply (fs_wf_names σ root [c] Hwf) in Hc; by inversion Hc).
    assert (join root c = root ++ [c]) as ->.
    { unfold join. rewrite split_on_no_sep by by apply Hslash. apply clean_onto_good. by constructor. }
    assert (is_dir (w_fs w1) root) as Hd1.
    { exists m. destruct (Hlook root) as [[(x & Hx & [k Hk]) _]|[_ ->]]; [|done].
      apply list_elem_of_fmap in Hx as (e & -> & _). unfold at_name in Hk.
      apply (f_equal length) in Hk. rewrite !length_app in Hk. simpl in Hk. lia. }
    wp_step. apply wp_RemoveAll; [done|done|done|by intros e Hne|]. cbn [w_fs tick set_fs].
    split; [apply fs_wf_remove; [done|by destruct root]|]. rewrite fmap_app. by apply without_snoc.
  - intros w1 [Hwf1 Hlook]. split; [done|]. split; [done|]. intros q.
    rewrite <- list_fmap_compose in Hlook. destruct (decide (below root q ∧ q ≠ root)) as [[[k Hk] Hne]|Hno].
    + destruct (Hlook q) as [[_ ?]|[Hgq Hsame]]; [done|]. rewrite Hsame. destruct (σ !! q) as [n|] eqn:E; [|done]. exfalso.
      destruct k as [|c k]; [by rewrite app_nil_r in Hk|]. apply Hgq. exists (root ++ [c]). split; [|exists k; by rewrite <- app_assoc].
      apply list_elem_of_fmap. exists c. split; [done|]. apply elem_of_children.
      destruct (decide (k = [])) as [->|Hkn]; [by subst q; eexists|].
      destruct (fs_wf_up σ (root ++ [c]) k Hwf Hkn) as [m' Hm']; [rewrite <- app_assoc; subst q; by eexists|]. by eexists.
    + destruct (Hlook q) as [[(p & Hp & k & Hk) _]|[_ ?]]; [|done]. exfalso. apply Hno.
      apply list_elem_of_fmap in Hp as (c & -> & _). change ((at_name ∘ dirent_of σ root) c) with (root ++ [c]) in Hk.
      rewrite <- app_assoc in Hk. subst q. split; [by eexists|].
      intros Hr. apply (f_equal length) in Hr. rewrite !length_app in Hr. simpl in Hr. lia.
Qed.

Lemma wp_handle_clear body w :
  quiet → fs_wf (w_fs w) → is_dir (w_fs w) root → (∀ c, is_Some (w_fs w !! (root ++ [c])) → has_char slash c = false) →
  wp (handle_op root (request "clear")) (λ v wc, v = inr tt ∧ c_out wc.2 = json_Marshal ok_reply ++ [newline] ∧
    cleared (w_fs w) (w_fs wc.1)) (w, mkConn body []).
Proof.
  intros Hq Hwf [m Hm] Hs. change (handle_op root (request "clear")) with (handle_clear root). unfold handle_clear.
  wp_step. wp_step. wp_step. eapply wp_ReadDir; [done|done|done|]. wp_step. wp_step.
  wp_use (wp_clear_children (tick w)); [done|done|by eexists|done|]. intros v w1 [-> Hcl].
  assert (is_dir (w_fs w1) root) as Hd.
  { exists m. destruct Hcl as [_ ->]. rewrite decide_False by (by intros [_ Hne]). done. }
  wp_step. wp_step. wp_step. wp_use wp_MkdirAll_dir; [apply Hcl|done|]. intros v w2 (Hfs2 & _ & _). apply wp_reply.
  split_and!; [done|done|]. simpl. by rewrite Hfs2.
Qed.

End handle.
