(* ===== verification/Strconv.v ===== *)
(** * Numbers as text (package strconv) *)

From S2P Require Import Prelude.
Open Scope Z_scope.

Definition digit_of (c : ascii) : option Z :=
  let n := Z.of_N (Ascii.N_of_ascii c) in if decide (48 ≤ n ≤ 57) then Some (n - 48) else None.

Fixpoint digits_onto (acc : Z) (s : string) : option Z :=
  match s with
  | EmptyString => Some acc
  | String c s' => d ← digit_of c; digits_onto (acc * 10 + d) s'
  end.
Definition unsigned (s : string) : option Z := if decide (s = "") then None else digits_onto 0 s.

(** The value [strconv.Atoi] returns, its error dropped: zero for text that is
    no number, the nearest [int] for one out of range. *)
Definition clamp (z : Z) : Z := Z.max (- 2 ^ 63) (Z.min z (2 ^ 63 - 1)).
Definition Atoi (s : string) : Z :=
  match s with
  | String c s' =>
      if decide (c = Ascii.ascii_of_byte x2d) then default 0 (clamp ∘ Z.opp <$> unsigned s')
      else if decide (c = Ascii.ascii_of_byte x2b) then default 0 (clamp <$> unsigned s')
      else default 0 (clamp <$> unsigned s)
  | EmptyString => 0
  end.

Lemma Atoi_int64 s : - 2 ^ 63 ≤ Atoi s < 2 ^ 63.
Proof.
  assert (∀ o : option Z, - 2 ^ 63 ≤ default 0 (clamp <$> o) < 2 ^ 63) as Hc.
  { intros [z|]; simpl; unfold clamp; lia. }
  unfold Atoi. destruct s as [|c s]; [lia|]. repeat case_decide; try apply Hc.
  rewrite option_fmap_compose. apply Hc.
Qed.

Example Atoi_42 : Atoi "42" = 42.
Proof. reflexivity. Qed.
