(* ===== verification/Firecracker.v ===== *)
(** * The Firecracker backend (src/internal/fcvm/firecracker.go, guest.go)

    Each sandbox is a microVM in a directory of its own under the run
    directory.  Firecracker itself, the host's processes and sockets and the
    tools [cp] and [mkfs.ext4] are parameters ([Host]); what the driver does
    between them is the source's, call by call. *)

From S2P Require Import Prelude Sha256 Json Codec Strconv Os OsFacts Cas Tree Remote Backend Agent.
Import Json Tree Remote Backend Agent.
Open Scope Z_scope.

Module Firecracker.

(** Where a process's status and command line are read from. *)
Inductive proc_entry := ProcStat | ProcCmdline.

(** The host: processes, the API of a VM, sockets and tools.  [F] is the state
    of the VMs.  [cmd_Output] is [CombinedOutput] with the output trimmed,
    [deadline] how often a loop runs before its deadline. *)
Class Host (F : Type) := {
  getwd : gerr + path;
  kill_0 : Z → M (world * F) bool;
  kill_9 : Z → M (world * F) unit;
  proc_file : proc_entry → Z → M (world * F) bytes;
  cmd_Start : list string → path → path → M (world * F) Z;
  cmd_Output : list string → M (world * F) (option gerr * string);
  http_call : path → string → string → option bytes → M (world * F) (Z * string * bytes);
  dial_probe : path → M (world * F) bool;
  deadline : Z → M (world * F) nat
}.

Record Config := mkConfig {
  FirecrackerBin : string;
  KernelImage : string;
  RootFS : string;
  RunDir : string;
  VCPUs : Z;
  MemMiB : Z;
  BootArgs : string;
  AgentTimeout : Z;
  DiskMode : string;
  UpperGiB : Z
}.

(** The driver; [run_dir] is [cfg.RunDir] made absolute. *)
Record Firecracker := mkFirecracker { cfg : Config; run_dir : path }.

Definition DefaultBootArgs : string := "console=ttyS0 reboot=k panic=1 pci=off init=/sbin/vit-init".

Definition or_string (s d : string) : string := if decide (s = "") then d else s.
Definition or_int (n d : Z) : Z := if decide (n = 0) then d else n.
Definition second : Z := 1000000000.

(** [filepath.Abs] of a path that is not empty. *)
Definition filepath_Abs {F} `{Host F} (p : string) : gerr + path :=
  if has_prefix "/" p then inr (join [] p) else (λ d, join d p) <$> getwd.

(** The settings [New] fills in. *)
Definition with_defaults (run : string) (c : Config) : Config := mkConfig
  (or_string (FirecrackerBin c) "firecracker") (KernelImage c) (RootFS c) run
  (or_int (VCPUs c) 1) (or_int (MemMiB c) 512) (or_string (BootArgs c) DefaultBootArgs)
  (or_int (AgentTimeout c) (60 * second)) (or_string (DiskMode c) "overlay") (or_int (UpperGiB c) 8).

(** [strings.ReplaceAll(id, "_", "-")]. *)
Fixpoint underscores (s : string) : string :=
  match s with
  | EmptyString => EmptyString
  | String a s' => String (if decide (a = Ascii.ascii_of_byte x5f) then Ascii.ascii_of_byte x2d else a) (underscores s')
  end.

(** [bytes.Contains]. *)
Fixpoint bytes_contain (sub b : bytes) : bool :=
  bool_decide (take (length sub) b = sub) || match b with [] => false | _ :: b' => bytes_contain sub b' end.

(** [bytes.LastIndexByte(stat, ')')] and the state letter two bytes on. *)
Fixpoint last_index (c : byte) (b : bytes) : option nat :=
  match b with
  | [] => None
  | x :: r => match last_index c r with Some i => Some (S i) | None => if decide (x = c) then Some O else None end
  end.
Definition not_zombie (stat : bytes) : bool :=
  match last_index x29 stat with
  | Some i => match stat !! (i + 2)%nat with Some s => bool_decide (s ≠ x5a) | None => true end
  | None => true
  end.

(** A JSON object from a map literal: keys in order. *)
Definition obj (l : list (string * json)) : bytes := Marshal (JObj l).
Definition jstr (s : string) : json := JStr s.

(** [os.OpenFile(p, O_CREATE|O_APPEND|O_WRONLY, 0644)]. *)
Definition os_OpenAppend `{OsEnv} (p : path) : M world path := sys (λ t σ,
  match resolve σ true p with
  | inl e => (inl e, σ)
  | inr q => match σ !! q with
             | Some (NFile _) => (inr q, σ)
             | Some (NDir _) => (inl EISDIR, σ)
             | Some _ => (inl ENXIO, σ)
             | None => (inr q, <[q := NFile (File (perm o644) [] (clock t) t)]> σ)
             end
  end).

(** A call to the API: method, path and body. *)
Definition call : Type := string * string * bytes.

Section driver.
Context `{OsEnv, ErrorText} {F : Type} `{Host F, Dialer (world * F), ClientConn (world * F)}.

Definition New (c : Config) : M world Firecracker :=
  let run := or_string (RunDir c) (path_string (join tempdir "vit-fc")) in
  abs ← of_sum (filepath_Abs run);
  os_MkdirAll abs o755;;
  mret (mkFirecracker (with_defaults (path_string abs) c) abs).

Section machine.
Context (f : Firecracker) (id : string).

Definition dir : path := join (run_dir f) id.
Definition apiSock : path := join dir "api.sock".
Definition vsock : path := join dir "v.sock".
Definition LogPath : path := join dir "fc.log".
Definition baseFile : path := join dir "base".

Definition pid : M (world * F) Z :=
  b ← attempt (on_fst (os_ReadFile (join dir "pid")));
  match b with
  | inl _ => mret 0
  | inr b => mret (Atoi (of_bytes (trim_space b)))
  end.

Definition alive (p : Z) : M (world * F) bool :=
  if decide (p ≤ 0) then mret false else
  up ← kill_0 p;
  if negb up then mret false else
  stat ← attempt (proc_file ProcStat p);
  match stat with
  | inl _ => mret false
  | inr stat => mret (not_zombie stat)
  end.

Definition fc_Running : M (world * F) bool :=
  p ← pid;
  up ← alive p;
  if negb up then mret false else
  cmdline ← attempt (proc_file ProcCmdline p);
  mret (bytes_contain (to_bytes (path_string apiSock)) (match cmdline with inl _ => [] | inr b => b end)).

(** [api]. *)
Definition api (method path : string) (body : bytes) : M (world * F) unit :=
  r ← http_call apiSock method path (Some body);
  let '(code, status, msg) := r in
  if decide (300 ≤ code)
  then throw (Errorf ("firecracker " +:+ method +:+ " " +:+ path +:+ ": " +:+ status +:+ ": " +:+ of_bytes (trim_space (take 4096 msg))))
  else mret tt.

(** The wait for the API socket in [spawn]: [n] tries before the deadline. *)
Fixpoint wait_api (n : nat) (p : Z) : M (world * F) unit :=
  match n with
  | O => kill_9 p;; throw (Errorf ("firecracker API socket never came up for " +:+ id +:+ " (see " +:+ path_string LogPath +:+ ")"))
  | S k => up ← dial_probe apiSock; if up : bool then mret tt else wait_api k p
  end.

Definition start_firecracker : M (world * F) unit :=
  p ← attempt (cmd_Start [FirecrackerBin (cfg f); "--api-sock"; path_string apiSock; "--id"; underscores id] dir LogPath);
  match p with
  | inl e => throw (Wrap "starting firecracker: " e)
  | inr p =>
      on_fst (os_WriteFile (join dir "pid") (to_bytes (pretty p)) o644);;
      n ← deadline (10 * second);
      wait_api n p
  end.

(** [spawn]; the log is closed on every path. *)
Definition spawn : M (world * F) unit :=
  on_fst (os_MkdirAll dir o755);;
  on_fst (ignore (os_Remove apiSock));;
  on_fst (ignore (os_Remove vsock));;
  logf ← on_fst (os_OpenAppend LogPath);
  r ← attempt start_firecracker;
  on_fst (ignore (fd_close logf));;
  of_sum r.

(** [int64(g)<<30]. *)
Definition gib (g : Z) : Z := (Z.shiftl g 30 + 2 ^ 63) mod 2 ^ 64 - 2 ^ 63.
Definition upperTemplate : M (world * F) path :=
  let p := join (run_dir f) ("upper-" +:+ pretty (UpperGiB (cfg f)) +:+ "g.ext4") in
  st ← attempt (on_fst (os_Stat p));
  match st with
  | inr _ => mret p
  | inl _ =>
      tmp ← on_fst (os_CreateTemp (run_dir f) ".upper-");
      on_fst (ignore (fd_close tmp));;
      on_fst (fd_truncate tmp (gib (UpperGiB (cfg f))));;
      out ← cmd_Output ["mkfs.ext4"; "-q"; "-F"; "-L"; "vit-upper"; "-E"; "lazy_itable_init=1,lazy_journal_init=1"; path_string tmp];
      match out with
      | (Some e, text) => on_fst (ignore (os_Remove tmp));; throw (Errorf ("making the writable disk: " +:+ error_text e +:+ ": " +:+ text))
      | (None, _) => on_fst (os_Rename tmp p);; mret p
      end
  end.

Definition copyFile (src : string) (dst : path) : M (world * F) unit :=
  out ← cmd_Output ["cp"; "--reflink=auto"; "--sparse=always"; src; path_string dst];
  match out with
  | (Some e, text) => throw (Errorf ("copying " +:+ src +:+ ": " +:+ error_text e +:+ ": " +:+ text))
  | (None, _) => mret tt
  end.

(** [kill]: the process is given 200 polls to go. *)
Fixpoint await_death (n : nat) (p : Z) : M (world * F) unit :=
  match n with
  | O => mret tt
  | S k => up ← alive p; if up : bool then await_death k p else mret tt
  end.
Definition kill : M (world * F) unit :=
  up ← fc_Running;
  if up : bool then p ← pid; kill_9 p;; await_death 200 p else mret tt.

Definition fc_Shutdown : M (world * F) unit := kill;; on_fst (ignore (os_RemoveAll dir)).

(** ** The guest agent *)

Definition guest_call (req : Request) (body : bytes) : M (world * F) (Reply * bytes) :=
  c ← attempt (DialFirecracker vsock);
  match c with
  | inl e => throw (Wrap ("reaching the agent in " +:+ id +:+ ": ") e)
  | inr _ => Call req body
  end.

(** [waitAgent]: [n] tries before the deadline. *)
Fixpoint ping_loop (n : nat) (last : string) : M (world * F) unit :=
  match n with
  | O => throw (Errorf ("guest agent in " +:+ id +:+ " did not answer: " +:+ last +:+ " (console: " +:+ path_string LogPath +:+ ")"))
  | S k =>
      r ← attempt (guest_call (request "ping") []);
      match r with
      | inr _ => mret tt
      | inl e => ping_loop k (error_text e)
      end
  end.
Definition waitAgent : M (world * F) unit := n ← deadline (AgentTimeout (cfg f)); ping_loop n "<nil>".

(** ** Booting *)

Definition is_overlay : bool := bool_decide (DiskMode (cfg f) = "overlay").

(** The directory of a fresh VM. *)
Definition lay_out : M (world * F) unit :=
  if is_overlay then
    base ← of_sum (filepath_Abs (RootFS (cfg f)));
    on_fst (os_Symlink (path_string base) (join dir "base.ext4"));;
    tmpl ← upperTemplate;
    copyFile (path_string tmpl) (join dir "upper.ext4")
  else copyFile (RootFS (cfg f)) (join dir "rootfs.ext4").

Definition drive (d file : string) (root ro : bool) : call :=
  ("PUT", "/drives/" +:+ d, obj [("drive_id", jstr d); ("is_read_only", JBool ro); ("is_root_device", JBool root); ("path_on_host", jstr file)]).
Definition boot_steps : list call :=
  [("PUT", "/boot-source", obj [("boot_args", jstr (BootArgs (cfg f))); ("kernel_image_path", jstr (KernelImage (cfg f)))])] ++
  (if is_overlay then [drive "rootfs" "base.ext4" true true; drive "upper" "upper.ext4" false false]
   else [drive "rootfs" "rootfs.ext4" true false]) ++
  [("PUT", "/machine-config", obj [("mem_size_mib", enc_int (MemMiB (cfg f))); ("track_dirty_pages", JBool true); ("vcpu_count", enc_int (VCPUs (cfg f)))]);
   ("PUT", "/vsock", obj [("guest_cid", enc_int 3); ("uds_path", jstr "v.sock")]);
   ("PUT", "/actions", obj [("action_type", jstr "InstanceStart")])].

Definition boot_step (s : call) : M (world * F) unit :=
  r ← attempt (api s.1.1 s.1.2 s.2);
  match r with
  | inl e => fc_Shutdown;; throw e
  | inr _ => mret tt
  end.

Definition fc_Boot : M (world * F) unit :=
  up ← fc_Running;
  if up : bool then mret tt else
  if decide (KernelImage (cfg f) = "" ∨ RootFS (cfg f) = "")
  then throw (Errorf "firecracker backend needs a kernel and a root filesystem (vit config set firecracker.kernel / firecracker.rootfs)") else
  on_fst (ignore (os_RemoveAll dir));;
  on_fst (os_MkdirAll dir o755);;
  lay_out;;
  spawn;;
  for_each boot_steps boot_step;;
  waitAgent.

(** ** Snapshots *)

Definition fc_Rebase (base : string) : M (world * F) unit := on_fst (os_WriteFile baseFile (to_bytes base) o644).

Definition set_state (state : string) : M (world * F) unit := api "PATCH" "/vm" (obj [("state", jstr state)]).

(** What happens while the VM is paused. *)
Definition paused_copy (img : Image) (kind : string) : M (world * F) Image :=
  api "PUT" "/snapshot/create" (obj [("mem_file_path", jstr (path_string (i_Memory img)));
    ("snapshot_path", jstr (path_string (i_State img))); ("snapshot_type", jstr kind)]);;
  base ← attempt (on_fst (os_Readlink (join dir "base.ext4")));
  let '(writable, baseDisk) :=
    match base with
    | inr b => (join dir "upper.ext4", Some (join [] b))
    | inl _ => (join dir "rootfs.ext4", None)
    end in
  match i_Disk img with
  | Some disk => copyFile (path_string writable) disk
  | None => mret tt
  end;;
  mret (mkImage (i_Memory img) (i_State img) (i_Disk img) baseDisk (i_MemoryIsDiff img) (i_Base img)).

(** [Snapshot]: the deferred resume runs once the VM was paused, and its error
    is reported if there was no other. *)
Definition fc_Snapshot (d : path) (base : string) : M (world * F) Image :=
  up ← fc_Running;
  if negb up then throw (Errorf ("sandbox " +:+ id +:+ " is not running")) else
  recorded ← attempt (on_fst (os_ReadFile baseFile));
  let diff := bool_decide (base ≠ "") && bool_decide (match recorded with inl _ => "" | inr b => of_bytes b end = base) in
  let img := mkImage (join d "mem") (join d "state") (Some (join d "disk")) None diff (if diff then base else "") in
  set_state "Paused";;
  r ← attempt (paused_copy img (if diff then "Diff" else "Full"));
  rerr ← attempt (set_state "Resumed");
  match r, rerr with
  | inl e, _ => throw e
  | inr _, inl e => throw e
  | inr img, inr _ => mret img
  end.

(** ** Resuming *)

Definition load_body (mem state : path) (dirty_flag : string) : bytes :=
  let backend := ("mem_backend", JObj [("backend_path", jstr (path_string mem)); ("backend_type", jstr "File")]) in
  let rest := [("resume_vm", JBool true); ("snapshot_path", jstr (path_string state))] in
  if decide (dirty_flag = "track_dirty_pages")
  then obj (backend :: rest ++ [(dirty_flag, JBool true)])
  else obj ((dirty_flag, JBool true) :: backend :: rest).

Definition resume_layout (img : Image) (disk : path) : M (world * F) unit :=
  match i_BaseDisk img with
  | Some base =>
      on_fst (os_Symlink (path_string base) (join dir "base.ext4"));;
      copyFile (path_string disk) (join dir "upper.ext4")
  | None => copyFile (path_string disk) (join dir "rootfs.ext4")
  end.

(** Loading, with the older name of the dirty-page flag as a second try. *)
Definition load_snapshot (img : Image) : M (world * F) unit :=
  r ← attempt (api "PUT" "/snapshot/load" (load_body (i_Memory img) (i_State img) "track_dirty_pages"));
  match r with
  | inr _ => mret tt
  | inl e =>
      if negb (contains "track_dirty_pages" (error_text e)) then fc_Shutdown;; throw e else
      kill;;
      spawn;;
      r2 ← attempt (api "PUT" "/snapshot/load" (load_body (i_Memory img) (i_State img) "enable_diff_snapshots"));
      match r2 with
      | inl e2 => fc_Shutdown;; throw e2
      | inr _ => mret tt
      end
  end.

Definition fc_Resume (img : Image) : M (world * F) unit :=
  fc_Shutdown;;
  on_fst (ignore (os_RemoveAll dir));;
  on_fst (os_MkdirAll dir o755);;
  match i_Disk img with
  | None => throw (Errorf "a firecracker image needs its disk")
  | Some disk =>
      resume_layout img disk;;
      spawn;;
      load_snapshot img;;
      fc_Rebase (i_Base img);;
      waitAgent
  end.

(** ** The guest's files *)

(** [guestEnv]. *)
Definition hostOnly : list string :=
  ["PATH="; "HOME="; "PWD="; "OLDPWD="; "SHLVL="; "_="; "TMPDIR="; "SSH_"; "XDG_"; "DBUS_"; "VIT_"].
Definition guestEnv (env : list string) : list string :=
  filter (λ kv, forallb (λ h, negb (has_prefix h kv)) hostOnly = true) env.

Definition exec_request (command env : list string) : Request := mkRequest "exec" "" (guestEnv env) command "" 0 0 "" false.
Definition fc_Exec (env command : list string) : M (world * F) Z :=
  r ← guest_call (exec_request command env) [];
  mret (y_Exit r.1).

Definition entry_of_agent (e : Agent.Entry) : Tree.Entry :=
  Tree.mkEntry (a_Path e) (a_Mode e) (a_Size e) (a_Hash e) (a_Link e) (a_Dir e).
Definition fc_ListFiles : M (world * F) (list Tree.Entry) :=
  r ← guest_call (request "tree") [];
  mret (entry_of_agent <$> y_Entries r.1).

Definition read_request (p : string) : Request := mkRequest "read" "" [] [] p 0 0 "" false.
Definition fc_ReadFile (p : string) : M (world * F) bytes :=
  r ← guest_call (read_request p) [];
  mret r.2.

Definition write_request (e : Tree.Entry) (size : Z) : Request :=
  mkRequest "write" "" [] [] (e_Path e) (e_Mode e) size (e_Link e) (e_Dir e).
Definition write_entry (blob : string → M world bytes) (e : Tree.Entry) : M (world * F) unit :=
  body ← (if negb (e_Dir e) && bool_decide (e_Link e = "") then on_fst (blob (e_Hash e)) else mret []);
  r ← attempt (guest_call (write_request e (Z.of_nat (length body))) body);
  match r with
  | inl e' => throw (Wrap ("writing " +:+ e_Path e +:+ " into the guest: ") e')
  | inr _ => mret tt
  end.
Definition fc_WriteTree (t : Tree.Tree) (blob : string → M world bytes) : M (world * F) unit :=
  guest_call (request "clear") [];;
  for_each (t_Entries t) (write_entry blob).

End machine.

(** [engine.MemoryBackend] and [engine.GuestFS] (iface.go). *)
Definition firecracker_memory (f : Firecracker) : MemoryBackend F := {|
  Boot id _ := fc_Boot f id;
  Running id := fc_Running f id;
  Backend.Snapshot id d base := fc_Snapshot f id d base;
  Rebase id base := fc_Rebase f id base;
  Resume id _ img := fc_Resume f id img;
  Shutdown id := fc_Shutdown f id
|}.
Definition firecracker_guest (f : Firecracker) : GuestFS F := {|
  ListFiles id := fc_ListFiles f id;
  Backend.ReadFile id p := fc_ReadFile f id p;
  WriteTree id t blob := fc_WriteTree f id t blob
|}.
Definition FirecrackerBackend (f : Firecracker) (env : list string) : Backend F := {|
  Name := "firecracker";
  Exec id _ command := fc_Exec f id env command;
  as_memory := Some (firecracker_memory f);
  as_guest := Some (firecracker_guest f)
|}.

End driver.
End Firecracker.
