(* ===== verification/AgentProps.v ===== *)
(** * What the driver and the agent promise together

    A guest whose agent serves the connections of the driver: the handshake of
    Firecracker's vsock, then one request, answered by [Handle] on the files of
    the guest, which are not the host's. *)

From S2P Require Import Prelude Sha256 Json JsonFacts Codec Os OsFacts Cas Blobs WalkFacts Tree TreeFacts Snap SnapFacts ChunkedProps Remote Backend Agent AgentFacts Firecracker Checks.
Import Json Cas Tree Remote Backend Agent Firecracker.
Open Scope Z_scope.

(** ** A served connection *)

(** What the client sent since the handshake (or before it), and the answer
    that is left to read once the agent has served. *)
Record link := mkLink { l_up : bool; l_sent : bytes; l_back : option bytes }.
Definition no_link : link := mkLink false [] None.

(** The guest's files and the connection to it. *)
Abbreviation guest := (world * link)%type.

Section served.
Context {genv : OsEnv} `{ErrorText, GuestProcesses} (root : path).

Definition serve_link : M (world * guest) bytes := λ '(h, (w, l)),
  match l_back l with
  | Some b => (Ok b, (h, (w, l)))
  | None =>
      let '(r, (w', c)) := Handle root (w, mkConn (l_sent l) []) in
      let s := (h, (w', mkLink (l_up l) (l_sent l) (Some (c_out c)))) in
      match r with Panic => (Panic, s) | _ => (Ok (c_out c), s) end
  end.
Definition set_link (f : link → link) : M (world * guest) unit := modify_snd (λ wl, (wl.1, f wl.2)).
Definition set_back (b : bytes) : M (world * guest) unit := set_link (λ l, mkLink (l_up l) (l_sent l) (Some b)).

Definition ok_line : bytes := to_bytes "OK 1073741824" ++ [newline].
Definition link_read_line : M (world * guest) (bytes * bool) := λ '(h, (w, l)),
  if l_up l then (b ← serve_link; let '(x, rest, nl) := cut_line b in set_back rest;; mret (x, nl)) (h, (w, l))
  else if decide (l_sent l = connect_line) then (Ok (ok_line, true), (h, (w, mkLink true [] None)))
  else (Ok ([], false), (h, (w, l))).
Definition link_read_full (n : Z) : M (world * guest) bytes :=
  b ← serve_link;
  let k := Z.to_nat n in
  if decide (length b < k)%nat then throw (Errorf "unexpected EOF") else set_back (drop k b);; mret (take k b).

#[global] Instance served_conn : ClientConn (world * guest) := {|
  conn_Write b := set_link (λ l, mkLink (l_up l) (l_sent l ++ b) (l_back l));
  conn_ReadBytes := link_read_line;
  conn_ReadFull := link_read_full;
  conn_Close := set_link (λ _, no_link)
|}.
#[global] Instance served_dial : Dialer (world * guest) := {| dial _ := set_link (λ _, no_link) |}.

Lemma wp_dial_served uds Q h w l :
  Q (inr tt) (h, (w, mkLink true [] None)) → wp (DialFirecracker uds) Q (h, (w, l)).
Proof. intros HQ. exact HQ. Qed.

(** A call is a request to the agent and its answer. *)
Lemma wp_call_served (f : Firecracker) id req body y data (Q : gerr + (Reply * bytes) → world * guest → Prop) h w l :
  json_dom req → json_dom y → y_Error y = "" → 0 ≤ y_Size y →
  (q_Op req = "read" → y_Size y = Z.of_nat (length data)) → (q_Op req ≠ "read" → data = []) →
  wp (handle_op root req) (λ v wc, v = inr tt ∧ c_out wc.2 = (json_Marshal y ++ [newline]) ++ data ∧
    Q (inr (y, data)) (h, (wc.1, no_link))) (w, mkConn body []) →
  wp (guest_call f id req body) Q (h, (w, l)).
Proof.
  intros Hdq Hdy Herr Hpos Hsize Hdata Hop. unfold guest_call. wp_step. wp_step. apply wp_dial_served. unfold Call.
  wp_step. wp_step. unfold call_body. wp_step. cbn [conn_Write served_conn]. unfold set_link. wp_step. cbn [l_up l_sent l_back app fst snd].
  assert (∀ Q', Q' (inr tt) (h, (w, mkLink true (json_Marshal req ++ newline :: body) None)) →
    wp (if decide (body = []) then mret tt else conn_Write body) Q' (h, (w, mkLink true (json_Marshal req ++ [newline]) None))) as Hbody.
  { intros Q' HQ'. case_decide as Hb; [subst body; by wp_step|]. cbn [conn_Write served_conn]. unfold set_link. wp_step.
    cbn [l_up l_sent l_back fst snd]. by rewrite <- app_assoc. }
  wp_step. apply Hbody. clear Hbody. wp_step. wp_step. cbn [conn_ReadBytes served_conn].
  assert (wp (Handle root) (λ v wc, v = inr tt ∧ c_out wc.2 = (json_Marshal y ++ [newline]) ++ data ∧
    Q (inr (y, data)) (h, (wc.1, no_link))) (w, mkConn (json_Marshal req ++ newline :: body) [])) as Hh by by apply wp_Handle.
  destruct (wp_exists _ _ _ Hh) as (v & [w' c] & Hrun & -> & Hout & HQ). cbn [fst snd] in *.
  unfold wp at 1, link_read_line. cbn [l_up snd]. unfold mbind, M_bind at 1, serve_link. cbn [l_back l_sent l_up fst snd].
  rewrite Hrun. cbv iota beta. rewrite Hout. rewrite <- app_assoc. cbn [app]. rewrite cut_request by done.
  cbn -[json_Unmarshal json_Marshal]. rewrite unmarshal_line by done. rewrite decide_False by (by intros Hne; apply Hne).
  case_decide as Hr.
  - rewrite decide_False by lia. unfold wp, M_bind, link_read_full, mbind, M_bind, serve_link.
    cbn -[Z.to_nat]. rewrite Hsize, Nat2Z.id by done. rewrite decide_False by lia. cbn. by rewrite firstn_all.
  - rewrite Hdata in HQ by done. exact HQ.
Qed.

(** ** Reading the guest's files *)

(** What JSON can carry of the work tree; Linux has no empty link. *)
Record encodable (σ : fs) : Prop := {
  en_names : ∀ cs, is_Some (σ !! (root ++ cs)) → Forall (λ c, has_char slash c = false) cs ∧ utf8 (join_with "/" cs);
  en_nodes : ∀ cs nd, σ !! (root ++ cs) = Some nd →
    match nd with NFile f => int64 (f_size f) | NLink t => utf8 t ∧ t ≠ "" | _ => True end
}.

Lemma Perm_bound m : 0 ≤ Perm m < 512.
Proof.
  unfold Perm. change 0x1ff with (Z.ones 9). rewrite Z.land_ones by lia. apply Z.mod_pos_bound. lia.
Qed.
Lemma node_mode_bound nd : uint32 (node_mode nd).
Proof. destruct nd; unfold uint32; cbn [node_mode]; try lia; [pose proof (Perm_bound (f_mode f)); lia|pose proof (Perm_bound mode); lia..]. Qed.

Lemma encodable_entry σ e : encodable σ →
  (∃ cs nd, cs ≠ [] ∧ σ !! (root ++ cs) = Some nd ∧ entry_of (join_with "/" cs) nd = Some e) → codec_dom (to_agent e).
Proof.
  intros Hen (cs & nd & _ & Hnd & He). destruct (en_names _ Hen cs) as [_ Hu]; [by eexists|].
  pose proof (en_nodes _ Hen cs nd Hnd) as Hn. pose proof (node_mode_bound nd) as Hm. assert (utf8 "" ∧ int64 0) as [He1 He2] by (split; [done|by unfold int64; lia]).
  destruct nd as [f|m|t|m]; simpl in He; try done; injection He as <-; unfold to_agent; simpl; split_and!; try done.
  - apply hashOf_utf8.
  - by destruct Hn.
Qed.

Lemma wp_ListFiles f id h w l :
  quiet → fs_wf (w_fs w) → is_dir (w_fs w) root → encodable (w_fs w) →
  wp (fc_ListFiles f id) (λ v s, ∃ es, v = inr es ∧ ∃ w', s = (h, (w', no_link)) ∧ w_fs w' = w_fs w ∧
    snapshot_of None root (w_fs w) (mkTree es)) (h, (w, l)).
Proof.
  intros Hq Hwf Hd Hen. assert (json_dom (request "tree")) as Hdq by (by repeat split).
  assert (wp (agent_list root) (λ v w', ∃ es, v = inr es ∧ w_fs w' = w_fs w ∧
    snapshot_of None root (w_fs w) (mkTree (to_tree <$> es))) w) as Hlist.
  { wp_use (wp_agent_list root (w_fs w)); [done|done|done|by intros cs Hs; apply (en_names _ Hen)|].
    intros [e|es] w' [Hfs Hv]; [done|]. by exists es. }
  destruct (wp_exists _ _ _ Hlist) as (v & w' & Hrun & es & -> & Hfs & Hsn).
  unfold fc_ListFiles. wp_step. eapply (wp_call_served f id _ [] (mkReply true "" 0 "" "" es 0) []); try done.
  - split_and!; try done. cbn [y_Entries]. apply Forall_forall. intros e He.
    assert (e = to_agent (to_tree e)) as -> by by destruct e. eapply encodable_entry; [exact Hen|].
    assert (to_tree e ∈ t_Entries (mkTree (to_tree <$> es))) as Hin by (simpl; by apply list_elem_of_fmap_2).
    apply (so_entries _ _ _ _ Hsn) in Hin as (cs & nd & ? & ? & _ & ?). by exists cs, nd.
  - rewrite op_tree by done. unfold handle_tree. wp_step. wp_step. wp_step. unfold wp at 1. rewrite Hrun. cbv iota beta.
    apply wp_reply. split_and!; [done|by rewrite app_nil_r|]. cbv beta iota. wp_step. eexists. split; [done|].
    exists w'. split_and!; [done|done|]. exact Hsn.
Qed.

Lemma request_dom op p mode size lnk d :
  utf8 op → utf8 p → uint32 mode → int64 size → utf8 lnk → json_dom (mkRequest op "" [] [] p mode size lnk d).
Proof. intros. split_and!; try done; by constructor. Qed.

Lemma wp_ReadFile_guest f id cs fl h w l :
  quiet → fs_wf (w_fs w) → encodable (w_fs w) → cs ≠ [] → w_fs w !! (root ++ cs) = Some (NFile fl) →
  wp (fc_ReadFile f id (join_with "/" cs)) (λ v s, v = inr (contents fl) ∧ ∃ w', s = (h, (w', no_link)) ∧ w_fs w' = w_fs w)
    (h, (w, l)).
Proof.
  intros Hq Hwf Hen Hne Hf. destruct (en_names _ Hen cs) as [Hs Hu]; [by eexists|].
  pose proof (en_nodes _ Hen cs _ Hf) as Hsz. cbn in Hsz.
  assert (length (contents fl) = length (f_cells fl)) as Hlen by by unfold contents; rewrite length_fmap.
  assert (inside root (join_with "/" cs) = inr (root ++ cs)) as Hin.
  { apply inside_good; [|done|done]. eapply fs_wf_names; [done|by eexists]. }
  unfold fc_ReadFile. wp_step.
  eapply (wp_call_served f id _ [] (mkReply true "" 0 "" "" [] (Z.of_nat (length (contents fl)))) (contents fl)); try done.
  - split_and!; try done. cbn [y_Size]. rewrite Hlen. exact Hsz.
  - cbn [y_Size]. lia.
  - wp_use (wp_handle_read root _ cs fl); [done|done|done|done|done|]. intros v wc (-> & Hfs & Hout).
    split_and!; [done|done|]. wp_step. split; [done|]. by exists wc.1.
Qed.

(** C31 (guest_view_exact): listing the guest's files through the agent gives
    exactly the entries of the guest's work tree, each with its digest, in path
    order, and reading any file that is listed gives the bytes of that file,
    which have the digest the listing gave; the guest's files do not change. *)
Theorem guest_view_exact f id h w l :
  quiet → fs_wf (w_fs w) → is_dir (w_fs w) root → encodable (w_fs w) →
  ∃ es w', fc_ListFiles f id (h, (w, l)) = (Ok es, (h, (w', no_link))) ∧ w_fs w' = w_fs w ∧
    snapshot_of None root (w_fs w) (mkTree es) ∧
    ∀ e, e ∈ es → e_Dir e = false → e_Link e = "" →
      ∃ b w'', fc_ReadFile f id (e_Path e) (h, (w', no_link)) = (Ok b, (h, (w'', no_link))) ∧
        hashOf b = e_Hash e ∧ Z.of_nat (length b) = e_Size e ∧ w_fs w'' = w_fs w.
Proof.
  intros Hq Hwf Hd Hen. destruct (wp_exists _ _ _ (wp_ListFiles f id h w l Hq Hwf Hd Hen)) as (v & s & Hrun & es & -> & w' & -> & Hfs & Hsn).
  exists es, w'. split_and!; [done..|]. intros e He Hnd Hnl.
  apply (so_entries _ _ _ _ Hsn) in He as (cs & nd & Hne & Hnode & _ & Heq).
  pose proof (entry_of_path _ _ _ Heq) as Hpath. destruct nd as [fl|m|t|m]; simpl in Heq; try done; injection Heq as <-; try done.
  - rewrite <- Hfs in Hwf, Hen, Hnode.
    destruct (wp_exists _ _ _ (wp_ReadFile_guest f id cs fl h w' no_link Hq Hwf Hen Hne Hnode)) as (v & s & Hrun' & -> & w'' & -> & Hfs'').
    exists (contents fl), w''. cbn [e_Path e_Hash e_Size]. split_and!; [done|done| |congruence].
    unfold f_size, contents. by rewrite length_fmap.
  - by destruct (en_nodes _ Hen cs _ Hnode) as [_ ?].
Qed.

(** ** Writing a tree into the guest *)

Context (f : Firecracker) (id : string) (t : Tree) (Ht : tree_ok t) (blob : string → M world bytes) (body : string → bytes) (host : world → Prop).

(** The bytes that go with an entry. *)
Definition entry_body (e : Tree.Entry) : bytes := if negb (e_Dir e) && bool_decide (e_Link e = "") then body (e_Hash e) else [].
Definition entry_request (e : Tree.Entry) : Request := write_request e (Z.of_nat (length (entry_body e))).

(** The driver finds the bytes of every file, and the requests can be sent. *)
Record tree_ready : Prop := {
  tr_blob : ∀ e h, e ∈ t_Entries t → e_Dir e = false → e_Link e = "" → host h →
    wp (blob (e_Hash e)) (λ v h', v = inr (body (e_Hash e)) ∧ host h') h;
  tr_dom : ∀ e, e ∈ t_Entries t → json_dom (entry_request e)
}.

(** What is at an entry's path once it is written. *)
Definition written (e : Tree.Entry) (n : option node) : Prop := ∃ nd, n = Some nd ∧ made (entry_request e) (entry_body e) nd.

Lemma wp_write_entry e d c h w l :
  quiet → tree_ready → e ∈ t_Entries t → host h → fs_wf (w_fs w) → root ++ cs_of e = d ++ [c] →
  is_dir (w_fs w) d → good_name c → w_fs w !! (d ++ [c]) = None →
  wp (write_entry f id blob e) (λ v s, v = inr tt ∧ ∃ h' w' n, s = (h', (w', no_link)) ∧ host h' ∧
    w_fs w' = <[d ++ [c] := n]> (w_fs w) ∧ made (entry_request e) (entry_body e) n) (h, (w, l)).
Proof.
  intros Hq Htr He Hh Hwf Hp Hd Hg Hn. unfold write_entry.
  assert (inside root (e_Path e) = inr (d ++ [c])) as Hin.
  { rewrite <- Hp, <- (cs_of_path e). apply inside_good; [by apply (tk_names t Ht)|apply split_on_pieces|apply cs_of_not_nil]. }
  assert (∀ h', host h' → wp (r ← attempt (guest_call f id (entry_request e) (entry_body e));
      match r with inl e' => throw (Wrap ("writing " +:+ e_Path e +:+ " into the guest: ") e') | inr _ => mret tt end)
    (λ v s, v = inr tt ∧ ∃ h' w' n, s = (h', (w', no_link)) ∧ host h' ∧
    w_fs w' = <[d ++ [c] := n]> (w_fs w) ∧ made (entry_request e) (entry_body e) n) (h', (w, l))) as Hcall.
  { intros h' Hh'. wp_step. wp_step. eapply (wp_call_served f id _ _ ok_reply []); try done; [by apply tr_dom|].
    apply handled_write; [done|]. wp_use (wp_write_new root (entry_request e) d c (entry_body e)); [done..|].
    intros v wc (-> & Ho & n & Hfs & Hm). split_and!; [done|done|]. intros i. split_and!; [done|by rewrite app_nil_r|].
    wp_step. split; [done|]. by exists h', wc.1, n. }
  wp_step. unfold entry_request, entry_body in *. destruct (negb (e_Dir e) && bool_decide (e_Link e = "")) eqn:Hk.
  - apply andb_true_iff in Hk as [Hk1%negb_true_iff Hk2%bool_decide_eq_true]. wp_step.
    wp_use (tr_blob Htr e h); [done..|]. intros v h' [-> Hh']. by apply Hcall.
  - wp_step. by apply Hcall.
Qed.

(** The state while the entries are written over an empty work tree. *)
Definition writing (σ0 : fs) (dn : list Tree.Entry) (σ : fs) : Prop := laid root (λ _, true) written σ0 dn σ.

Lemma writing_parent σ0 σ dn e todo k c :
  t_Entries t = dn ++ e :: todo → cs_of e = k ++ [c] → is_dir σ0 root → writing σ0 dn σ → is_dir σ (root ++ k).
Proof.
  intros Hl Hc [m Hm] (_ & Hs & Ho). destruct (entry_split t Ht _ _ _ Hl) as (He & _ & Hdn).
  destruct (decide (k = [])) as [->|Hk].
  - rewrite app_nil_r. exists m. rewrite Hs; [done|]. intros e' _ _ Heq.
    assert (cs_of e' = []) as Hnil by (apply (app_inv_head root); by rewrite app_nil_r). by apply cs_of_not_nil in Hnil.
  - destruct (tk_parent t Ht e k c He Hc Hk) as (d & Hd & Hdk & Hdd).
    assert (d ∈ dn) as Hddn by (eapply parent_before; [done|done|done|exists c; by rewrite Hc, Hdk]).
    destruct (Ho d Hddn eq_refl) as (nd & Hnd & Hmade). rewrite Hdk in Hnd. unfold made in Hmade. cbn [q_IsDir entry_request write_request] in Hmade.
    rewrite Hdd in Hmade. subst nd. by eexists.
Qed.

Lemma wp_write_entries h w l :
  quiet → tree_ready → host h → fs_wf (w_fs w) → is_dir (w_fs w) root → (∀ cs, cs ≠ [] → w_fs w !! (root ++ cs) = None) →
  wp (for_each (t_Entries t) (write_entry f id blob))
    (λ v s, v = inr tt ∧ ∃ h' w' l', s = (h', (w', l')) ∧ host h' ∧ writing (w_fs w) (t_Entries t) (w_fs w')) (h, (w, l)).
Proof.
  intros Hq Htr Hh Hwf Hd Hnone. set (σ := w_fs w) in *.
  eapply wp_for_each with (I := λ dn s, ∃ h' w' l', s = (h', (w', l')) ∧ host h' ∧ writing σ dn (w_fs w')).
  - exists h, w, l. split_and!; [done|done|]. by apply laid_init.
  - intros dn e todo s Hl (h1 & w1 & l1 & -> & Hh1 & Hw1). destruct (entry_split t Ht _ _ _ Hl) as (He & Hnew & Hdn).
    destruct (path_case (cs_of e)) as [Hnil|(k & c & Hc)]; [by apply cs_of_not_nil in Hnil|].
    pose proof (writing_parent _ _ _ _ _ _ _ Hl Hc Hd Hw1) as Hpd.
    assert (good_name c) as Hgc.
    { pose proof (tk_names t Ht e He) as Hg. rewrite Hc in Hg. apply Forall_app in Hg as [_ Hg]. by inversion Hg. }
    assert (w_fs w1 !! (root ++ cs_of e) = None) as Hold.
    { rewrite (proj1 (proj2 Hw1)); [apply Hnone, cs_of_not_nil|].
      intros e' He' _ Heq%app_inv_head. apply Hnew. assert (e = e') as ->; [|done]. apply (tree_ok_inj t); auto. }
    rewrite Hc, app_assoc in Hold.
    wp_use (wp_write_entry e (root ++ k) c h1 w1 l1); [done|done|done|done|apply Hw1|by rewrite Hc, app_assoc|done|done|done|].
    intros v s (-> & h2 & w2 & n & -> & Hh2 & Hfs2 & Hmade). exists h2, w2, no_link. split_and!; [done|done|].
    eapply laid_step; try done; rewrite Hfs2.
    + apply fs_wf_insert; [apply Hw1|done|done|]. intros [m Hm]. congruence.
    + intros q Hne. rewrite lookup_insert_ne; [done|]. intros <-. apply Hne. by rewrite Hc, app_assoc.
    + exists n. split; [|done]. rewrite Hc, app_assoc. apply lookup_insert_eq.
  - intros s (h1 & w1 & l1 & -> & Hh1 & Hw1). split; [done|]. by exists h1, w1, l1.
Qed.

(** What the guest holds after a tree is written. *)
Record holds (σ σ' : fs) : Prop := {
  ho_wf : fs_wf σ';
  ho_root : is_dir σ' root;
  ho_entries : ∀ e, e ∈ t_Entries t → written e (σ' !! (root ++ cs_of e));
  ho_only : ∀ cs, cs ≠ [] → is_Some (σ' !! (root ++ cs)) → ∃ e, e ∈ t_Entries t ∧ cs_of e = cs;
  ho_frame : ∀ q, ¬ below root q → σ' !! q = σ !! q
}.

Lemma wp_WriteTree h w l :
  quiet → tree_ready → host h → fs_wf (w_fs w) → is_dir (w_fs w) root →
  (∀ c, is_Some (w_fs w !! (root ++ [c])) → has_char slash c = false) →
  wp (fc_WriteTree f id t blob) (λ v s, v = inr tt ∧ ∃ h' w' l', s = (h', (w', l')) ∧ host h' ∧ holds (w_fs w) (w_fs w')) (h, (w, l)).
Proof.
  intros Hq Htr Hh Hwf Hd Hs. unfold fc_WriteTree. wp_step.
  eapply (wp_call_served f id _ _ ok_reply []); try done.
  wp_use (wp_handle_clear root []); [done..|]. intros v wc (-> & Hout & Hwf1 & Hcl). split_and!; [done|by rewrite app_nil_r|]. cbv beta iota.
  assert (is_dir (w_fs wc.1) root) as Hd1 by (destruct Hd as [m Hm]; exists m; rewrite Hcl, decide_False by (by intros [_ ?]); done).
  assert (∀ q, ¬ below root q → w_fs wc.1 !! q = w_fs w !! q) as Hframe by (intros q Hb; rewrite Hcl, decide_False by (by intros [? _]); done).
  assert (∀ cs, cs ≠ [] → w_fs wc.1 !! (root ++ cs) = None) as Hnone.
  { intros cs Hne. rewrite Hcl, decide_True; [done|]. split; [by eexists|]. intros Heq. apply Hne. apply (app_inv_head root). by rewrite app_nil_r. }
  wp_use wp_write_entries; [done..|]. intros v s (-> & h' & w' & l' & -> & Hh' & Hwf' & Hsame & Hent).
  split; [done|]. exists h', w', l'. split_and!; [done|done|]. split; [done|..].
  - destruct Hd1 as [m Hm]. exists m. rewrite Hsame; [done|]. intros e _ _ Heq.
    apply (cs_of_not_nil e), (app_inv_head root). by rewrite app_nil_r.
  - intros e He. by apply Hent.
  - intros cs Hne [n Hn]. destruct (decide (∃ e, e ∈ t_Entries t ∧ cs_of e = cs)) as [Hy|Hno]; [done|]. exfalso.
    rewrite Hsame, Hnone in Hn; [done|done|]. intros e He _ Heq%app_inv_head. apply Hno. by exists e.
  - intros q Hb. rewrite Hsame; [by apply Hframe|]. intros e _ _ ->. apply Hb. by eexists.
Qed.

End served.
