(* ===== verification/GuestProps.v ===== *)
(** * Moving trees in and out of a guest

    The host's store on one side, the files of the guest on the other, each
    with an environment of its own. *)

From S2P Require Import Prelude Sha256 Json JsonFacts Codec Os OsFacts Cas Blobs WalkFacts Tree TreeFacts Snap SnapFacts SnapProps ChunkedProps Remote Backend Agent AgentFacts Firecracker AgentProps Checks Repo RepoProps SyncProps.
Import Json Cas Tree Repo Remote Backend Agent Firecracker.
Open Scope Z_scope.

(** Two listings of the same entries are the same. *)
Lemma sorted_entries_eq (l l' : list Tree.Entry) :
  StronglySorted path_le l → StronglySorted path_le l' → NoDup (e_Path <$> l) → l ≡ₚ l' → l = l'.
Proof.
  revert l'. induction l as [|a l IH]; intros l' Hs Hs' Hnd Hp; [symmetry; by apply Permutation_nil|].
  destruct l' as [|b l']; [by apply Permutation_nil_r in Hp|]. apply StronglySorted_inv in Hs as [Hs Ha], Hs' as [Hs' Hb].
  rewrite Forall_forall in Ha, Hb. rewrite fmap_cons in Hnd. apply NoDup_cons in Hnd as [Hna Hnd].
  assert (a = b) as <-.
  { assert (b ∈ a :: l) as [->|Hbl]%elem_of_cons by (rewrite Hp; left); [done|].
    assert (a ∈ b :: l') as [->|Hal]%elem_of_cons by (rewrite <- Hp; left); [done|]. exfalso. apply Hna.
    assert (e_Path a = e_Path b) as ->; [|by apply list_elem_of_fmap_2]. apply (anti_symm String.le); [by apply Ha|by apply Hb]. }
  f_equal. apply IH; [done|done|done|]. by eapply Permutation_cons_inv.
Qed.

Section two_hosts.
Context (henv genv : OsEnv) `{ErrorText, GuestProcesses} (f : Firecracker) (id : string) (hroot root : path) (t : Tree).
#[local] Instance served : ClientConn (world * guest) := served_conn (genv := genv) root.

(** The bytes the store has for a digest. *)
Definition stored_bytes (σ : fs) (hash : string) : bytes := default [] (blob_of σ hroot hash).

(** A tree that can be sent: its files are in the store, its fields fit the
    messages. *)
Record sendable (σ : fs) : Prop := {
  se_tree : tree_ok t;
  se_store : store_wf σ hroot;
  se_blobs : ∀ e, e ∈ t_Entries t → e_Dir e = false → e_Link e = "" → is_digest (e_Hash e) = true ∧ is_Some (blob_of σ hroot (e_Hash e));
  se_dom : ∀ e, e ∈ t_Entries t → json_dom (entry_request (stored_bytes σ) e)
}.

(** The guest's work tree is a directory of a file system. *)
Record guest_ok (σ : fs) : Prop := {
  go_wf : fs_wf σ;
  go_root : is_dir σ root;
  go_names : ∀ c, is_Some (σ !! (root ++ [c])) → has_char slash c = false
}.

Lemma store_ready σ : @quiet henv → sendable σ → tree_ready t (@Get henv hroot) (stored_bytes σ) (λ h, w_fs h = σ).
Proof.
  intros Hq [Ht Hst Hb Hd]. split; [|done]. intros e h He Hnd Hnl Hσ. destruct (Hb e He Hnd Hnl) as [Hdig [b Hblob]].
  apply wp_Get; [by rewrite Hσ|done|..].
  - intros b' w' Hfs _ Hb'. rewrite Hσ in *. split; [|done]. unfold stored_bytes. by rewrite Hb'.
  - intros e' w' _ _ Hne. rewrite Hσ in Hne. destruct (Hne Hq) as [Hne' _]. congruence.
Qed.

Lemma wp_send h w (l : link) :
  @quiet henv → @quiet genv → sendable (w_fs h) → guest_ok (w_fs w) →
  wp (fc_WriteTree f id t (@Get henv hroot)) (λ v s, v = inr tt ∧ ∃ h' w' l', s = (h', (w', l')) ∧ w_fs h' = w_fs h ∧
    holds (genv := genv) root t (stored_bytes (w_fs h)) (w_fs w) (w_fs w')) (h, (w, l)).
Proof.
  intros Hqh Hqg Hse [Hwf Hd Hs].
  exact (wp_WriteTree (genv := genv) root f id t (se_tree _ Hse) (@Get henv hroot) (stored_bytes (w_fs h)) (λ h', w_fs h' = w_fs h)
    h w l Hqg (store_ready _ Hqh Hse) eq_refl Hwf Hd Hs).
Qed.

(** C32 (guest_write_tree): writing a tree into a guest, with its files read
    from the host's store, leaves in the guest's work tree exactly the paths of
    the tree, each the directory, link or file (with the stored bytes) its entry
    says, whatever was there before; nothing else changes, in the guest or on
    the host. *)
Theorem guest_write_tree h w (l : link) :
  @quiet henv → @quiet genv → sendable (w_fs h) → guest_ok (w_fs w) →
  ∃ h' w' (l' : link), fc_WriteTree f id t (@Get henv hroot) (h, (w, l)) = (Ok tt, (h', (w', l'))) ∧ w_fs h' = w_fs h ∧
    holds (genv := genv) root t (stored_bytes (w_fs h)) (w_fs w) (w_fs w').
Proof.
  intros Hqh Hqg Hse Hgo. destruct (wp_exists _ _ _ (wp_send h w l Hqh Hqg Hse Hgo)) as (v & s & Hrun & -> & h' & w' & l' & -> & Hh & Hho). by exists h', w', l'.
Qed.

(** An entry the agent makes as it is: a mode the umask and the agent leave
    alone, and the fields a listing gives. *)
Definition kept (σ : fs) (e : Tree.Entry) : Prop :=
  if e_Dir e then e_Size e = 0 ∧ e_Hash e = "" ∧ e_Link e = "" ∧ Perm (@perm genv (Z.lor (want_mode (e_Mode e)) o700)) = e_Mode e
  else if decide (e_Link e ≠ "") then e_Size e = 0 ∧ e_Hash e = "" ∧ e_Mode e = 0x1ff
  else hashOf (stored_bytes σ (e_Hash e)) = e_Hash e ∧ e_Size e = Z.of_nat (length (stored_bytes σ (e_Hash e))) ∧
    Perm (@perm genv (want_mode (e_Mode e))) = e_Mode e.

Lemma made_entry σ e nd :
  kept σ e → made (H := genv) (entry_request (stored_bytes σ) e) (entry_body (stored_bytes σ) e) nd → entry_of (e_Path e) nd = Some e.
Proof.
  unfold kept, made, entry_request, entry_body. destruct e as [p m sz hs ln d].
  cbn [q_IsDir q_Link q_Mode write_request e_Dir e_Link e_Mode e_Path e_Size e_Hash]. destruct d; cbn [negb andb].
  - intros (-> & -> & -> & Hm) ->. cbn. by rewrite Hm.
  - destruct (decide (ln ≠ "")) as [Hl|Hl].
    + by intros (-> & -> & ->) ->.
    + apply dec_stable in Hl as ->. rewrite bool_decide_eq_true_2 by done. intros (Hh & Hs & Hm) (fl & -> & Hc & Hfm).
      cbn [entry_of node_mode]. rewrite Hc, Hh, Hfm, Hm. do 2 f_equal. rewrite Hs, <- Hc. unfold f_size, contents. by rewrite length_fmap.
Qed.

(** What the guest holds after the write is a snapshot of the tree. *)
Lemma holds_snapshot σ σg σg' :
  sendable σ → (∀ e, e ∈ t_Entries t → kept σ e) → holds (genv := genv) root t (stored_bytes σ) σg σg' → snapshot_of None root σg' t.
Proof.
  intros Hse Hk Hho. assert (∀ e, e ∈ t_Entries t → ∃ nd, σg' !! (root ++ cs_of e) = Some nd ∧ entry_of (e_Path e) nd = Some e) as Hent.
  { intros e He. destruct (ho_entries _ _ _ _ _ Hho e He) as (nd & Hnd & Hm). exists nd. split; [done|]. eapply made_entry; [by apply Hk|exact Hm]. }
  split; [|apply (se_tree _ Hse)..]. intros e. split.
  - intros He. destruct (Hent e He) as (nd & Hnd & Heq). exists (cs_of e), nd. rewrite cs_of_path. split_and!; [apply cs_of_not_nil|done|done|done].
  - intros (cs & nd & Hne & Hnd & _ & Heq). destruct (ho_only _ _ _ _ _ Hho cs Hne) as (e' & He' & <-); [by eexists|].
    destruct (Hent e' He') as (nd' & Hnd' & Heq'). rewrite cs_of_path in Heq. simplify_eq. congruence.
Qed.

Lemma holds_encodable σ σg σg' :
  sendable σ → holds (genv := genv) root t (stored_bytes σ) σg σg' → encodable root σg'.
Proof.
  intros Hse Hho. assert (∀ cs, cs ≠ [] → is_Some (σg' !! (root ++ cs)) → ∃ e, e ∈ t_Entries t ∧ cs_of e = cs ∧
    json_dom (entry_request (stored_bytes σ) e)) as Hent.
  { intros cs Hne Hs. destruct (ho_only _ _ _ _ _ Hho cs Hne Hs) as (e & He & Hc). exists e. split_and!; [done|done|]. by apply (se_dom _ Hse). }
  split.
  - intros cs Hs. destruct (decide (cs = [])) as [->|Hne]; [by split; [constructor|]|].
    destruct (Hent cs Hne Hs) as (e & _ & <- & (_ & _ & _ & _ & Hp & _)). split; [apply split_on_pieces|]. by rewrite cs_of_path.
  - intros cs nd Hnd. destruct (decide (cs = [])) as [->|Hne].
    { rewrite app_nil_r in Hnd. destruct (ho_root _ _ _ _ _ Hho) as [m Hm]. rewrite Hm in Hnd. by injection Hnd as <-. }
    destruct (Hent cs Hne) as (e & He & <- & (_ & _ & _ & _ & _ & _ & Hsz & Hl)); [by eexists|].
    destruct (ho_entries _ _ _ _ _ Hho e He) as (nd' & Hnd' & Hm). rewrite Hnd in Hnd'. injection Hnd' as <-. unfold made in Hm.
    destruct (q_IsDir _); [by subst nd|]. case_decide as Hln; [by subst nd; split|]. destruct Hm as (fl & -> & Hc & _).
    cbn [q_Size entry_request write_request] in Hsz. rewrite <- Hc in Hsz. unfold contents in Hsz. by rewrite length_fmap in Hsz.
Qed.

(** C33 (guest_roundtrip): what is written into a guest is what the guest then
    lists: after a tree is written, a listing gives back the very entries of
    the tree, for entries whose modes the guest's umask and agent leave alone. *)
Theorem guest_roundtrip h w (l : link) :
  @quiet henv → @quiet genv → sendable (w_fs h) → guest_ok (w_fs w) → (∀ e, e ∈ t_Entries t → kept (w_fs h) e) →
  ∃ s1 s2, fc_WriteTree f id t (@Get henv hroot) (h, (w, l)) = (Ok tt, s1) ∧ fc_ListFiles f id s1 = (Ok (t_Entries t), s2).
Proof.
  intros Hqh Hqg Hse Hgo Hk. destruct (wp_exists _ _ _ (wp_send h w l Hqh Hqg Hse Hgo)) as (v & s & Hrun & -> & h' & w' & l' & -> & Hh & Hho).
  pose proof (wp_ListFiles (genv := genv) root f id h' w' l' Hqg (ho_wf _ _ _ _ _ Hho) (ho_root _ _ _ _ _ Hho) (holds_encodable _ _ _ Hse Hho)) as Hls.
  destruct (wp_exists _ _ _ Hls) as (v & s & Hrun' & es & -> & w'' & -> & _ & [He Hso Hnd]).
  destruct (holds_snapshot _ _ _ Hse Hk Hho) as [He' Hso' Hnd'].
  exists (h', (w', l')), (h', (w'', no_link)). split; [done|]. etrans; [exact Hrun'|]. do 2 f_equal. cbn [t_Entries] in *.
  apply sorted_entries_eq; [done|done|done|]. apply NoDup_Permutation; [by apply NoDup_fmap_1 in Hnd|by apply NoDup_fmap_1 in Hnd'|].
  intros e. by rewrite He, He'.
Qed.

End two_hosts.

(** ** A guest and a tree *)

#[local] Instance plain_errors : ErrorText := {| error_text _ := "failed"; json_error_text _ := "bad" |}.
#[local] Instance no_processes : GuestProcesses := {| guest_Run _ _ _ := throw (Errorf "no processes") |}.

Definition the_driver : Firecracker := mkFirecracker (mkConfig "firecracker" "vmlinux" "root.ext4" "/run" 1 512 "" 1 "overlay" 8) ["run"].
Definition sent_tree : Tree := mkTree [
  mkEntry "d" o755 0 "" "" true;
  mkEntry "d/l" 0x1ff 0 "" "../out" false;
  mkEntry "out" o644 2 (hashOf (to_bytes "hi")) "" false].
Definition guest_root : path := ["work"].
Definition guest_fs : fs := Eval vm_compute in list_to_map [
  ([], NDir o755); (["work"], NDir o755); (["etc"], NDir o755);
  (["work"; "old"], NFile (File o644 [Some x61] 0 1))].
Definition host_world : world := World sync_fs 0 ∅.
Definition guest_world : world := World guest_fs 0 ∅.
#[local] Existing Instance calm.

Lemma in_sent_tree (P : Tree.Entry → Prop) :
  P (mkEntry "d" o755 0 "" "" true) ∧ P (mkEntry "d/l" 0x1ff 0 "" "../out" false) ∧ P (mkEntry "out" o644 2 (hashOf (to_bytes "hi")) "" false) →
  ∀ e, e ∈ t_Entries sent_tree → P e.
Proof.
  intros (? & ? & ?). cbn [t_Entries sent_tree]. rewrite <- (Forall_forall P), !Forall_cons. split_and!; [done..|constructor].
Qed.

Lemma sent_tree_ok : tree_ok sent_tree.
Proof.
  split.
  - repeat constructor; vm_compute; done.
  - apply (bool_decide_unpack _). vm_compute. done.
  - refine (in_sent_tree (λ e, _) _). split_and!; repeat constructor; done.
  - intros e k c He. revert k c. revert e He.
    apply (in_sent_tree (λ e, ∀ k c, cs_of e = k ++ [c] → k ≠ [] → ∃ d, d ∈ t_Entries sent_tree ∧ cs_of d = k ∧ e_Dir d = true)).
    split_and!; intros k c Hc Hk.
    + destruct k as [|x [|]]; simplify_eq/=; done.
    + exists (mkEntry "d" o755 0 "" "" true). split_and!; [left| |done]. change ["d"; "l"] with (["d"] ++ ["l"]) in Hc.
      apply (app_inj_tail_iff ["d"] k) in Hc as [<- _]. done.
    + destruct k as [|x [|]]; simplify_eq/=; done.
Qed.

Lemma the_sendable : sendable ["repo"; "blobs"] sent_tree sync_fs.
Proof.
  split.
  - exact sent_tree_ok.
  - apply (sync_store small_repo). by left.
  - refine (in_sent_tree (λ e, _) _). split_and!; intros Hd Hl; [done|done|]. split; [vm_compute; reflexivity|].
    exists (to_bytes "hi"). vm_compute. reflexivity.
  - refine (in_sent_tree (λ e, _) _). split_and!; apply request_dom; vm_compute; done.
Qed.

Lemma the_guest_ok : guest_ok guest_root guest_fs.
Proof.
  split; [apply fs_check_ok; vm_compute; reflexivity|by eexists|]. intros c [n Hn].
  assert (nodes_b guest_fs (λ q _, match under guest_root q with Some [c] => negb (has_char slash c) | _ => true end) = true) as Hb
    by (vm_compute; reflexivity).
  apply (nodes_b_ok _ _ _ _ Hb) in Hn. rewrite under_app in Hn. by apply negb_true_iff in Hn.
Qed.

(** C32 at a concrete input. *)
Lemma guest_write_tree_witness :
  ∃ h' w' l', @fc_WriteTree _ _ served_dial (served_conn (genv := calm) guest_root) the_driver "sbx-1" sent_tree (Get ["repo"; "blobs"]) (host_world, (guest_world, no_link)) = (Ok tt, (h', (w', l'))) ∧
    w_fs h' = sync_fs ∧ w_fs w' !! ["work"; "old"] = None ∧ w_fs w' !! ["work"; "d"; "l"] = Some (NLink "../out").
Proof.
  destruct (guest_write_tree calm calm the_driver "sbx-1" ["repo"; "blobs"] guest_root sent_tree host_world guest_world no_link
    calm_quiet calm_quiet the_sendable the_guest_ok) as (h' & w' & l' & Hrun & Hh & Hho).
  exists h', w', l'. split; [exact Hrun|]. split; [exact Hh|]. split.
  - apply eq_None_not_Some. intros Hs. destruct (ho_only _ _ _ _ _ Hho ["old"]) as (e & He & Hc); [done|exact Hs|].
    revert e He Hc. refine (in_sent_tree (λ e, _) _). by split_and!.
  - destruct (ho_entries _ _ _ _ _ Hho (mkEntry "d/l" 0x1ff 0 "" "../out" false)) as (nd & Hnd & Hm); [by right; left|].
    etrans; [exact Hnd|]. f_equal. exact Hm.
Defined.

(** C33 at a concrete input. *)
Lemma guest_roundtrip_witness :
  ∃ s1 s2, @fc_WriteTree _ _ served_dial (served_conn (genv := calm) guest_root) the_driver "sbx-1" sent_tree (Get ["repo"; "blobs"]) (host_world, (guest_world, no_link)) = (Ok tt, s1) ∧
    @fc_ListFiles _ _ served_dial (served_conn (genv := calm) guest_root) the_driver "sbx-1" s1 = (Ok (t_Entries sent_tree), s2).
Proof.
  apply (guest_roundtrip calm calm the_driver "sbx-1" ["repo"; "blobs"] guest_root sent_tree host_world guest_world no_link
    calm_quiet calm_quiet the_sendable the_guest_ok).
  refine (in_sent_tree (λ e, _) _). split_and!; [done|done|]. split_and!; vm_compute; reflexivity.
Defined.

Lemma guest_encodable : encodable guest_root guest_fs.
Proof.
  assert (nodes_b guest_fs (λ q n, match under guest_root q with
    | Some cs => forallb (λ c, negb (has_char slash c)) cs && valid_utf8 (to_bytes (join_with "/" cs)) && match n with NLink _ => false | _ => true end
    | _ => true end) = true) as Hb by (vm_compute; reflexivity).
  assert (nodes_b guest_fs (λ q n, match n with NFile f => bool_decide (length (f_cells f) < 10)%nat | _ => true end) = true) as Hb2
    by (vm_compute; reflexivity).
  split.
  - intros cs [n Hn]. apply (nodes_b_ok _ _ _ _ Hb) in Hn. rewrite under_app in Hn.
    apply andb_true_iff in Hn as [[H1 H2]%andb_true_iff _]. split; [|exact H2].
    rewrite forallb_forall in H1. apply Forall_forall. intros c Hc. apply negb_true_iff, H1. by apply list_elem_of_In.
  - intros cs nd Hn. pose proof (nodes_b_ok _ _ _ _ Hb Hn) as H1. pose proof (nodes_b_ok _ _ _ _ Hb2 Hn) as H2. cbv beta in H1, H2.
    rewrite under_app in H1. apply andb_true_iff in H1 as [_ H1]. destruct nd as [fl|m|t|m]; [|exact I|discriminate H1|exact I].
    apply bool_decide_eq_true in H2. unfold int64, f_size. lia.
Qed.

(** C31 at a concrete input. *)
Lemma guest_view_exact_witness :
  ∃ es w', @fc_ListFiles _ _ served_dial (served_conn (genv := calm) guest_root) the_driver "sbx-1" (host_world, (guest_world, no_link)) =
      (Ok es, (host_world, (w', no_link))) ∧ snapshot_of None guest_root guest_fs (mkTree es).
Proof.
  destruct (guest_view_exact (genv := calm) guest_root the_driver "sbx-1" host_world guest_world no_link calm_quiet
    (go_wf _ _ the_guest_ok) (go_root _ _ the_guest_ok) guest_encodable) as (es & w' & Hrun & _ & Hsn & _).
  exists es, w'. split; [exact Hrun|exact Hsn].
Defined.
