(* ===== verification/VmProps.v ===== *)
(** * What the Firecracker driver promises about the machine *)

From S2P Require Import Prelude Sha256 Json JsonFacts Codec Strconv Os OsFacts Cas Tree Remote Backend Agent Firecracker.
Import Json Tree Remote Backend Agent Firecracker.
Open Scope Z_scope.

(** A hypothesis may be put off to the result. *)
Lemma wp_when {S A} (m : M S A) (B : Prop) (P Q : gerr + A → S → Prop) s :
  wp m P s → (B → wp m Q s) → wp m (λ v s', P v s' ∧ (B → Q v s')) s.
Proof. unfold wp. by destruct (m s) as [[]]. Qed.

Section vm.
Context `{OsEnv, ErrorText} {F : Type} `{Host F} (paused : F → bool).
Implicit Types (s : world * F).

(** A call that leaves the files and the machine's running state as they are. *)
Definition inert {A} (m : M (world * F) A) : Prop :=
  ∀ s, wp m (λ _ s', w_fs s'.1 = w_fs s.1 ∧ paused s'.2 = paused s.2) s.
(** A call that leaves the machine's running state as it is. *)
Definition steady {A} (m : M (world * F) A) : Prop := ∀ s, wp m (λ _ s', paused s'.2 = paused s.2) s.

Definition state_body (x : string) : bytes := obj [("state", jstr x)].

(** The machine is asked for a state.  Accepted, it is in that state; refused as
    a bad request, it is as it was.  A call with no answer, or one answered by an
    internal error, says nothing. *)
Definition patches (x : string) (was : bool) : Prop :=
  ∀ sock s, wp (http_call sock "PATCH" "/vm" (Some (state_body x)))
    (λ v s', match v with
      | inr (c, _, _) => (c < 300 → paused s'.2 = was) ∧ (300 ≤ c < 500 → paused s'.2 = paused s.2)
      | inl _ => True
      end) s.

(** What Firecracker and the tools do to the machine's running state: only
    PATCH /vm changes it. *)
Record vm_spec : Prop := {
  vs_kill_0 : ∀ p, inert (kill_0 p);
  vs_proc : ∀ e p, inert (proc_file e p);
  vs_tools : ∀ l, steady (cmd_Output l);
  vs_api : ∀ sock m p b, (m, p) ≠ ("PATCH", "/vm") → steady (http_call sock m p b);
  vs_pause : patches "Paused" true;
  vs_resume : patches "Resumed" false
}.

(** The request to pause is always answered, accepted or refused. *)
Definition pause_answered : Prop :=
  ∀ sock s, wp (http_call sock "PATCH" "/vm" (Some (state_body "Paused"))) (λ v _, ∃ c st b, v = inr (c, st, b) ∧ c < 500) s.
(** The request to resume is always accepted. *)
Definition resume_accepted : Prop :=
  ∀ sock s, wp (http_call sock "PATCH" "/vm" (Some (state_body "Resumed"))) (λ v _, ∃ c st b, v = inr (c, st, b) ∧ c < 300) s.

Context (Hvm : vm_spec) (f : Firecracker) (id : string).

Lemma wp_api m p b Q s :
  wp (http_call (apiSock f id) m p (Some b)) (λ v s',
    match v with inr (c, _, _) => if decide (300 ≤ c) then ∀ e, Q (inl e) s' else Q (inr tt) s' | inl e => Q (inl e) s' end) s →
  wp (api f id m p b) Q s.
Proof.
  intros Hw. unfold api. wp_step. wp_use Hw. intros [e|[[c st] msg]] s' Hs; [done|]. by case_decide; wp_step.
Qed.

Lemma api_steady m p b : (m, p) ≠ ("PATCH", "/vm") → steady (api f id m p b).
Proof. intros Hne s. apply wp_api. wp_use (vs_api Hvm); [done|]. intros [e|[[c st] msg]] s' Hp; [done|]. by case_decide. Qed.

(** A pause that is answered and not accepted changed nothing. *)
Lemma wp_pause s :
  wp (set_state f id "Paused") (λ v s', pause_answered → v = inr tt ∨ paused s'.2 = paused s.2) s.
Proof.
  apply wp_api. eapply wp_mono.
  - apply wp_when; [apply (vs_pause Hvm)|]. intros Hans. apply Hans.
  - intros [e|[[c st] msg]] s' [Hp Hans]; cbv beta iota in *.
    + intros (? & ? & ? & ? & _)%Hans. done.
    + case_decide; [|by left]. intros e (? & ? & ? & ? & ?)%Hans. simplify_eq. right. apply Hp. lia.
Qed.

(** An accepted resume ends the pause. *)
Lemma wp_resume s :
  wp (set_state f id "Resumed") (λ v s', (v = inr tt → paused s'.2 = false) ∧ (resume_accepted → v = inr tt)) s.
Proof.
  apply wp_api. eapply wp_mono.
  - apply wp_when; [apply (vs_resume Hvm)|]. intros Hacc. apply Hacc.
  - intros [e|[[c st] msg]] s' [Hp Hacc]; cbv beta iota in *.
    + split; [done|]. intros (? & ? & ? & ? & _)%Hacc. done.
    + case_decide; [|split; [intros _; apply Hp; lia|done]]. intros e. split; [done|]. intros (? & ? & ? & ? & ?)%Hacc. simplify_eq. lia.
Qed.

(** Files: reading them changes neither files nor the machine. *)
Lemma ReadFile_inert p : inert (on_fst (os_ReadFile p)).
Proof.
  intros [w x]. wp_step. unfold os_ReadFile. wp_step. apply wp_sys_read; [done|].
  destruct (fst <$> _) as [e|q]; [done|]. by apply wp_sys_read.
Qed.

Lemma wp_read_as p s :
  wp (on_fst (os_ReadFile p)) (λ v s', paused s'.2 = paused s.2 ∧ ∀ b, v = inr b → ∃ w2, os_ReadFile p s.1 = (Ok b, w2)) s.
Proof.
  pose proof (ReadFile_inert p s) as Hi. unfold wp, on_fst in *. destruct (os_ReadFile p s.1) as [[b|e|] w2]; [|by destruct Hi|done].
  destruct Hi. split; [done|]. intros b' [= <-]. by exists w2.
Qed.

Lemma Readlink_inert p : inert (on_fst (os_Readlink p)).
Proof. intros [w x]. wp_step. by apply wp_sys_read. Qed.

Lemma inert_bind {A B} (m : M (world * F) A) (k : A → M (world * F) B) : inert m → (∀ a, inert (k a)) → inert (m ≫= k).
Proof.
  intros Hm Hk s. wp_step. wp_use Hm. intros [e|a] s' [Hf Hp]; [done|]. wp_use Hk. intros v s'' [Hf' Hp']. split; congruence.
Qed.
Lemma inert_attempt {A} (m : M (world * F) A) : inert m → inert (attempt m).
Proof. intros Hm s. wp_step. wp_use Hm. by intros [e|a] s' [? ?]. Qed.
Lemma inert_ret {A} (a : A) : inert (mret a).
Proof. by intros s. Qed.

Lemma Running_inert : inert (fc_Running f id).
Proof.
  assert (inert (pid f id)) as Hpid.
  { apply inert_bind; [apply inert_attempt, ReadFile_inert|]. intros [e|b]; apply inert_ret. }
  assert (∀ p, inert (alive p)) as Halive.
  { intros p. unfold alive. case_decide; [apply inert_ret|]. apply inert_bind; [apply (vs_kill_0 Hvm)|]. intros []; cbn [negb]; [|apply inert_ret].
    apply inert_bind; [apply inert_attempt, (vs_proc Hvm)|]. intros [e|b]; apply inert_ret. }
  apply inert_bind; [done|]. intros p. apply inert_bind; [done|]. intros []; cbn [negb]; [|apply inert_ret].
  apply inert_bind; [apply inert_attempt, (vs_proc Hvm)|]. intros b. apply inert_ret.
Qed.

Lemma copyFile_steady src dst : steady (copyFile src dst).
Proof. intros s. unfold copyFile. wp_step. wp_use (vs_tools Hvm). intros [e|[[e|] t]] s' Hp; [done|by wp_step|by wp_step]. Qed.

(** The image made while the machine is paused has the paths it was given. *)
Lemma wp_paused_copy img kind s :
  wp (paused_copy f id img kind) (λ v _, match v with inr img' => i_Memory img' = i_Memory img ∧ i_State img' = i_State img ∧
    i_Disk img' = i_Disk img ∧ i_MemoryIsDiff img' = i_MemoryIsDiff img ∧ i_Base img' = i_Base img | inl _ => True end) s.
Proof.
  unfold paused_copy. wp_step. wp_use api_steady; [done|]. intros [e|[]] s1 _; [done|].
  wp_step. wp_step. wp_use Readlink_inert. intros b s2 _. destruct b as [e|b]; wp_step; destruct (i_Disk img);
    first [wp_use copyFile_steady; intros [e'|[]] s3 _; [done|]; by wp_step|by wp_step; wp_step].
Qed.

(** The stretch with the machine paused. *)
Lemma wp_while_paused img kind s :
  paused s.2 = false →
  wp (set_state f id "Paused";; r ← attempt (paused_copy f id img kind); rerr ← attempt (set_state f id "Resumed");
      match r, rerr with inl e, _ => throw e | inr _, inl e => throw e | inr img', inr _ => mret img' end)
    (λ v s', match v with
      | inr img' => paused s'.2 = false ∧ i_Memory img' = i_Memory img ∧ i_State img' = i_State img ∧
          i_Disk img' = i_Disk img ∧ i_MemoryIsDiff img' = i_MemoryIsDiff img ∧ i_Base img' = i_Base img
      | inl _ => pause_answered → resume_accepted → paused s'.2 = false
      end) s.
Proof.
  intros Hp. wp_step. wp_use wp_pause. intros [e|[]] s1 Hp1; [intros Ha _; by destruct (Hp1 Ha) as [|Hp2]; [|rewrite Hp2]|].
  wp_step. wp_step. wp_use wp_paused_copy. intros r s2 Himg. wp_step. wp_step. wp_use wp_resume. intros v s3 [Hok Hacc].
  destruct r as [e|img'], v as [e'|[]]; wp_step; try (by intros _ Ha; specialize (Hacc Ha); simplify_eq; auto).
  - split; [by apply Hok|exact Himg].
Qed.

(** C34 (snapshot_resumes): a snapshot of a running machine that succeeds leaves
    the machine running, and names the files it was asked to write; it is a
    difference only to the base the driver had recorded.  When it fails, the
    machine is still running, provided that Firecracker answers the request to
    pause and accepts the one to resume; [lost_reply_stays_paused] shows what
    happens when the answer to the pause is lost. *)
Theorem snapshot_resumes d base s :
  paused s.2 = false →
  ∃ v s', fc_Snapshot f id d base s = (match v with inl e => Err e | inr img => Ok img end, s') ∧
    match v with
    | inr img => paused s'.2 = false ∧ i_Memory img = join d "mem" ∧ i_State img = join d "state" ∧ i_Disk img = Some (join d "disk") ∧
        (i_MemoryIsDiff img = true → base ≠ "" ∧ i_Base img = base ∧
          ∃ w1 w2 b, w_fs w1 = w_fs s.1 ∧ os_ReadFile (baseFile f id) w1 = (Ok b, w2) ∧ of_bytes b = base)
    | inl _ => pause_answered → resume_accepted → paused s'.2 = false
    end.
Proof.
  intros Hrun. apply (wp_exists (fc_Snapshot f id d base)). unfold fc_Snapshot. wp_step. wp_use Running_inert. intros [e|up] s1 [Hf1 Hp1].
  { intros _ _. congruence. }
  destruct up; cbn [negb]; [|wp_step; intros _ _; congruence].
  wp_step. wp_step. wp_use (wp_read_as (baseFile f id) s1). intros rec s2 [Hp2 Hread].
  wp_use wp_while_paused; [congruence|]. intros [e|img] s3; [done|]. cbn [i_Memory i_State i_Disk i_MemoryIsDiff i_Base].
  intros (? & ? & ? & ? & Hd & Hb). split_and!; [done..|]. rewrite Hd. intros Hdiff. rewrite Hdiff in Hb.
  apply andb_true_iff in Hdiff as [Hd1%bool_decide_eq_true Hd2%bool_decide_eq_true].
  destruct rec as [e|b]; [by subst base|]. destruct (Hread b eq_refl) as [w2 Hw2]. split_and!; [done|done|]. by exists s1.1, w2, b.
Qed.

End vm.

(** ** A machine *)

(** A host whose process 7 is the machine [sbx-1] of the driver; its state is
    whether the machine is paused. *)
#[local] Existing Instance calm.
#[local] Instance no_text : ErrorText := {| error_text _ := "failed"; json_error_text _ := "bad" |}.
Definition the_vm : Firecracker := mkFirecracker (mkConfig "firecracker" "vmlinux" "root.ext4" "/run" 1 512 "" 1 "overlay" 8) ["run"].
(** [reply] is the answer to the request to pause; the machine is paused whether
    or not that answer arrives. *)
Definition a_vm (reply : gerr + Z * string * bytes) : Host bool := {|
  getwd := inr [];
  kill_0 p := mret true;
  kill_9 p := mret tt;
  proc_file e p := mret (match e with ProcStat => to_bytes "7 (firecracker) S" | ProcCmdline => to_bytes (path_string (apiSock the_vm "sbx-1")) end);
  cmd_Start _ _ _ := mret 7;
  cmd_Output _ := mret (None, "");
  http_call _ m p b :=
    modify_snd (λ x, if decide ((m, p) = ("PATCH", "/vm")) then bool_decide (b = Some (state_body "Paused")) else x);;
    of_sum (if decide (b = Some (state_body "Paused")) then reply else inr (204, "204 No Content", []));
  dial_probe _ := mret true;
  deadline _ := mret 10%nat
|}.
Definition no_content : gerr + Z * string * bytes := inr (204, "204 No Content", []).
Definition lost_reply : gerr + Z * string * bytes := inl (Errorf "EOF").
Definition vm_fs : fs := Eval vm_compute in list_to_map [
  ([], NDir o755); (["run"], NDir o755); (["run"; "sbx-1"], NDir o755);
  (["run"; "sbx-1"; "pid"], NFile (File o644 (Some <$> to_bytes "7") 0 1));
  (["run"; "sbx-1"; "base"], NFile (File o644 (Some <$> to_bytes "abc") 0 2))].

Lemma a_vm_spec reply : reply = no_content ∨ reply = lost_reply → vm_spec (H1 := a_vm reply) id.
Proof.
  intros Hr. split; try (intros; intros [w x]; done).
  - intros sock m p b Hne [w x]. cbn [http_call a_vm]. wp_step. wp_step. wp_step. cbn [snd]. by rewrite decide_False.
  - intros sock [w x]. destruct Hr as [-> | ->]; [|done]. cbn -[state_body]. split; [done|]. intros [Hlt _]. by vm_compute in Hlt.
  - intros sock [w x]. destruct Hr as [-> | ->]; cbn -[state_body]; (split; [done|]; intros [Hlt _]; by vm_compute in Hlt).
Qed.

(** When the answer to the request to pause is lost, the snapshot fails and the
    machine stays paused: nothing resumes it. *)
Lemma lost_reply_stays_paused :
  let '(r, s') := fc_Snapshot (H1 := a_vm lost_reply) the_vm "sbx-1" ["snap"] "" (World vm_fs 0 ∅, false) in
  r = Err (Errorf "EOF") ∧ s'.2 = true.
Proof. vm_compute. done. Qed.

(** C34 at a concrete input: a difference to the recorded base. *)
Lemma snapshot_resumes_witness :
  ∃ s', fc_Snapshot (H1 := a_vm no_content) the_vm "sbx-1" ["snap"] "abc" (World vm_fs 0 ∅, false) =
      (Ok (mkImage ["snap"; "mem"] ["snap"; "state"] (Some ["snap"; "disk"]) None true "abc"), s') ∧ s'.2 = false.
Proof.
  destruct (snapshot_resumes (H1 := a_vm no_content) id (a_vm_spec _ (or_introl eq_refl)) the_vm "sbx-1" ["snap"] "abc" (World vm_fs 0 ∅, false) eq_refl) as (v & s' & Hrun & Hv).
  assert ((fc_Snapshot (H1 := a_vm no_content) the_vm "sbx-1" ["snap"] "abc" (World vm_fs 0 ∅, false)).1 =
    Ok (mkImage ["snap"; "mem"] ["snap"; "state"] (Some ["snap"; "disk"]) None true "abc")) as Hr by (vm_compute; reflexivity).
  exists s'. rewrite Hrun in Hr |- *. cbn [fst] in Hr. rewrite Hr. split; [reflexivity|].
  destruct v as [e|img]; [discriminate Hr|]. apply Hv.
Defined.
