(* ===== verification/Base64.v ===== *)
(** * encoding/base64 StdEncoding, as encoding/json writes a []byte *)

From S2P Require Import Prelude Sha256 Json.
Import Json.
Open Scope N_scope.

Module Base64.

Definition byte_of (n : N) : byte := default x00 (Byte.of_N (n mod 256)).

(** The digits: A-Z, a-z, 0-9, + and /. *)
Definition digit (d : N) : byte :=
  byte_of (if d <? 26 then d + 65 else if d <? 52 then d + 71 else if d <? 62 then d - 4 else if d <? 63 then 43 else 47).
Definition undigit (b : byte) : option N :=
  let n := bN b in
  if (65 <=? n) && (n <? 91) then Some (n - 65)
  else if (97 <=? n) && (n <? 123) then Some (n - 71)
  else if (48 <=? n) && (n <? 58) then Some (n + 4)
  else if n =? 43 then Some 62 else if n =? 47 then Some 63 else None.

Definition pad : byte := x3d.
Definition is_newline (b : byte) : bool := Byte.eqb b x0a || Byte.eqb b x0d.

Fixpoint EncodeToString (l : bytes) : bytes :=
  match l with
  | [] => []
  | [a] => let n := bN a * 16 in [digit (n / 64); digit (n mod 64); pad; pad]
  | [a; b] => let n := (bN a * 256 + bN b) * 4 in [digit (n / 4096); digit (n / 64 mod 64); digit (n mod 64); pad]
  | a :: b :: c :: r =>
      let n := bN a * 65536 + bN b * 256 + bN c in
      [digit (n / 262144); digit (n / 4096 mod 64); digit (n / 64 mod 64); digit (n mod 64)] ++ EncodeToString r
  end.

(** The groups of four digits, padding in the last only; the spare bits of a
    padded group are not looked at. *)
Fixpoint decode_groups (l : bytes) : option bytes :=
  match l with
  | [] => Some []
  | a :: b :: c :: d :: r =>
      x ← undigit a;
      y ← undigit b;
      if decide (c = pad ∧ d = pad ∧ r = []) then Some [byte_of ((x * 64 + y) / 16)] else
      z ← undigit c;
      if decide (d = pad ∧ r = []) then let n := ((x * 64 + y) * 64 + z) / 4 in Some [byte_of (n / 256); byte_of n] else
      t ← undigit d;
      let n := ((x * 64 + y) * 64 + z) * 64 + t in
      (λ rest, byte_of (n / 65536) :: byte_of (n / 256) :: byte_of n :: rest) <$> decode_groups r
  | _ => None
  end.
Definition DecodeString (l : bytes) : option bytes := decode_groups (filter (λ b, is_newline b = false) l).

(** ** Decoding what was encoded *)

Lemma byte_of_bN b : byte_of (bN b) = b.
Proof. by destruct b. Qed.
Lemma byte_is n b : n mod 256 = bN b → byte_of n = b.
Proof. intros Hn. unfold byte_of. rewrite Hn. by destruct b. Qed.
Lemma bN_bound b : bN b < 256.
Proof. by destruct b. Qed.

Lemma digit_cases (P : N → Prop) : (∀ k, (k < 64)%nat → P (N.of_nat k)) → ∀ d, d < 64 → P d.
Proof. intros Hp d Hd. rewrite <- (N2Nat.id d). apply Hp. lia. Qed.
Lemma digit_table : forallb (λ k, let d := N.of_nat k in bool_decide (undigit (digit d) = Some d) && bool_decide (digit d ≠ pad) && negb (is_newline (digit d))) (seq 0 64) = true.
Proof. vm_compute. reflexivity. Qed.
Lemma digit_ok d : d < 64 → undigit (digit d) = Some d ∧ digit d ≠ pad ∧ is_newline (digit d) = false.
Proof.
  revert d. apply digit_cases. intros k Hk. pose proof digit_table as Ht. rewrite forallb_forall in Ht.
  specialize (Ht k). rewrite in_seq in Ht. specialize (Ht ltac:(lia)). cbv zeta in Ht.
  apply andb_true_iff in Ht as [[H1%bool_decide_eq_true H2%bool_decide_eq_true]%andb_true_iff H3%negb_true_iff]. done.
Qed.

(** Lists by threes. *)
Lemma three_ind (P : bytes → Prop) :
  P [] → (∀ a, P [a]) → (∀ a b, P [a; b]) → (∀ a b c r, P r → P (a :: b :: c :: r)) → ∀ l, P l.
Proof.
  intros H0 H1 H2 H3 l. assert (P l ∧ (∀ a, P (a :: l)) ∧ (∀ a b, P (a :: b :: l))) as [? _]; [|done].
  induction l as [|x l (IH1 & IH2 & IH3)]; split_and!; auto.
Qed.

Ltac small := zify; Z.to_euclidean_division_equations; lia.
Ltac split_digits :=
  repeat match goal with |- context [undigit (digit ?d)] =>
    let Hd := fresh in pose proof (digit_ok d) as Hd; destruct Hd as (-> & ? & _); [small|] end.

Ltac digit_cons :=
  lazymatch goal with |- Forall _ (?d :: _) => constructor; [lazymatch d with digit _ => apply digit_ok; small | _ => reflexivity end|] end.

Lemma no_newlines l : filter (λ b, is_newline b = false) (EncodeToString l) = EncodeToString l.
Proof.
  assert (Forall (λ b, is_newline b = false) (EncodeToString l)) as Hf.
  { induction l as [|a|a b|a b c r IH] using three_ind; cbn [EncodeToString app].
    - constructor.
    - pose proof (bN_bound a). repeat digit_cons. constructor.
    - pose proof (bN_bound a). pose proof (bN_bound b). repeat digit_cons. constructor.
    - pose proof (bN_bound a). pose proof (bN_bound b). pose proof (bN_bound c). repeat digit_cons. done. }
  induction Hf as [|x l' Hx _ IH]; [done|]. rewrite filter_cons, decide_True by done. by rewrite IH.
Qed.


Lemma base64_roundtrip l : DecodeString (EncodeToString l) = Some l.
Proof.
  unfold DecodeString. rewrite no_newlines. induction l as [|a|a b|a b c r IH] using three_ind; [done|..].
  - cbn [EncodeToString decode_groups]. pose proof (bN_bound a). split_digits. cbn [mbind option_bind].
    rewrite decide_True by done. do 2 f_equal. apply byte_is. small.
  - cbn [EncodeToString decode_groups]. pose proof (bN_bound a). pose proof (bN_bound b). split_digits. cbn [mbind option_bind].
    rewrite decide_False by (by intros [? _]). split_digits. cbn [mbind option_bind]. rewrite decide_True by done.
    do 2 f_equal; [|f_equal]; apply byte_is; small.
  - cbn [EncodeToString decode_groups app]. pose proof (bN_bound a). pose proof (bN_bound b). pose proof (bN_bound c). split_digits. cbn [mbind option_bind].
    rewrite decide_False by (by intros [? _]). split_digits. cbn [mbind option_bind]. rewrite decide_False by (by intros [? _]).
    split_digits. cbn [mbind option_bind]. rewrite IH. cbn [fmap option_fmap option_map].
    do 2 f_equal; [|f_equal; [|f_equal]]; apply byte_is; small.
Qed.

End Base64.
