(* ===== verification/FakeMachine.v ===== *)
(** * The fake machine (src/internal/engine/fake_machine.go)

    A backend with no hypervisor: the guest is a directory, the disk a JSON
    document of its files, the memory a buffer.  Each operation that holds the
    lock is one step on the machine's state. *)

From S2P Require Import Prelude Sha256 Json Codec Base64 Os Cas Tree Snap Backend.
Import Json Base64 Cas Tree Snap Backend.
Open Scope Z_scope.

Module FakeMachine.

(** ** Memory images *)

Definition fakeMemSize : Z := 16 * 4096.

(** A slice: its bytes, and the bytes behind them up to its capacity. *)
Record buf := mkBuf { b_data : bytes; b_behind : bytes }.

(** [b[lo:hi]] may reach to the capacity, and panics beyond it. *)
Definition slice {S} (b : buf) (lo hi : nat) : M S bytes :=
  if decide (lo ≤ hi ∧ hi ≤ length (b_data b ++ b_behind b))%nat
  then mret (take (hi - lo) (drop lo (b_data b ++ b_behind b))) else panic.

Definition bZ (b : byte) : Z := Z.of_N (bN b).
Definition byte_at (z : Z) (i : nat) : byte := byte_of (Z.to_N (Z.land (Z.shiftr z (8 * Z.of_nat i)) 0xff)).

Definition memImage (ram : bytes) : buf :=
  let n := Z.of_nat (length ram) in
  let room := Z.to_nat (fakeMemSize - 8) in
  mkBuf (map (byte_at n) (seq 0 8) ++ take room (ram ++ replicate room x00)) [].

(** A 64-bit int. *)
Definition wrap64 (z : Z) : Z := let u := z mod 2 ^ 64 in if decide (u < 2 ^ 63) then u else u - 2 ^ 64.

Definition read_len (img : bytes) (m : nat) : Z :=
  foldl (λ n i, wrap64 (Z.lor n (Z.shiftl (bZ (default x00 (img !! i))) (8 * Z.of_nat i)))) 0 (seq 0 m).

Definition memFromImage {S} (img : buf) : M S bytes :=
  if decide (length (b_data img) < 8)%nat then panic else
  let n := read_len (b_data img) 8 in
  if decide (n < 0) then panic else slice img 8 (8 + Z.to_nat n).

(** ** Directories as documents *)

Definition key_before (a b : string * bytes) : Prop := String.le a.1 b.1.
#[global] Instance key_before_dec a b : Decision (key_before a b) := _.

Definition uint8 (z : Z) : Prop := 0 ≤ z < 256.
#[global] Instance uint8_dec z : Decision (uint8 z) := _.

(** [json.Marshal] and [json.Unmarshal] of a [map[string][]byte]. *)
Definition files_json (files : gmap string bytes) : bytes :=
  Marshal (JObj ((λ kv, (kv.1, JStr (of_bytes (EncodeToString kv.2)))) <$> merge_sort key_before (map_to_list files))).
Definition bytes_of_json (j : json) : option bytes :=
  match j with
  | JNull => Some []
  | JStr s => DecodeString (to_bytes s)
  | JArr l => mapM (λ x, byte_of ∘ Z.to_N <$> dec_int uint8 0 x) l
  | _ => None
  end.
Definition files_add (m : gmap string bytes) (kv : string * json) : option (gmap string bytes) :=
  (λ b, <[kv.1 := b]> m) <$> bytes_of_json kv.2.
Definition files_of (b : bytes) : option (gmap string bytes) :=
  match parse b with
  | Some JNull => Some ∅
  | Some (JObj l) => foldl (λ m kv, m ≫= λ m, files_add m kv) (Some ∅) l
  | _ => None
  end.

(** ** [filepath.Walk] *)

Section walk.
Context `{OsEnv} {X : Type} (fn : path → option node → option gerr → M (world * X) unit).

Fixpoint walk_info (fuel : nat) (p : path) (info : node) : M (world * X) unit :=
  match fuel with
  | O => panic
  | S k =>
      if negb (is_dir_node info) then fn p (Some info) None else
      names ← attempt (on_fst (os_ReadDir p));
      fn p (Some info) (match names with inl e => Some e | inr _ => None end);;
      (fix go (l : list dirent) : M (world * X) unit :=
         match l with
         | [] => mret tt
         | (c, _) :: l' =>
             i ← attempt (on_fst (os_Lstat (p ++ [c])));
             r ← attempt (match i with inl e => fn (p ++ [c]) None (Some e) | inr n => walk_info k (p ++ [c]) n end);
             match r with
             | inr _ => go l'
             | inl e =>
                 if bool_decide (e = SkipDir) && match i with inr n => is_dir_node n | inl _ => true end then go l' else throw e
             end
         end) (match names with inr l => l | inl _ => [] end)
  end.

Definition filepath_Walk (root : path) : M (world * X) unit :=
  w ← get_state;
  i ← attempt (on_fst (os_Lstat root));
  r ← attempt (match i with inl e => fn root None (Some e) | inr n => walk_info (S (depth (w_fs w.1))) root n end);
  match r with
  | inl e => if decide (e = SkipDir) then mret tt else throw e
  | inr _ => mret tt
  end.
End walk.

(** What the language leaves open: the order a map is gone through, and the
    spare capacity behind the bytes of a file that was read. *)
Class GoRuntime := {
  range_map : list (string * bytes) → list (string * bytes);
  range_perm l : range_map l ≡ₚ l;
  spare : bytes → bytes
}.

(** ** The machine *)

(** [ram] has an entry for a machine that runs. *)
Record fake := mkFake {
  ram : gmap string bytes;
  base : gmap string string;
  baseImg : gmap string buf;
  lastSnap : gmap string buf;
  Diffs : Z
}.

Definition NewFakeMachine : fake := mkFake ∅ ∅ ∅ ∅ 0.

Section machine.
Context `{OsEnv, Processes, GoRuntime} (root : path).

Definition get_fake : M (world * fake) fake := λ s, (Ok s.2, s).
Definition set_fake (g : fake → fake) : M (world * fake) unit := modify_snd g.

Definition guest_dir (id : string) : path := join (join root id) "work".

Definition pack_fn (dir p : path) (fi : option node) (err : option gerr) : M (world * gmap string bytes) unit :=
  match err, fi with
  | Some e, _ => throw e
  | None, Some (NDir _) => mret tt
  | None, _ =>
      r ← attempt (on_fst (os_ReadFile p));
      modify_snd (λ m, <[rel_of dir p := match r with inr b => b | inl _ => [] end]> m);;
      match r with inr _ => mret tt | inl e => throw e end
  end.
Definition packDir (dir : path) : M world bytes :=
  files ← with_local ∅ (filepath_Walk (pack_fn dir) dir);
  mret (files_json files).

Definition unpack_file (dir : path) (kv : string * bytes) : M world unit :=
  let p := join dir kv.1 in
  os_MkdirAll (dir_of p) o755;;
  os_WriteFile p kv.2 o644.
Definition unpackDir (b : bytes) (dir : path) : M world unit :=
  match files_of b with
  | None => throw (Errorf "json: cannot unmarshal the disk")
  | Some files =>
      ignore (os_RemoveAll dir);;
      for_each (range_map (map_to_list files)) (unpack_file dir);;
      os_MkdirAll dir o755
  end.

(** [hasher.PutFile]. *)
Definition hasher (p : path) : M world (string * Z) := b ← os_ReadFile p; mret (hashOf b, Z.of_nat (length b)).
(** [blobReader]: the bytes of a blob are its reader. *)
Definition blobReader (blob : string → M world bytes) : Blobs := mkBlobs bytes blob mret (λ _, mret tt).

Definition fm_Boot (id : string) : M (world * fake) unit :=
  f ← get_fake;
  match ram f !! id with
  | Some _ => mret tt
  | None =>
      on_fst (ignore (os_RemoveAll (guest_dir id)));;
      on_fst (os_MkdirAll (guest_dir id) o755);;
      set_fake (λ f, mkFake (<[id := to_bytes "boot;"]> (ram f)) (delete id (base f)) (baseImg f) (lastSnap f) (Diffs f))
  end.

Definition fm_Running (id : string) : M (world * fake) bool :=
  f ← get_fake; mret (bool_decide (is_Some (ram f !! id))).

Definition fm_Exec (id : string) (command : list string) : M (world * fake) Z :=
  up ← fm_Running id;
  if negb up then throw (Errorf ("sandbox " +:+ id +:+ " is not running")) else
  match command with
  | [] => panic
  | _ => on_fst (run_child command (guest_dir id))
  end.

Definition fm_ListFiles (id : string) : M (world * fake) (list Entry) :=
  t ← on_fst (Tree.Snapshot hasher None (guest_dir id));
  mret (t_Entries t).
Definition fm_ReadFile (id p : string) : M (world * fake) bytes := on_fst (os_ReadFile (join (guest_dir id) p)).
Definition fm_WriteTree (id : string) (t : Tree) (blob : string → M world bytes) : M (world * fake) unit :=
  on_fst (Restore (blobReader blob) t (guest_dir id)).

(** One page of a difference: written where it changed; the error of a write is
    dropped. *)
Definition diff_page (mf : path) (img prev : buf) (i : nat) : M world unit :=
  a ← slice img (i * 4096) (i * 4096 + 4096);
  b ← slice prev (i * 4096) (i * 4096 + 4096);
  if decide (a = b) then mret tt else ignore (fd_write_at mf a (i * 4096)).
(** The memory of a difference as a sparse file. *)
Definition write_diff (mem : path) (img prev : buf) : M world unit :=
  mf ← os_Create mem 0x1b6;
  ignore (fd_truncate mf fakeMemSize);;
  for_each (seq 0 16) (diff_page mf img prev);;
  ignore (fd_close mf).

Definition fm_Snapshot (id : string) (dir : path) (b : string) : M (world * fake) Image :=
  f ← get_fake;
  let img := memImage (default [] (ram f !! id)) in
  let diff := bool_decide (b ≠ "") && bool_decide (default "" (base f !! id) = b) && bool_decide (is_Some (baseImg f !! id)) in
  let prev := default (mkBuf [] []) (baseImg f !! id) in
  set_fake (λ f, mkFake (ram f) (base f) (baseImg f) (<[id := img]> (lastSnap f)) (if diff then Diffs f + 1 else Diffs f));;
  let out := mkImage (join dir "mem") (join dir "state") (Some (join dir "disk")) None diff (if diff then b else "") in
  (if diff then on_fst (write_diff (join dir "mem") img prev)
   else on_fst (os_WriteFile (join dir "mem") (b_data img) o600));;
  on_fst (os_WriteFile (join dir "state") (to_bytes "fake-vcpu-state") o600);;
  disk ← on_fst (packDir (guest_dir id));
  on_fst (os_WriteFile (join dir "disk") disk o600);;
  mret out.

Definition fm_Rebase (id b : string) : M (world * fake) unit :=
  set_fake (λ f, mkFake (ram f) (<[id := b]> (base f))
    (match lastSnap f !! id with Some i => <[id := i]> (baseImg f) | None => delete id (baseImg f) end) (lastSnap f) (Diffs f)).

(** An image without a disk has the empty path, which is not a file. *)
Definition fm_Resume (id : string) (img : Image) : M (world * fake) unit :=
  mem ← on_fst (os_ReadFile (i_Memory img));
  disk ← on_fst (match i_Disk img with Some d => os_ReadFile d | None => throw (Errno ENOENT) end);
  on_fst (unpackDir disk (guest_dir id));;
  let m := mkBuf mem (spare mem) in
  r ← memFromImage m;
  set_fake (λ f, mkFake (<[id := r]> (ram f)) (<[id := i_Base img]> (base f)) (<[id := m]> (baseImg f)) (lastSnap f) (Diffs f)).

Definition fm_Shutdown (id : string) : M (world * fake) unit :=
  set_fake (λ f, mkFake (delete id (ram f)) (base f) (baseImg f) (lastSnap f) (Diffs f)).

Definition Memory (id : string) : M (world * fake) bytes := f ← get_fake; mret (default [] (ram f !! id)).
Definition Touch (id : string) (b : bytes) : M (world * fake) unit :=
  set_fake (λ f, mkFake (<[id := default [] (ram f !! id) ++ b]> (ram f)) (base f) (baseImg f) (lastSnap f) (Diffs f)).

Definition fake_memory : MemoryBackend fake := {|
  Boot id _ := fm_Boot id;
  Running id := fm_Running id;
  Backend.Snapshot id d b := fm_Snapshot id d b;
  Rebase id b := fm_Rebase id b;
  Resume id _ img := fm_Resume id img;
  Shutdown id := fm_Shutdown id
|}.
Definition fake_guest : GuestFS fake := {|
  ListFiles id := fm_ListFiles id;
  Backend.ReadFile id p := fm_ReadFile id p;
  WriteTree id t blob := fm_WriteTree id t blob
|}.
Definition FakeBackend : Backend fake := {|
  Name := "fake-machine";
  Exec id _ command := fm_Exec id command;
  as_memory := Some fake_memory;
  as_guest := Some fake_guest
|}.

End machine.
End FakeMachine.
