(* ===== verification/FakeProps.v ===== *)
(** * What the fake machine's memory images promise *)

From S2P Require Import Prelude Sha256 Json Base64 Os OsFacts Cas Chunked Tree Backend FakeMachine Checks.
Import Json Base64 Cas Chunked Tree Backend FakeMachine.
Open Scope Z_scope.

(** ** The length at the front of an image *)

Lemma wrap64_small z : 0 ≤ z < 2 ^ 63 → wrap64 z = z.
Proof. intros Hz. unfold wrap64. rewrite Z.mod_small by lia. by rewrite decide_True by lia. Qed.

Lemma bN_byte_of k : (k < 256)%N → bN (byte_of k) = k.
Proof.
  intros Hk. unfold byte_of. rewrite N.mod_small by done.
  destruct (Byte.of_N k) as [b|] eqn:E; [by apply Byte.to_of_N in E|]. apply Byte.of_N_None_iff in E. lia.
Qed.

Lemma bZ_byte_at z i : 0 ≤ z → bZ (byte_at z i) = Z.shiftr z (8 * Z.of_nat i) mod 2 ^ 8.
Proof.
  intros Hz. unfold bZ, byte_at. change 0xff with (Z.ones 8). rewrite Z.land_ones by lia.
  pose proof (Z.mod_pos_bound (Z.shiftr z (8 * Z.of_nat i)) (2 ^ 8) ltac:(lia)).
  rewrite bN_byte_of; [lia|]. lia.
Qed.

(** The next byte puts eight more bits in place. *)
Lemma lor_byte z m : 0 ≤ m → Z.lor (z mod 2 ^ m) (Z.shiftl (Z.shiftr z m mod 2 ^ 8) m) = z mod 2 ^ (m + 8).
Proof.
  intros Hm. apply Z.bits_inj'. intros k Hk. rewrite Z.lor_spec, Z.shiftl_spec by lia.
  destruct (Z.lt_ge_cases k m) as [Hlt|Hge].
  - rewrite (Z.testbit_neg_r _ (k - m)) by lia. rewrite orb_false_r. rewrite !Z.mod_pow2_bits_low by lia. done.
  - rewrite Z.mod_pow2_bits_high by lia. cbn [orb]. destruct (Z.lt_ge_cases k (m + 8)).
    + rewrite !Z.mod_pow2_bits_low by lia. rewrite Z.shiftr_spec by lia. f_equal. lia.
    + rewrite !Z.mod_pow2_bits_high by lia. done.
Qed.

Lemma read_len_prefix z rest m :
  0 ≤ z < 2 ^ 63 → (m ≤ 8)%nat → read_len (map (byte_at z) (seq 0 8) ++ rest) m = z mod 2 ^ (8 * Z.of_nat m).
Proof.
  intros Hz Hm. induction m as [|m IH]; [by rewrite Z.mul_0_r, Z.mod_1_r|]. specialize (IH ltac:(lia)).
  unfold read_len in *. rewrite (seq_S m 0), foldl_app, IH. cbn [foldl Nat.add].
  assert ((map (byte_at z) (seq 0 8) ++ rest) !! m = Some (byte_at z m)) as ->.
  { rewrite lookup_app_l by (rewrite length_map, length_seq; lia). rewrite list_lookup_fmap, lookup_seq_lt by lia. done. }
  change (default x00 (Some (byte_at z m))) with (byte_at z m). rewrite bZ_byte_at, lor_byte by lia. replace (8 * Z.of_nat m + 8) with (8 * Z.of_nat (S m)) by lia.
  apply wrap64_small. split; [apply Z.mod_pos_bound; lia|]. eapply Z.le_lt_trans; [apply Z.mod_le; lia|lia].
Qed.

Lemma read_len_image z rest : 0 ≤ z < 2 ^ 63 → read_len (map (byte_at z) (seq 0 8) ++ rest) 8 = z.
Proof. intros Hz. rewrite read_len_prefix by lia. apply Z.mod_small. lia. Qed.

Definition room : nat := Z.to_nat (fakeMemSize - 8).

Lemma image_data ram : b_data (memImage ram) = map (byte_at (Z.of_nat (length ram))) (seq 0 8) ++ take room (ram ++ replicate room x00).
Proof. done. Qed.

Lemma image_length ram : length (b_data (memImage ram)) = Z.to_nat fakeMemSize.
Proof.
  rewrite image_data, length_app, length_map, length_seq, length_take, length_app, length_replicate.
  unfold room, fakeMemSize. lia.
Qed.

(** A memory image is always 16 pages; read back, with
    whatever capacity lies behind it, it gives the memory when that fits in the
    16 pages less 8 bytes; a longer one reads into the spare capacity, and
    panics beyond it. *)
Theorem mem_image_bounds {S} ram behind (s : S) :
  Z.of_nat (length ram) < 2 ^ 63 →
  Z.of_nat (length (b_data (memImage ram))) = fakeMemSize ∧
  memFromImage (mkBuf (b_data (memImage ram)) behind) s =
    (if decide (length ram ≤ room)%nat then Ok ram
     else if decide (length ram ≤ room + length behind)%nat
     then Ok (take room ram ++ take (length ram - room) behind)
     else Panic, s).
Proof.
  intros Hlen. pose proof (image_length ram) as Hil. split; [unfold fakeMemSize in *; lia|].
  assert (Z.to_nat fakeMemSize = 8 + room)%nat as Hroom by (unfold room, fakeMemSize; lia).
  assert (read_len (b_data (memImage ram)) 8 = Z.of_nat (length ram)) as Hrl by (rewrite image_data; apply read_len_image; lia).
  unfold memFromImage. cbn [b_data]. rewrite decide_False by lia. rewrite Hrl.
  rewrite decide_False by lia. rewrite Nat2Z.id. unfold slice. cbn [b_data b_behind]. rewrite length_app, Hil, Hroom.
  set (head := map (byte_at (Z.of_nat (length ram))) (seq 0 8)).
  assert (length head = 8%nat) as Hh by by unfold head; rewrite length_map, length_seq.
  assert (drop 8 (b_data (memImage ram) ++ behind) = take room (ram ++ replicate room x00) ++ behind) as Hdrop.
  { rewrite image_data. fold head. rewrite <- app_assoc, <- Hh. apply drop_app_length. }
  destruct (decide (length ram ≤ room)%nat) as [Hfit|Hfit].
  - rewrite decide_True by lia. rewrite Hdrop. unfold mret, M_ret. do 2 f_equal.
    replace (8 + length ram - 8)%nat with (length ram) by lia.
    rewrite take_app_le by (rewrite length_take, length_app, length_replicate; lia).
    rewrite take_take, Nat.min_l by lia. apply take_app_length.
  - destruct (decide (length ram ≤ room + length behind)%nat) as [Hs|Hs].
    + rewrite decide_True by lia. rewrite Hdrop. unfold mret, M_ret. do 2 f_equal.
      replace (8 + length ram - 8)%nat with (length ram) by lia. rewrite (take_app_le ram) by lia.
      rewrite take_app, take_take, Nat.min_r by lia. do 2 f_equal. rewrite length_take. lia.
    + by rewrite decide_False by lia.
Qed.

(** ** Differences *)

Definition page_size : nat := Z.to_nat 4096.
Lemma page_4096 : 4096%nat = page_size.
Proof. reflexivity. Qed.
#[global] Opaque page_size.
Definition page (b : buf) (i : nat) : bytes := take page_size (drop (i * page_size) (b_data b)).
(** A whole memory image. *)
Definition whole (b : buf) : Prop := length (b_data b) = (16 * page_size)%nat.

Lemma whole_size b : Z.of_nat (length (b_data b)) = fakeMemSize ↔ whole b.
Proof. unfold whole. rewrite <- page_4096. unfold fakeMemSize. lia. Qed.

Lemma page_length b i : whole b → (i < 16)%nat → length (page b i) = page_size.
Proof. unfold whole, page. intros Hb Hi. rewrite length_take, length_drop, Hb. nia. Qed.

Lemma slice_page {S} b i (Q : gerr + bytes → S → Prop) s :
  whole b → (i < 16)%nat → Q (inr (page b i)) s → wp (slice b (i * 4096) (i * 4096 + 4096)) Q s.
Proof.
  intros Hb Hi HQ. rewrite page_4096. unfold slice. unfold whole in Hb. rewrite decide_True by (rewrite length_app; nia). wp_step.
  replace (i * page_size + page_size - i * page_size)%nat with page_size by lia.
  rewrite drop_app_le by nia. rewrite take_app_le by (rewrite length_drop; nia). done.
Qed.

Section diff.
Context (img prev : buf) (Himg : whole img) (Hprev : whole prev).

Definition page_cells (i : nat) : list (option byte) :=
  if decide (page img i = page prev i) then replicate page_size None else Some <$> page img i.
Definition cells_to (n : nat) : list (option byte) := seq 0 n ≫= page_cells.

Lemma page_cells_length i : (i < 16)%nat → length (page_cells i) = page_size.
Proof. intros Hi. unfold page_cells. case_decide; [apply length_replicate|]. rewrite length_fmap. by apply page_length. Qed.
Lemma cells_to_S n : cells_to (S n) = cells_to n ++ page_cells n.
Proof. unfold cells_to. rewrite (seq_S n 0), bind_app. cbn. by rewrite app_nil_r. Qed.
Lemma cells_to_length n : (n ≤ 16)%nat → length (cells_to n) = (n * page_size)%nat.
Proof.
  intros Hn. induction n as [|n IH]; [done|]. rewrite cells_to_S, length_app, IH, page_cells_length by lia. lia.
Qed.

Lemma overlay_app (b1 b2 : bytes) c1 c2 : length b1 = length c1 → overlay (b1 ++ b2) (c1 ++ c2) = overlay b1 c1 ++ overlay b2 c2.
Proof. intros Hl. unfold overlay. by apply zip_with_app. Qed.
Lemma overlay_none (b : bytes) : overlay b (replicate (length b) None) = b.
Proof. induction b as [|x b IH]; [done|]. cbn. f_equal. exact IH. Qed.
Lemma overlay_some (b a : bytes) : length b = length a → overlay b (Some <$> a) = a.
Proof. revert a. induction b as [|x b IH]; intros [|y a] Hl; try done. cbn. f_equal. apply IH. by injection Hl. Qed.

Lemma overlay_page i : (i < 16)%nat → overlay (page prev i) (page_cells i) = page img i.
Proof.
  intros Hi. pose proof (page_length prev i Hprev Hi) as Hp. pose proof (page_length img i Himg Hi) as Hm.
  unfold page_cells. case_decide as He; [rewrite <- Hp at 1; by rewrite overlay_none|]. apply overlay_some. congruence.
Qed.

Lemma take_pages b n : whole b → (n < 16)%nat → take (S n * page_size) (b_data b) = take (n * page_size) (b_data b) ++ page b n.
Proof.
  intros Hb Hn. unfold page. replace (S n * page_size)%nat with (n * page_size + page_size)%nat by lia.
  rewrite take_drop_commute. rewrite <- (take_drop (n * page_size) (take (n * page_size + page_size) (b_data b))) at 1.
  by rewrite take_take, Nat.min_l by lia.
Qed.

Lemma overlay_pages n : (n ≤ 16)%nat → overlay (take (n * page_size) (b_data prev)) (cells_to n) = take (n * page_size) (b_data img).
Proof.
  intros Hn. induction n as [|n IH]; [done|]. rewrite cells_to_S, !take_pages by (done || lia).
  rewrite overlay_app; [by rewrite IH, overlay_page by lia|]. rewrite cells_to_length, length_take by lia. unfold whole in Hprev. nia.
Qed.

Lemma splice_end (l : list (option byte)) (a : bytes) k :
  splice (l ++ replicate (length a + k) None) (length l) a = l ++ (Some <$> a) ++ replicate k None.
Proof.
  unfold splice. rewrite take_app_length, length_app.
  replace (length l - (length l + _))%nat with 0%nat by lia. cbn [replicate app]. do 2 f_equal.
  rewrite drop_app, (drop_ge l) by lia. cbn [app].
  replace (length l + length a - length l)%nat with (length a) by lia. rewrite drop_replicate. f_equal. lia.
Qed.

Section written.
Context `{OsEnv} (Hq : quiet).

Lemma wp_diff_page p f i w :
  (i < 16)%nat → w_fs w !! p = Some (NFile f) → f_cells f = cells_to i ++ replicate ((16 - i) * page_size) None →
  wp (diff_page p img prev i) (λ v w', v = inr tt ∧ w_zero w' = w_zero w ∧ ∃ f', w_fs w' = <[p := NFile f']> (w_fs w) ∧
    f_cells f' = cells_to (S i) ++ replicate ((16 - S i) * page_size) None) w.
Proof.
  intros Hi Hp Hf. pose proof (page_length img i Himg Hi) as Hm. pose proof (cells_to_length i ltac:(lia)) as Hc. unfold diff_page.
  wp_step. apply slice_page; [done|done|]. wp_step. apply slice_page; [done|done|].
  assert (((16 - i) * page_size)%nat = (page_size + (16 - S i) * page_size)%nat) as Hsz by nia. rewrite Hsz in Hf.
  rewrite cells_to_S, <- app_assoc. unfold page_cells. case_decide.
  - wp_step. split_and!; [done|done|]. exists f. split; [by rewrite insert_id|]. by rewrite Hf, replicate_add.
  - wp_step. eapply wp_write_at; [done|done|]. intros t. split_and!; [done|done|]. eexists. split; [done|]. cbn [f_cells with_cells].
    rewrite page_4096, <- Hc, Hf, <- Hm. apply splice_end.
Qed.

Lemma wp_diff_pages p f w :
  w_fs w !! p = Some (NFile f) → f_cells f = replicate (16 * page_size) None →
  wp (for_each (seq 0 16) (diff_page p img prev)) (λ v w', v = inr tt ∧ w_zero w' = w_zero w ∧ ∃ f', w_fs w' = <[p := NFile f']> (w_fs w) ∧
    f_cells f' = cells_to 16) w.
Proof.
  intros Hp Hf.
  eapply wp_for_each with (I := λ dn w1, w_zero w1 = w_zero w ∧ ∃ f1, w_fs w1 = <[p := NFile f1]> (w_fs w) ∧
    f_cells f1 = cells_to (length dn) ++ replicate ((16 - length dn) * page_size) None).
  - split; [done|]. exists f. split; [by rewrite insert_id|done].
  - intros dn i todo w1 Hl (Hz1 & f1 & Hfs1 & Hf1).
    assert (i = length dn ∧ (length dn < 16)%nat) as [-> Hi].
    { assert (seq 0 16 !! length dn = Some i) as Hlk by (rewrite Hl; by apply list_lookup_middle).
      apply lookup_seq in Hlk as [-> ?]. split; lia. }
    wp_use (wp_diff_page p f1); [done|by rewrite Hfs1, lookup_insert_eq|done|].
    intros v w2 (-> & Hz2 & f2 & Hfs2 & Hf2). split; [congruence|]. exists f2. rewrite Hfs2, Hfs1, insert_insert_eq, length_app. split; [done|].
    replace (length dn + length [length dn])%nat with (S (length dn)) by (cbn; lia). done.
  - intros w1 (Hz1 & f1 & Hfs1 & Hf1). split_and!; [done|done|]. exists f1. split; [done|]. rewrite Hf1, length_seq. cbn. by rewrite app_nil_r.
Qed.

Lemma wp_write_diff d c w :
  fs_wf (w_fs w) → is_dir (w_fs w) d → good_name c →
  match w_fs w !! (d ++ [c]) with Some (NFile _) | None => True | _ => False end →
  wp (write_diff (d ++ [c]) img prev) (λ v w', v = inr tt ∧ w_zero w' = w_zero w ∧ ∃ f, w_fs w' = <[d ++ [c] := NFile f]> (w_fs w) ∧
    f_cells f = cells_to 16) w.
Proof.
  intros Hwf Hd Hg Hn. unfold write_diff. wp_step.
  assert (∀ f w1, f_cells f = [] → w_zero w1 = w_zero w → w_fs w1 = <[d ++ [c] := NFile f]> (w_fs w) →
    wp (ignore (fd_truncate (d ++ [c]) fakeMemSize);; for_each (seq 0 16) (diff_page (d ++ [c]) img prev);; ignore (fd_close (d ++ [c])))
      (λ v w', v = inr tt ∧ w_zero w' = w_zero w ∧ ∃ f, w_fs w' = <[d ++ [c] := NFile f]> (w_fs w) ∧ f_cells f = cells_to 16) w1) as Hrest.
  { intros f w1 Hf Hz1 Hfs1. wp_step. wp_step. eapply wp_truncate_empty; [by rewrite Hfs1, lookup_insert_eq|done|done|done|]. intros t.
    wp_step. wp_use wp_diff_pages; [cbn; apply lookup_insert_eq|cbn [f_cells with_cells]; rewrite <- page_4096; f_equal|].
    intros v w2 (-> & Hz2 & f2 & Hfs2 & Hf2). wp_step. apply wp_close; [done|]. split_and!; [done|cbn [w_zero tick set_fs] in *; congruence|].
    exists f2. split; [|done]. cbn [w_fs tick set_fs] in *. by rewrite Hfs2, Hfs1, !insert_insert_eq. }
  apply wp_Create; [done|done|done|done|]. destruct (w_fs w !! (d ++ [c])) as [[f|?|?|?]|]; try done; intros; (eapply Hrest; [| |cbn; reflexivity]; done).
Qed.

Lemma overlay_diff : overlay (b_data prev) (cells_to 16) = b_data img.
Proof. pose proof (overlay_pages 16 ltac:(lia)) as Ho. rewrite !take_ge in Ho by (unfold whole in *; lia). done. Qed.

(** C36 (diff_overlay): the sparse file of a difference snapshot, laid over the
    base image, is the memory image, and its holes are exactly the pages that
    did not change. *)
Theorem diff_overlay d c w :
  fs_wf (w_fs w) → is_dir (w_fs w) d → good_name c →
  match w_fs w !! (d ++ [c]) with Some (NFile _) | None => True | _ => False end →
  ∃ w' f, write_diff (d ++ [c]) img prev w = (Ok tt, w') ∧ w_fs w' = <[d ++ [c] := NFile f]> (w_fs w) ∧
    overlay (b_data prev) (f_cells f) = b_data img ∧
    ∀ i, (i < 16)%nat → take page_size (drop (i * page_size) (f_cells f)) =
      if decide (page img i = page prev i) then replicate page_size None else Some <$> page img i.
Proof.
  intros Hwf Hd Hg Hn.
  destruct (wp_exists _ _ _ (wp_write_diff d c w Hwf Hd Hg Hn)) as (v & w' & Hrun & -> & _ & f & Hfs & Hf). exists w', f. split_and!; [done|done|..].
  - rewrite Hf. apply overlay_diff.
  - intros i Hi. rewrite Hf. clear Hf. fold (page_cells i).
    assert (∀ n, (i < n)%nat → (n ≤ 16)%nat → take page_size (drop (i * page_size) (cells_to n)) = page_cells i) as Hall; [|by apply Hall].
    induction n as [|n IH]; [lia|]. intros Hin Hn16. rewrite cells_to_S. pose proof (cells_to_length n ltac:(lia)) as Hc.
    destruct (decide (i = n)) as [->|Hne].
    + rewrite <- Hc, drop_app_length. apply take_ge. rewrite page_cells_length by done. done.
    + rewrite drop_app_le by nia. rewrite take_app_le by (rewrite length_drop; nia). apply IH; lia.
Qed.

End written.
End diff.

(** ** Two memories *)

(** A memory image at a concrete input. *)
Lemma mem_image_bounds_witness :
  Z.of_nat (length (to_bytes "boot;")) < 2 ^ 63 ∧
  memFromImage (mkBuf (b_data (memImage (to_bytes "boot;"))) [x00]) tt = (Ok (to_bytes "boot;"), tt).
Proof.
  assert (Z.of_nat (length (to_bytes "boot;")) < 2 ^ 63) as Hl by (vm_compute; reflexivity). split; [exact Hl|].
  destruct (mem_image_bounds (to_bytes "boot;") [x00] tt Hl) as [_ Hrun]. rewrite Hrun.
  rewrite decide_True; [reflexivity|]. change (length (to_bytes "boot;")) with 5%nat. unfold room, fakeMemSize. lia.
Defined.

Lemma image_whole ram : whole (memImage ram).
Proof. apply whole_size. rewrite image_length. unfold fakeMemSize. lia. Qed.

Definition snap_world : world := World (list_to_map [([], NDir o755); (["snap"], NDir o755)]) 0 ∅.

(** C36 at a concrete input. *)
Lemma diff_overlay_witness :
  ∃ w' f, @write_diff calm ["snap"; "mem"] (memImage (to_bytes "boot;x")) (memImage (to_bytes "boot;")) snap_world = (Ok tt, w') ∧
    w_fs w' !! ["snap"; "mem"] = Some (NFile f) ∧
    overlay (b_data (memImage (to_bytes "boot;"))) (f_cells f) = b_data (memImage (to_bytes "boot;x")).
Proof.
  destruct (diff_overlay (memImage (to_bytes "boot;x")) (memImage (to_bytes "boot;")) (image_whole _) (image_whole _) calm_quiet ["snap"] "mem" snap_world)
    as (w' & f & Hrun & Hfs & Ho & _); [apply fs_check_ok; vm_compute; reflexivity|by eexists|done|exact I|].
  exists w', f. split; [exact Hrun|]. split; [rewrite Hfs; apply lookup_insert_eq|exact Ho].
Defined.
