(* ===== verification/PackFacts.v ===== *)
(** * The fake machine's disk

    What [packDir] and [unpackDir] of fake_machine.go do: the files below the
    guest's directory as one JSON document, and back. *)

From S2P Require Import Prelude Sha256 Json JsonFacts Codec Base64 Os OsFacts WalkFacts Cas Tree TreeFacts Snap SnapFacts SnapProps Backend FakeMachine.
Import Json Base64 Cas Tree Backend FakeMachine.
Open Scope Z_scope.

(** ** [MkdirAll] of several levels *)

Section mkdir_all.
Context `{OsEnv}.

Lemma namei_absent σ k follow cur p :
  Forall good_name p → (∀ q n, q `prefix_of` p → q ≠ [] → σ !! (cur ++ q) = Some n → is_dir_node n = true) →
  p ≠ [] → σ !! (cur ++ p) = None → match namei σ k follow cur p with inl e => e = ENOENT | inr q => σ !! q = None end.
Proof.
  revert cur. induction p as [|c p IH]; intros cur Hg Hd Hne Hn; [done|]. apply Forall_cons in Hg as [Hc Hg].
  rewrite namei_good by done. destruct (decide (p = [])) as [->|Hp].
  - by rewrite Hn.
  - assert (cur ++ c :: p = (cur ++ [c]) ++ p) as Hsplit by by rewrite <- app_assoc.
    destruct (σ !! (cur ++ [c])) as [n|] eqn:E; [|done].
    assert (is_dir_node n = true) as Hdn by (eapply (Hd [c]); [by exists p|done|done]). destruct n as [|m| |]; try done.
    apply IH; [done| |done|by rewrite <- Hsplit]. intros q n [r ->] Hq Hn'. apply (Hd (c :: q) n); [by exists r|done|]. by rewrite <- app_assoc in Hn'.
Qed.

(** Every directory on the way to [p] is a directory, if it is there. *)
Definition way (σ : fs) (p : path) : Prop := ∀ q n, q `prefix_of` p → σ !! q = Some n → is_dir_node n = true.

Lemma find_node_absent σ follow p : fs_wf σ → Forall good_name p → way σ p → σ !! p = None → find_node σ follow p = inl ENOENT.
Proof.
  intros [[m Hroot] _] Hg Hw Hn. assert (p ≠ []) as Hne by (intros ->; congruence).
  pose proof (namei_absent σ max_links follow [] p Hg (λ q n Hq _, Hw q n Hq) Hne Hn) as Hx. unfold find_node, resolve.
  destruct (namei σ max_links follow [] p) as [e|q]; [by rewrite Hx|]. by rewrite Hx.
Qed.

Lemma way_up σ p c : way σ (p ++ [c]) → way σ p.
Proof. intros Hw q n Hq. apply Hw. by apply prefix_app_r. Qed.

(** What it makes: the directories of the way that were not there. *)
Definition paved (m : Z) (p : path) (σ σ' : fs) : Prop := ∀ q,
  σ' !! q = match σ !! q with Some n => Some n | None => if decide (q `prefix_of` p) then Some (NDir (perm m)) else None end.

Lemma paved_dir m p σ σ' : way σ p → paved m p σ σ' → is_dir σ' p.
Proof.
  intros Hw Hp. unfold is_dir. rewrite Hp. destruct (σ !! p) as [n|] eqn:E; [|rewrite decide_True by done; by eexists].
  specialize (Hw p n (reflexivity _) E). destruct n; try done. by eexists.
Qed.

Lemma wp_MkdirAll_deep p m w :
  quiet → fs_wf (w_fs w) → Forall good_name p → way (w_fs w) p →
  wp (os_MkdirAll p m) (λ r w', r = inr tt ∧ w_zero w' = w_zero w ∧ fs_wf (w_fs w') ∧ paved m p (w_fs w) (w_fs w')) w.
Proof.
  intros Hq Hwf Hg Hw. unfold os_MkdirAll. revert w Hwf Hg Hw. induction p as [|c p IH] using rev_ind; intros w Hwf Hg Hw.
  { change (reverse ([] : path)) with ([] : path). cbn [mkdirAll_rev]. wp_step. wp_step. destruct (proj1 Hwf) as [m' Hm']. apply wp_Stat; [done|].
    change (reverse []) with ([] : path). rewrite (find_node_dir _ _ _ m') by done. simpl. wp_step. split_and!; [done..|].
    intros q. simpl. destruct (w_fs w !! q) eqn:E; [done|]. rewrite decide_False; [done|]. intros ->%prefix_nil_inv. congruence. }
  pose proof Hg as Hgc. apply Forall_app in Hg as [Hg Hc]. apply Forall_cons in Hc as [Hc _]. rewrite reverse_snoc. cbn [mkdirAll_rev].
  rewrite reverse_cons, reverse_involutive. wp_step. wp_step.
  destruct (w_fs w !! (p ++ [c])) as [n|] eqn:E.
  { pose proof (Hw _ _ (reflexivity _) E) as Hd. destruct n as [|md| |]; try done. apply wp_Stat; [done|].
    rewrite (find_node_dir _ _ _ md) by done. simpl. wp_step. split_and!; [done..|].
    intros q. simpl. destruct (w_fs w !! q) eqn:Eq; [done|]. rewrite decide_False; [done|]. intros [k Hk]. destruct (decide (k = [])) as [->|Hne].
    - rewrite app_nil_r in Hk. congruence.
    - destruct (fs_wf_up (w_fs w) q k Hwf Hne) as [mq Hmq]; [|congruence]. rewrite <- Hk, E. by eexists. }
  apply wp_Stat; [done|]. rewrite find_node_absent by done. simpl. wp_step.
  eapply wp_mono; [apply IH; [done|done|by eapply way_up]|]. intros x w1 (-> & Hz1 & Hwf1 & Hp1). simpl in Hp1, Hz1.
  pose proof (paved_dir m p _ _ (way_up _ _ _ Hw) Hp1) as Hd1.
  assert (w_fs w1 !! (p ++ [c]) = None) as Hn1.
  { rewrite Hp1, E, decide_False; [done|]. apply snoc_not_prefix. }
  wp_step. wp_step. apply wp_mkdir; [done|done|done|done|]. rewrite Hn1. wp_step. split_and!; [done|done|..].
  - simpl. apply fs_wf_insert; [done|done|done|]. intros [md Hmd]. congruence.
  - intros q. simpl. destruct (decide (q = p ++ [c])) as [->|Hne].
    + by rewrite lookup_insert_eq, E, decide_True.
    + rewrite lookup_insert_ne, Hp1 by done. destruct (w_fs w !! q); [done|]. apply (decide_ext _ _). split.
      * intros Hx. by apply prefix_app_r.
      * intros [->|?]%prefix_snoc; done.
Qed.

End mkdir_all.

(** ** Packing *)

Section pack.
Context `{OsEnv}.

(** The directory has files and directories only, with names that can be keys
    of the document. *)
Record tidy (dir : path) (σ : fs) : Prop := {
  td_dir : is_dir σ dir;
  td_kinds : ∀ cs n, σ !! (dir ++ cs) = Some n → is_dir_node n = true ∨ ∃ f, n = NFile f;
  td_names : slashless dir σ;
  td_utf8 : ∀ cs, is_Some (σ !! (dir ++ cs)) → valid_utf8 (to_bytes (join_with "/" cs)) = true
}.

Definition pack_visit (dir p : path) (n : node) : list (string * bytes) * bool :=
  (match n with NFile f => [(rel_of dir p, contents f)] | _ => [] end, true).
Definition add_all (m : gmap string bytes) (l : list (string * bytes)) : gmap string bytes := foldl (λ m kv, <[kv.1 := kv.2]> m) m l.
Definition pack_items (σ : fs) (dir : path) (n : nat) (p : path) : list (string * bytes) := walk_items σ (pack_visit dir) n p.

(** The files below a directory, by relative path. *)
Definition files_below (dir : path) (σ : fs) : gmap string bytes := add_all ∅ (pack_items σ dir (S (depth σ)) dir).

Lemma add_all_app m l l' : add_all m (l ++ l') = add_all (add_all m l) l'.
Proof. apply foldl_app. Qed.

Lemma wp_walk_info σ dir n p nd m w :
  quiet → fs_wf σ → tidy dir σ → w_fs w = σ → below dir p → σ !! p = Some nd → (depth σ < n + length p)%nat →
  wp (walk_info (pack_fn dir) n p nd) (λ r s, r = inr tt ∧ w_fs s.1 = σ ∧ w_zero s.1 = w_zero w ∧
    s.2 = add_all m (pack_items σ dir n p)) (w, m).
Proof.
  intros Hq Hwf Ht. revert p nd m w. induction n as [|k IH]; intros p nd m w Hσ Hb Hp Hfuel; [apply depth_bound in Hp; lia|].
  assert (is_dir_node nd = true ∨ ∃ f, nd = NFile f) as [Hd|[f ->]] by (destruct Hb as [cs ->]; by eapply (td_kinds _ _ Ht)).
  2: { cbn [walk_info is_dir_node negb pack_fn]. wp_step. wp_step. wp_step. eapply (wp_ReadFile p f); [by rewrite Hσ|by rewrite Hσ|done|].
       intros w' Hfs Hz. wp_step. wp_step. wp_step. split_and!; [done|simpl; congruence|done|]. cbn [snd]. unfold pack_items. cbn [walk_items].
       by rewrite Hp. }
  destruct nd as [|md| |]; try done. cbn [walk_info is_dir_node negb]. wp_step. wp_step. wp_step.
  apply (wp_ReadDir p md); [by rewrite Hσ|by rewrite Hσ|done|]. wp_step. cbn [pack_fn]. wp_step. rewrite Hσ.
  assert (pack_items σ dir (S k) p = children σ p ≫= (λ c, pack_items σ dir k (p ++ [c]))) as ->.
  { unfold pack_items. cbn [walk_items]. rewrite Hp. reflexivity. }
  assert (∀ c, c ∈ children σ p → is_Some (σ !! (p ++ [c]))) as Hch by (intros c; by rewrite elem_of_children).
  assert (w_fs (tick w) = σ) as Hσ' by done. change (w_zero w) with (w_zero (tick w)). generalize dependent (tick w). clear w Hσ. intros w Hσ. revert m w Hσ.
  assert (∀ l : list string, (∀ c, c ∈ l → is_Some (σ !! (p ++ [c]))) → ∀ m w, w_fs w = σ →
    wp ((fix go (l : list dirent) : M (world * gmap string bytes) unit :=
         match l with
         | [] => mret tt
         | (c, _) :: l' =>
             i ← attempt (on_fst (os_Lstat (p ++ [c])));
             r ← attempt (match i with inl e => pack_fn dir (p ++ [c]) None (Some e) | inr n => walk_info (pack_fn dir) k (p ++ [c]) n end);
             match r with
             | inr _ => go l'
             | inl e =>
                 if bool_decide (e = SkipDir) && match i with inr n => is_dir_node n | inl _ => true end then go l' else throw e
             end
         end) (dirent_of σ p <$> l)) (λ r s, r = inr tt ∧ w_fs s.1 = σ ∧ w_zero s.1 = w_zero w ∧
    s.2 = add_all m (l ≫= (λ c, pack_items σ dir k (p ++ [c])))) (w, m)) as Hloop; [|intros m w Hσ; by apply Hloop].
  induction l as [|c l IHl]; intros Hl m w Hσ.
  { cbn [fmap list_fmap]. wp_step. by split_and!. }
  destruct (Hl c) as [nc Hnc]; [left|]. cbn [fmap list_fmap]. unfold dirent_of at 1. wp_step. wp_step. wp_step.
  apply (wp_Lstat_some (p ++ [c]) nc); [by rewrite Hσ|by rewrite Hσ|done|]. wp_step. wp_step.
  eapply wp_mono; [apply IH; [done|by apply prefix_app_r|done|rewrite length_app; simpl; lia]|].
  intros x [w1 m1] (-> & Hσ1 & Hz1 & Hm1). cbn [fst snd] in *. subst m1.
  eapply wp_mono; [apply IHl; [intros c' Hc'; apply Hl; by right|done]|]. intros x [w2 m2] (-> & Hσ2 & Hz2 & Hm2). cbn [fst snd] in *. subst m2.
  split_and!; [done|done|by rewrite Hz2, Hz1|]. rewrite <- add_all_app. done.
Qed.

Lemma wp_packDir dir w :
  quiet → fs_wf (w_fs w) → tidy dir (w_fs w) →
  wp (packDir dir) (λ r w', r = inr (files_json (files_below dir (w_fs w))) ∧ w_fs w' = w_fs w ∧ w_zero w' = w_zero w) w.
Proof.
  intros Hq Hwf Ht. destruct (td_dir _ _ Ht) as [md Hmd]. unfold packDir. wp_step. apply wp_with_local. unfold filepath_Walk.
  wp_step. wp_step. wp_step. wp_step. wp_step. apply (wp_Lstat_some dir (NDir md)); [done|done|done|]. wp_step. wp_step.
  eapply wp_mono; [apply (wp_walk_info (w_fs w) dir); try done; cbn [fst]; lia|].
  intros x [w1 m1] (-> & Hσ & Hz & Hm). cbn [fst snd] in *. subst m1. wp_step. cbn [fst snd] in *. wp_step. by split_and!.
Qed.

(** ** The document's files *)

Lemma add_all_lookup l k b : NoDup l.*1 → add_all ∅ l !! k = Some b ↔ (k, b) ∈ l.
Proof.
  induction l as [|[k' b'] l IH] using rev_ind; intros Hn; [change (add_all ∅ []) with (∅ : gmap string bytes); by rewrite lookup_empty, elem_of_nil|].
  rewrite fmap_app in Hn. apply NoDup_app in Hn as (Hn & Hd & _). rewrite add_all_app. unfold add_all at 1. cbn [foldl fst snd].
  rewrite lookup_insert_Some, IH, elem_of_app, list_elem_of_singleton by done. split.
  - intros [[-> ->]|[_ Hin]]; [by right|by left].
  - intros [Hin|[= -> ->]]; [|by left]. right. split; [|done]. intros ->. apply (Hd k); [|left].
    apply list_elem_of_fmap. by exists (k, b).
Qed.

Lemma tidy_file_ne dir σ f cs : tidy dir σ → σ !! (dir ++ cs) = Some (NFile f) → cs ≠ [].
Proof. intros [[m Hm] _ _ _] Hf ->. rewrite app_nil_r in Hf. congruence. Qed.

Lemma tidy_split dir σ cs n : tidy dir σ → σ !! (dir ++ cs) = Some n → cs ≠ [] → split_on slash (join_with "/" cs) = cs.
Proof. intros Ht Hn Hne. apply (split_join slash); [done|]. apply (td_names _ _ Ht). by eexists. Qed.

Lemma dirs_reached dir σ cs n : fs_wf σ → σ !! (dir ++ cs) = Some n → reached σ (pack_visit dir) dir cs.
Proof.
  intros Hwf Hn k c x ->. destruct (fs_wf_up σ (dir ++ k) (c :: x) Hwf) as [m Hm]; [done|by rewrite <- app_assoc, Hn; eexists|].
  unfold open_at. by rewrite Hm.
Qed.

Lemma files_below_spec dir σ k b : fs_wf σ → tidy dir σ →
  files_below dir σ !! k = Some b ↔ ∃ cs f, k = join_with "/" cs ∧ σ !! (dir ++ cs) = Some (NFile f) ∧ contents f = b.
Proof.
  intros Hwf Ht. unfold files_below. rewrite add_all_lookup.
  - unfold pack_items. rewrite elem_of_walk_items by lia. split.
    + intros (cs & nd & Hnd & _ & Hx). destruct nd as [f| | |]; cbn [pack_visit fst] in Hx; try by apply not_elem_of_nil in Hx.
      apply list_elem_of_singleton in Hx. rewrite rel_of_app in Hx. injection Hx as -> ->. by exists cs, f.
    + intros (cs & f & -> & Hf & <-). exists cs, (NFile f). split_and!; [done|by eapply dirs_reached|]. cbn [pack_visit fst].
      apply list_elem_of_singleton. by rewrite rel_of_app.
  - apply (NoDup_fmap_1 (λ s, dir ++ split_on slash s)). rewrite <- list_fmap_compose.
    apply (walk_items_keys σ dir (pack_visit dir) ((λ s, dir ++ split_on slash s) ∘ fst)); [|done].
    intros q nd Hq [cs ->]. destruct nd as [f| | |]; cbn [pack_visit fst]; try (split; [simpl; lia|by intros x ?%not_elem_of_nil]).
    split; [simpl; lia|]. intros x ->%list_elem_of_singleton. cbn [fst compose]. unfold compose. cbn [fst]. rewrite rel_of_app.
    by erewrite tidy_split by (done || by eapply tidy_file_ne).
Qed.

(** Two directories with the same files. *)
Definition files_kept (dir : path) (σ : fs) (dir' : path) (σ' : fs) : Prop :=
  ∀ cs f, σ !! (dir ++ cs) = Some (NFile f) → ∃ f', σ' !! (dir' ++ cs) = Some (NFile f') ∧ contents f' = contents f.

Lemma files_below_eq dir σ dir' σ' :
  fs_wf σ → tidy dir σ → fs_wf σ' → tidy dir' σ' → files_kept dir σ dir' σ' → files_kept dir' σ' dir σ → files_below dir' σ' = files_below dir σ.
Proof.
  intros Hwf Ht Hwf' Ht' H1 H2. apply map_eq. intros k. apply option_eq. intros b. rewrite !files_below_spec by done. split.
  - intros (cs & f & -> & Hf & <-). destruct (H2 cs f Hf) as (f' & Hf' & Hc). by exists cs, f'.
  - intros (cs & f & -> & Hf & <-). destruct (H1 cs f Hf) as (f' & Hf' & Hc). by exists cs, f'.
Qed.

(** The files depend on what is below the directory only. *)
Lemma pack_items_agree σ σ' dir n n' p :
  (∀ q, below p q → σ' !! q = σ !! q) → (depth σ < n + length p)%nat → (depth σ' < n' + length p)%nat →
  pack_items σ' dir n' p = pack_items σ dir n p.
Proof.
  unfold pack_items. revert n' p. induction n as [|k IH]; intros n' p Ha Hn Hn'; pose proof (Ha p (reflexivity _)) as Hp.
  - destruct (σ !! p) as [nd|] eqn:E; [apply depth_bound in E; lia|]. destruct n' as [|k']; [done|]. cbn [walk_items]. by rewrite Hp.
  - cbn [walk_items]. destruct n' as [|k']; cbn [walk_items]; rewrite <- Hp; destruct (σ' !! p) as [nd|] eqn:E; try done; [apply depth_bound in E; lia|].
    f_equal. destruct (is_dir_node nd && _); [|done].
    rewrite (children_agree σ σ' p) by (intros c; rewrite Ha; [done|by eexists]).
    apply list_bind_ext; [|done]. intros c. apply IH; [|rewrite length_app; cbn; lia..]. intros q [e ->]. apply Ha. rewrite <- app_assoc. by eexists.
Qed.
Lemma files_below_agree dir σ σ' : (∀ q, below dir q → σ' !! q = σ !! q) → files_below dir σ' = files_below dir σ.
Proof. intros Ha. unfold files_below. f_equal. apply pack_items_agree; [done|lia..]. Qed.

Lemma tidy_agree dir σ σ' : (∀ q, below dir q → σ' !! q = σ !! q) → tidy dir σ → tidy dir σ'.
Proof.
  intros Ha [[m Hm] Hk Hn Hu]. assert (∀ cs, σ' !! (dir ++ cs) = σ !! (dir ++ cs)) as Hcs by (intros cs; apply Ha; by eexists). split.
  - exists m. rewrite Ha; [done|by exists []; rewrite app_nil_r].
  - intros cs n. rewrite Hcs. apply Hk.
  - intros cs. rewrite Hcs. apply Hn.
  - intros cs. rewrite Hcs. apply Hu.
Qed.

(** ** The document *)

Lemma base64_table : forallb (λ k, (bN (digit (N.of_nat k)) <? 0x80)%N) (seq 0 64) = true.
Proof. vm_compute. reflexivity. Qed.
Lemma base64_digit d : (d < 64)%N → (bN (digit d) <? 0x80)%N = true.
Proof.
  revert d. apply digit_cases. intros k Hk. pose proof base64_table as Ht. rewrite forallb_forall in Ht. apply Ht, in_seq. lia.
Qed.

Lemma base64_ascii b : Forall (λ b, (bN b <? 0x80)%N = true) (EncodeToString b).
Proof.
  induction b as [|b|b c|b c d l IH] using three_ind; [constructor|..].
  all: pose proof (bN_bound b); try pose proof (bN_bound c); try pose proof (bN_bound d); cbn [EncodeToString];
    repeat (apply Forall_cons; split; [try reflexivity; apply base64_digit|]); try done.
  all: first [apply N.div_lt_upper_bound; lia|apply N.mod_lt; lia|idtac].
Qed.

(** The document of files whose names are valid text reads back as the files. *)
Lemma files_added l m :
  NoDup l.*1 →
  foldl (λ m kv, m ≫= λ m, files_add m kv) (Some m) ((λ kv : string * bytes, (kv.1, JStr (of_bytes (EncodeToString kv.2)))) <$> l)
  = Some (list_to_map l ∪ m).
Proof.
  revert m. induction l as [|[k b] l IH]; intros m Hn; [apply (f_equal Some); symmetry; apply (left_id_L ∅ (∪))|]. apply NoDup_cons in Hn as [Hk Hn].
  cbn [fmap list_fmap foldl mbind option_bind]. unfold files_add at 2. cbn [fst snd bytes_of_json].
  rewrite (cancel to_bytes of_bytes), base64_roundtrip. cbn [fmap option_fmap option_map]. rewrite IH by done. f_equal.
  rewrite <- insert_union_r by (by apply not_elem_of_list_to_map_1). by rewrite insert_union_l.
Qed.

Lemma files_roundtrip (m : gmap string bytes) : (∀ k, is_Some (m !! k) → utf8 k) → files_of (files_json m) = Some m.
Proof.
  intros Hu. unfold files_of, files_json.
  set (l := merge_sort key_before (map_to_list m)). assert (l ≡ₚ map_to_list m) as Hl by apply merge_sort_Permutation.
  assert (Forall (λ kv, utf8 kv.1) l) as Hlu.
  { rewrite Hl. apply Forall_forall. intros [k b] Hk%elem_of_map_to_list. apply Hu. by eexists. }
  rewrite parse_Marshal.
  - rewrite files_added.
    + f_equal. rewrite (right_id_L ∅ (∪)). rewrite <- (list_to_map_to_list m). apply list_to_map_proper; [|done].
      rewrite Hl. apply NoDup_fst_map_to_list.
    + rewrite Hl. apply NoDup_fst_map_to_list.
  - apply json_wf_obj, Forall_fmap. eapply Forall_impl; [exact Hlu|]. intros [k b] Hk. split; [exact Hk|].
    cbn [compose snd json_wf]. rewrite (cancel to_bytes of_bytes). apply ascii_valid, base64_ascii.
Qed.

Lemma files_below_utf8 dir σ k : fs_wf σ → tidy dir σ → is_Some (files_below dir σ !! k) → utf8 k.
Proof.
  intros Hwf Ht [b (cs & f & -> & Hf & _)%files_below_spec]; [|done|done]. apply (td_utf8 _ _ Ht). by eexists.
Qed.

(** ** Unpacking *)

(** The keys are file names that can be together in one directory. *)
Record layable (l : list (string * bytes)) : Prop := {
  ly_nodup : NoDup l;
  ly_names kv : kv ∈ l → Forall good_name (split_on slash kv.1);
  ly_free kv kv' : kv ∈ l → kv' ∈ l → split_on slash kv.1 `prefix_of` split_on slash kv'.1 → kv = kv'
}.

Lemma layable_perm l l' : l ≡ₚ l' → layable l → layable l'.
Proof.
  intros Hp [Hn Hg Hf]. split; [by rewrite <- Hp|intros kv; rewrite <- Hp; apply Hg|]. intros kv kv'. rewrite <- Hp. apply Hf.
Qed.

(** The files of [l], and the directories on the way to them, are all there is
    below [dir]. *)
Record unpacked (dir : path) (l : list (string * bytes)) (σ σ' : fs) : Prop := {
  la_wf : fs_wf σ';
  la_out q : ¬ below dir q → ¬ q `prefix_of` dir → σ' !! q = σ !! q;
  la_up q n : q `prefix_of` dir → q ≠ dir → σ !! q = Some n → σ' !! q = Some n;
  la_way : way σ' dir;
  la_files k b : (k, b) ∈ l → ∃ f, σ' !! (dir ++ split_on slash k) = Some (NFile f) ∧ contents f = b;
  la_all cs n : σ' !! (dir ++ cs) = Some n →
    is_dir_node n = true ∧ (cs = [] ∨ ∃ kv, kv ∈ l ∧ cs `prefix_of` split_on slash kv.1) ∨
    ∃ kv f, kv ∈ l ∧ cs = split_on slash kv.1 ∧ n = NFile f
}.

Lemma unpacked_fresh dir l kv todo σ σ' e n :
  layable (l ++ kv :: todo) → unpacked dir l σ σ' → e `prefix_of` split_on slash kv.1 → σ' !! (dir ++ e) = Some n →
  is_dir_node n = true ∧ e ≠ split_on slash kv.1.
Proof.
  intros [Hn _ Hf] Hl He Hlk. assert (kv ∉ l) as Hkv by (apply NoDup_app in Hn as (_ & Hd & _); intros Hin; apply (Hd kv Hin); left).
  assert (∀ kv', kv' ∈ l → ¬ (split_on slash kv.1 `prefix_of` split_on slash kv'.1) ∧ ¬ (split_on slash kv'.1 `prefix_of` split_on slash kv.1)) as Hfree.
  { intros kv' Hin. split; intros Hp; apply Hkv.
    - by rewrite (Hf kv kv') by (done || (apply elem_of_app; (by left) || (right; left))).
    - by rewrite <- (Hf kv' kv) by (done || (apply elem_of_app; (by left) || (right; left))). }
  destruct (la_all _ _ _ _ Hl e n Hlk) as [[Hd Hc]|(kv' & f & Hin & -> & _)].
  - split; [done|]. intros ->. destruct Hc as [Hc|(kv' & Hin & Hp)]; [by apply split_on_not_nil in Hc|]. by apply Hfree in Hp.
  - by apply Hfree in He.
Qed.

Lemma unpacked_way dir l kv todo σ σ' ds c :
  layable (l ++ kv :: todo) → unpacked dir l σ σ' → split_on slash kv.1 = ds ++ [c] → way σ' (dir ++ ds).
Proof.
  intros Hy Hl Hs q n Hq Hn. destruct (prefix_weak_total q dir (dir ++ ds)) as [Hp|[e ->]]; [done|by exists ds|..].
  - by apply (la_way _ _ _ _ Hl q).
  - apply prefix_app_inv in Hq. destruct (unpacked_fresh dir l kv todo σ σ' e n Hy Hl) as [? _]; [|done|done]. rewrite Hs. by apply prefix_app_r.
Qed.

Lemma unpacked_file m dir l kv todo σ σ1 σ2 ds c f :
  layable (l ++ kv :: todo) → unpacked dir l σ σ1 → split_on slash kv.1 = ds ++ [c] → fs_wf σ2 → paved m (dir ++ ds) σ1 σ2 →
  contents f = kv.2 → unpacked dir (l ++ [kv]) σ (<[(dir ++ ds) ++ [c] := NFile f]> σ2).
Proof.
  intros Hy Hl Hs Hwf Hp Hf. assert ((dir ++ ds) ++ [c] = dir ++ split_on slash kv.1) as Hpath by by rewrite Hs, app_assoc.
  pose proof (unpacked_way _ _ _ _ _ _ _ _ Hy Hl Hs) as Hw. pose proof (paved_dir _ _ _ _ Hw Hp) as Hd.
  assert (Forall good_name (split_on slash kv.1)) as Hg by (apply (ly_names _ Hy); apply elem_of_app; right; left).
  assert (∀ q n, σ1 !! q = Some n → σ2 !! q = Some n) as Hkeep by (intros q n Hn; by rewrite Hp, Hn).
  assert (∀ q, ¬ below dir q → (dir ++ ds) ++ [c] ≠ q) as Hne by (intros q Hb <-; apply Hb; rewrite <- app_assoc; by eexists).
  assert (σ1 !! (dir ++ split_on slash kv.1) = None) as Hnone.
  { destruct (σ1 !! (dir ++ split_on slash kv.1)) eqn:E; [|done]. by destruct (unpacked_fresh dir l kv todo σ σ1 _ _ Hy Hl (reflexivity _) E). }
  split.
  - apply fs_wf_insert; [done|done|rewrite Hs in Hg; apply Forall_app in Hg as [_ Hg]; by apply Forall_cons in Hg as [? _]|].
    intros [md Hmd]. rewrite Hp, Hpath, Hnone, decide_False in Hmd; [done|]. rewrite <- Hpath. apply snoc_not_prefix.
  - intros q Hb Hq. rewrite lookup_insert_ne by auto. rewrite Hp, (la_out _ _ _ _ Hl) by done. destruct (σ !! q); [done|].
    rewrite decide_False; [done|]. intros Hx. by destruct (prefix_weak_total q dir (dir ++ ds)) as [?|?]; [|by exists ds|..].
  - intros q n Hq Hqd Hn. rewrite lookup_insert_ne; [by apply Hkeep, (la_up _ _ _ _ Hl)|]. apply Hne. intros Hb. apply Hqd.
    by apply (anti_symm prefix).
  - intros q n Hq. destruct (decide (q = (dir ++ ds) ++ [c])) as [->|Hqc].
    { exfalso. apply prefix_length in Hq. rewrite !length_app in Hq. cbn in Hq. lia. }
    rewrite lookup_insert_ne by done. rewrite Hp. destruct (σ1 !! q) as [n'|] eqn:E; [intros [= ->]; by apply (la_way _ _ _ _ Hl q)|].
    case_decide; [intros [= <-]; done|done].
  - intros k b [Hin|Hin]%elem_of_app.
    + destruct (la_files _ _ _ _ Hl k b Hin) as (f' & Hf' & Hc). exists f'. split; [|done]. rewrite lookup_insert_ne; [by apply Hkeep|].
      rewrite Hpath. intros Heq. rewrite Heq in Hnone. congruence.
    + apply list_elem_of_singleton in Hin as <-. exists f. cbn [fst snd] in *. rewrite <- Hpath. by rewrite lookup_insert_eq.
  - intros cs n. destruct (decide (cs = split_on slash kv.1)) as [->|Hcs].
    { rewrite <- Hpath, lookup_insert_eq. intros [= <-]. right. exists kv, f. split_and!; [apply elem_of_app; right; left|done|done]. }
    rewrite Hpath, lookup_insert_ne by (by intros ?%(inj (app dir))). rewrite Hp. destruct (σ1 !! (dir ++ cs)) as [n'|] eqn:E.
    + intros [= ->]. destruct (la_all _ _ _ _ Hl cs n E) as [[Hdn Hc]|(kv' & f' & Hin & -> & ->)].
      * left. split; [done|]. destruct Hc as [?|(kv' & Hin & Hpre)]; [by left|]. right. exists kv'. split; [apply elem_of_app; by left|done].
      * right. exists kv', f'. split_and!; [apply elem_of_app; by left|done|done].
    + case_decide as Hpre; [|done]. intros [= <-]. left. split; [done|]. apply prefix_app_inv in Hpre. right. exists kv.
      split; [apply elem_of_app; right; left|]. rewrite Hs. by apply prefix_app_r.
Qed.

Lemma unpacked_perm dir l l' σ σ' : l ≡ₚ l' → unpacked dir l σ σ' → unpacked dir l' σ σ'.
Proof.
  intros Hp [H1 H2 H3 H4 H5 H6]. split; [done..| |].
  - intros k b. rewrite <- Hp. apply H5.
  - intros cs n Hn. destruct (H6 cs n Hn) as [[Hd Hc]|(kv & f & Hin & Hc)].
    + left. split; [done|]. destruct Hc as [?|(kv & Hin & Hc)]; [by left|]. right. exists kv. by rewrite <- Hp.
    + right. exists kv, f. by rewrite <- Hp.
Qed.

Lemma unpacked_paved m dir l σ σ1 σ2 : fs_wf σ2 → unpacked dir l σ σ1 → paved m dir σ1 σ2 → unpacked dir l σ σ2.
Proof.
  intros Hwf Hl Hp. assert (∀ q n, σ1 !! q = Some n → σ2 !! q = Some n) as Hkeep by (intros q n Hn; by rewrite Hp, Hn). split.
  - done.
  - intros q Hb Hq. rewrite Hp, (la_out _ _ _ _ Hl) by done. destruct (σ !! q); [done|]. by rewrite decide_False.
  - intros q n Hq Hqd Hn. by apply Hkeep, (la_up _ _ _ _ Hl).
  - intros q n Hq. rewrite Hp. destruct (σ1 !! q) as [n'|] eqn:E; [intros [= ->]; by apply (la_way _ _ _ _ Hl q)|].
    case_decide; [intros [= <-]; done|done].
  - intros k b Hin. destruct (la_files _ _ _ _ Hl k b Hin) as (f & Hf & Hc). exists f. split; [by apply Hkeep|done].
  - intros cs n. rewrite Hp. destruct (σ1 !! (dir ++ cs)) as [n'|] eqn:E; [intros [= ->]; by apply (la_all _ _ _ _ Hl)|].
    case_decide as Hx; [|done]. intros [= <-]. left. split; [done|]. left. rewrite <- (app_nil_r dir) in Hx at 2.
    apply prefix_app_inv in Hx. by apply prefix_nil_inv.
Qed.

Lemma wp_unpack_file dir l kv todo σ w :
  quiet → Forall good_name dir → layable (l ++ kv :: todo) → unpacked dir l σ (w_fs w) →
  wp (unpack_file dir kv) (λ r w', r = inr tt ∧ w_zero w' = w_zero w ∧ unpacked dir (l ++ [kv]) σ (w_fs w')) w.
Proof.
  intros Hq Hgd Hy Hl. assert (Forall good_name (split_on slash kv.1)) as Hg by (apply (ly_names _ Hy); apply elem_of_app; right; left).
  destruct (path_case (split_on slash kv.1)) as [Hnil|(ds & c & Hs)]; [by apply split_on_not_nil in Hnil|].
  pose proof (unpacked_way _ _ _ _ _ _ _ _ Hy Hl Hs) as Hw. rewrite Hs in Hg. pose proof Hg as [Hgs [Hgc _]%Forall_cons]%Forall_app.
  unfold unpack_file, join. rewrite Hs, clean_onto_good, app_assoc by done. unfold dir_of. rewrite removelast_last.
  wp_step. eapply wp_mono; [apply wp_MkdirAll_deep; [done|apply (la_wf _ _ _ _ Hl)|by apply Forall_app|done]|].
  intros x w1 (-> & Hz1 & Hwf1 & Hp1). pose proof (paved_dir _ _ _ _ Hw Hp1) as Hd1.
  assert (w_fs w1 !! ((dir ++ ds) ++ [c]) = None) as Hn1.
  { rewrite Hp1. rewrite <- app_assoc, <- Hs. destruct (w_fs w !! (dir ++ split_on slash kv.1)) eqn:E.
    - by destruct (unpacked_fresh dir l kv todo σ _ _ _ Hy Hl (reflexivity _) E).
    - rewrite decide_False; [done|]. rewrite Hs, app_assoc. apply snoc_not_prefix. }
  eapply wp_mono; [apply wp_WriteFile; [done|done|done|by rewrite Hn1]|]. intros x w2 [Hz2 Hr].
  destruct x as [e|[]]; [by destruct Hr|]. destruct Hr as (f & Hc & Hfs). split_and!; [done|congruence|]. rewrite Hfs.
  by eapply unpacked_file.
Qed.

Lemma wp_clear dir w :
  quiet → fs_wf (w_fs w) → Forall good_name dir → dir ≠ [] → way (w_fs w) dir →
  wp (ignore (os_RemoveAll dir)) (λ r w', r = inr tt ∧ w_zero w' = w_zero w ∧ unpacked dir [] (w_fs w) (w_fs w')) w.
Proof.
  intros Hq Hwf Hg Hne Hw.
  assert (unpacked dir [] (w_fs w) (filter (λ kv, ¬ below dir kv.1) (w_fs w))) as Hl.
  { split.
    - by apply fs_wf_remove.
    - intros q Hb _. apply option_eq. intros n. rewrite map_lookup_filter_Some. naive_solver.
    - intros q n Hp Hqd Hn. apply map_lookup_filter_Some. split; [done|]. intros Hb. apply Hqd. by apply (anti_symm prefix).
    - intros q n Hp [Hn _]%map_lookup_filter_Some. by eapply Hw.
    - by intros k b ?%not_elem_of_nil.
    - intros cs n [_ Hb]%map_lookup_filter_Some. exfalso. apply Hb. by eexists. }
  wp_step. apply wp_sys; [done|]. destruct (w_fs w !! dir) as [n|] eqn:E.
  - rewrite (find_node_some _ _ _ n) by (done || (intros t; specialize (Hw _ _ (reflexivity _) E); by destruct n)). by split_and!.
  - rewrite find_node_absent by done. split_and!; [done|done|]. cbn [w_fs tick set_fs].
    destruct (path_case dir) as [->|(d & c & ->)]; [done|]. enough (filter (λ kv, ¬ below (d ++ [c]) kv.1) (w_fs w) = w_fs w) as He by by rewrite He in Hl.
    apply map_filter_id. intros q n Hn Hb. cbn [fst] in Hb. destruct Hb as [k ->]. destruct (decide (k = [])) as [->|Hk]; [rewrite app_nil_r in Hn; congruence|].
    destruct (fs_wf_up _ (d ++ [c]) k Hwf Hk) as [m Hm]; [by eexists|congruence].
Qed.

(** What a directory was packed from can be unpacked out again, and gives the same
    files. *)
Lemma below_key dir σ kv : fs_wf σ → tidy dir σ → kv ∈ map_to_list (files_below dir σ) →
  ∃ f, σ !! (dir ++ split_on slash kv.1) = Some (NFile f) ∧ contents f = kv.2.
Proof.
  intros Hwf Ht. destruct kv as [k b]. intros (cs & f & -> & Hf & <-)%elem_of_map_to_list%files_below_spec; [|done|done].
  exists f. cbn [fst snd]. erewrite tidy_split; [done|done|done|by eapply tidy_file_ne].
Qed.

Lemma below_layable dir σ : fs_wf σ → tidy dir σ → layable (map_to_list (files_below dir σ)).
Proof.
  intros Hwf Ht. split.
  - apply NoDup_map_to_list.
  - intros kv (f & Hf & _)%below_key; [|done|done]. apply (fs_wf_names σ dir); [done|by eexists].
  - intros [k b] [k' b'] Hk Hk' [e He]. pose proof (below_key _ _ _ Hwf Ht Hk) as (f & Hf & _). pose proof (below_key _ _ _ Hwf Ht Hk') as (f' & Hf' & _).
    cbn [fst snd] in *. destruct (decide (e = [])) as [->|Hne].
    + rewrite app_nil_r in He. assert (k = k') as <- by (rewrite <- (join_split slash k), <- (join_split slash k'); by rewrite He).
      f_equal. apply elem_of_map_to_list in Hk, Hk'. congruence.
    + destruct (fs_wf_up σ (dir ++ split_on slash k) e Hwf Hne) as [m Hm]; [|congruence]. rewrite <- app_assoc, <- He, Hf'. by eexists.
Qed.

Lemma unpacked_below dir σ dir' σ0 σ' :
  fs_wf σ → tidy dir σ → is_dir σ' dir' → unpacked dir' (map_to_list (files_below dir σ)) σ0 σ' →
  tidy dir' σ' ∧ files_below dir' σ' = files_below dir σ.
Proof.
  intros Hwf Ht Hd Hl.
  assert (∀ cs, is_Some (σ' !! (dir' ++ cs)) → is_Some (σ !! (dir ++ cs))) as Hback.
  { intros cs [n Hn]. destruct (la_all _ _ _ _ Hl cs n Hn) as [[_ [->|(kv & Hin & e & He)]]|(kv & f & Hin & -> & _)].
    - rewrite app_nil_r. destruct (td_dir _ _ Ht) as [m Hm]. by eexists.
    - destruct (below_key _ _ _ Hwf Ht Hin) as (f & Hf & _). destruct (decide (e = [])) as [->|Hne].
      + rewrite app_nil_r in He. rewrite <- He, Hf. by eexists.
      + destruct (fs_wf_up σ (dir ++ cs) e Hwf Hne) as [m Hm]; [|by eexists]. rewrite <- app_assoc, <- He, Hf. by eexists.
    - destruct (below_key _ _ _ Hwf Ht Hin) as (f' & Hf & _). by eexists. }
  assert (tidy dir' σ') as Ht'.
  { split.
    - done.
    - intros cs n Hn. destruct (la_all _ _ _ _ Hl cs n Hn) as [[? _]|(kv & f & _ & _ & ->)]; [by left|right; by eexists].
    - intros cs Hs. by apply (td_names _ _ Ht), Hback.
    - intros cs Hs. by apply (td_utf8 _ _ Ht), Hback. }
  split; [done|]. apply files_below_eq; [done|done|apply (la_wf _ _ _ _ Hl)|done|..].
  - intros cs f Hf. destruct (la_files _ _ _ _ Hl (join_with "/" cs) (contents f)) as (f' & Hf' & Hc).
    { apply elem_of_map_to_list, files_below_spec; [done|done|]. by exists cs, f. }
    rewrite (tidy_split dir σ cs (NFile f)) in Hf' by (done || exact (tidy_file_ne _ _ _ _ Ht Hf)). by exists f'.
  - intros cs f Hf. destruct (la_all _ _ _ _ Hl cs _ Hf) as [[? _]|([k b] & f' & Hin & -> & Heq)]; [done|]. injection Heq as <-.
    destruct (below_key _ _ _ Hwf Ht Hin) as (f1 & Hf1 & Hc1). destruct (la_files _ _ _ _ Hl k b Hin) as (f2 & Hf2 & Hc2).
    cbn [fst snd] in *. exists f1. split; [done|]. congruence.
Qed.

Context `{GoRuntime}.

Lemma wp_unpackDir b files dir w :
  quiet → fs_wf (w_fs w) → Forall good_name dir → dir ≠ [] → way (w_fs w) dir →
  files_of b = Some files → layable (map_to_list files) →
  wp (unpackDir b dir) (λ r w', r = inr tt ∧ w_zero w' = w_zero w ∧ unpacked dir (map_to_list files) (w_fs w) (w_fs w') ∧ is_dir (w_fs w') dir) w.
Proof.
  intros Hq Hwf Hg Hne Hw Hfiles Hy. unfold unpackDir. rewrite Hfiles.
  assert (layable (range_map (map_to_list files))) as Hy' by by eapply layable_perm; [symmetry; apply range_perm|].
  wp_step. wp_use wp_clear; [done..|]. intros x w1 (-> & Hz1 & Hl1).
  wp_step. eapply wp_for_each with (I := λ l w2, w_zero w2 = w_zero w ∧ unpacked dir l (w_fs w) (w_fs w2)).
  - done.
  - intros l kv todo w2 Heq [Hz2 Hl2]. rewrite Heq in Hy'. eapply wp_mono; [by eapply wp_unpack_file|].
    intros x w3 (-> & Hz3 & Hl3). split; [congruence|done].
  - intros w2 [Hz2 Hl2]. eapply wp_mono; [apply wp_MkdirAll_deep; [done|apply (la_wf _ _ _ _ Hl2)|done|apply (la_way _ _ _ _ Hl2)]|].
    intros x w3 (-> & Hz3 & Hwf3 & Hp3). pose proof (paved_dir _ _ _ _ (la_way _ _ _ _ Hl2) Hp3) as Hd.
    split_and!; [done|congruence| |done]. eapply unpacked_perm; [apply range_perm|by eapply unpacked_paved].
Qed.
End pack.
