(* ===== verification/DirProps.v ===== *)
(** * A directory store is a map

    [DirStore] takes any key and makes a path of it.  For every set of keys whose
    paths keep out of each other's way (no path is above another, none is the
    temporary name of another), the store answers as a map from keys to bytes
    does; the keys of the engine are such a set, and two keys of which one is the
    temporary name of the other are not answered so. *)

From S2P Require Import Prelude Sha256 Os OsFacts Cas Repo RepoFacts PackFacts Backend Engine Remote Sync SyncFacts StoreFacts DirFacts Checks.
Import Cas Repo Remote Sync.
Open Scope Z_scope.

(** Nothing but a file. *)
Definition file_or_none (n : option node) : Prop := match n with Some (NFile _) | None => True | _ => False end.

Lemma paved_up `{OsEnv} m p σ σ' q : way σ p → paved m p σ σ' → way σ q → way σ' q.
Proof.
  intros Hp Hv Hw r n Hr Hn. rewrite Hv in Hn. destruct (σ !! r) as [n'|] eqn:E; [injection Hn as <-; by eapply Hw|].
  case_decide; [|done]. by injection Hn as <-.
Qed.

Section keys.
Context `{OsEnv} (sroot : path) (Hroot : Forall good_name sroot) (K : string → Prop).

(** The paths of the keys are below the store's directory, none is at or above
    another's, and none is at or below a temporary name. *)
Record keys_apart : Prop := {
  ka_path k : K k → ∃ d n, key_path sroot k = (sroot ++ d) ++ [n] ∧ Forall good_name (d ++ [n]);
  ka_apart k k' : K k → K k' → k ≠ k' → ¬ key_path sroot k `prefix_of` key_path sroot k';
  ka_tmp k k' : K k → K k' → ¬ with_tmp (key_path sroot k) `prefix_of` key_path sroot k'
}.

(** The way to each object is made of directories as far as it is there, and at
    an object's place, and beside it, is a file or nothing. *)
Record laid_out (σ : fs) : Prop := {
  lo_root : is_dir σ sroot;
  lo_way k : K k → way σ (dir_of (key_path sroot k));
  lo_file k : K k → file_or_none (σ !! key_path sroot k);
  lo_tmp k : K k → file_or_none (σ !! with_tmp (key_path sroot k))
}.

Hypothesis Hka : keys_apart.

Lemma with_tmp_snoc (d : path) n : with_tmp (d ++ [n]) = d ++ [n +:+ ".tmp"].
Proof. unfold with_tmp, dir_of, base_of. by rewrite removelast_snoc, last_snoc. Qed.
Lemma dir_of_prefix p : p ≠ [] → dir_of p `prefix_of` p ∧ ¬ p `prefix_of` dir_of p.
Proof.
  destruct (path_case p) as [->|(d & n & ->)]; [done|]. intros _. unfold dir_of. rewrite removelast_snoc. split; [by eexists|].
  intros [r Hr]. apply (f_equal length) in Hr. rewrite !length_app in Hr. cbn in Hr. lia.
Qed.
Lemma key_path_ne k : K k → key_path sroot k ≠ [].
Proof. intros (d & n & -> & _)%(ka_path Hka). by destruct (sroot ++ d). Qed.

(** A key's path, in a directory store, and what may not be above it. *)
Lemma not_above k k' : K k → K k' → ¬ key_path sroot k `prefix_of` dir_of (key_path sroot k').
Proof.
  intros Hk Hk' Hp. destruct (dir_of_prefix _ (key_path_ne k' Hk')) as [Hd Hn]. destruct (decide (k = k')) as [->|Hne]; [done|].
  apply (ka_apart Hka k k'); [done..|]. by etrans.
Qed.
Lemma tmp_not_above k k' : K k → K k' → ¬ with_tmp (key_path sroot k) `prefix_of` dir_of (key_path sroot k').
Proof. intros Hk Hk' Hp. apply (ka_tmp Hka k k'); [done..|]. etrans; [exact Hp|]. by apply dir_of_prefix, key_path_ne. Qed.

(** Making the directory of an object. *)
Lemma laid_out_paved k m σ σ' : K k → laid_out σ → paved m (dir_of (key_path sroot k)) σ σ' →
  laid_out σ' ∧ ∀ k', K k' → σ' !! key_path sroot k' = σ !! key_path sroot k'.
Proof.
  intros Hk [[mr Hr] Hw Hf Ht] Hp.
  assert (∀ q, ¬ q `prefix_of` dir_of (key_path sroot k) → σ' !! q = σ !! q) as Hsame.
  { intros q Hq. rewrite Hp. destruct (σ !! q); [done|]. by rewrite decide_False. }
  split; [split|].
  - exists mr. by rewrite Hp, Hr.
  - intros k' Hk'. eapply paved_up; [|exact Hp|]; by apply Hw.
  - intros k' Hk'. rewrite Hsame by by apply not_above. by apply Hf.
  - intros k' Hk'. rewrite Hsame by by apply tmp_not_above. by apply Ht.
  - intros k' Hk'. by apply Hsame, not_above.
Qed.

(** Writing a file that is above no object's directory. *)
Lemma laid_out_file p f σ :
  laid_out σ → p ≠ sroot → (∀ k, K k → ¬ p `prefix_of` dir_of (key_path sroot k)) → laid_out (<[p := NFile f]> σ).
Proof.
  intros [[mr Hr] Hw Hf Ht] Hp Hn. split.
  - exists mr. by rewrite lookup_insert_ne.
  - intros k Hk q n Hq Hx. rewrite lookup_insert_ne in Hx by (intros ->; by apply (Hn k Hk)). by eapply (Hw k).
  - intros k Hk. rewrite lookup_insert. case_decide; [done|]. by apply Hf.
  - intros k Hk. rewrite lookup_insert. case_decide; [done|]. by apply Ht.
Qed.
Lemma laid_out_delete p σ : laid_out σ → p ≠ sroot → laid_out (delete p σ).
Proof.
  intros [[mr Hr] Hw Hf Ht] Hp. split.
  - exists mr. by rewrite lookup_delete_ne.
  - intros k Hk q n Hq [_ Hx]%lookup_delete_Some. by eapply (Hw k).
  - intros k Hk. rewrite lookup_delete. case_decide; [done|]. by apply Hf.
  - intros k Hk. rewrite lookup_delete. case_decide; [done|]. by apply Ht.
Qed.

(** The store stands for a map, and no file outside it has changed. *)
Definition stands_as (σ0 : fs) (m : string → option bytes) (x : world * unit) : Prop :=
  fs_wf (w_fs x.1) ∧ laid_out (w_fs x.1) ∧ (∀ k, K k → object_at (w_fs x.1) (key_path sroot k) = m k) ∧
  ∀ q, ¬ below sroot q → w_fs x.1 !! q = σ0 !! q.

Hypothesis Hq : quiet.

Lemma wp_any_Put k b w :
  K k → fs_wf (w_fs w) → laid_out (w_fs w) →
  wp (dir_Put sroot k b) (λ v w', v = inr tt ∧ fs_wf (w_fs w') ∧ laid_out (w_fs w') ∧
    object_at (w_fs w') (key_path sroot k) = Some b ∧
    (∀ k', K k' → k' ≠ k → w_fs w' !! key_path sroot k' = w_fs w !! key_path sroot k') ∧
    ∀ q, ¬ below sroot q → w_fs w' !! q = w_fs w !! q) w.
Proof.
  intros Hk Hfs Hlo. pose proof (not_above k) as Hna. pose proof (tmp_not_above k) as Htn. pose proof (ka_tmp Hka k) as Htk.
  pose proof (ka_apart Hka k) as Hap. pose proof (lo_way _ Hlo k Hk) as Hway.
  destruct (ka_path Hka k Hk) as (d & n & Hp & Hg). pose proof Hg as [Hgd Hgn]%Forall_app. apply Forall_cons in Hgn as [Hgn _].
  unfold dir_Put. rewrite Hp, with_tmp_snoc in *. unfold dir_of in Hway |- *. rewrite removelast_snoc in Hway |- *.
  set (D := sroot ++ d) in *. set (tmp := n +:+ ".tmp") in *. pose proof (tmp_name_good n Hgn) as Hgt. fold tmp in Hgt.
  assert (∀ c, below sroot (D ++ [c]) ∧ D ++ [c] ≠ sroot) as Hin.
  { intros c. unfold D. rewrite <- app_assoc. split; [by eexists|]. intros Hx. apply (f_equal length) in Hx. rewrite !length_app in Hx. cbn in Hx. lia. }
  assert (D ++ [tmp] ≠ D ++ [n]) as Hne by (intros Hx; apply (Htk k Hk Hk); rewrite Hp, Hx; done).
  wp_step. eapply wp_mono; [apply wp_MkdirAll_deep; [done|done|by apply Forall_app|done]|]. intros r w1 (-> & _ & Hfs1 & Hpv).
  pose proof (paved_dir _ _ _ _ Hway Hpv) as Hd1. 
  destruct (laid_out_paved k o755 (w_fs w) (w_fs w1)) as [Hlo1 Hsame1]; [done|done|by rewrite Hp; unfold dir_of; rewrite removelast_snoc|].
  pose proof (lo_tmp _ Hlo1 k Hk) as Htmp. pose proof (lo_file _ Hlo1 k Hk) as Hfile. rewrite Hp in Htmp, Hfile. rewrite with_tmp_snoc in Htmp. fold tmp in Htmp.
  wp_step. eapply wp_mono; [apply (wp_WriteFile D tmp); done|]. intros r w2 [_ Hv]. destruct r as [e|[]]; [by destruct Hv|].
  destruct Hv as (f & Hf & Hfs2). 
  assert (fs_wf (w_fs w2)) as Hwf2.
  { rewrite Hfs2. apply fs_wf_insert; [done..|]. intros [m' Hm']. by rewrite Hm' in Htmp. }
  assert (laid_out (w_fs w2)) as Hlo2 by (rewrite Hfs2; apply laid_out_file; [done|apply Hin|]; intros k' Hk'; by apply Htn).
  assert (is_dir (w_fs w2) D) as Hd2.
  { destruct Hd1 as [m' Hm']. exists m'. rewrite Hfs2, lookup_insert_ne; [done|]. intros Hx. apply (f_equal length) in Hx. rewrite length_app in Hx. cbn in Hx. lia. }
  eapply (wp_Rename_file (D ++ [tmp]) f D n); [done|by rewrite Hfs2, lookup_insert_eq|done|done| |done|].
  { intros [m' Hm']. rewrite Hfs2, lookup_insert_ne in Hm' by done. by rewrite Hm' in Hfile. }
  cbn [tick set_fs w_fs]. rewrite Hfs2, delete_insert_eq. 
  assert (fs_wf (delete (D ++ [tmp]) (w_fs w1))) as Hwf3.
  { apply fs_wf_delete; [done|by destruct D|]. intros c. apply eq_None_not_Some. intros Hc. apply Hfs1 in Hc as [[m' Hm'] _]. by rewrite Hm' in Htmp. }
  split_and!; [done| | | | |].
  - apply fs_wf_insert; [done| |done|].
    + destruct Hd1 as [m' Hm']. exists m'. rewrite lookup_delete_ne; [done|]. intros Hx. apply (f_equal length) in Hx. rewrite length_app in Hx. cbn in Hx. lia.
    + intros [m' Hm']. rewrite lookup_delete_ne in Hm' by done. by rewrite Hm' in Hfile.
  - apply laid_out_file; [apply laid_out_delete; [done|apply Hin]|apply Hin|]. intros k' Hk'. by apply Hna.
  - unfold object_at. by rewrite lookup_insert_eq, Hf.
  - intros k' Hk' Hnk. rewrite lookup_insert_ne by (intros Hx; apply (Hap k' Hk Hk'); [done|by rewrite Hx]).
    rewrite lookup_delete_ne by (intros Hx; apply (Htk k' Hk Hk'); by rewrite Hx). by apply Hsame1.
  - intros q Hqb. destruct (Hin n) as [Hbn _], (Hin tmp) as [Hbt _].
    rewrite lookup_insert_ne, lookup_delete_ne by (intros <-; done). rewrite Hpv. destruct (w_fs w !! q) eqn:E; [done|].
    rewrite decide_False; [done|]. intros Hx. destruct (prefix_weak_total q sroot D Hx) as [Hqs|Hsq]; [by eexists| |done].
    destruct Hqs as [r Hr]. destruct (lo_root _ Hlo) as [mr Hmr]. destruct (decide (r = [])) as [->|Hrn]; [apply Hqb; rewrite app_nil_r in Hr; by rewrite Hr|].
    destruct (fs_wf_up (w_fs w) q r Hfs Hrn) as [m' Hm']; [rewrite <- Hr, Hmr; by eexists|]. congruence.
Qed.

Lemma find_any follow k σ : K k → fs_wf σ → laid_out σ →
  find_node σ follow (key_path sroot k) = match σ !! key_path sroot k with Some x => inr (key_path sroot k, x) | None => inl ENOENT end.
Proof.
  intros Hk Hfs Hlo. pose proof (lo_file _ Hlo k Hk) as Hfile. destruct (σ !! key_path sroot k) as [x|] eqn:E.
  - apply find_node_some; [done..|]. intros _. by destruct x.
  - pose proof (lo_way _ Hlo k Hk) as Hw. destruct (ka_path Hka k Hk) as (d & n & Hp & Hg). rewrite Hp in *. unfold dir_of in Hw. rewrite removelast_snoc in Hw.
    apply find_node_absent; [done|rewrite <- app_assoc; by apply Forall_app| |done].
    intros q x [->|Hq']%prefix_snoc Hx; [congruence|by eapply Hw].
Qed.

(** One call. *)
Lemma wp_any_op σ0 m o x :
  stands_as σ0 m x → K (op_key o) →
  wp (do_op (H0 := DirStore sroot) o) (λ v x', v = inr (map_op m o).1 ∧ stands_as σ0 (map_op m o).2 x') x.
Proof.
  destruct x as [w []]. intros (Hfs & Hlo & Hm & Ho) Hk. cbn [fst] in *.
  assert (∀ w', w_fs w' = w_fs w → stands_as σ0 m (w', tt)) as Hread by (intros w' Hw'; unfold stands_as; cbn [fst]; by rewrite Hw').
  destruct o as [k b|k|k]; cbn [op_key map_op fst snd do_op store_Put store_Get store_Has DirStore] in *; wp_step.
  - wp_step. wp_use wp_any_Put; [done..|]. intros v w' (-> & Hfs' & Hlo' & Hb & Hoth & Hout). wp_step. split; [done|]. unfold stands_as. cbn [fst]. split_and!; [done|done| |].
    + intros k' Hk'. case_decide as He; [by rewrite He|]. unfold object_at. rewrite Hoth by done. by apply Hm.
    + intros q Hqb. by rewrite Hout, Ho.
  - wp_step. wp_step. unfold dir_Get. specialize (Hm k Hk). unfold object_at in Hm. pose proof (lo_file _ Hlo k Hk) as Hfile.
    wp_step. wp_step. unfold os_ReadFile. wp_step. apply wp_sys_read; [done|]. rewrite find_any by done.
    destruct (w_fs w !! key_path sroot k) as [[f|?|?|?]|] eqn:E; try done; simpl.
    + eapply (wp_read _ f); [done|done|]. simpl. wp_step. wp_step. rewrite <- Hm. split; [done|]. by apply Hread.
    + wp_step. rewrite decide_True by done. wp_step. rewrite <- Hm. split; [done|]. by apply Hread.
  - wp_step. unfold dir_Has. specialize (Hm k Hk). unfold object_at in Hm. pose proof (lo_file _ Hlo k Hk) as Hfile.
    wp_step. wp_step. apply wp_sys_read; [done|]. rewrite find_any by done.
    destruct (w_fs w !! key_path sroot k) as [[f|?|?|?]|] eqn:E; try done; simpl; wp_step; wp_step; rewrite <- Hm; (split; [done|by apply Hread]).
Qed.

(** C28 (dir_store_refines): for any set of keys whose paths are below the store's
    directory, none of them at or above another and none at or below the
    temporary name of another, a directory store on a healthy host answers every
    sequence of calls with these keys as a map from keys to bytes does, and
    changes no file outside its directory. *)
Theorem dir_store_refines os m w :
  fs_wf (w_fs w) → laid_out (w_fs w) → (∀ k, K k → object_at (w_fs w) (key_path sroot k) = m k) →
  (∀ o, o ∈ os → K (op_key o)) →
  ∃ w', store_ops (H0 := DirStore sroot) os (w, tt) = (Ok (map_ops m os), (w', tt)) ∧ ∀ q, ¬ below sroot q → w_fs w' !! q = w_fs w !! q.
Proof.
  intros Hfs Hlo Hm Hk.
  destruct (wp_exists _ _ _ (wp_ops_refine (H0 := DirStore sroot) (stands_as (w_fs w)) K os m (w, tt) (wp_any_op (w_fs w)) ltac:(by split_and!) Hk))
    as (v & [w' []] & Hrun & -> & m' & _ & _ & _ & Ho). by exists w'.
Qed.
End keys.

(** ** The keys of the engine *)

Section engine_keys.
Context `{OsEnv} (sroot : path).

Lemma engine_keys_apart : keys_apart sroot dir_key.
Proof.
  split.
  - intros k (d & n & Hk). rewrite (key_path_file sroot d n k Hk). exists [d], n. destruct Hk as (Hd & _ & Hg & _).
    split; [done|]. destruct (store_dir_name d Hd) as [_ Hgd]. by repeat constructor; try apply Hg; try apply Hgd.
  - intros k k' (d & n & Hk) (d' & n' & Hk') Hne. rewrite (key_path_file sroot d n k Hk), (key_path_file sroot d' n' k' Hk').
    intros [r Hr]. unfold object_file in Hr. rewrite <- !app_assoc in Hr. apply (inj (app sroot)) in Hr. destruct r; [|done]. injection Hr as -> ->.
    apply Hne. destruct Hk as (_ & _ & _ & _ & ->), Hk' as (_ & _ & _ & _ & ->). done.
  - intros k k' (d & n & Hk) (d' & n' & Hk'). rewrite (key_path_file sroot d n k Hk), (key_path_file sroot d' n' k' Hk'), with_tmp_file.
    intros [r Hr]. unfold object_file in Hr. rewrite <- !app_assoc in Hr. apply (inj (app sroot)) in Hr. destruct r; [|done]. injection Hr as -> Hn.
    destruct Hk' as (_ & _ & _ & Hnt & _). by apply (Hnt n).
Qed.

Lemma engine_laid_out σ : fs_wf σ → dir_ok sroot σ → laid_out sroot dir_key σ.
Proof.
  intros Hfs [[mr Hr] Hd Hf]. split; [by exists mr| | |].
  - intros k (d & n & Hk). rewrite (key_path_file sroot d n k Hk). pose proof Hk as (Hdd & _). unfold object_file, dir_of. rewrite removelast_snoc.
    intros q x [->|[r Hq]]%prefix_snoc Hx; [by destruct (Hd d x Hdd Hx) as [m ->]|].
    destruct (decide (r = [])) as [->|Hne]; [rewrite app_nil_r in Hq; subst q; rewrite Hr in Hx; by injection Hx as <-|].
    destruct (fs_wf_up σ q r Hfs Hne) as [m' Hm']; [rewrite <- Hq, Hr; by eexists|]. rewrite Hm' in Hx. by injection Hx as <-.
  - intros k (d & n & Hk). rewrite (key_path_file sroot d n k Hk). pose proof Hk as (Hdd & _). unfold file_or_none.
    destruct (σ !! object_file sroot d n) as [x|] eqn:E; [|done]. by destruct (Hf d n x Hdd E) as [f ->].
  - intros k (d & n & Hk). rewrite (key_path_file sroot d n k Hk), with_tmp_file. pose proof Hk as (Hdd & _). unfold file_or_none.
    destruct (σ !! object_file sroot d (n +:+ ".tmp")) as [x|] eqn:E; [|done]. by destruct (Hf d _ x Hdd E) as [f ->].
Qed.
End engine_keys.

(** ** Two sets of keys *)

Definition srv_world : world := World (list_to_map [([], NDir o755); (["srv"], NDir o755)]) 0 ∅.
Definition some_ops : list store_op := [OpHas "logs/2024/a"; OpPut "logs/2024/a" [x61]; OpPut "b" [x62]; OpGet "logs/2024/a"; OpHas "b"].
Definition some_keys (k : string) : Prop := k = "b" ∨ k = "logs/2024/a".

(** C28 at keys of two depths. *)
Lemma dir_store_refines_witness :
  ∃ w', store_ops (H0 := DirStore (H := calm) ["srv"]) some_ops (srv_world, tt) =
    (Ok [Present false; Stored; Stored; Found (Some [x61]); Present true], (w', tt)).
Proof.
  assert (keys_apart ["srv"] some_keys) as Hka.
  { split.
    - intros k [->| ->]; [exists [], "b"|exists ["logs"; "2024"], "a"]; (split; [reflexivity|by repeat constructor]).
    - intros k k' [->| ->] [->| ->] Hne [r Hr]; by try discriminate Hr.
    - intros k k' [->| ->] [->| ->] [r Hr]; discriminate Hr. }
  destruct (dir_store_refines (H := calm) ["srv"] ltac:(by repeat constructor) some_keys Hka calm_quiet some_ops (λ _, None) srv_world)
    as (w' & Hrun & _); [apply fs_check_ok; vm_compute; reflexivity| | | |by exists w'].
  - split; [by exists o755| | |]; intros k [->| ->]; try done.
    + intros q n [r Hr] Hn. destruct q as [|? [|? ?]]; [by injection Hn as <-|injection Hr as <- _; by injection Hn as <-|discriminate Hr].
    + intros q n [r Hr] Hn. destruct q as [|? [|? [|? [|? ?]]]]; simplify_eq/=; try discriminate Hn; by injection Hn as <-.
  - by intros k [->| ->].
  - intros o. unfold some_ops, some_keys. rewrite !elem_of_cons, elem_of_nil. intros [->|[->|[->|[->|[->|[]]]]]]; cbn; auto.
Defined.

(** A key that is the temporary name of another is lost when the other is put,
    where a map keeps it. *)
Lemma tmp_key_lost :
  let os := [OpPut "a.tmp" [x61]; OpPut "a" [x62]; OpHas "a.tmp"] in
  fst (store_ops (H0 := DirStore (H := calm) ["srv"]) os (srv_world, tt)) = Ok [Stored; Stored; Present false] ∧
  map_ops (λ _, None) os = [Stored; Stored; Present true].
Proof. vm_compute. done. Qed.
