(* ===== verification/Flags.v ===== *)
(** * Command-line flags (src/cmd/vit/flags.go) *)

From S2P Require Import Prelude.
Open Scope Z_scope.

Module Flags.

Record flagset := mkFlagset { opts : gmap string string; rest : list string }.

(** The first place of a byte, or -1. *)
Fixpoint indexByte (s : string) (b : ascii) : Z :=
  match s with
  | EmptyString => -1
  | String a s' => if decide (a = b) then 0 else let i := indexByte s' b in if decide (i < 0) then -1 else i + 1
  end.

Definition equals_sign : ascii := Ascii.ascii_of_byte x3d.

(** [a[:2] == "--"] for an [a] longer than that; its key. *)
Definition flag_key (a : string) : option string :=
  if decide (2 < Z.of_nat (String.length a)) then
    if decide (String.substring 0 2 a = "--") then Some (String.substring 2 (String.length a - 2) a) else None
  else None.

Definition set_opt (k v : string) (f : flagset) : flagset := mkFlagset (<[k := v]> (opts f)) (rest f).
Definition add_rest (a : string) (f : flagset) : flagset := mkFlagset (opts f) (rest f ++ [a]).

(** The loop of [parseFlags] at the arguments that are left. *)
Fixpoint parse_loop (args : list string) (f : flagset) : flagset :=
  match args with
  | [] => f
  | a :: args' =>
      match flag_key a with
      | Some key =>
          let eq := indexByte key equals_sign in
          if decide (0 ≤ eq) then
            let n := Z.to_nat eq in
            parse_loop args' (set_opt (String.substring 0 n key) (String.substring (n + 1) (String.length key - (n + 1)) key) f)
          else
            match args' with
            | v :: args'' => parse_loop args'' (set_opt key v f)
            | [] => parse_loop args' (set_opt key "" f)
            end
      | None => parse_loop args' (add_rest a f)
      end
  end.
Definition parseFlags (args : list string) : flagset := parse_loop args (mkFlagset ∅ []).

Definition str (f : flagset) (key : string) : string := default "" (opts f !! key).

(** ** The grammar *)

(** What a command line says: options in order, and the other arguments. *)
Inductive says : list string → list (string * string) → list string → Prop :=
| says_nil : says [] [] []
| says_eq k v args os rs : has_char equals_sign k = false →
    says args os rs → says (("--" +:+ k +:+ String equals_sign v) :: args) ((k, v) :: os) rs
| says_next k v args os rs : k ≠ "" → has_char equals_sign k = false →
    says args os rs → says (("--" +:+ k) :: v :: args) ((k, v) :: os) rs
| says_last k : k ≠ "" → has_char equals_sign k = false → says ["--" +:+ k] [(k, "")] []
| says_other a args os rs : (∀ k, k ≠ "" → a ≠ "--" +:+ k) → says args os rs → says (a :: args) os (a :: rs).

(** ** The parser reads the grammar *)

Lemma scons a s t : String a s +:+ t = String a (s +:+ t).
Proof. done. Qed.
Lemma substring_skip n m s1 s2 : String.length s1 = n → String.substring n m (s1 +:+ s2) = String.substring 0 m s2.
Proof. revert n. induction s1 as [|a s1 IH]; intros n <-; [done|]. rewrite scons. cbn. by apply IH. Qed.

Lemma substring_prefix s1 s2 : String.substring 0 (String.length s1) (s1 +:+ s2) = s1.
Proof. induction s1 as [|a s1 IH]; [by destruct s2|]. rewrite scons. cbn. f_equal. exact IH. Qed.

Lemma flag_key_some k : k ≠ "" → flag_key ("--" +:+ k) = Some k.
Proof.
  intros Hk. unfold flag_key. rewrite string_length_app. change (String.length "--") with 2%nat.
  assert (0 < String.length k)%nat by (destruct k; [done|cbn; lia]). rewrite decide_True by lia.
  rewrite decide_True by exact (substring_prefix "--" k).
  rewrite substring_skip by done. f_equal. replace (2 + String.length k - 2)%nat with (String.length k) by lia. apply substring_all.
Qed.

Lemma flag_key_none a : (∀ k, k ≠ "" → a ≠ "--" +:+ k) → flag_key a = None.
Proof.
  intros Ha. unfold flag_key. case_decide as Hl; [|done]. case_decide as Hp; [|done]. exfalso.
  destruct a as [|c [|c' a]]; [cbn in Hl; lia..|]. destruct a as [|x a]; [cbn in Hl; lia|].
  change (String.substring 0 2 (String c (String c' (String x a)))) with (String c (String c' (String.substring 0 0 (String x a)))) in Hp.
  assert (String.substring 0 0 (String x a) = "") as He by done. rewrite He in Hp. injection Hp as -> ->.
  by apply (Ha (String x a)).
Qed.

Lemma flag_cases a : (∃ k, k ≠ "" ∧ a = "--" +:+ k) ∨ ∀ k, k ≠ "" → a ≠ "--" +:+ k.
Proof.
  destruct (has_prefix "--" a) eqn:Hp.
  - apply has_prefix_inv in Hp as [k ->]. destruct (decide (k = "")) as [->|Hk]; [|left; by exists k].
    right. intros k Hk Heq. by destruct k.
  - right. intros k Hk ->. by rewrite has_prefix_app in Hp.
Qed.

Lemma index_none s b : has_char b s = false → indexByte s b = -1.
Proof.
  induction s as [|a s IH]; [done|]. cbn. intros [Ha Hs]%orb_false_iff. apply bool_decide_eq_false in Ha.
  rewrite decide_False by done. rewrite IH by done. done.
Qed.

Lemma index_here k v b : has_char b k = false → indexByte (k +:+ String b v) b = Z.of_nat (String.length k).
Proof.
  induction k as [|a k IH]; [intros _; change ("" +:+ String b v) with (String b v); cbn [indexByte]; by rewrite decide_True|]. cbn [has_char]. intros [Ha Hk]%orb_false_iff. apply bool_decide_eq_false in Ha.
  change (String a k +:+ String b v) with (String a (k +:+ String b v)). cbn [indexByte]. rewrite decide_False by done.
  rewrite IH by done. rewrite decide_False by lia. cbn [String.length]. lia.
Qed.

Lemma char_cases b s : has_char b s = false ∨ ∃ k v, has_char b k = false ∧ s = k +:+ String b v.
Proof.
  induction s as [|a s IH]; [by left|]. destruct (decide (a = b)) as [->|Hne]; [right; by exists "", s|].
  destruct IH as [Hn|(k & v & Hk & ->)].
  - left. cbn. by rewrite bool_decide_eq_false_2.
  - right. exists (String a k), v. split; [|done]. cbn. by rewrite bool_decide_eq_false_2.
Qed.

Lemma char_here b k v : has_char b (k +:+ String b v) = true.
Proof. induction k as [|a k IH]; [change ("" +:+ String b v) with (String b v); cbn [has_char]; by rewrite bool_decide_eq_true_2|]. rewrite scons. cbn. apply orb_true_iff. right. exact IH. Qed.

(** One step of the loop on each form. *)
Lemma loop_eq k v args f : has_char equals_sign k = false →
  parse_loop (("--" +:+ k +:+ String equals_sign v) :: args) f = parse_loop args (set_opt k v f).
Proof.
  intros Hk. cbn [parse_loop]. rewrite flag_key_some by by destruct k. rewrite index_here by done. rewrite decide_True by lia. rewrite Nat2Z.id.
  f_equal. f_equal; [apply substring_prefix|].
  change (k +:+ String equals_sign v) with (k +:+ (String equals_sign "" +:+ v)). rewrite string_app_assoc.
  assert (String.length (k +:+ String equals_sign "") = String.length k + 1)%nat as Hl by (rewrite string_length_app; done).
  rewrite substring_skip by done. rewrite string_length_app, Hl.
  replace (String.length k + 1 + String.length v - (String.length k + 1))%nat with (String.length v) by lia. apply substring_all.
Qed.
Lemma loop_next k v args f : k ≠ "" → has_char equals_sign k = false → parse_loop (("--" +:+ k) :: v :: args) f = parse_loop args (set_opt k v f).
Proof. intros Hk Hc. cbn [parse_loop]. by rewrite flag_key_some, index_none by done. Qed.
Lemma loop_last k f : k ≠ "" → has_char equals_sign k = false → parse_loop ["--" +:+ k] f = set_opt k "" f.
Proof. intros Hk Hc. cbn [parse_loop]. by rewrite flag_key_some, index_none by done. Qed.
Lemma loop_other a args f : (∀ k, k ≠ "" → a ≠ "--" +:+ k) → parse_loop (a :: args) f = parse_loop args (add_rest a f).
Proof. intros Ha. cbn [parse_loop]. by rewrite flag_key_none. Qed.

Definition insert_opts (m : gmap string string) (os : list (string * string)) : gmap string string := foldl (λ m kv, <[kv.1 := kv.2]> m) m os.

Lemma says_loop args os rs : says args os rs → ∀ f, parse_loop args f = mkFlagset (insert_opts (opts f) os) (rest f ++ rs).
Proof.
  induction 1 as [|k v args os rs Hk _ IH|k v args os rs Hk Hc _ IH|k Hk Hc|a args os rs Ha _ IH]; intros [m r].
  - cbn. by rewrite app_nil_r.
  - by rewrite loop_eq, IH.
  - by rewrite loop_next, IH.
  - rewrite loop_last by done. cbn. by rewrite app_nil_r.
  - rewrite loop_other, IH by done. cbn. by rewrite <- app_assoc.
Qed.

Lemma says_total args : ∃ os rs, says args os rs.
Proof.
  assert (∀ n args, (length args ≤ n)%nat → ∃ os rs, says args os rs) as Hn; [|by apply (Hn (length args))].
  clear args. induction n as [|n IH]; intros [|a args] Hl; [exists [], []; constructor|cbn in Hl; lia|exists [], []; constructor|].
  cbn in Hl. destruct (flag_cases a) as [(key & Hk & ->)|Ha].
  - destruct (char_cases equals_sign key) as [Hc|(k & v & Hc & ->)].
    + destruct args as [|v args]; [eexists _, _; by constructor|]. cbn in Hl. destruct (IH args ltac:(lia)) as (os & rs & Hs). eexists _, _. by constructor.
    + destruct (IH args ltac:(lia)) as (os & rs & Hs). eexists _, _. by constructor.
  - destruct (IH args ltac:(lia)) as (os & rs & Hs). eexists _, _. by constructor.
Qed.

(** The forms exclude each other. *)
Lemma cut_inj b k v k' v' : has_char b k = false → has_char b k' = false → k +:+ String b v = k' +:+ String b v' → k = k' ∧ v = v'.
Proof.
  revert k'. induction k as [|a k IH]; intros [|a' k'] Hk Hk' Heq.
  - by injection Heq.
  - injection Heq as <- _. cbn in Hk'. by rewrite bool_decide_eq_true_2 in Hk'.
  - injection Heq as -> _. cbn in Hk. by rewrite bool_decide_eq_true_2 in Hk.
  - injection Heq as <- Heq. cbn in Hk, Hk'. apply orb_false_iff in Hk as [_ Hk], Hk' as [_ Hk'].
    destruct (IH k' Hk Hk' Heq) as [-> ->]. done.
Qed.

Lemma says_det args os rs : says args os rs → ∀ os' rs', says args os' rs' → os' = os ∧ rs' = rs.
Proof.
  assert (∀ k v k', has_char equals_sign k' = false → k +:+ String equals_sign v = k' → False) as Hne.
  { intros k v k' Hk' <-. by rewrite char_here in Hk'. }
  assert (∀ k v, k +:+ String equals_sign v ≠ "") as Hne' by by intros [].
  induction 1 as [|k v args os rs Hk _ IH|k v args os rs Hk Hc _ IH|k Hk Hc|a args os rs Ha _ IH]; intros os' rs' Hs.
  - by inversion Hs.
  - inversion Hs as [|k' v' ? os1 rs1 Hk' Hs' Heq|k' ? ? ? ? Hk' Hc' ? Heq|k' Hk' Hc' Heq|a' ? ? rs1 Ha' ?]; subst.
    + apply (cut_inj equals_sign k' v' k v) in Heq as [-> ->]; [|done..]. by destruct (IH _ _ Hs') as [-> ->].
    + exact (False_ind _ (Hne _ _ _ Hc' (eq_sym Heq))).
    + exact (False_ind _ (Hne _ _ _ Hc' (eq_sym Heq))).
    + by destruct (Ha' (k +:+ String equals_sign v)).
  - inversion Hs as [|k' v' ? os1 rs1 Hk' Hs' Heq|k' ? ? ? ? Hk' Hc' Hs' Heq|k' Hk' Hc' Heq|a' ? ? rs1 Ha' ?]; subst.
    + exact (False_ind _ (Hne _ _ _ Hc Heq)).
    + change (k' = k) in Heq. subst k'. by destruct (IH _ _ Hs') as [-> ->].
    + by destruct (Ha' k).
  - inversion Hs as [|k' v' ? os1 rs1 Hk' Hs' Heq|k' ? ? ? ? Hk' Hc' Hs' Heq|k' Hk' Hc' Heq|a' ? ? rs1 Ha' ?]; subst.
    + exact (False_ind _ (Hne _ _ _ Hc Heq)).
    + change (k' = k) in Heq. by subst k'.
    + by destruct (Ha' k).
  - inversion Hs as [|k' v' ? os1 rs1 Hk' Hs' Heq|k' ? ? ? ? Hk' Hc' Hs' Heq|k' Hk' Hc' Heq|a' ? ? rs1 Ha' Hs']; subst.
    + by destruct (Ha (k' +:+ String equals_sign v')).
    + by destruct (Ha k').
    + by destruct (Ha k').
    + by destruct (IH _ _ Hs') as [-> ->].
Qed.

(** C38 (flags_grammar): every command line has exactly one reading in the
    grammar (--key=value; --key and the argument after it; a last --key, empty;
    anything else an argument), and the parser returns it: the other arguments
    in order, and each key with the value it was given last. *)
Theorem flags_grammar args :
  ∃ os rs, (∀ os' rs', says args os' rs' ↔ os' = os ∧ rs' = rs) ∧ parseFlags args = mkFlagset (insert_opts ∅ os) rs.
Proof.
  destruct (says_total args) as (os & rs & Hs). exists os, rs. split.
  - intros os' rs'. split; [by apply says_det|]. by intros [-> ->].
  - unfold parseFlags. by rewrite (says_loop _ _ _ Hs).
Qed.

End Flags.
