(* ===== verification/Config.v ===== *)
(** * Configuration (src/cmd/vit/config.go)

    .vit/config.json, each key overridden by an environment variable. *)

From S2P Require Import Prelude Sha256 Json Strconv Os Model Repo Backend Engine Remote Agent Firecracker.
Import Json Model Repo Backend Engine Remote Firecracker.
Open Scope Z_scope.

Module Config.

Definition configKeys : list (string * string) := [
  ("backend", "backend for new sandboxes: process (default) or firecracker");
  ("firecracker.bin", "path to the firecracker binary (default: firecracker on PATH)");
  ("firecracker.kernel", "guest kernel (uncompressed vmlinux)");
  ("firecracker.rootfs", "base root filesystem (scripts/build-rootfs.sh)");
  ("firecracker.vcpus", "guest vCPUs (default 1)");
  ("firecracker.mem_mib", "guest memory in MiB (default 512)");
  ("firecracker.run_dir", "where running VMs keep their sockets and disks (default /tmp/vit-fc)");
  ("firecracker.bootargs", "guest kernel command line (default starts the vit agent)");
  ("firecracker.disk_mode", "overlay (default: shared read-only base + small writable disk) or copy");
  ("firecracker.upper_gib", "size of the sparse writable disk in overlay mode (default 8)")].
Definition known_key (key : string) : bool := bool_decide (key ∈ configKeys.*1).

(** [kv] is [None] for a nil map. *)
Record config := mkCfg { cfg_path : path; kv : option (gmap string string) }.

(** [json.Unmarshal] into a map of strings that is empty. *)
Definition string_value (j : json) : option string :=
  match j with JStr s => Some s | JNull => Some "" | _ => None end.
Definition strings_add (m : option (gmap string string)) (x : string * json) : option (gmap string string) :=
  m ← m; v ← string_value x.2; Some (<[x.1 := v]> m).
Definition strings_of (b : bytes) : option (option (gmap string string)) :=
  match parse b with
  | Some JNull => Some None
  | Some (JObj l) => Some <$> foldl strings_add (Some ∅) l
  | _ => None
  end.
(** [json.MarshalIndent] of the map. *)
Definition strings_json (m : option (gmap string string)) : bytes :=
  match m with Some m => known_json m | None => to_bytes "null" end.

(** [strings.ToUpper] of the replaced key; the keys are ASCII. *)
Definition upper (a : ascii) : ascii :=
  let n := Ascii.N_of_ascii a in if ((97 <=? n) && (n <=? 122))%N then Ascii.ascii_of_N (n - 32) else a.
Definition env_char (a : ascii) : ascii :=
  if decide (a = Ascii.ascii_of_byte x2e ∨ a = Ascii.ascii_of_byte x2d) then Ascii.ascii_of_byte x5f else upper a.
Fixpoint env_chars (s : string) : string := match s with EmptyString => "" | String a s' => String (env_char a) (env_chars s') end.
Definition envName (key : string) : string := "VIT_" +:+ env_chars key.

Section config.
Context `{OsEnv}.

Definition loadConfig (root : path) : M world config :=
  let p := join root "config.json" in
  b ← attempt (os_ReadFile p);
  match b with
  | inl e => if decide (e = Errno ENOENT) then mret (mkCfg p (Some ∅)) else throw e
  | inr b =>
      if decide (b = []) then mret (mkCfg p (Some ∅)) else
      match strings_of b with
      | None => throw (Errorf (path_string p +:+ ": invalid configuration"))
      | Some m => mret (mkCfg p m)
      end
  end.

Definition get (c : config) (key : string) : string :=
  let v := getenv (envName key) in
  if decide (v ≠ "") then v else default "" (m ← kv c; m !! key).

(** [set] changes the configuration too; an assignment to a nil map panics. *)
Definition set (key value : string) : M (world * config) unit :=
  x ← get_state;
  let c := x.2 in
  if negb (known_key key) then throw (Errorf ("unknown key " +:+ fmt_q key +:+ " (see `vit config`)")) else
  kv' ← match kv c with
        | Some m => mret (Some (if decide (value = "") then delete key m else <[key := value]> m))
        | None => if decide (value = "") then mret None else panic
        end;
  modify_snd (λ c, mkCfg (cfg_path c) kv');;
  on_fst (os_WriteFile (cfg_path c) (strings_json kv' ++ [x0a]) o644).

Definition intv (c : config) (key : string) : Z := Atoi (get c key).

Definition defaultBackend (c : config) : string :=
  let b := get c "backend" in
  if decide (b ≠ "") then b else
  if decide (get c "firecracker.kernel" ≠ "" ∧ get c "firecracker.rootfs" ≠ "") then "firecracker" else "process".

(** A backend of the two there are. *)
Inductive chosen := UseProcess | UseFirecracker (f : Firecracker).

Context {F : Type} `{Host F}.

Definition abs (p : string) : string :=
  if decide (p = "") then "" else match filepath_Abs p with inr a => path_string a | inl _ => p end.

Definition backend (c : config) (name : string) : M world chosen :=
  if decide (name = "" ∨ name = "process") then mret UseProcess else
  if decide (name = "firecracker") then
    f ← New (mkConfig (get c "firecracker.bin") (abs (get c "firecracker.kernel")) (abs (get c "firecracker.rootfs"))
         (get c "firecracker.run_dir") (intv c "firecracker.vcpus") (intv c "firecracker.mem_mib") (get c "firecracker.bootargs")
         0 (get c "firecracker.disk_mode") (intv c "firecracker.upper_gib"));
    mret (UseFirecracker f)
  else throw (Errorf ("unknown backend " +:+ fmt_q name +:+ " (process or firecracker)")).

End config.
End Config.
