(* ===== verification/ConfigProps.v ===== *)
(** * What the configuration promises *)

From S2P Require Import Prelude Sha256 Json JsonFacts Codec Os OsFacts Repo Engine Remote Firecracker Config Checks.
Import Json Repo Engine Config.
Open Scope Z_scope.

(** ** The document *)

Lemma parse_indent_line j : json_wf j → parse (MarshalIndent j ++ [x0a]) = Some j.
Proof.
  intros Hwf. apply (parse_print_ws _ [x20]); [|done|done|done]. intros d. unfold all_ws. simpl.
  induction d as [|d IH]; [done|]. exact IH.
Qed.

Lemma foldl_insert (l : list (string * string)) m :
  foldl strings_add (Some m) ((λ kv, (kv.1, JStr kv.2)) <$> l) = Some (foldl (λ m kv, <[kv.1 := kv.2]> m) m l).
Proof. revert m. induction l as [|[k v] l IH]; intros m; [done|]. cbn. apply IH. Qed.

Lemma insert_all (l : list (string * string)) (m : gmap string string) :
  NoDup l.*1 → (∀ k, k ∈ l.*1 → m !! k = None) → foldl (λ m kv, <[kv.1 := kv.2]> m) m l = list_to_map l ∪ m.
Proof.
  revert m. induction l as [|[k v] l IH]; intros m Hnd Hm; [cbn; by rewrite map_empty_union|].
  cbn in Hnd, Hm. apply NoDup_cons in Hnd as [Hk Hnd]. cbn [foldl fst snd]. rewrite IH.
  - cbn [list_to_map foldr fst snd uncurry]. rewrite <- insert_union_r by (by apply not_elem_of_list_to_map_1).
    by rewrite <- insert_union_l.
  - done.
  - intros k' Hk'. rewrite lookup_insert_ne by (by intros ->). apply Hm. by right.
Qed.

Lemma sorted_map (m : gmap string string) : foldl (λ m kv, <[kv.1 := kv.2]> m) ∅ (merge_sort Engine.key_le (map_to_list m)) = m.
Proof.
  assert (merge_sort Engine.key_le (map_to_list m) ≡ₚ map_to_list m) as Hp by apply merge_sort_Permutation.
  assert (NoDup (merge_sort Engine.key_le (map_to_list m)).*1) as Hnd by (rewrite Hp; apply NoDup_fst_map_to_list).
  rewrite insert_all by done. rewrite map_union_empty. rewrite (list_to_map_proper _ (map_to_list m)) by done. apply list_to_map_to_list.
Qed.

(** The text of a configuration is JSON that can hold it. *)
Definition utf8_map (m : gmap string string) : Prop := ∀ k v, m !! k = Some v → utf8 k ∧ utf8 v.

Lemma strings_roundtrip m : utf8_map m → strings_of (strings_json (Some m) ++ [x0a]) = Some (Some m).
Proof.
  intros Hu. unfold strings_json, known_json, strings_of. rewrite parse_indent_line.
  - by rewrite foldl_insert, sorted_map.
  - apply json_wf_obj. apply Forall_fmap, Forall_forall. intros [k v] Hkv.
    rewrite merge_sort_Permutation in Hkv. apply elem_of_map_to_list, Hu in Hkv as [? ?]. by split.
Qed.

Section props.
Context `{OsEnv} (Hq : quiet).

(** A place for the configuration: the repository's directory, with a file or
    nothing at config.json. *)
Definition config_place (root : path) (σ : fs) : Prop :=
  fs_wf σ ∧ is_dir σ root ∧ match σ !! (root ++ ["config.json"]) with Some (NFile _) | None => True | _ => False end.

Lemma config_path root : join root "config.json" = root ++ ["config.json"].
Proof. done. Qed.

Lemma wp_loadConfig root f m w :
  fs_wf (w_fs w) → w_fs w !! (root ++ ["config.json"]) = Some (NFile f) → contents f = strings_json (Some m) ++ [x0a] → utf8_map m →
  wp (loadConfig root) (λ v w', v = inr (mkCfg (root ++ ["config.json"]) (Some m)) ∧ w_fs w' = w_fs w) w.
Proof.
  intros Hwf Hf Hc Hu. unfold loadConfig. rewrite config_path. wp_step. wp_step. eapply (wp_ReadFile _ f); [done|done|done|].
  intros w' Hfs _. rewrite Hc. rewrite decide_False by (by destruct (strings_json (Some m))). rewrite strings_roundtrip by done. by wp_step.
Qed.

(** C39 (config_set_load): setting a key that is known records it: the key has
    the value (or none, for the empty value) unless the environment overrides
    it, every other key keeps its value, and loading the repository's
    configuration gives the same; a key that is not known is refused and
    nothing changes. *)
Theorem config_set_load root m key value w :
  config_place root (w_fs w) → utf8_map m → utf8 value → utf8 key →
  let c := mkCfg (join root "config.json") (Some m) in
  if known_key key then
    ∃ c' w', set key value (w, c) = (Ok tt, (w', c')) ∧
      get c' key = (if decide (getenv (envName key) ≠ "") then getenv (envName key) else value) ∧
      (∀ k, k ≠ key → get c' k = get c k) ∧
      (∃ w'', loadConfig root w' = (Ok c', w'')) ∧
      ∀ q, q ≠ root ++ ["config.json"] → w_fs w' !! q = w_fs w !! q
  else ∃ e, set key value (w, c) = (Err e, (w, c)).
Proof.
  intros (Hwf & Hd & Hn) Hu Huv Huk c. destruct (known_key key) eqn:Hkey.
  2:{ eexists. unfold set, mbind, M_bind, get_state. rewrite Hkey. reflexivity. }
  set (m' := if decide (value = "") then delete key m else <[key := value]> m).
  assert (utf8_map m') as Hu'.
  { unfold m'. intros k v Hkv. case_decide; [apply lookup_delete_Some in Hkv as [_ Hkv]; by apply Hu|].
    apply lookup_insert_Some in Hkv as [[<- <-]|[_ Hkv]]; [done|by apply Hu]. }
  set (c' := mkCfg (join root "config.json") (Some m')).
  assert (wp (set key value) (λ v s, v = inr tt ∧ s.2 = c' ∧ ∃ f, contents f = strings_json (Some m') ++ [x0a] ∧
    w_fs s.1 = <[root ++ ["config.json"] := NFile f]> (w_fs w)) (w, c)) as Hset.
  { unfold set. wp_step. wp_step. rewrite Hkey. cbn [negb snd kv c]. wp_step. wp_step. wp_step. wp_step. wp_step.
    cbn [cfg_path c]. rewrite config_path. wp_use wp_WriteFile; [done|done|done|done|].
    intros [e|[]] w' [_ Hw']; [by destruct Hw'|]. destruct Hw' as (f & Hf & Hfs). split_and!; [done|done|]. by exists f. }
  destruct (wp_exists _ _ _ Hset) as (v & [w' c2] & Hrun & -> & Hc2 & f & Hf & Hfs). cbn [fst snd] in *. subst c2.
  exists c', w'. split; [done|]. split_and!.
  - unfold get. case_decide; [done|]. cbn [kv c' mbind option_bind]. unfold m'. case_decide as Hv.
    + rewrite lookup_delete_eq. by subst.
    + by rewrite lookup_insert_eq.
  - intros k Hk. unfold get. case_decide; [done|]. cbn [kv c c' mbind option_bind]. unfold m'.
    case_decide; [by rewrite lookup_delete_ne by congruence|by rewrite lookup_insert_ne by congruence].
  - assert (fs_wf (w_fs w')) as Hwf'.
    { rewrite Hfs. apply fs_wf_insert; [done|done|done|]. intros [mo Hmo]. by rewrite Hmo in Hn. }
    assert (w_fs w' !! (root ++ ["config.json"]) = Some (NFile f)) as Hlk by (rewrite Hfs; apply lookup_insert_eq).
    destruct (wp_exists _ _ _ (wp_loadConfig root f m' w' Hwf' Hlk Hf Hu')) as (v & w'' & Hr & -> & _). by exists w''.
  - intros q Hne. rewrite Hfs. by rewrite lookup_insert_ne by congruence.
Qed.

End props.

(** ** A repository *)

Definition cfg_world : world := World (list_to_map [([], NDir o755); ([".vit"], NDir o755)]) 0 ∅.

(** C39 at a concrete input. *)
Lemma config_set_load_witness :
  ∃ c' w', @set calm "backend" "firecracker" (cfg_world, mkCfg [".vit"; "config.json"] (Some ∅)) = (Ok tt, (w', c')) ∧
    @get calm c' "backend" = "firecracker".
Proof.
  destruct (config_set_load calm_quiet [".vit"] ∅ "backend" "firecracker" cfg_world) as (c' & w' & Hrun & Hget & _);
    [split_and!; [apply fs_check_ok; vm_compute; reflexivity|by eexists|exact I]|by intros k v Hkv; rewrite lookup_empty in Hkv|reflexivity|reflexivity|].
  exists c', w'. split; [exact Hrun|]. rewrite Hget. reflexivity.
Defined.
