(* ===== verification/CacheProps.v ===== *)
(** * What the image cache promises *)

From S2P Require Import Prelude Sha256 Os OsFacts WalkFacts SnapFacts Repo Engine Checks.
Import Repo Engine.
Open Scope Z_scope.

#[global] Instance item_eq_decision : EqDecision item.
Proof. solve_decision. Defined.

Section cache.
Context `{OsEnv} (Hq : quiet) (keep : path).

Definition used (l : list item) : Z := foldr (λ it n, it_used it + n) 0 l.
Lemma used_app l l' : used (l ++ l') = used l + used l'.
Proof. induction l as [|a l IH]; cbn; [done|]. unfold used in *. lia. Qed.
Lemma used_perm l l' : l ≡ₚ l' → used l = used l'.
Proof. induction 1; unfold used in *; cbn; lia. Qed.

(** The files that may go, and the files without them. *)
Definition evictable (l : list item) : list item := filter (λ it, it_path it ≠ keep) l.
Lemma evictable_nodup l : NoDup (it_path <$> l) → NoDup (it_path <$> evictable l).
Proof.
  unfold evictable. induction l as [|a l IH]; [done|]. rewrite fmap_cons, filter_cons. intros [Ha Hl]%NoDup_cons. specialize (IH Hl).
  case_decide; [|done]. rewrite fmap_cons. constructor; [|done]. intros (b & Hb & Hin)%list_elem_of_fmap.
  apply list_elem_of_filter in Hin as [_ Hin]. apply Ha. rewrite Hb. by apply list_elem_of_fmap_2.
Qed.
Definition less (σ : fs) (l : list item) : fs := foldl (λ σ it, delete (it_path it) σ) σ l.

Lemma less_lookup σ l q : less σ l !! q = if decide (q ∈ it_path <$> l) then None else σ !! q.
Proof.
  revert σ. induction l as [|a l IH]; intros σ; [cbn; by rewrite decide_False by (by intros ?%elem_of_nil)|].
  cbn [less foldl]. change (foldl _ _ l) with (less (delete (it_path a) σ) l). rewrite IH. rewrite fmap_cons.
  destruct (decide (q ∈ it_path <$> l)) as [Hin|Hni]; [by rewrite decide_True by by right|].
  destruct (decide (q = it_path a)) as [->|Hne]; [rewrite lookup_delete_eq, decide_True by left; done|].
  rewrite lookup_delete_ne by congruence. by rewrite decide_False by (by intros [?|?]%elem_of_cons).
Qed.

(** A file with no name below it. *)
Definition leaf (σ : fs) (p : path) : Prop := p ≠ [] ∧ ∃ n, σ !! p = Some n ∧ is_dir_node n = false.

Lemma wp_Remove_path p Q w :
  fs_wf (w_fs w) → leaf (w_fs w) p → (fs_wf (delete p (w_fs w)) → Q (inr tt) (tick (set_fs (delete p (w_fs w)) w))) → wp (os_Remove p) Q w.
Proof.
  intros Hwf (Hne & n & Hn & Hl) HQ. assert (∀ x, w_fs w !! (p ++ [x]) = None) as Hx.
  { intros x. destruct (w_fs w !! (p ++ [x])) eqn:Ex; [|done].
    destruct (proj2 Hwf p x) as [[m Hm] _]; [by eexists|]. rewrite Hn in Hm. by injection Hm as ->. }
  apply (wp_Remove_leaf p n); [done..|by intros ? ?|]. by apply HQ, fs_wf_delete.
Qed.

(** The loop removes the items from the front, except the one to keep, until
    the rest fits. *)
Lemma wp_evict_loop items total w :
  fs_wf (w_fs w) → NoDup (it_path <$> items) → (∀ it, it ∈ items → leaf (w_fs w) (it_path it)) →
  wp (evict_loop keep total items) (λ v w', v = inr tt ∧ ∃ l1 l2, items = l1 ++ l2 ∧ w_fs w' = less (w_fs w) (evictable l1) ∧
    (l2 = [] ∨ total - used (evictable l1) ≤ cacheLimit)) w.
Proof.
  revert total w. induction items as [|it items IH]; intros total w Hwf Hnd Hleaf.
  { cbn [evict_loop]. wp_step. split; [done|]. exists [], []. split_and!; [done|done|by left]. }
  cbn [evict_loop]. case_decide as Hfit.
  { wp_step. split; [done|]. exists [], (it :: items). split_and!; [done|done|]. right. cbn. lia. }
  rewrite fmap_cons in Hnd. apply NoDup_cons in Hnd as [Hni Hnd].
  case_decide as Hk.
  - wp_use IH; [done|done|by intros it' Hit'; apply Hleaf; right|]. intros v w' (-> & l1 & l2 & -> & Hfs & Hu). split; [done|].
    exists (it :: l1), l2. unfold evictable in *. rewrite filter_cons, decide_False by (by intros Hne; apply Hne). by split_and!.
  - wp_step. wp_step. apply wp_Remove_path; [done|apply Hleaf; left|]. intros Hwf'.
    wp_use IH; [done|done|..].
    { intros it' Hit'. destruct (Hleaf it') as (Hne & n & Hn & Hl); [by right|]. split; [done|]. exists n. split; [|done]. cbn.
      rewrite lookup_delete_ne; [done|]. intros Heq. apply Hni. rewrite Heq. by apply list_elem_of_fmap_2. }
    intros v w' (-> & l1 & l2 & -> & Hfs & Hu). split; [done|]. exists (it :: l1), l2. unfold evictable in *.
    rewrite filter_cons, decide_True by done. split_and!; [done|done|]. destruct Hu as [->|Hu]; [by left|]. right. cbn. unfold used in Hu. lia.
Qed.

(** The images in the cache. *)
Definition item_at (σ : fs) (d : path) (c : string) : option item :=
  match σ !! (d ++ [c]) with
  | Some n => if is_dir_node n then None else Some (mkItem (d ++ [c]) (diskUsage (d ++ [c]) n) (mod_time (d ++ [c]) n))
  | None => None
  end.
Definition cached (σ : fs) (d : path) : list item := omap (item_at σ d) (children σ d).

Lemma item_at_path σ d c it : item_at σ d c = Some it → it_path it = d ++ [c] ∧ ∃ n, σ !! (d ++ [c]) = Some n ∧ is_dir_node n = false.
Proof. unfold item_at. destruct (σ !! (d ++ [c])) as [n|]; [|done]. destruct (is_dir_node n) eqn:E; [done|]. intros [= <-]. eauto. Qed.

Lemma elem_of_cached σ d it : it ∈ cached σ d ↔ ∃ c, item_at σ d c = Some it.
Proof.
  unfold cached. rewrite list_elem_of_omap. split; [by intros (c & _ & Hc); exists c|]. intros [c Hc]. exists c. split; [|done].
  apply elem_of_children. destruct (item_at_path _ _ _ _ Hc) as (_ & n & Hn & _). by eexists.
Qed.

Lemma cached_nodup σ d : NoDup (it_path <$> cached σ d).
Proof.
  unfold cached. pose proof (NoDup_children σ d) as Hnd. induction Hnd as [|c l Hc _ IH]; [constructor|]. cbn.
  destruct (item_at σ d c) as [it|] eqn:E; [|done]. rewrite fmap_cons. constructor; [|done].
  intros (it' & Heq & Hin)%list_elem_of_fmap. apply list_elem_of_omap in Hin as (c' & Hc' & E').
  destruct (item_at_path _ _ _ _ E) as [Hp _]. destruct (item_at_path _ _ _ _ E') as [Hp' _].
  rewrite Hp, Hp' in Heq. apply app_inj_tail_iff in Heq as [_ ->]. done.
Qed.

Lemma wp_cache_items d w :
  fs_wf (w_fs w) → (∀ c, is_Some (w_fs w !! (d ++ [c])) → has_char slash c = false) →
  wp (fold_m (cache_item d) ([], 0) (dirent_of (w_fs w) d <$> children (w_fs w) d))
    (λ v w', v = inr (cached (w_fs w) d, used (cached (w_fs w) d)) ∧ w_fs w' = w_fs w ∧ w_zero w' = w_zero w) w.
Proof.
  intros Hwf Hnames. set (σ := w_fs w) in *.
  eapply wp_fold_m with (I := λ dn acc w1, w_fs w1 = σ ∧ w_zero w1 = w_zero w ∧ acc = (omap (item_at σ d) dn.*1, used (omap (item_at σ d) dn.*1))).
  - done.
  - intros dn [c b] todo acc w1 Hl (Hfs1 & Hz1 & ->). assert (is_Some (σ !! (d ++ [c]))) as [n Hn].
    { apply elem_of_children. assert ((c, b) ∈ dirent_of σ d <$> children σ d) as Hin by (rewrite Hl; apply elem_of_app; right; left).
      apply list_elem_of_fmap in Hin as (c' & Heq & Hc'). by injection Heq as -> _. }
    assert (join d c = d ++ [c]) as Hj.
    { assert (good_name c) as Hg by (pose proof (fs_wf_names σ d [c] Hwf ltac:(by eexists)) as Hf; by inversion Hf).
      unfold join. rewrite split_on_no_sep by (apply Hnames; by eexists). apply clean_onto_good. by constructor. }
    unfold cache_item. cbn [fst]. rewrite Hj. wp_step. wp_step. apply (wp_Lstat_some _ n); [by rewrite Hfs1|by rewrite Hfs1|done|].
    wp_step. split_and!; [done|done|]. rewrite fmap_app, omap_app.
    assert (omap (item_at σ d) [(c, b)].*1 = if is_dir_node n then [] else [mkItem (d ++ [c]) (diskUsage (d ++ [c]) n) (mod_time (d ++ [c]) n)]) as ->.
    { cbn. unfold item_at. rewrite Hn. by destruct (is_dir_node n). }
    destruct (is_dir_node n); [by rewrite app_nil_r|]. rewrite used_app. cbn. f_equal. lia.
  - intros acc w1 (Hfs1 & Hz1 & ->). split; [|done]. rewrite <- list_fmap_compose. unfold cached.
    replace (fst ∘ dirent_of σ d <$> children σ d) with (children σ d); [done|]. symmetry. apply list_fmap_id.
Qed.

(** Removing some of them leaves the others. *)
Lemma cached_less σ d gone :
  (∀ it, it ∈ gone → it ∈ cached σ d) → NoDup (it_path <$> gone) → gone ++ cached (less σ gone) d ≡ₚ cached σ d.
Proof.
  intros Hsub Hnd.
  assert (∀ it, it ∈ cached (less σ gone) d ↔ it ∈ cached σ d ∧ it ∉ gone) as Hin.
  { intros it. rewrite !elem_of_cached. split.
    - intros [c Hc]. pose proof (item_at_path _ _ _ _ Hc) as (Hp & n & Hn & _). rewrite less_lookup in Hn.
      case_decide as Hg; [done|]. split.
      + exists c. unfold item_at in *. rewrite less_lookup, decide_False in Hc by done. done.
      + intros Hit. apply Hg. rewrite <- Hp. by apply list_elem_of_fmap_2.
    - intros [[c Hc] Hng]. exists c. unfold item_at in *. rewrite less_lookup, decide_False; [done|].
      intros (it' & Hp' & Hin')%list_elem_of_fmap. apply Hng. assert (it' = it) as <-; [|done].
      apply Hsub, elem_of_cached in Hin' as [c' Hc']. destruct (item_at_path _ _ _ _ Hc') as [Hp2 _]. rewrite <- Hp' in Hp2.
      apply app_inj_tail_iff in Hp2 as [_ ->]. unfold item_at in Hc'. rewrite Hc in Hc'. by injection Hc'. }
  apply NoDup_Permutation.
  - apply NoDup_app. split_and!; [by apply NoDup_fmap_1 in Hnd| |by eapply NoDup_fmap_1, cached_nodup].
    intros it Hg Hc. by apply Hin in Hc as [_ ?].
  - by eapply NoDup_fmap_1, cached_nodup.
  - intros it. rewrite elem_of_app, Hin. destruct (decide (it ∈ gone)); naive_solver.
Qed.

#[local] Instance older_trans : Transitive older.
Proof. intros a b c. unfold older. lia. Qed.
#[local] Instance older_total : Total older.
Proof. intros a b. unfold older. lia. Qed.

(** C35 (evict_fits): eviction removes images of the cache only, oldest first and
    never the one to keep, and leaves the cache within its limit, or with no
    image but that one; it changes nothing else. *)
Theorem evict_fits r w :
  fs_wf (w_fs w) → is_dir (w_fs w) (cacheDir r) →
  (∀ c, is_Some (w_fs w !! (cacheDir r ++ [c])) → has_char slash c = false) →
  ∃ w' gone, evictCache r keep w = (Ok tt, w') ∧ w_fs w' = less (w_fs w) gone ∧
    (∀ a, a ∈ gone → a ∈ cached (w_fs w) (cacheDir r) ∧ it_path a ≠ keep) ∧
    (used (cached (w_fs w') (cacheDir r)) ≤ cacheLimit ∨ ∀ b, b ∈ cached (w_fs w') (cacheDir r) → it_path b = keep) ∧
    (∀ a b, a ∈ gone → b ∈ cached (w_fs w') (cacheDir r) → it_path b ≠ keep → it_mtime a ≤ it_mtime b).
Proof.
  intros Hwf [m Hm] Hnames. set (d := cacheDir r) in *. set (σ := w_fs w) in *. set (items := merge_sort older (cached σ d)).
  assert (items ≡ₚ cached σ d) as Hperm by apply merge_sort_Permutation.
  assert (wp (evictCache r keep) (λ v w', v = inr tt ∧ ∃ l1 l2, items = l1 ++ l2 ∧ w_fs w' = less σ (evictable l1) ∧
    (l2 = [] ∨ used (cached σ d) - used (evictable l1) ≤ cacheLimit)) w) as Hwp.
  { unfold evictCache. wp_step. wp_step. eapply wp_ReadDir; [done|done|done|]. wp_step.
    wp_use (wp_cache_items d (tick w)); [done|done|]. intros v w1 (-> & Hfs1 & _). cbn [fst snd].
    change (w_fs (tick w)) with σ in *. fold items.
    wp_use (wp_evict_loop items _ w1); rewrite ?Hfs1; [done|rewrite Hperm; apply cached_nodup|..|done].
    intros it Hit. rewrite Hperm in Hit. apply elem_of_cached in Hit as [c Hc]. destruct (item_at_path _ _ _ _ Hc) as (-> & n & Hn & Hl).
    split; [by destruct d|]. by exists n. }
  destruct (wp_exists _ _ _ Hwp) as (v & w' & Hrun & -> & l1 & l2 & Hl & Hfs & Hfit). exists w', (evictable l1).
  assert (∀ a, a ∈ evictable l1 → a ∈ l1 ∧ it_path a ≠ keep) as Hev by (intros a [? ?]%list_elem_of_filter; done).
  assert (∀ a, a ∈ evictable l1 → a ∈ cached σ d) as Hsub by (intros a [Ha _]%Hev; rewrite <- Hperm, Hl; apply elem_of_app; by left).
  assert (NoDup (it_path <$> items)) as Hnd by (rewrite Hperm; apply cached_nodup).
  assert (NoDup (it_path <$> evictable l1)) as Hnd1.
  { rewrite Hl, fmap_app in Hnd. apply NoDup_app in Hnd as [Hnd _]. by apply evictable_nodup. }
  pose proof (cached_less σ d (evictable l1) Hsub Hnd1) as Hc. rewrite <- Hfs in Hc.
  assert (∀ b, b ∈ cached (w_fs w') d → it_path b ≠ keep → b ∈ l2) as Hrest.
  { intros b Hb Hbk. assert (b ∈ items) as Hbi by (rewrite Hperm, <- Hc; apply elem_of_app; by right).
    rewrite Hl in Hbi. apply elem_of_app in Hbi as [Hb1|]; [|done]. exfalso.
    assert (b ∈ evictable l1) as Hbe by by apply list_elem_of_filter.
    assert (NoDup (evictable l1 ++ cached (w_fs w') d)) as Hnd2 by (rewrite Hc; eapply NoDup_fmap_1, cached_nodup).
    apply NoDup_app in Hnd2 as (_ & Hdis & _). by apply (Hdis b). }
  split_and!; [done|done|by intros a Ha; split; [apply Hsub|apply Hev]|..].
  - destruct Hfit as [->|Hfit].
    + right. intros b Hb. destruct (decide (it_path b = keep)) as [|Hbk]; [done|]. by apply Hrest, elem_of_nil in Hbk.
    + left. apply used_perm in Hc. rewrite used_app in Hc. lia.
  - intros a b Ha Hb Hbk. apply Hrest in Hb; [|done]. apply Hev in Ha as [Ha _].
    assert (StronglySorted older items) as Hso by (apply StronglySorted_merge_sort; apply _). rewrite Hl in Hso.
    by eapply (StronglySorted_app_1_elem_of older l1 l2).
Qed.

End cache.

(** ** A cache over its limit *)

(** A host where every file takes 20 GiB. *)
#[local] Instance big_files : OsEnv :=
  {| fault := λ _, None; partial := λ _, 0%nat; entropy := N.of_nat; clock := λ _, 0; umask := 0x12;
     tempdir := ["tmp"]; getenv := λ _, ""; device := 1; st_blocks := λ _ _, 41943040; link_mtime := λ _, 0 |}.
Definition cache_repo : Repo := mkRepo ["repo"] ["repo"; "blobs"].
Definition cache_fs : fs := Eval vm_compute in list_to_map [
  ([], NDir o755); (["repo"], NDir o755); (["repo"; "cache"], NDir o755);
  (["repo"; "cache"; "a.mem"], NFile (File o644 [] 5 1));
  (["repo"; "cache"; "b.mem"], NFile (File o644 [] 3 2))].

(** C35 at a concrete input: only the image to keep is left. *)
Lemma evict_fits_witness :
  ∃ w', evictCache cache_repo ["repo"; "cache"; "a.mem"] (World cache_fs 0 ∅) = (Ok tt, w') ∧
    w_fs w' !! ["repo"; "cache"; "b.mem"] = None ∧ is_Some (w_fs w' !! ["repo"; "cache"; "a.mem"]).
Proof.
  destruct (evict_fits (H := big_files) (λ _, eq_refl) ["repo"; "cache"; "a.mem"] cache_repo (World cache_fs 0 ∅)) as (w' & gone & Hrun & _);
    [apply fs_check_ok; vm_compute; reflexivity|by eexists|..].
  { intros c [n Hn]. assert (nodes_b cache_fs (λ q _, match under ["repo"; "cache"] q with Some [c] => negb (has_char slash c) | _ => true end) = true) as Hb
      by (vm_compute; reflexivity).
    apply (nodes_b_ok _ _ _ _ Hb) in Hn. change (cacheDir cache_repo) with ["repo"; "cache"] in Hn. rewrite under_app in Hn. by apply negb_true_iff in Hn. }
  exists w'. split; [exact Hrun|]. assert (w' = (evictCache cache_repo ["repo"; "cache"; "a.mem"] (World cache_fs 0 ∅)).2) as -> by by rewrite Hrun.
  split; [vm_compute; reflexivity|]. eexists. vm_compute. reflexivity.
Defined.
