(* ===== verification/CacheFacts.v ===== *)
(** * Objects of the store and the image cache

    An object is what a checkpoint's image hashes name: a chunked image under
    the digest of its manifest, or a plain blob under its own.  The cache keeps
    objects as files named by hash; with room in it, [cachedImage] returns a
    file that holds the object, and forgets no other. *)

From S2P Require Import Prelude Sha256 Os OsFacts WalkFacts Parallel Cas Blobs Chunked ChunkedFacts Json JsonFacts Codec Codecs ChunkedProps Repo RepoFacts Engine CacheProps.
Import Cas Chunked Repo Engine.
Open Scope Z_scope.

Section cache.
Context `{OsEnv, Sched} (U : bytes → Prop) {NC : NoCollision U}.
Implicit Types (w : world) (r : Repo) (σ : fs).

(** ** Objects *)

(** A blob [ReadManifest] does not take for a manifest. *)
Definition plain (b : bytes) : Prop :=
  match json_Unmarshal (A:=Manifest) b with Some m => m_Chunked m ≠ 1 | None => True end.

Record image_of (img : bytes) : Prop := {
  im_in : image_in U img;
  im_zeros : zeros_in U img;
  im_size : Z.of_nat (length img) < 2 ^ 63
}.

(** [h] is the name of [b]. *)
Definition names (h : string) (b : bytes) : Prop :=
  (h = image_name b ∧ image_of b) ∨ (h = hashOf b ∧ U b ∧ plain b).

(** [b] is in the store under [h]. *)
Definition object σ (root : path) (h : string) (b : bytes) : Prop :=
  (h = image_name b ∧ image_of b ∧ stored_image σ root b) ∨ (h = hashOf b ∧ U b ∧ plain b ∧ stored σ root b).

Lemma object_names σ root h b : object σ root h b → names h b.
Proof. intros [(? & ? & _)|(? & ? & ? & _)]; [by left|by right]. Qed.

Lemma names_digest h b : names h b → is_digest h = true.
Proof. intros [[-> _]|[-> _]]; apply hashOf_digest. Qed.

Lemma stored_image_step root σ σ' img : store_step U root σ σ' → stored_image σ root img → stored_image σ' root img.
Proof. intros Hs [Hm Hc]. split; [by eapply stored_step|]. intros i Hi. eapply stored_step; eauto. Qed.

Lemma object_step root σ σ' h b : store_step U root σ σ' → object σ root h b → object σ' root h b.
Proof.
  intros Hs [(He & Hi & Hst)|(He & HU & Hp & Hst)]; [left|right]; split_and!; try assumption;
    [by eapply stored_image_step|by eapply stored_step].
Qed.

(** An image is its chunks. *)
Lemma image_ext img img' :
  length img = length img' → (∀ i, (i < chunk_num img)%nat → chunk_at img i = chunk_at img' i) → img = img'.
Proof.
  intros Hl Hc. apply list_eq. intros k. destruct (decide (k < length img)%nat) as [Hk|Hk].
  - destruct (chunk_of_pos img k Hk) as (Hn & Hd & Hm). specialize (Hc _ Hn).
    apply (f_equal (.!! (k mod csize)%nat)) in Hc. rewrite !chunk_at_lookup in Hc.
    rewrite !decide_True in Hc by done. by rewrite <- Hd in Hc.
  - rewrite !lookup_ge_None_2 by lia. done.
Qed.

Lemma image_name_inj img img' : image_of img → image_of img' → image_name img = image_name img' → img = img'.
Proof.
  intros [[Hm Hc] _ Hs] [[Hm' Hc'] _ Hs'] He. apply no_collision in He; [|done..].
  apply (f_equal (json_Unmarshal (A:=Manifest))) in He. rewrite !json_roundtrip in He by by apply manifest_dom.
  apply (inj Some) in He as Hman. assert (length img = length img') as Hl.
  { apply (f_equal m_Size) in Hman. simpl in Hman. lia. }
  apply image_ext; [done|]. intros i Hi. assert (i < chunk_num img')%nat as Hi' by (rewrite <- (chunk_num_len _ _ Hl); exact Hi).
  apply no_collision; [by apply Hc|by apply Hc'|].
  apply (f_equal ((.!! i) ∘ m_Chunks)) in Hman. unfold compose in Hman. rewrite !manifest_chunk in Hman by assumption. apply (inj Some) in Hman. exact Hman.
Qed.

Lemma plain_not_image img : image_of img → ¬ plain (json_Marshal (manifest_of img)).
Proof. intros [_ _ Hs]. unfold plain. rewrite json_roundtrip by by apply manifest_dom. intros Hne. by apply Hne. Qed.

(** A name stands for one object. *)
Lemma names_one_object h b b' : names h b → names h b' → b = b'.
Proof.
  assert (∀ img c, image_of img → U c → plain c → image_name img ≠ hashOf c) as Hx.
  { intros img c Hi HU Hp He. apply no_collision in He; [|apply Hi|done]. rewrite <- He in Hp. by apply plain_not_image in Hp. }
  intros [[-> Hi]|(-> & HU & Hp)] [[He Hi']|(He & HU' & Hp')].
  - by apply image_name_inj.
  - by apply Hx in He.
  - symmetry in He. by apply Hx in He.
  - by apply no_collision.
Qed.

(** ** The files of the cache *)

Definition exts : list string := [".mem"; ".state"; ".disk"; ".base"].
Definition cache_dir r : path := r_root r ++ ["cache"].
Definition cache_file r (h ext : string) : path := cache_dir r ++ [h +:+ ext].

Lemma cacheDir_eq r : cacheDir r = cache_dir r.
Proof. apply join_good; by repeat split. Qed.

(** The cache holds files only, each with the object its name says; it may not
    have been made yet. *)
Record cache_ok r σ : Prop := {
  co_root : is_dir σ (r_root r);
  co_dir : σ !! cache_dir r = None ∨ is_dir σ (cache_dir r);
  co_files : ∀ c n, σ !! (cache_dir r ++ [c]) = Some n → has_char slash c = false ∧ ∃ f, n = NFile f;
  co_names : ∀ h ext f, is_digest h = true → ext ∈ exts → σ !! cache_file r h ext = Some (NFile f) → names h (contents f)
}.

(** With [N] the names that may come to be in the cache, it never passes its
    limit. *)
Definition within r (N : list string) σ : Prop := ∀ c, is_Some (σ !! (cache_dir r ++ [c])) → c ∈ N.
Definition roomy r (N : list string) : Prop := ∀ σ, within r N σ → used (cached σ (cache_dir r)) ≤ cacheLimit.

(** It is so when each file takes at most [k] bytes on disk. *)
Lemma roomy_bound r N k :
  0 ≤ k → (∀ p n, diskUsage p n ≤ k) → Z.of_nat (length N) * k ≤ cacheLimit → roomy r N.
Proof.
  intros Hk Hu Hl σ Hw. etrans; [|exact Hl].
  assert (used (cached σ (cache_dir r)) ≤ Z.of_nat (length (cached σ (cache_dir r))) * k) as Hsum.
  { assert (∀ it, it ∈ cached σ (cache_dir r) → it_used it ≤ k) as Hit.
    { intros it (c & Hc)%elem_of_cached. unfold item_at in Hc. destruct (σ !! _) as [n|]; [|done].
      destruct (is_dir_node n); [done|]. injection Hc as <-. apply Hu. }
    induction (cached σ (cache_dir r)) as [|a l IH]; [simpl; lia|]. rewrite length_cons. unfold used in *. simpl.
    pose proof (Hit a ltac:(left)). specialize (IH ltac:(intros it Hin; apply Hit; by right)). lia. }
  assert (length (cached σ (cache_dir r)) ≤ length N)%nat; [|nia].
  rewrite <- (length_fmap it_path), <- (length_fmap (λ c, cache_dir r ++ [c]) N).
  apply submseteq_length, NoDup_submseteq; [apply cached_nodup|].
  intros p (it & -> & (c & Hc)%elem_of_cached)%list_elem_of_fmap. apply item_at_path in Hc as (-> & n & Hn & _).
  apply list_elem_of_fmap. exists c. split; [done|]. apply Hw. by eexists.
Qed.

(** ** Names *)

Lemma string_app_inj (a b x y : string) : String.length a = String.length b → a +:+ x = b +:+ y → a = b ∧ x = y.
Proof.
  revert b. induction a as [|c a IH]; intros [|d b] Hl He; try done.
  change (String c (a +:+ x) = String d (b +:+ y)) in He. injection He as -> He. simpl in Hl.
  destruct (IH b) as [-> ->]; [lia|done|done].
Qed.

Lemma digest_length h : is_digest h = true → String.length h = 64%nat.
Proof. unfold is_digest. intros [Hl _]%andb_true_iff. by apply bool_decide_eq_true in Hl. Qed.

Lemma ext_short ext : ext ∈ exts → (4 ≤ String.length ext ≤ 6)%nat ∧ has_char slash ext = false.
Proof. unfold exts. rewrite !elem_of_cons, elem_of_nil. intros [-> | [-> | [-> | [-> | []]]]]; simpl; (split; [lia|done]). Qed.

Lemma cache_name_inj h ext h' ext' :
  is_digest h = true → is_digest h' = true → h +:+ ext = h' +:+ ext' → h = h' ∧ ext = ext'.
Proof. intros Hh Hh'. apply string_app_inj. by rewrite (digest_length h), (digest_length h'). Qed.

Lemma cache_name_good h ext : is_digest h = true → ext ∈ exts →
  has_char slash (h +:+ ext) = false ∧ good_name (h +:+ ext) ∧ has_char slash ((h +:+ ext) +:+ ".tmp") = false.
Proof.
  intros Hh [Hl Hs]%ext_short. assert (has_char slash (h +:+ ext) = false) as Hc.
  { rewrite has_char_app, Hs, orb_false_r. unfold is_digest in Hh. apply andb_true_iff in Hh as [Hlen Hx].
    apply all_hex_name; [done|]. by intros ->. }
  assert (String.length (h +:+ ext) = (64 + String.length ext)%nat) as Hlen by (rewrite string_length_app, digest_length; done).
  split; [done|]. split; [|by rewrite has_char_app, Hc].
  split_and!; intros He; rewrite He in Hlen; simpl in Hlen; lia.
Qed.

Lemma cache_tmp_other h ext h' ext' : is_digest h = true → is_digest h' = true → ext ∈ exts → ext' ∈ exts →
  h' +:+ ext' ≠ (h +:+ ext) +:+ ".tmp".
Proof.
  intros Hh Hh' [Hl _]%ext_short [Hl' _]%ext_short He%(f_equal String.length).
  rewrite !string_length_app, (digest_length h), (digest_length h') in He by done. simpl in He. lia.
Qed.

(** ** What a call may do to the cache *)

(** The store keeps its blobs, the cache its objects, and nothing else moves. *)
Record cache_step r σ σ' : Prop := {
  cs_store : store_inv U (r_cas r) σ';
  cs_keep : ∀ h b, is_digest h = true → blob_of σ (r_cas r) h = Some b → blob_of σ' (r_cas r) h = Some b;
  cs_ok : cache_ok r σ';
  cs_files : ∀ h ext f, is_digest h = true → ext ∈ exts → σ !! cache_file r h ext = Some (NFile f) →
    ∃ f', σ' !! cache_file r h ext = Some (NFile f') ∧ contents f' = contents f;
  cs_frame : ∀ q, ¬ below (r_cas r) q → ¬ below (cache_dir r) q → σ' !! q = σ !! q
}.

#[global] Instance cache_step_trans r : Transitive (cache_step r).
Proof.
  intros σ1 σ2 σ3 [_ Hk1 _ Hf1 Hq1] [Hs2 Hk2 Ho2 Hf2 Hq2]. split; [done|auto|done|..].
  - intros h ext f Hh He Hf. destruct (Hf1 h ext f Hh He Hf) as (f' & Hf' & Hc).
    destruct (Hf2 h ext f' Hh He Hf') as (f'' & Hf'' & Hc'). exists f''. split; [done|congruence].
  - intros q H1 H2. by rewrite Hq2, Hq1.
Qed.

Lemma object_keep r σ σ' h b : cache_step r σ σ' → object σ (r_cas r) h b → object σ' (r_cas r) h b.
Proof.
  intros Hs. assert (∀ x, stored σ (r_cas r) x → stored σ' (r_cas r) x) as Hk.
  { intros x Hx. by apply (cs_keep _ _ _ Hs); [apply hashOf_digest|]. }
  intros [(He & Hi & Hm & Hc)|(He & HU & Hp & Hst)]; [left|right]; split_and!; try assumption; [|by apply Hk].
  split; [by apply Hk|]. intros i Hi'. by apply Hk, Hc.
Qed.

(** Everything the cache's operations rely on. *)
Record cache_inv r N w : Prop := {
  ci_live : live (r_cas r) w;
  ci_store : store_inv U (r_cas r) (w_fs w);
  ci_memo : memo_ok w;
  ci_cas : r_cas r = r_root r ++ ["blobs"];
  ci_ok : cache_ok r (w_fs w);
  ci_within : within r N (w_fs w);
  ci_roomy : roomy r N
}.

Lemma cache_apart r q : r_cas r = r_root r ++ ["blobs"] → below (r_cas r) q → ¬ below (cache_dir r) q.
Proof.
  intros -> [k ->] [k' Hk]. unfold cache_dir in Hk. rewrite <- !app_assoc in Hk. apply app_inv_head in Hk.
  by simplify_eq/=.
Qed.

Lemma cache_dir_above r c q : below (r_cas r) q → r_cas r = r_root r ++ ["blobs"] → cache_dir r ++ [c] ≠ q ∧ cache_dir r ≠ q.
Proof.
  intros Hb Hc. split; intros <-; apply (cache_apart r _ Hc Hb); [by exists [c]|by exists []; rewrite app_nil_r].
Qed.

(** A file put in its place in the cache, by way of its temporary or not. *)
Lemma cache_put r N w w' h ext b f :
  let dst := cache_file r h ext in
  let tmp := cache_dir r ++ [(h +:+ ext) +:+ ".tmp"] in
  cache_inv r N w → is_dir (w_fs w) (cache_dir r) → names h b → ext ∈ exts → h +:+ ext ∈ N →
  live (r_cas r) w' → store_inv U (r_cas r) (w_fs w') → memo_ok w' →
  (∀ h b, is_digest h = true → blob_of (w_fs w) (r_cas r) h = Some b → blob_of (w_fs w') (r_cas r) h = Some b) →
  (∀ q, ¬ below (r_cas r) q → q ≠ dst → q ≠ tmp → w_fs w' !! q = w_fs w !! q) →
  w_fs w' !! dst = Some (NFile f) → contents f = b →
  (w_fs w' !! tmp = None ∨ w_fs w' !! tmp = w_fs w !! tmp) →
  cache_inv r N w' ∧ cache_step r (w_fs w) (w_fs w').
Proof.
  intros dst tmp Hinv [m Hm] Hn He HN Hl' Hs' Hm' Hk Hfr Hf Hb Ht.
  pose proof Hinv as [_ _ _ Hcas [Hroot _ Hfiles Hnames] Hw Hr]. pose proof (names_digest _ _ Hn) as Hh.
  destruct (cache_name_good h ext Hh He) as (Hsl & Hg & Hst).
  assert (∀ q, q = dst ∨ q = tmp ∨ (¬ below (r_cas r) q → w_fs w' !! q = w_fs w !! q)) as Hcase.
  { intros q. destruct (decide (q = dst)); [auto|]. destruct (decide (q = tmp)); [auto|]. right; right. auto. }
  assert (∀ c, ¬ below (r_cas r) (cache_dir r ++ [c])) as Hout by (intros c Hc; exact (proj1 (cache_dir_above r c _ Hc Hcas) eq_refl)).
  assert (∀ c n, w_fs w' !! (cache_dir r ++ [c]) = Some n →
    (c = h +:+ ext ∧ n = NFile f) ∨ w_fs w !! (cache_dir r ++ [c]) = Some n) as Hnew.
  { intros c n Hc. destruct (Hcase (cache_dir r ++ [c])) as [Hq|[Hq|Hq]].
    - rewrite Hq, Hf in Hc. injection Hc as <-. apply app_inj_tail in Hq as [_ ->]. by left.
    - rewrite Hq in Hc |- *. right. destruct Ht as [Ht|Ht]; congruence.
    - right. by rewrite <- Hq. }
  assert (cache_ok r (w_fs w')) as Hok.
  { split.
    - destruct Hroot as [m0 Hm0]. exists m0. rewrite Hfr; [done|..].
      + rewrite Hcas. intros [k Hk']. apply (f_equal length) in Hk'. rewrite !length_app in Hk'. simpl in Hk'. lia.
      + intros Hq%(f_equal length). unfold dst, cache_file, cache_dir in Hq. rewrite !length_app in Hq. simpl in Hq. lia.
      + intros Hq%(f_equal length). unfold tmp, cache_dir in Hq. rewrite !length_app in Hq. simpl in Hq. lia.
    - right. exists m. rewrite Hfr; [done|..].
      + intros Hc. exact (proj2 (cache_dir_above r "" _ Hc Hcas) eq_refl).
      + intros Hq%(f_equal length). unfold dst, cache_file in Hq. rewrite !length_app in Hq. simpl in Hq. lia.
      + intros Hq%(f_equal length). unfold tmp in Hq. rewrite !length_app in Hq. simpl in Hq. lia.
    - intros c n [[-> ->]|Hc]%Hnew; [eauto|by apply Hfiles].
    - intros h' ext' f' Hh' He' Hf'. unfold cache_file in Hf'. apply Hnew in Hf' as [[Hc [= ->]]|Hc]; [|by eapply Hnames].
      apply cache_name_inj in Hc as [-> ->]; [|done..]. by rewrite Hb. }
  split.
  - split; try done. intros c [n [[-> _]|Hc]%Hnew]; [done|]. apply Hw. by eexists.
  - split; [done..| |].
    + intros h' ext' f' Hh' He' Hf'. destruct (Hcase (cache_file r h' ext')) as [Hq|[Hq|Hq]].
      * exists f. rewrite Hq. split; [done|]. apply app_inj_tail in Hq as [_ Hq]. apply cache_name_inj in Hq as [-> ->]; [|done..].
        rewrite Hb. eapply names_one_object; [done|]. by eapply Hnames.
      * apply app_inj_tail in Hq as [_ Hq]. by apply cache_tmp_other in Hq.
      * exists f'. split; [|done]. rewrite Hq; [done|apply Hout].
    + intros q H1 H2. destruct (Hcase q) as [-> | [-> | Hq]]; [| |by apply Hq]; destruct H2; by eexists.
Qed.

(** [evictCache] with room to spare removes nothing. *)
Lemma wp_evictCache r N keep w :
  cache_inv r N w → is_dir (w_fs w) (cache_dir r) →
  wp (evictCache r keep) (λ v w', v = inr tt ∧ w_fs w' = w_fs w ∧ w_zero w' = w_zero w) w.
Proof.
  intros Hi [m Hm]. pose proof (ci_live _ _ _ Hi) as [Hq _]. pose proof (sw_fs _ _ (si_wf _ _ _ (ci_store _ _ _ Hi))) as Hwf.
  unfold evictCache. rewrite cacheDir_eq. wp_step. wp_step. eapply wp_ReadDir; [done|done|done|]. wp_step.
  wp_use (wp_cache_items Hq (cache_dir r) (tick w)); [done|intros c [n Hn]; by eapply (co_files _ _ (ci_ok _ _ _ Hi))|].
  intros v w1 (-> & Hfs1 & Hz1). cbn [fst snd]. pose proof (ci_roomy _ _ _ Hi _ (ci_within _ _ _ Hi)) as Hroom.
  destruct (merge_sort older _) as [|it items]; cbn [evict_loop]; [by wp_step|]. rewrite decide_True by exact Hroom. by wp_step.
Qed.

Lemma cache_inv_same r N w w' : cache_inv r N w → w_fs w' = w_fs w → w_zero w' = w_zero w → cache_inv r N w'.
Proof.
  intros [[Hq Hc] Hs Hm Hcas Ho Hw Hr] Hfs Hz. split; rewrite ?Hfs; try done.
  - split; [done|]. by rewrite Hfs.
  - unfold memo_ok. by rewrite Hz.
Qed.

Lemma cache_step_refl r N w : cache_inv r N w → cache_step r (w_fs w) (w_fs w).
Proof. intros Hi. split; [apply Hi|done|apply Hi|eauto|done]. Qed.

(** The directory is made on first use. *)
Lemma wp_cache_mkdir r N w :
  cache_inv r N w →
  wp (os_MkdirAll (cacheDir r) o755) (λ v w', v = inr tt ∧ cache_inv r N w' ∧ cache_step r (w_fs w) (w_fs w') ∧
    is_dir (w_fs w') (cache_dir r) ∧ ∀ c, w_fs w' !! (cache_dir r ++ [c]) = w_fs w !! (cache_dir r ++ [c])) w.
Proof.
  intros Hi. pose proof Hi as [[Hq Hcl] Hs Hm Hcas Hok Hw Hr]. pose proof (sw_fs _ _ (si_wf _ _ _ Hs)) as Hwf.
  rewrite cacheDir_eq. destruct (co_dir _ _ Hok) as [Hnone|Hdir].
  2:{ wp_use wp_MkdirAll_dir; [done|done|]. intros v w' (Hfs & Hz & Hv). destruct v as [[]|[]]; try done.
      split_and!; [done|by eapply cache_inv_same| |by rewrite Hfs|intros; by rewrite Hfs].
      rewrite Hfs. by eapply cache_step_refl. }
  wp_use wp_MkdirAll_child; [done|apply Hok|by repeat split|exact Hnone|]. intros v w' (Hz & Hv). destruct v as [[]|[]]; try done; [by destruct Hv|].
  fold (cache_dir r) in Hv.
  assert (∀ q, q ≠ cache_dir r → w_fs w' !! q = w_fs w !! q) as Hag by (intros q Hne; by rewrite Hv, lookup_insert_ne).
  assert (∀ c, w_fs w' !! (cache_dir r ++ [c]) = w_fs w !! (cache_dir r ++ [c])) as Hch.
  { intros c. apply Hag. intros He%(f_equal length). rewrite length_app in He. simpl in He. lia. }
  assert (∀ q, below (r_cas r) q → w_fs w' !! q = w_fs w !! q) as Hbl.
  { intros q Hb. apply Hag. intros ->. by eapply (proj2 (cache_dir_above r "" _ Hb Hcas)). }
  assert (is_dir (w_fs w') (cache_dir r)) as Hd by (rewrite Hv; eexists; apply lookup_insert_eq).
  assert (cache_ok r (w_fs w')) as Hok'.
  { split; [|by right|..].
    - destruct (co_root _ _ Hok) as [m0 Hm0]. exists m0. rewrite Hag; [done|].
      intros He%(f_equal length). unfold cache_dir in He. rewrite length_app in He. simpl in He. lia.
    - intros c n. rewrite Hch. apply Hok.
    - intros h ext f Hh He. unfold cache_file. rewrite Hch. by apply Hok. }
  assert (store_inv U (r_cas r) (w_fs w')) as Hs'.
  { eapply store_inv_agree; [done| |done]. rewrite Hv. apply fs_wf_insert; [done|apply Hok|by repeat split|done]. }
  split_and!; [done| | |done|done].
  - split; try done.
    + split; [done|]. by eapply store_clean_agree.
    + unfold memo_ok. by rewrite Hz.
    + intros c. rewrite Hch. apply Hw.
  - split; try done.
    + intros h b Hh Hb. by rewrite (blob_of_agree (w_fs w)).
    + intros h ext f Hh He Hf. exists f. unfold cache_file. by rewrite Hch.
    + intros q _ Hq2. apply Hag. intros ->. apply Hq2. exists []. by rewrite app_nil_r.
Qed.

(** The file is there and holds [b]. *)
Definition cached_as r σ (h ext : string) (b : bytes) : Prop :=
  ∃ f, σ !! cache_file r h ext = Some (NFile f) ∧ contents f = b.

Lemma cached_as_step r σ σ' h ext b :
  cache_step r σ σ' → is_digest h = true → ext ∈ exts → cached_as r σ h ext b → cached_as r σ' h ext b.
Proof.
  intros Hs Hh He (f & Hf & <-). destruct (cs_files _ _ _ Hs h ext f Hh He Hf) as (f' & ? & ?). by exists f'.
Qed.

Definition cache_post r N w (h ext : string) (b : bytes) w' : Prop :=
  cache_inv r N w' ∧ cache_step r (w_fs w) (w_fs w') ∧ cached_as r (w_fs w') h ext b.

(** A hit: the file is used as it is and its time set. *)
Lemma wp_cache_hit r N h ext b f w :
  cache_inv r N w → is_dir (w_fs w) (cache_dir r) → object (w_fs w) (r_cas r) h b → ext ∈ exts → h +:+ ext ∈ N →
  w_fs w !! cache_file r h ext = Some (NFile f) →
  wp (now ← time_Now; ignore (os_Chtimes (cache_file r h ext) now);; mret (cache_file r h ext))
    (λ v w', v = inr (cache_file r h ext) ∧ cache_post r N w h ext b w') w.
Proof.
  intros Hi Hd Hobj He HN Hf. pose proof (object_names _ _ _ _ Hobj) as Hn. pose proof (names_digest _ _ Hn) as Hh.
  pose proof Hi as [[Hq Hcl] Hs Hm Hcas Hok Hw Hr]. pose proof (sw_fs _ _ (si_wf _ _ _ Hs)) as Hwf.
  assert (contents f = b) as Hb by (eapply names_one_object; [|done]; by eapply (co_names _ _ Hok)).
  wp_step. unfold wp at 1, time_Now. wp_step. wp_step. apply wp_sys; [done|]. simpl.
  rewrite (find_node_some _ _ _ (NFile f)) by done. simpl. wp_step. split; [done|].
  assert (∀ q, below (r_cas r) q → cache_file r h ext ≠ q) as Hne by (intros q Hb'; by eapply (proj1 (cache_dir_above r _ _ Hb' Hcas))).
  set (f' := with_cells _ _ f). assert (contents f' = b) as Hb' by by rewrite <- Hb.
  set (w' := tick _). assert (w_fs w' = <[cache_file r h ext := NFile f']> (w_fs w)) as Hfs by done.
  assert (∀ q, q ≠ cache_file r h ext → w_fs w' !! q = w_fs w !! q) as Hag by (intros q Hq'; by rewrite Hfs, lookup_insert_ne).
  assert (∀ q, below (r_cas r) q → w_fs w' !! q = w_fs w !! q) as Hbl by (intros q Hb''; apply Hag; intros ->; by apply (Hne _ Hb'')).
  assert (w_fs w' !! cache_file r h ext = Some (NFile f')) as Hf' by by rewrite Hfs, lookup_insert_eq.
  destruct (cache_put r N w w' h ext b f') as [Hi' Hs']; try done.
  - split; [done|]. by eapply store_clean_agree.
  - eapply store_inv_agree; [done| |done]. rewrite Hfs. apply fs_wf_replace; [done|by eexists|]. intros [m Hm']. congruence.
  - intros h' b' Hh' Hb''. by rewrite (blob_of_agree (w_fs w)).
  - intros q _ Hq' _. by apply Hag.
  - right. apply Hag. intros Hq'. apply app_inj_tail in Hq' as [_ Hq']. symmetry in Hq'. by apply cache_tmp_other in Hq'.
  - by split_and!; [done..|exists f'].
Qed.

(** A miss: the object is written into its place. *)
Lemma wp_cache_fill r N h ext b w :
  cache_inv r N w → is_dir (w_fs w) (cache_dir r) → object (w_fs w) (r_cas r) h b → ext ∈ exts → h +:+ ext ∈ N →
  w_fs w !! cache_file r h ext = None →
  wp (m ← attempt (ReadManifest (r_cas r) h);
      match m with
      | inr _ => GetChunkedTo (r_cas r) h (cache_file r h ext)
      | inl _ => writeBlobTo r h (cache_file r h ext)
      end)
    (λ v w', v = inr tt ∧ cache_post r N w h ext b w') w.
Proof.
  intros Hi Hd Hobj He HN Hf. pose proof (object_names _ _ _ _ Hobj) as Hn. pose proof (names_digest _ _ Hn) as Hh.
  pose proof Hi as [Hlive Hs Hm Hcas Hok Hw Hr]. pose proof (sw_fs _ _ (si_wf _ _ _ Hs)) as Hwf.
  destruct (cache_name_good h ext Hh He) as (Hsl & Hg & Hst). wp_step. wp_step.
  assert (∀ c, ¬ below (r_cas r) (cache_dir r ++ [c])) as Hout by (intros c Hc; exact (proj1 (cache_dir_above r c _ Hc Hcas) eq_refl)).
  assert (∀ x w1, w_fs w1 = w_fs w → w_zero w1 = w_zero w → cache_post r N w1 h ext b x → cache_post r N w h ext b x) as Hback.
  { intros x w1 Hfs Hz (? & ? & ?). unfold cache_post. by rewrite <- Hfs. }
  destruct Hobj as [(-> & Him & Hsti)|(-> & HU & Hp & Hstb)].
  - eapply wp_mono; [eapply grows_ReadManifest; [done|done|apply manifest_dom, Him]|]. intros v w1 Hgr.
    destruct (gr_live _ _ _ _ _ _ Hgr Hlive) as [Hlive1 [mf ->]]. destruct (gr_post _ _ _ _ _ _ Hgr mf eq_refl) as [-> Hfs1].
    pose proof (gr_memo _ _ _ _ _ _ Hgr Hm) as Hm1.
    wp_use (wp_GetChunkedTo U (r_cas r) (cache_dir r) (image_name b +:+ ext) b w1); rewrite ?Hfs1; try done; try apply Him.
    { split; try done; try apply Hout.
      - intros [m0 Hm0]. unfold cache_file in Hf. congruence.
      - destruct (w_fs w !! (cache_dir r ++ [(image_name b +:+ ext) +:+ ".tmp"])) as [n|] eqn:E; [|exact I].
        by destruct (co_files _ _ Hok _ _ E) as [_ [f ->]]. }
    { apply manifest_dom, Him. }
    intros v w2 Hgo. destruct (go_live _ _ _ _ _ _ _ _ Hgo Hlive1) as [Hlive2 ->].
    destruct (go_ok _ _ _ _ _ _ _ _ Hgo eq_refl) as (Htmp & f & Hf2 & Hc & _). split; [done|].
    destruct (cache_put r N w w2 (image_name b) ext b f) as [Hi' Hs']; try done.
    + apply Hgo.
    + by apply Hgo.
    + rewrite <- Hfs1. apply Hgo.
    + intros q Hq1 Hq2 Hq3. rewrite <- Hfs1. by apply Hgo.
    + by left.
    + by split_and!; [done..|exists f].
  - unfold ReadManifest. wp_step. eapply wp_mono; [by apply grows_Get|]. intros v w1 Hgr.
    destruct (gr_live _ _ _ _ _ _ Hgr Hlive) as [Hlive1 [b1 ->]]. destruct (gr_post _ _ _ _ _ _ Hgr b1 eq_refl) as [-> Hfs1].
    pose proof (gr_memo _ _ _ _ _ _ Hgr Hm) as Hm1.
    assert (wp (writeBlobTo r (hashOf b) (cache_file r (hashOf b) ext))
      (λ v w', v = inr tt ∧ cache_post r N w (hashOf b) ext b w') w1) as Hwr.
    { unfold writeBlobTo. wp_step. eapply wp_mono; [apply grows_Get; by rewrite Hfs1|]. intros v w2 Hgr2.
      destruct (gr_live _ _ _ _ _ _ Hgr2 Hlive1) as [Hlive2 [b2 ->]]. destruct (gr_post _ _ _ _ _ _ Hgr2 b2 eq_refl) as [-> Hfs2].
      pose proof (gr_memo _ _ _ _ _ _ Hgr2 Hm1) as Hm2. rewrite Hfs1 in Hfs2.
      wp_use (wp_WriteFile (cache_dir r) (hashOf b +:+ ext)); rewrite ?Hfs2; [done..|by unfold cache_file in Hf; rewrite Hf|].
      intros v w3 (Hz3 & Hv). destruct v as [e|[]]; [by destruct Hv as [[] _]; apply Hlive|]. destruct Hv as (f & Hfc & Hfs3). split; [done|].
      fold (cache_file r (hashOf b) ext) in Hfs3.
      assert (∀ q, q ≠ cache_file r (hashOf b) ext → w_fs w3 !! q = w_fs w !! q) as Hag by (intros q Hq'; by rewrite Hfs3, lookup_insert_ne).
      assert (∀ q, below (r_cas r) q → w_fs w3 !! q = w_fs w !! q) as Hbl.
      { intros q Hb'. apply Hag. intros ->. by apply Hout in Hb'. }
      destruct (cache_put r N w w3 (hashOf b) ext b f) as [Hi' Hs']; try done.
      + split; [apply Hlive|]. eapply store_clean_agree; [|done]. apply Hlive.
      + eapply store_inv_agree; [done| |done]. rewrite Hfs3. apply fs_wf_insert; try done. intros [m0 Hm0]. unfold cache_file in Hf. congruence.
      + unfold memo_ok. by rewrite Hz3.
      + intros h' b' Hh' Hb''. by rewrite (blob_of_agree (w_fs w)).
      + intros q _ Hq' _. by apply Hag.
      + by rewrite Hfs3, lookup_insert_eq.
      + right. apply Hag. intros Hq'. apply app_inj_tail in Hq' as [_ Hq']. symmetry in Hq'. by apply cache_tmp_other in Hq'.
      + split_and!; [done..|]. exists f. by rewrite Hfs3, lookup_insert_eq. }
    unfold plain in Hp. destruct (json_Unmarshal b) as [mf|]; [rewrite decide_False by done|]; wp_step; exact Hwr.
Qed.

(** [cachedImage] of an object returns a file with its bytes. *)
Lemma wp_cachedImage r N h ext b w :
  cache_inv r N w → object (w_fs w) (r_cas r) h b → ext ∈ exts → h +:+ ext ∈ N →
  wp (cachedImage r h ext) (λ v w', v = inr (cache_file r h ext) ∧ cache_post r N w h ext b w') w.
Proof.
  intros Hi Hobj He HN. pose proof (object_names _ _ _ _ Hobj) as Hn. pose proof (names_digest _ _ Hn) as Hh.
  destruct (cache_name_good h ext Hh He) as (Hsl & Hg & _).
  unfold cachedImage. wp_step. wp_use wp_cache_mkdir; [done|]. intros v w1 (-> & Hi1 & Hs1 & Hd1 & _).
  pose proof Hi1 as [[Hq _] Hst _ _ Hok _ _]. pose proof (sw_fs _ _ (si_wf _ _ _ Hst)) as Hwf.
  rewrite cacheDir_eq, join_good by done. fold (cache_file r h ext).
  pose proof (object_keep _ _ _ _ _ Hs1 Hobj) as Hobj1. wp_step. wp_step. apply wp_Stat; [done|].
  assert (∀ w2, cache_post r N w1 h ext b w2 → cache_post r N w h ext b w2) as Hback.
  { intros w2 (? & ? & ?). split_and!; [done|by etrans|done]. }
  assert (∀ (m : M world path) w1', w_fs w1' = w_fs w1 → w_zero w1' = w_zero w1 →
    wp m (λ v w', v = inr (cache_file r h ext) ∧ cache_post r N w1' h ext b w') w1' →
    wp m (λ v w', v = inr (cache_file r h ext) ∧ cache_post r N w h ext b w') w1') as Hstep.
  { intros m w1' Hfs Hz Hm. eapply wp_mono; [exact Hm|]. intros v w2 [-> (Ha & Hb & Hc)]. split; [done|]. apply Hback.
    split_and!; [done|by rewrite <- Hfs|done]. }
  destruct (w_fs w1 !! cache_file r h ext) as [n|] eqn:E.
  - destruct (co_files _ _ Hok _ _ E) as [_ [f ->]]. rewrite (find_node_some _ _ _ (NFile f)) by done. simpl.
    apply Hstep; [done|done|]. eapply wp_cache_hit; try done. by eapply cache_inv_same.
  - unfold cache_file in E |- * at 1. rewrite find_node_none by done. simpl. apply Hstep; [done|done|].
    fold (cache_file r h ext) in E |- *.
    assert (∀ A B C D (x : M world A) (y : A → M world B) (u : B → M world C) (z : C → M world D) s Q,
      wp ((x ≫= y) ≫= λ b, u b ≫= z) Q s → wp (x ≫= λ a, y a ≫= λ b, u b ≫= z) Q s) as Hassoc.
    { intros A B C D x y u z s0 Q HQ. apply wp_bind. apply wp_bind_inv, wp_bind_inv in HQ. eapply wp_mono; [exact HQ|].
      intros [e|a] s'; [done|]. intros Hy. by apply wp_bind. }
    apply (Hassoc _ _ _ _ _ (λ m, match m with inr _ => GetChunkedTo (r_cas r) h (cache_file r h ext) | inl _ => writeBlobTo r h (cache_file r h ext) end)
      (λ _, evictCache r (cache_file r h ext)) (λ _, mret (cache_file r h ext))).
    wp_step. wp_use (wp_cache_fill r N); try done; [by eapply cache_inv_same|].
    intros v w2 [-> (Hi2 & Hs2 & Hc2)]. wp_step.
    wp_use wp_evictCache; [exact Hi2|by destruct (co_dir _ _ (ci_ok _ _ _ Hi2)) as [Hno|]; [destruct Hc2 as (f & Hf & _); destruct (proj2 (sw_fs _ _ (si_wf _ _ _ (ci_store _ _ _ Hi2))) (cache_dir r) (h +:+ ext)) as [[m0 Hm0] _]; [by eexists|congruence]|]|].
    intros v w3 (-> & Hfs3 & Hz3). wp_step. split; [done|]. split_and!; [by eapply cache_inv_same|by rewrite Hfs3|by unfold cached_as; rewrite Hfs3].
Qed.

End cache.
