(* ===== verification/CacheFaults.v ===== *)
(** * Where the image cache falls short

    [bringUp] fetches the images of a checkpoint one after the other; these are
    two runs in which the cache does not give it what it fetched. *)

From S2P Require Import Prelude Sha256 Os OsFacts Parallel Cas Chunked Codec Codecs ChunkedProps Repo Engine CacheProps.
Import Cas Chunked Repo Engine.
Open Scope Z_scope.

Definition pair_repo : Repo := mkRepo ["repo"] ["repo"; "blobs"].
Definition pair_blob (b : bytes) : list (path * node) :=
  [(["repo"; "blobs"; shard (hashOf b)], NDir o755);
   (slot ["repo"; "blobs"] (hashOf b), NFile (File o644 (Some <$> b) 0 0))].

Definition pair_fs : fs := Eval vm_compute in list_to_map (
  [([], NDir o755); (["repo"], NDir o755); (["repo"; "blobs"], NDir o755)] ++ pair_blob (to_bytes "m") ++ pair_blob (to_bytes "s")).

(** The two images of one checkpoint, fetched as [bringUp] fetches them: the
    state of the machine is cached last, and the memory may be gone by then. *)
#[local] Existing Instance in_order.

Definition fetch_pair `{OsEnv} : M world bool :=
  p ← cachedImage pair_repo (hashOf (to_bytes "m")) ".mem";
  _ ← cachedImage pair_repo (hashOf (to_bytes "s")) ".state";
  st ← attempt (os_Stat p);
  mret (match st with inr _ => true | inl _ => false end).

(** Images that do not fit together push each other out of the cache: each is
    evicted for the next although the machine has not been resumed yet. *)
Lemma cache_evicts_needed :
  (@fetch_pair big_files (World pair_fs 0 ∅)).1 = Ok false ∧ (@fetch_pair calm (World pair_fs 0 ∅)).1 = Ok true.
Proof. split; vm_compute; reflexivity. Qed.

(** A host whose disk is full at the [k]-th call, when nothing of the bytes
    arrives. *)
Definition full_at (k : nat) : OsEnv :=
  {| fault := λ n, if decide (n = k) then Some ENOSPC else None; partial := λ _, 0%nat; entropy := N.of_nat; clock := λ _, 0; umask := 0x12;
     tempdir := ["tmp"]; getenv := λ _, ""; device := 1; st_blocks := λ _ _, 0; link_mtime := λ _, 0 |}.

(** Fetching the state twice, and reading what the second time gives. *)
Definition fetch_again `{OsEnv} : M world (bool * bytes) :=
  r ← attempt (cachedImage pair_repo (hashOf (to_bytes "s")) ".state");
  p ← cachedImage pair_repo (hashOf (to_bytes "s")) ".state";
  b ← os_ReadFile p;
  mret (match r with inr _ => true | inl _ => false end, b).

(** A state file that could not be written whole stays in the cache under its
    final name, and the next call takes it for the object. *)
Lemma cache_keeps_partial : ∃ k, (@fetch_again (full_at k) (World pair_fs 0 ∅)).1 = Ok (false, []).
Proof. exists 9%nat. vm_compute. reflexivity. Qed.
