(* ===== verification/MachineFacts.v ===== *)
(** * Capturing a machine and bringing it up again

    [MachineSpec] is what the engine relies on of a backend with machines whose
    images have no layered base disk, as backend.go documents it.  Against it,
    [captureMachine] puts the machine in the store and [bringUp] makes it run
    again, under any identifier.

    A machine with a layered base disk (firecracker's overlay mode) does not meet
    [MachineSpec]: its images name a [BaseDisk], which [captureMachine] stores and
    [bringUp] hands back, but [Fork] drops the name of it from the checkpoint it
    writes (engine.go, line 236). *)

From S2P Require Import Prelude Sha256 Os OsFacts WalkFacts Parallel Cas Blobs Chunked ChunkedFacts Json Codec Codecs ChunkedProps Tree Model Repo RepoFacts Backend Engine CacheProps CacheFacts.
Import Cas Chunked Tree Model Repo Backend Engine.
Open Scope Z_scope.

(** ** What a backend promises *)

(** A machine that runs: its memory, the state of its devices, its disk if it
    has one, the image its memory is known to derive from, and its memory when
    it was last snapshotted. *)
Record vm := mkVm {
  v_mem : bytes;
  v_state : bytes;
  v_disk : option bytes;
  v_base : option (string * bytes);
  v_last : option bytes
}.

Definition at_last (v : vm) : vm := mkVm (v_mem v) (v_state v) (v_disk v) (v_base v) (Some (v_mem v)).
(** The same machine, whatever is known of its images. *)
Definition same_vm (v v' : vm) : Prop := v_mem v' = v_mem v ∧ v_state v' = v_state v ∧ v_disk v' = v_disk v.

(** The file at [p] holds [b]. *)
Definition holds (σ : fs) (p : path) (b : bytes) : Prop := ∃ f, σ !! p = Some (NFile f) ∧ contents f = b.

(** The files of a snapshot hold the machine: all of its memory, or the pages
    written since the base over that base.  There is no layered base disk. *)
Record shows (σ : fs) (dir : path) (base : string) (v : vm) (img : Image) : Prop := {
  sh_under : below dir (i_Memory img) ∧ below dir (i_State img) ∧ ∀ d, i_Disk img = Some d → below dir d;
  sh_mem : if i_MemoryIsDiff img
    then ∃ f n old, σ !! i_Memory img = Some (NFile f) ∧ v_base v = Some (n, old) ∧
           (if decide (i_Base img = "") then base else i_Base img) = n ∧
           length old = length (f_cells f) ∧ overlay old (f_cells f) = v_mem v
    else holds σ (i_Memory img) (v_mem v);
  sh_state : holds σ (i_State img) (v_state v);
  sh_disk : match i_Disk img, v_disk v with Some d, Some b => holds σ d b | None, None => True | _, _ => False end;
  sh_base : i_BaseDisk img = None
}.

Section spec.
Context `{OsEnv}.

(** Calls of a backend change files of its own [area], and a snapshot files
    below the directory it is given. *)
Definition stays (area : path → Prop) (w w' : world) : Prop :=
  fs_wf (w_fs w') ∧ w_zero w' = w_zero w ∧ ∀ q, ¬ area q → w_fs w' !! q = w_fs w !! q.

(** A call for the machine [id] leaves the other machines, and the places for
    machines, as they were. *)
Definition spares {S} (vm_at : S → string → option vm) (can_hold : S → string → Prop) (id : string) (x y : S) : Prop :=
  (∀ i, i ≠ id → vm_at y i = vm_at x i) ∧ ∀ i, can_hold x i → can_hold y i.

#[global] Instance spares_trans {S} (at_ : S → string → option vm) can id : Transitive (spares at_ can id).
Proof. intros x y z [H1 H2] [H3 H4]. split; [|auto]. intros i Hi. by rewrite H3, H1. Qed.

Class MachineSpec {B : Type} (mb : MemoryBackend B) := {
  area : path → Prop;
  vm_at : world * B → string → option vm;
  (** a machine an image can be resumed from, and where one can be *)
  resumable : vm → Prop;
  can_hold : world * B → string → Prop;
  (** a machine depends on the files of the area only *)
  vm_local w w' b id : (∀ q, area q → w_fs w' !! q = w_fs w !! q) → vm_at (w', b) id = vm_at (w, b) id;
  can_local w w' b id : (∀ q, area q → w_fs w' !! q = w_fs w !! q) → can_hold (w, b) id → can_hold (w', b) id;
  vm_resumable w b id v : fs_wf (w_fs w) → vm_at (w, b) id = Some v → resumable v ∧ can_hold (w, b) id;
  vm_Running w b id v : vm_at (w, b) id = Some v →
    ∃ w', Running id (w, b) = (Ok true, (w', b)) ∧ w_fs w' = w_fs w ∧ w_zero w' = w_zero w;
  vm_Snapshot id dir base v w b :
    quiet → vm_at (w, b) id = Some v → fs_wf (w_fs w) → is_dir (w_fs w) dir → (∀ c, w_fs w !! (dir ++ [c]) = None) →
    (∀ q, below dir q → ¬ area q) →
    wp (Snapshot id dir base) (λ x wb, ∃ img, x = inr img ∧ stays (λ q, area q ∨ (below dir q ∧ q ≠ dir)) w wb.1 ∧
      shows (w_fs wb.1) dir base v img ∧ vm_at wb id = Some (at_last v) ∧
      spares vm_at can_hold id (w, b) wb) (w, b);
  vm_Rebase id n v w b :
    quiet → vm_at (w, b) id = Some v → fs_wf (w_fs w) →
    wp (Rebase id n) (λ x wb, x = inr tt ∧ stays area w wb.1 ∧
      spares vm_at can_hold id (w, b) wb ∧
      ∃ v', vm_at wb id = Some v' ∧ same_vm v v' ∧ v_base v' = (λ m, (n, m)) <$> v_last v) (w, b);
  vm_Resume id dir v img w b :
    quiet → resumable v → can_hold (w, b) id → fs_wf (w_fs w) → i_MemoryIsDiff img = false →
    holds (w_fs w) (i_Memory img) (v_mem v) → holds (w_fs w) (i_State img) (v_state v) →
    match i_Disk img, v_disk v with Some d, Some c => holds (w_fs w) d c | None, None => True | _, _ => False end →
    i_BaseDisk img = None →
    wp (Resume id dir img) (λ x wb, x = inr tt ∧ stays area w wb.1 ∧ spares vm_at can_hold id (w, b) wb ∧
      ∃ v', vm_at wb id = Some v' ∧ same_vm v v' ∧ v_base v' = Some (i_Base img, v_mem v)) (w, b);
  vm_Shutdown id w b :
    quiet → fs_wf (w_fs w) →
    wp (Shutdown id) (λ x wb, x = inr tt ∧ stays area w wb.1 ∧ spares vm_at can_hold id (w, b) wb) (w, b)
}.

End spec.

Section machine.
Context `{OsEnv, Sched} (U : bytes → Prop) {NC : NoCollision U} {B : Type} `{Backend B} (mb : MemoryBackend B)
  `{!MachineSpec mb}.
Context (r : Repo) (is_memory : as_memory (B:=B) = Some mb).
Implicit Types (w : world) (s : Sandbox) (v : vm).

(** What is known of the machine's memory is true of the store. *)
Definition based σ v : Prop :=
  ∀ n old, v_base v = Some (n, old) → n = image_name old ∧ stored_image σ (r_cas r) old.

(** The byte strings of the machine are among those that do not collide. *)
Record vm_in v : Prop := {
  vi_mem : image_of U (v_mem v);
  vi_state : U (v_state v) ∧ plain (v_state v);
  vi_disk : ∀ d, v_disk v = Some d → image_of U d
}.

(** The machine is in the store, under the hashes of the checkpoint. *)
Record in_checkpoint σ v (c : Checkpoint) : Prop := {
  ic_mem : c_MemHash c = image_name (v_mem v) ∧ image_of U (v_mem v) ∧ stored_image σ (r_cas r) (v_mem v);
  ic_state : c_StateHash c = hashOf (v_state v) ∧ object U σ (r_cas r) (c_StateHash c) (v_state v);
  ic_disk : match v_disk v with
            | Some d => c_DiskHash c = image_name d ∧ object U σ (r_cas r) (c_DiskHash c) d
            | None => c_DiskHash c = ""
            end;
  ic_base : c_BaseHash c = ""
}.

(** ** Storing the image *)

Lemma object_of_image σ img : image_of U img → stored_image σ (r_cas r) img → object U σ (r_cas r) (image_name img) img.
Proof. intros Hi Hst. left. by split_and!. Qed.

Lemma grows_store_memory dir base v img w :
  quiet → store_inv U (r_cas r) (w_fs w) → memo_ok w → shows (w_fs w) dir base v img →
  (∀ q, below dir q → ¬ below (r_cas r) q) → vm_in v → based (w_fs w) v →
  wp (if i_MemoryIsDiff img
      then PutChunkedOverlay (r_cas r) (i_Memory img) (if decide (i_Base img = "") then base else i_Base img)
      else PutChunked (r_cas r) (i_Memory img))
    (grows U (r_cas r) w (λ hn w', hn.1 = image_name (v_mem v) ∧ stored_image (w_fs w') (r_cas r) (v_mem v))) w.
Proof.
  intros Hq Hi Hm [Hu Hmem _ _ _] Hout [Him _ _] Hb. pose proof (Hout _ (proj1 Hu)) as Hb'.
  destruct (i_MemoryIsDiff img).
  - destruct Hmem as (f & n & old & Hf & Hbase & -> & Hlen & Hov). destruct (Hb n old Hbase) as [-> Hst].
    pose proof Him as [Hin _ Hsz]. rewrite <- Hov in Hin |- *. eapply (grows_PutChunkedOverlay U); try done.
    rewrite <- Hov, overlay_length in Hsz by done. done.
  - destruct Hmem as (f & Hf & Hc). pose proof Him as [Hin _ _]. rewrite <- Hc in Hin |- *.
    eapply wp_mono; [apply (grows_PutChunked U); try done; by apply quiet_honest|].
    intros x w' Hg. eapply grows_weaken; [exact Hg|]. intros hn _ (? & ? & _). done.
Qed.

Lemma holds_step dir σ σ' p b : store_frame (r_cas r) σ σ' → (∀ q, below dir q → ¬ below (r_cas r) q) → below dir p →
  holds σ p b → holds σ' p b.
Proof. intros Hf Hout Hp (f & Hfl & Hc). exists f. split; [|done]. rewrite Hf; [done|by apply Hout]. Qed.

Lemma grows_store_image c dir base v img w :
  quiet → store_inv U (r_cas r) (w_fs w) → memo_ok w → shows (w_fs w) dir base v img →
  (∀ q, below dir q → ¬ below (r_cas r) q) → vm_in v → based (w_fs w) v → c_DiskHash c = "" → c_BaseHash c = "" →
  wp (store_image r c base img) (grows U (r_cas r) w (λ c' w', in_checkpoint (w_fs w') v c' ∧
    ∃ m st d, c' = set_image c m st d "")) w.
Proof.
  intros Hq Hi Hm Hsh Hout Hin Hb Hd0 Hb0. unfold store_image. eapply grows_bind; [by eapply grows_store_memory|].
  intros [h n] w1 Hg1. destruct (gr_post _ _ _ _ _ _ Hg1 _ eq_refl) as [Hh Hst1]. simpl in Hh. subst h.
  pose proof (gr_step _ _ _ _ _ _ Hg1) as Hs1. destruct Hsh as [(Hu1 & Hu2 & Hu3) _ Hstate Hdisk Hbase].
  destruct Hin as [Him [HUs Hpl] Hid].
  apply (holds_step dir _ (w_fs w1)) in Hstate as (fs & Hfs & Hcs); [|apply Hs1|done|done].
  eapply grows_bind; [apply (grows_PutFile U (r_cas r) _ fs); [apply Hs1|by rewrite Hcs|done]|].
  intros hn w2 Hg2. destruct (gr_post _ _ _ _ _ _ Hg2 _ eq_refl) as [-> Hst2]. rewrite Hcs in Hst2 |- *.
  pose proof (gr_step _ _ _ _ _ _ Hg2) as Hs2.
  eapply (grows_bind U _ _ _ (λ d w', match v_disk v with Some b => d = image_name b ∧ stored_image (w_fs w') (r_cas r) b | None => d = "" end)).
  { destruct (i_Disk img) as [dp|], (v_disk v) as [db|]; try done.
    - apply (holds_step dir _ (w_fs w2)) in Hdisk as (fd & Hfd & <-); [| |done|by apply Hu3].
      2:{ intros q Hq'. rewrite (st_frame _ _ _ _ Hs2), (st_frame _ _ _ _ Hs1) by done. done. }
      destruct (Hid _ eq_refl) as [Hdin _ _].
      eapply grows_bind; [apply (grows_PutChunked U); try done; [by apply quiet_honest|apply Hs2|by apply Hg2, Hg1|by apply Hout, Hu3]|].
      intros hn w3 Hg3. destruct (gr_post _ _ _ _ _ _ Hg3 _ eq_refl) as (-> & Hst3 & _). wp_step. apply grows_ret; [apply Hg3|by split].
    - wp_step. apply grows_ret; [apply Hs2|done]. }
  intros d w3 Hg3. pose proof (gr_post _ _ _ _ _ _ Hg3 _ eq_refl) as Hd. pose proof (gr_step _ _ _ _ _ _ Hg3) as Hs3.
  rewrite Hbase. eapply (grows_bind U _ _ _ (λ b w', b = "" ∧ w' = w3)); [wp_step; by apply grows_ret; [apply Hs3|]|].
  intros b w4 Hg4. destruct (gr_post _ _ _ _ _ _ Hg4 _ eq_refl) as [-> ->]. wp_step. apply grows_ret; [apply Hs3|].
  split; [|by eexists _, _, _]. split; simpl.
  - split_and!; [done..|]. eapply stored_image_step; [exact Hs3|]. by eapply stored_image_step.
  - split; [done|]. right. split_and!; [done..|]. by eapply stored_step.
  - destruct (v_disk v) as [db|]; [|done]. destruct Hd as [-> Hd]. split; [done|]. apply object_of_image; [by apply Hid|done].
  - done.
Qed.

(** ** Capturing *)

(** The backend's files, the temporary directory and the repository are apart. *)
Record apart : Prop := {
  ap_repo : ∀ q, area q → ¬ below (r_root r) q;
  ap_temp : ¬ area tempdir;
  ap_snap : ∀ t q, below (tempdir ++ [temp_name "vit-snap-" t]) q → ¬ area q;
  ap_out : ¬ below (r_root r) tempdir
}.

(** Of the repository only the store may have changed, and it kept its blobs. *)
Record repo_kept σ σ' : Prop := {
  rk_store : store_inv U (r_cas r) σ';
  rk_keep : ∀ h b, is_digest h = true → blob_of σ (r_cas r) h = Some b → blob_of σ' (r_cas r) h = Some b;
  rk_frame : ∀ q, below (r_root r) q → ¬ below (r_cas r) q → σ' !! q = σ !! q
}.

Lemma repo_kept_trans σ1 σ2 σ3 : repo_kept σ1 σ2 → repo_kept σ2 σ3 → repo_kept σ1 σ3.
Proof. intros [_ Hk1 Hf1] [Hs2 Hk2 Hf2]. split; [done|auto|]. intros q H1' H2'. by rewrite Hf2, Hf1. Qed.

Lemma store_step_kept σ σ' : store_step U (r_cas r) σ σ' → repo_kept σ σ'.
Proof. intros Hs. split; [apply Hs|apply Hs|]. intros q _ Hq. by apply Hs. Qed.

Lemma root_below_cas q : r_cas r = r_root r ++ ["blobs"] → below (r_cas r) q → below (r_root r) q.
Proof. intros ->. unfold below. intros [k ->]. rewrite <- app_assoc. by eexists. Qed.

Lemma agree_kept σ σ' :
  r_cas r = r_root r ++ ["blobs"] → store_inv U (r_cas r) σ → fs_wf σ' →
  (∀ q, below (r_root r) q → σ' !! q = σ !! q) → repo_kept σ σ'.
Proof.
  intros Hc Hs Hwf Ha. assert (∀ q, below (r_cas r) q → σ' !! q = σ !! q) as Hb by (intros q Hq; by apply Ha, root_below_cas).
  split; [by eapply store_inv_agree| |auto]. intros h b Hh Hbl. by rewrite (blob_of_agree σ).
Qed.

Lemma cache_inv_frame N w w' :
  cache_inv U r N w → store_inv U (r_cas r) (w_fs w') → live (r_cas r) w' → memo_ok w' → is_dir (w_fs w') (r_root r) →
  (∀ q, below (cache_dir r) q → w_fs w' !! q = w_fs w !! q) → cache_inv U r N w'.
Proof.
  intros [_ _ _ Hcas [_ Hdir Hfiles Hnames] Hw Hr] Hs Hl Hm Hroot Ha.
  assert (below (cache_dir r) (cache_dir r)) as Hself by (by exists []; rewrite app_nil_r).
  assert (∀ c, w_fs w' !! (cache_dir r ++ [c]) = w_fs w !! (cache_dir r ++ [c])) as Hch by (intros c; apply Ha; by eexists).
  split; try done.
  - split; [done|..].
    + rewrite Ha by done. destruct Hdir as [?|[m Hm']]; [by left|right]. exists m. by rewrite Ha.
    + intros c n. rewrite Hch. apply Hfiles.
    + intros h ext f Hh He. unfold cache_file. rewrite Hch. by apply Hnames.
  - intros c. rewrite Hch. apply Hw.
Qed.

Lemma below_cache q : below (cache_dir r) q → below (r_root r) q.
Proof. intros [k ->]. unfold below, cache_dir. rewrite <- app_assoc. by eexists. Qed.

Lemma cache_inv_kept N w w' :
  cache_inv U r N w → repo_kept (w_fs w) (w_fs w') → live (r_cas r) w' → memo_ok w' → cache_inv U r N w'.
Proof.
  intros Hi [Hs Hk Hf] Hl Hm. pose proof Hi as [_ _ _ Hcas [[m Hroot] _ _ _] _ _]. eapply cache_inv_frame; try done.
  - exists m. rewrite Hf; [done|by exists []; rewrite app_nil_r|]. rewrite Hcas. apply snoc_not_prefix.
  - intros q Hq. apply Hf; [by apply below_cache|]. intros Hc. by apply (cache_apart r q).
Qed.

Lemma repo_wf_kept σ σ' : repo_wf r σ → repo_kept σ σ' → repo_wf r σ'.
Proof.
  intros [Hfs Hcas Hdirs Hdocs] [Hs Hk Hf].
  assert (∀ d c, d ∈ doc_dirs → σ' !! ((r_root r ++ [d]) ++ [c]) = σ !! ((r_root r ++ [d]) ++ [c])) as Hdoc.
  { intros d c Hd. apply Hf; [|rewrite Hcas; by apply repo_blobs_disjoint]. rewrite <- app_assoc. by eexists. }
  split; [apply Hs|done|..].
  - intros d Hd. destruct (decide (d = "blobs")) as [->|Hne]; [rewrite <- Hcas; apply Hs|].
    destruct (Hdirs d Hd) as [m Hm]. exists m. rewrite Hf; [done|by eexists|]. rewrite Hcas.
    intros [k Hk']. rewrite <- app_assoc in Hk'. apply app_inv_head in Hk'. by simplify_eq/=.
  - intros d c n Hd. rewrite Hdoc by done. by apply Hdocs.
Qed.

(** What is in the store under a digest stays there. *)
Definition keeps_blobs σ σ' : Prop :=
  ∀ h x, is_digest h = true → blob_of σ (r_cas r) h = Some x → blob_of σ' (r_cas r) h = Some x.

Lemma stored_image_kept σ σ' img : keeps_blobs σ σ' → stored_image σ (r_cas r) img → stored_image σ' (r_cas r) img.
Proof.
  intros Hk [Hm Hc]. split; [by apply Hk; [apply hashOf_digest|]|].
  intros i Hi. apply Hk; [apply hashOf_digest|by apply Hc].
Qed.

Lemma object_kept σ σ' h b : keeps_blobs σ σ' → object U σ (r_cas r) h b → object U σ' (r_cas r) h b.
Proof.
  intros Hk [(He & Hi & Hst)|(He & HU & Hp & Hst)]; [left|right]; split_and!; try assumption.
  - by eapply stored_image_kept.
  - by apply Hk; [apply hashOf_digest|].
Qed.

Lemma in_checkpoint_kept σ σ' v c : keeps_blobs σ σ' → in_checkpoint σ v c → in_checkpoint σ' v c.
Proof.
  intros Hk [(Hm1 & Hm2 & Hm3) [Hs1 Hs2] Hd Hb]. split; [split_and!; [done..|by eapply stored_image_kept]|split; [done|by eapply object_kept]| |done].
  destruct (v_disk v); [|done]. destruct Hd. split; [done|by eapply object_kept].
Qed.

Lemma based_kept σ σ' v : keeps_blobs σ σ' → based σ v → based σ' v.
Proof. intros Hk Hb n old Hno. destruct (Hb n old Hno). split; [done|by eapply stored_image_kept]. Qed.

(** The temporary directory is not in the way of the repository. *)
Lemma temp_apart σ t q :
  fs_wf σ → is_dir σ (r_root r) → apart → σ !! (tempdir ++ [temp_name "vit-snap-" t]) = None →
  below (r_root r) q → ¬ below (tempdir ++ [temp_name "vit-snap-" t]) q.
Proof.
  intros Hwf Hroot Hap Hn [k ->] Hb. set (dir := tempdir ++ [_]) in *. unfold below in Hb.
  destruct (prefix_weak_total dir (r_root r) (r_root r ++ k)) as [Hp|Hp]; [done|by eexists|..].
  - destruct Hp as [k' Hk']. destruct (decide (k' = [])) as [->|Hne].
    + rewrite app_nil_r in Hk'. destruct Hroot as [m Hm]. congruence.
    + destruct (fs_wf_up σ dir k' Hwf Hne) as [m Hm]; [|congruence]. destruct Hroot as [m Hm]. exists (NDir m). by rewrite <- Hk'.
  - unfold dir in Hp. apply prefix_snoc in Hp as [Hp|Hp]; [|by apply (ap_out Hap)].
    destruct Hroot as [m Hm]. unfold dir in Hn. congruence.
Qed.

(** What capturing needs of the host and of the repository. *)
Record capture_pre N s w : Prop := {
  cp_cache : cache_inv U r N w;
  cp_repo : repo_wf r (w_fs w);
  cp_head : good_id (s_Head s);
  cp_apart : apart;
  cp_temp : is_dir (w_fs w) tempdir;
  cp_free : ∀ t, w_fs w !! (tempdir ++ [temp_name "vit-snap-" t]) = None
}.

(** What it leaves: the machine in the checkpoint, the machine as it was and
    known to derive from the stored image. *)
Record captured N v (c : Checkpoint) (id : string) (X : path → Prop) w (b : B) (x : gerr + Checkpoint) (wb : world * B) (c' : Checkpoint) : Prop := {
  cd_value : x = inr c';
  cd_in : in_checkpoint (w_fs wb.1) v c';
  cd_rest : ∃ m st d, c' = set_image c m st d "";
  cd_repo : repo_kept (w_fs w) (w_fs wb.1);
  cd_cache : cache_inv U r N wb.1;
  cd_outside : ∀ q, ¬ area q → ¬ below (r_root r) q → ¬ X q → w_fs wb.1 !! q = w_fs w !! q;
  cd_others : spares vm_at can_hold id (w, b) wb;
  cd_vm : ∃ v', vm_at wb id = Some v' ∧ same_vm v v' ∧ v_base v' = Some (c_MemHash c', v_mem v)
}.

Lemma temp_snap_name t : good_name (temp_name "vit-snap-" t).
Proof. unfold temp_name. by split_and!. Qed.

Lemma wp_head_base s w (Q : gerr + string → world → Prop) :
  repo_wf r (w_fs w) → good_id (s_Head s) →
  (∀ n w', w_fs w' = w_fs w → w_zero w' = w_zero w → Q (inr n) w') → wp (head_base r s) Q w.
Proof.
  intros Hwf Hid HQ. unfold head_base. case_decide; [wp_step; by apply HQ|]. wp_step. wp_step.
  wp_use wp_GetCheckpoint; [done|done|]. intros x w' (Hfs & Hz & _). destruct x; wp_step; by apply HQ.
Qed.

Lemma stays_kept P w w' :
  r_cas r = r_root r ++ ["blobs"] → store_inv U (r_cas r) (w_fs w) → (∀ q, P q → ¬ below (r_root r) q) → stays P w w' →
  repo_kept (w_fs w) (w_fs w').
Proof. intros Hc Hs HP (Hwf & _ & Hf). apply agree_kept; try done. intros q Hq. apply Hf. intros Hq'. by apply (HP q). Qed.

Lemma live_kept w w' :
  live (r_cas r) w → (∀ q, below (r_cas r) q → w_fs w' !! q = w_fs w !! q) → live (r_cas r) w'.
Proof. intros [Hq Hc] Ha. split; [done|]. by eapply store_clean_agree. Qed.

Lemma spares_local id w w' b : (∀ q, area q → w_fs w' !! q = w_fs w !! q) → spares vm_at can_hold id (w, b) (w', b).
Proof. intros Ha. split; [intros i _; by apply vm_local|intros i; by apply can_local]. Qed.

Lemma no_node_below σ p q : fs_wf σ → σ !! p = None → below p q → σ !! q = None.
Proof.
  intros Hwf Hp [k ->]. apply eq_None_not_Some. intros Hq. destruct (decide (k = [])) as [->|Hne].
  - rewrite app_nil_r in Hq. rewrite Hp in Hq. by destruct Hq.
  - destruct (fs_wf_up σ p k Hwf Hne Hq) as [m Hm]. congruence.
Qed.

(** A new directory for the files of a snapshot. *)
Record in_temp w w1 (dir : path) : Prop := {
  it_repo q : below (r_root r) q → ¬ below dir q;
  it_area q : below dir q → ¬ area q;
  it_temp : is_dir (w_fs w1) tempdir ∧ ¬ below dir tempdir;
  it_wf : fs_wf (w_fs w1);
  it_dir : is_dir (w_fs w1) dir;
  it_empty c : w_fs w1 !! (dir ++ [c]) = None;
  it_zero : w_zero w1 = w_zero w;
  it_rest q : ¬ below dir q → w_fs w1 !! q = w_fs w !! q
}.

Lemma capture_temp N s w w1 dir t :
  capture_pre N s w → dir = tempdir ++ [temp_name "vit-snap-" t] → w_fs w1 = <[dir := NDir (perm o700)]> (w_fs w) →
  w_zero w1 = w_zero w → in_temp w w1 dir.
Proof.
  intros [Hci Hrw Hid Hap [mt Hmt] Hfree] Hdir Hfs1 Hz1. pose proof (Hfree t) as Hn. rewrite <- Hdir in Hn.
  pose proof Hci as [_ Hst _ Hcas Hok _ _]. pose proof (sw_fs _ _ (si_wf _ _ _ Hst)) as Hwf.
  assert (¬ below dir tempdir) as Hbt by (rewrite Hdir; apply snoc_not_prefix).
  assert (∀ q, ¬ below dir q → w_fs w1 !! q = w_fs w !! q) as Hrest.
  { intros q Hq. rewrite Hfs1, lookup_insert_ne; [done|]. intros <-. apply Hq. by exists []; rewrite app_nil_r. }
  split; try done.
  - intros q Hq. rewrite Hdir. apply (temp_apart (w_fs w)); [done|apply Hok|done|by rewrite <- Hdir|done].
  - intros q Hq. rewrite Hdir in Hq. by eapply (ap_snap Hap).
  - split; [|done]. exists mt. by rewrite Hrest.
  - rewrite Hfs1, Hdir. apply fs_wf_insert; [done|by exists mt|apply temp_snap_name|done].
  - rewrite Hfs1. eexists. apply lookup_insert_eq.
  - intros x. rewrite Hfs1, lookup_insert_ne by (intros He%(f_equal length); rewrite length_app in He; simpl in He; lia).
    apply (no_node_below (w_fs w) dir); [done|done|by eexists].
Qed.

(** The state after the backend wrote the snapshot there. *)
Record snap_taken s v w b (dir : path) (base : string) (img : Image) (wb : world * B) : Prop := {
  sk_shows : shows (w_fs wb.1) dir base v img;
  sk_vm : vm_at wb (s_ID s) = Some (at_last v);
  sk_spares : spares vm_at can_hold (s_ID s) (w, b) wb;
  sk_wf : fs_wf (w_fs wb.1);
  sk_zero : w_zero wb.1 = w_zero w;
  sk_rest q : ¬ area q → ¬ below dir q → w_fs wb.1 !! q = w_fs w !! q
}.

Lemma wp_snapshot_in s v w w1 b dir base :
  quiet → in_temp w w1 dir → vm_at (w, b) (s_ID s) = Some v →
  wp (Snapshot (s_ID s) dir base) (λ x wb, ∃ img, x = inr img ∧ snap_taken s v w b dir base img wb) (w1, b).
Proof.
  intros Hq [Hrd Hda _ Hwf1 Hd1 He1 Hz1 Hr1] Hvm.
  assert (∀ q, area q → w_fs w1 !! q = w_fs w !! q) as Ha by (intros q Hx; apply Hr1; intros Hb; by apply (Hda q)).
  eapply wp_mono; [apply (vm_Snapshot (s_ID s) dir base v w1 b); try done; rewrite <- Hvm; by apply vm_local|].
  intros x [w3 b3] (img & -> & (Hwf3 & Hz3 & Hf3) & Hsh & Hvm3 & Hsp3). exists img. split; [done|]. cbn [fst] in *. split; cbn [fst]; try done.
  - etrans; [|exact Hsp3]. by apply spares_local.
  - congruence.
  - intros q Hq1 Hq2. rewrite Hf3 by (by intros [?|[? _]]). by apply Hr1.
Qed.

Lemma taken_store N s v w w1 b dir base img w3 b3 :
  capture_pre N s w → in_temp w w1 dir → snap_taken s v w b dir base img (w3, b3) →
  repo_kept (w_fs w) (w_fs w3) ∧ live (r_cas r) w3 ∧ memo_ok w3.
Proof.
  intros [[Hlive Hst Hmemo Hcas _ _ _] _ _ Hap _ _] Hit [_ _ _ Hwf Hz Hrest]. cbn [fst] in *.
  assert (∀ q, below (r_root r) q → w_fs w3 !! q = w_fs w !! q) as Ha.
  { intros q Hq. apply Hrest; [intros Hx; by apply (ap_repo Hap) in Hx|by apply (it_repo _ _ _ Hit)]. }
  split_and!.
  - by apply agree_kept.
  - eapply live_kept; [exact Hlive|]. intros q Hq. apply Ha. by apply root_below_cas.
  - unfold memo_ok. by rewrite Hz.
Qed.

(** What [captureMachine] does in its temporary directory. *)
Lemma wp_capture_in N s c v w w1 b dir t :
  capture_pre N s w → vm_at (w, b) (s_ID s) = Some v → vm_in v → based (w_fs w) v → c_DiskHash c = "" → c_BaseHash c = "" →
  dir = tempdir ++ [temp_name "vit-snap-" t] → w_fs w1 = <[dir := NDir (perm o700)]> (w_fs w) → w_zero w1 = w_zero w →
  wp (base ← on_fst (head_base r s);
      img ← Snapshot (s_ID s) dir base;
      c' ← on_fst (store_image r c base img);
      Rebase (s_ID s) (c_MemHash c');;
      mret c')
    (λ x wb, fs_wf (w_fs wb.1) ∧ is_dir (w_fs wb.1) tempdir ∧ (∀ q, area q → ¬ below dir q) ∧ ∃ c', captured N v c (s_ID s) (below dir) w b x wb c') (w1, b).
Proof.
  intros Hpre Hvm Hin Hb Hd0 Hb0 Hdir Hfs1 Hz1. pose proof Hpre as [Hci Hrw Hid Hap _ _]. pose proof Hci as [Hlive Hst Hmemo Hcas _ _ _].
  pose proof (capture_temp _ _ _ _ _ _ Hpre Hdir Hfs1 Hz1) as Hit1.
  assert (repo_kept (w_fs w) (w_fs w1)) as Hk1.
  { apply agree_kept; [done|done|apply Hit1|]. intros q Hq. by apply Hit1, (it_repo _ _ _ Hit1). }
  wp_step. wp_step. apply wp_head_base; [by eapply repo_wf_kept|done|]. intros base w2 Hfs2 Hz2.
  assert (in_temp w w2 dir) as Hit by (destruct Hit1; split; rewrite ?Hfs2, ?Hz2; done). clear Hit1 Hk1 Hfs1 Hz1 Hfs2 Hz2.
  wp_step. eapply wp_mono; [by apply (wp_snapshot_in s v w w2 b dir base (proj1 Hlive))|]. intros x [w3 b3] (img & -> & Htk).
  destruct (taken_store _ _ _ _ _ _ _ _ _ _ _ Hpre Hit Htk) as (Hk3 & Hlive3 & Hm3). destruct Htk as [Hsh Hvm3 Hsp Hwf3 Hz3 Hf3]. cbn [fst] in *.
  assert (∀ q, below (r_cas r) q → ¬ area q) as Hca by (intros q Hq Hx; apply (ap_repo Hap q Hx); by apply root_below_cas).
  assert (∀ q, below dir q → ¬ below (r_cas r) q) as Hdc by (intros q Hq Hq'; by eapply (it_repo _ _ _ Hit), Hq; apply root_below_cas).
  assert (based (w_fs w3) v) as Hb3 by (eapply based_kept; [exact (rk_keep _ _ Hk3)|done]).
  wp_step. wp_step. wp_use (grows_store_image c dir base v img w3); try done; [apply Hlive|apply Hk3|].
  intros x w4 Hg. destruct (gr_live _ _ _ _ _ _ Hg Hlive3) as [Hlive4 [c' ->]].
  destruct (gr_post _ _ _ _ _ _ Hg c' eq_refl) as [Hic Hset]. pose proof (gr_step _ _ _ _ _ _ Hg) as Hs4.
  assert (∀ q, area q → w_fs w4 !! q = w_fs w3 !! q) as Ha4 by (intros q Hx; apply Hs4; intros Hq; by apply (Hca q)).
  wp_step. eapply wp_mono; [apply (vm_Rebase _ (c_MemHash c') (at_last v) _ _ (proj1 Hlive)); [by rewrite <- Hvm3; apply vm_local|apply Hs4]|].
  intros x [w5 b5] (-> & Hst5 & Hsp5 & v' & Hvm5 & Hsame & Hbase). wp_step. cbn [fst] in *.
  pose proof (stays_kept _ w4 w5 Hcas (st_inv _ _ _ _ Hs4) (ap_repo Hap) Hst5) as Hk5.
  pose proof (repo_kept_trans _ _ _ (repo_kept_trans _ _ _ Hk3 (store_step_kept _ _ Hs4)) Hk5) as Hk.
  destruct Hst5 as (Hwf5 & Hz5 & Hf5). destruct (it_temp _ _ _ Hit) as [[mt Hmt] Hnt].
  assert (∀ q, ¬ area q → ¬ below (r_cas r) q → ¬ below dir q → w_fs w5 !! q = w_fs w !! q) as Hfr.
  { intros q Hq1 Hq2 Hq3. by rewrite Hf5, (st_frame _ _ _ _ Hs4), Hf3. }
  split_and!; [done| |intros q Hq Hq'; by apply (it_area _ _ _ Hit q)|].
  - exists mt. rewrite Hfr; [by rewrite <- (it_rest _ _ _ Hit)|apply Hap| |done]. intros Hq. apply (ap_out Hap). by apply root_below_cas.
  - exists c'. split; cbn [fst]; try done.
    + eapply in_checkpoint_kept; [exact (rk_keep _ _ Hk5)|exact Hic].
    + eapply cache_inv_kept; [done|done| |unfold memo_ok; rewrite Hz5; by apply Hg].
      eapply live_kept; [exact Hlive4|]. intros q Hq. apply Hf5. by apply Hca.
    + intros q Hq1 Hq2 Hq3. apply Hfr; [done|intros Hq; by apply Hq2, root_below_cas|done].
    + etrans; [exact Hsp|]. etrans; [|exact Hsp5]. by apply spares_local.
    + exists v'. split_and!; [done|exact Hsame|by rewrite Hbase].
Qed.

Lemma wp_captureMachine N s c v w b :
  capture_pre N s w → vm_at (w, b) (s_ID s) = Some v → vm_in v → based (w_fs w) v → c_DiskHash c = "" → c_BaseHash c = "" →
  wp (captureMachine r s c) (λ x wb, ∃ c', captured N v c (s_ID s) (λ _, False) w b x wb c') (w, b).
Proof.
  intros Hpre Hvm Hin Hb Hd0 Hb0. pose proof Hpre as [Hci Hrw Hid Hap Htmp Hfree].
  pose proof Hci as [Hlive Hst Hmemo Hcas Hok _ _]. pose proof (sw_fs _ _ (si_wf _ _ _ Hst)) as Hwf.
  unfold captureMachine. rewrite is_memory. destruct (vm_Running w b (s_ID s) v Hvm) as (w0 & Hrun & Hfs0 & Hz0).
  wp_step. unfold wp at 1. rewrite Hrun. cbn [negb].
  assert (capture_pre N s w0) as Hpre0.
  { split; rewrite ?Hfs0; try done. by eapply cache_inv_same. }
  assert (vm_at (w0, b) (s_ID s) = Some v) as Hvm0 by (rewrite <- Hvm; apply vm_local; intros; by rewrite Hfs0).
  wp_step. wp_step. wp_use (wp_MkdirTemp "vit-snap-" w0); rewrite ?Hfs0; [done|done|apply temp_snap_name|].
  intros x w1 (Hz1 & Hx). destruct x as [[]|dir]; try done.
  { destruct Hx as [_ Hx]. destruct (Hx (proj1 Hlive)) as [t [? Ht]]. by rewrite Hfree in Ht. }
  destruct Hx as (t & Hdir & Hn & Hfs1). unfold deferring. wp_step. wp_step.
  eapply wp_mono; [eapply (wp_capture_in N s c v w0 w1 b dir t); rewrite ?Hfs0; done|].
  intros x [w2 b2] (Hwf2 & Htmp2 & Har & c' & [-> Hic Hset Hk Hc2 Ho2 Hsp2 (v' & Hv' & Hsame & Hbase)]). simpl in *. rewrite Hfs0 in Hk. wp_step. wp_step. wp_step.
  rewrite Hdir. apply wp_RemoveAll; [done|done|apply temp_snap_name|by intros e Hnq; destruct (Hnq (proj1 Hlive))|].
  wp_step. exists c'. set (w3 := tick _).
  assert (w_fs w3 = filter (λ kv, ¬ below dir kv.1) (w_fs w2)) as Hfs3 by by rewrite Hdir.
  assert (∀ q, ¬ below dir q → w_fs w3 !! q = w_fs w2 !! q) as Ha3.
  { intros q Hq. rewrite Hfs3. destruct (w_fs w2 !! q) as [n|] eqn:E.
    - by apply map_lookup_filter_Some.
    - apply map_lookup_filter_None. by left. }
  assert (∀ q, below (r_root r) q → w_fs w3 !! q = w_fs w2 !! q) as Hr3.
  { intros q Hq. apply Ha3. rewrite Hdir. apply (temp_apart (w_fs w)); [done|apply Hok|done|by rewrite <- Hdir|done]. }
  assert (repo_kept (w_fs w2) (w_fs w3)) as Hk3.
  { apply agree_kept; [done|apply Hk| |done]. rewrite Hfs3. apply (fs_wf_filter _ (λ p, ¬ below dir p)); [done|..].
    - intros Hb'. apply (prefix_nil_inv dir) in Hb'. rewrite Hdir in Hb'. by destruct tempdir.
    - intros p x Hp Hb'. apply Hp. by apply prefix_app_r. }
  split; simpl.
  - done.
  - eapply in_checkpoint_kept; [exact (rk_keep _ _ Hk3)|done].
  - done.
  - by eapply repo_kept_trans.
  - eapply cache_inv_kept; [exact Hc2|done| |].
    + eapply live_kept; [apply Hc2|]. intros q Hq. apply Hr3. by apply root_below_cas.
    + apply Hc2.
  - intros q Hq1 Hq2 _. change (w_fs w3 !! q = w_fs w !! q). destruct (decide (below dir q)) as [Hq3|Hq3].
    + assert (w_fs w3 !! q = None) as Hn3.
      { rewrite Hfs3. apply map_lookup_filter_None. right. intros n _ Hx. by apply Hx. }
      rewrite Hn3. symmetry. eapply no_node_below; [exact Hwf|exact Hn|exact Hq3].
    + by rewrite Ha3, Ho2, Hfs0.
  - etrans; [|etrans; [exact Hsp2|]]; apply spares_local; [intros q _; by rewrite Hfs0|].
    intros q Hq. apply Ha3. by apply Har.
  - exists v'. split_and!; [|done|done]. rewrite <- Hv'. apply vm_local. intros q Hq. apply Ha3. by apply Har.
Qed.

(** ** Bringing it up *)

(** The names its images have in the cache. *)
Definition vm_names v : list string :=
  [image_name (v_mem v) +:+ ".mem"; hashOf (v_state v) +:+ ".state"] ++
  match v_disk v with Some d => [image_name d +:+ ".disk"] | None => [] end.

Lemma run_cachedImage N h ext b w :
  cache_inv U r N w → object U (w_fs w) (r_cas r) h b → ext ∈ exts → h +:+ ext ∈ N →
  ∃ w', cachedImage r h ext w = (Ok (cache_file r h ext), w') ∧ cache_post U r N w h ext b w'.
Proof.
  intros Hi Ho He HN. destruct (wp_exists _ _ _ (wp_cachedImage U r N h ext b w Hi Ho He HN)) as (x & w' & Hrun & -> & Hp).
  by exists w'.
Qed.

(** The cached images [bringUp] hands to [Resume]. *)
Definition resume_image (c : Checkpoint) v : Image :=
  mkImage (cache_file r (c_MemHash c) ".mem") (cache_file r (c_StateHash c) ".state")
    ((λ _, cache_file r (c_DiskHash c) ".disk") <$> v_disk v) None false (c_MemHash c).

Lemma bringUp_resumes N id c v t w b :
  cache_inv U r N w → in_checkpoint (w_fs w) v c → vm_names v ⊆ N →
  ∃ w', bringUp r id c t (w, b) = Resume id (WorkDir r id) (resume_image c v) (w', b) ∧
    cache_inv U r N w' ∧ cache_step U r (w_fs w) (w_fs w') ∧
    holds (w_fs w') (cache_file r (c_MemHash c) ".mem") (v_mem v) ∧
    holds (w_fs w') (cache_file r (c_StateHash c) ".state") (v_state v) ∧
    ∀ d, v_disk v = Some d → holds (w_fs w') (cache_file r (c_DiskHash c) ".disk") d.
Proof.
  intros Hi [(Hm1 & Him & Hm3) [Hs1 Hs2] Hd Hb] HN. pose proof (object_of_image _ _ Him Hm3) as Hm2. rewrite <- Hm1 in Hm2.
  assert (is_digest (c_MemHash c) = true) as HdM by (rewrite Hm1; apply hashOf_digest).
  assert (is_digest (c_StateHash c) = true) as HdS by (rewrite Hs1; apply hashOf_digest).
  assert (HasMemory c = true) as Hmem.
  { unfold HasMemory. rewrite !bool_decide_true; [done|..]; intros He; [by rewrite He in HdS|by rewrite He in HdM]. }
  unfold bringUp. rewrite is_memory, Hmem.
  destruct (run_cachedImage N (c_MemHash c) ".mem" (v_mem v) w Hi Hm2) as (w1 & Hr1 & Hi1 & Hst1 & Hc1); [by left|apply HN; rewrite Hm1; by left|].
  destruct (run_cachedImage N (c_StateHash c) ".state" (v_state v) w1 Hi1) as (w2 & Hr2 & Hi2 & Hst2 & Hc2);
    [by eapply object_keep|by right; left|apply HN; rewrite Hs1; by right; left|].
  pose proof (cache_step_trans U r _ _ _ Hst1 Hst2) as Hst12.
  assert (∃ w3, optional_image r (c_DiskHash c) ".disk" w2 = (Ok ((λ _, cache_file r (c_DiskHash c) ".disk") <$> v_disk v), w3) ∧
    cache_inv U r N w3 ∧ cache_step U r (w_fs w2) (w_fs w3) ∧
    ∀ d, v_disk v = Some d → holds (w_fs w3) (cache_file r (c_DiskHash c) ".disk") d) as (w3 & Hr3 & Hi3 & Hst3 & Hc3).
  { unfold optional_image. destruct (v_disk v) as [d|] eqn:Ed.
    - destruct Hd as [Hd1 Hd2]. rewrite decide_False by (rewrite Hd1; apply digest_not_empty).
      destruct (run_cachedImage N (c_DiskHash c) ".disk" d w2 Hi2) as (w3 & Hr3 & Hi3 & Hst3 & Hc3);
        [by eapply object_keep|by right; right; left|apply HN; unfold vm_names; rewrite Ed, Hd1; by right; right; left|].
      exists w3. unfold mbind, M_bind. rewrite Hr3. split_and!; [done..|]. by intros ? [= <-].
    - rewrite decide_True by done. exists w2. split_and!; [done|done|by eapply cache_step_refl|done]. }
  exists w3. assert (∃ w4, optional_image r (c_BaseHash c) ".base" w3 = (Ok None, w4) ∧ w4 = w3) as (w4 & Hr4 & ->).
  { exists w3. unfold optional_image. by rewrite Hb. }
  split_and!.
  - unfold mbind, M_bind, on_fst. cbn [fst snd]. rewrite Hr1. cbn [fst snd]. rewrite Hr2. cbn [fst snd]. rewrite Hr3. cbn [fst snd].
    rewrite Hr4. reflexivity.
  - done.
  - by etrans.
  - apply (cached_as_step U r (w_fs w1)); [by etrans|done|by left|done].
  - apply (cached_as_step U r (w_fs w2)); [done|done|by right; left|done].
  - done.
Qed.

(** What bringing a machine up does to the repository: blobs and cached images
    may come, nothing else changes. *)
Record image_step (w w' : world) : Prop := {
  is_wf : fs_wf (w_fs w');
  is_keep : keeps_blobs (w_fs w) (w_fs w');
  is_frame : ∀ q, ¬ area q → ¬ below (r_cas r) q → ¬ below (cache_dir r) q → w_fs w' !! q = w_fs w !! q
}.

(** [bringUp] of a checkpoint that has a machine makes it run. *)
Lemma wp_bringUp N id c v t w b :
  cache_inv U r N w → apart → in_checkpoint (w_fs w) v c → vm_names v ⊆ N → resumable v → can_hold (w, b) id →
  wp (bringUp r id c t) (λ x wb, x = inr tt ∧ cache_inv U r N wb.1 ∧ image_step w wb.1 ∧
    spares vm_at can_hold id (w, b) wb ∧
    ∃ v', vm_at wb id = Some v' ∧ same_vm v v' ∧ based (w_fs wb.1) v') (w, b).
Proof.
  intros Hci Hap Hic HN Hres Hcan. pose proof Hci as [Hlive Hst Hm Hcas Hok _ _].
  destruct (bringUp_resumes N id c v t w b Hci Hic HN) as (w' & Hrun & Hci' & Hst' & Hmem & Hs & Hd).
  assert (∀ q, area q → w_fs w' !! q = w_fs w !! q) as Hloc.
  { intros q Hq. apply (cs_frame _ _ _ _ Hst'); intros Hx; apply (ap_repo Hap q Hq); [by apply root_below_cas|by apply below_cache]. }
  unfold wp. rewrite Hrun.
  change (wp (Resume id (WorkDir r id) (resume_image c v)) (λ x wb, x = inr tt ∧ cache_inv U r N wb.1 ∧ image_step w wb.1 ∧
    spares vm_at can_hold id (w, b) wb ∧ ∃ v', vm_at wb id = Some v' ∧ same_vm v v' ∧ based (w_fs wb.1) v') (w', b)).
  eapply wp_mono.
  { eapply (vm_Resume id (WorkDir r id) v (resume_image c v)); try done.
    - apply Hlive.
    - by eapply can_local.
    - apply (sw_fs _ _ (si_wf _ _ _ (ci_store _ _ _ _ Hci'))).
    - simpl. destruct (v_disk v); simpl; auto. }
  intros x [w2 b2] (-> & Hst2 & Hsp2 & v2 & Hv2 & Hsame2 & Hbase2). simpl in *.
  pose proof (stays_kept area w' w2 Hcas (ci_store _ _ _ _ Hci') (ap_repo Hap) Hst2) as Hk2. destruct Hst2 as (Hwf2 & Hz2 & Hf2).
  assert (image_step w w2) as His.
  { split; [done|..].
    - intros h x Hh Hx. apply (rk_keep _ _ Hk2), (cs_keep _ _ _ _ Hst'); done.
    - intros q H1' H2' H3'. rewrite Hf2 by done. by apply (cs_frame _ _ _ _ Hst'). }
  split_and!; [done| |done| |].
  - eapply cache_inv_kept; [done|done| |unfold memo_ok; rewrite Hz2; apply Hci'].
    eapply live_kept; [apply Hci'|]. intros q Hq. apply Hf2. intros Ha. apply (ap_repo Hap q Ha). by apply root_below_cas.
  - etrans; [|exact Hsp2]. by apply spares_local.
  - exists v2. split_and!; [done|done|]. intros n old Hno. rewrite Hbase2 in Hno. injection Hno as <- <-.
    destruct Hic as [(Hmh & _ & Hsm) _ _ _]. split; [done|]. eapply stored_image_kept; [exact (is_keep _ _ His)|done].
Qed.

End machine.
