(* ===== verification/MachineProps.v ===== *)
(** * What a checkpoint of a machine promises *)

From S2P Require Import Prelude Sha256 Os OsFacts WalkFacts Parallel Cas Blobs Chunked ChunkedFacts Json Codec Codecs ChunkedProps Tree Model Repo RepoFacts Backend Engine CacheProps CacheFacts MachineFacts Checks.
Import Cas Chunked Tree Model Repo Backend Engine.
Open Scope Z_scope.

Section props.
Context `{OsEnv, Sched} (U : bytes → Prop) {NC : NoCollision U} {B : Type} `{Backend B} (mb : MemoryBackend B)
  `{!MachineSpec mb}.
Context (r : Repo) (is_memory : as_memory (B:=B) = Some mb).

(** C3 (machine_returns): capturing a running machine into a checkpoint and
    bringing the checkpoint up, under any identifier, gives a machine with the
    same memory, device state and disk.  The captured machine goes on running as
    it was, and so do all others.  What the backend then believes of the images
    they derive from is true of the store, so the next snapshot of either may again
    be a difference.  The blobs of the store are kept and no other file of the
    repository but the image cache changes.

    The host does not fail; the backend meets [MachineSpec], whose machines have no
    layered base disk; the images in the cache and the machine's own ([N]) fit in
    the cache together. *)
Theorem machine_returns N s c v t id w b :
  capture_pre U mb r N s w → vm_at (w, b) (s_ID s) = Some v → vm_in U v → based r (w_fs w) v →
  c_DiskHash c = "" → c_BaseHash c = "" → vm_names v ⊆ N → can_hold (w, b) id →
  ∃ c' w1 b1 v1 w2 b2 v2,
    captureMachine r s c (w, b) = (Ok c', (w1, b1)) ∧
    vm_at (w1, b1) (s_ID s) = Some v1 ∧ same_vm v v1 ∧ based r (w_fs w1) v1 ∧
    bringUp r id c' t (w1, b1) = (Ok tt, (w2, b2)) ∧
    vm_at (w2, b2) id = Some v2 ∧ same_vm v v2 ∧ based r (w_fs w2) v2 ∧
    (id ≠ s_ID s → vm_at (w2, b2) (s_ID s) = Some v1) ∧
    (∀ i, i ≠ s_ID s → i ≠ id → vm_at (w2, b2) i = vm_at (w, b) i) ∧
    (∀ h x, is_digest h = true → blob_of (w_fs w) (r_cas r) h = Some x → blob_of (w_fs w2) (r_cas r) h = Some x) ∧
    (∀ q, below (r_root r) q → ¬ below (r_cas r) q → ¬ below (cache_dir r) q → w_fs w2 !! q = w_fs w !! q).
Proof.
  intros Hpre Hvm Hin Hb Hd0 Hb0 HN Hcan. pose proof Hpre as [Hci _ _ Hap _ _]. pose proof (ci_cas _ _ _ _ Hci) as Hcas.
  destruct (wp_exists _ _ _ (wp_captureMachine U mb r is_memory N s c v w b Hpre Hvm Hin Hb Hd0 Hb0))
    as (x & [w1 b1] & Hrun1 & c' & [-> Hic Hset Hk1 Hci1 Ho1 [Hsp1 Hcan1] (v1 & Hv1 & Hsame1 & Hbase1)]). simpl in *.
  destruct (vm_resumable _ _ _ _ (rw_fs _ _ (cp_repo _ _ _ _ _ _ Hpre)) Hvm) as [Hres _].
  destruct (wp_exists _ _ _ (wp_bringUp U mb r is_memory N id c' v t w1 b1 Hci1 Hap Hic HN Hres (Hcan1 _ Hcan)))
    as (x & [w2 b2] & Hrun2 & -> & Hci2 & Hst2 & [Hsp2 _] & v2 & Hv2 & Hsame2 & Hbase2). simpl in *.
  assert (stored_image (w_fs w1) (r_cas r) (v_mem v) ∧ c_MemHash c' = image_name (v_mem v)) as [Hsm Hmh].
  { by destruct Hic as [(? & ? & ?) _ _ _]. }
  exists c', w1, b1, v1, w2, b2, v2. split_and!; try done.
  - intros n old Hno. rewrite Hbase1 in Hno. by injection Hno as <- <-.
  - intros Hne. by rewrite Hsp2.
  - intros i Hi1 Hi2. by rewrite Hsp2, Hsp1 by done.
  - intros h x Hh Hx. apply (is_keep _ _ _ _ Hst2), (rk_keep _ _ _ _ Hk1); done.
  - intros q H1' H2' H3'. rewrite (is_frame _ _ _ _ Hst2) by (done || intros Ha; by apply (ap_repo _ _ Hap q)). by apply (rk_frame _ _ _ _ Hk1).
Qed.

End props.

(** ** A machine that keeps its promises

    A backend that keeps its machines in its own state and writes every page of
    a difference. *)

Section kept_machine.
Context `{OsEnv}.

Definition knows (base : string) (v : vm) : bool :=
  match v_base v with Some (n, old) => bool_decide (n = base ∧ length old = length (v_mem v)) | None => false end.

Definition put_file (dir : path) (name : string) (b : bytes) : M (world * gmap string vm) unit :=
  on_fst (os_WriteFile (dir ++ [name]) b o600).

Definition kept_Snapshot (id : string) (dir : path) (base : string) : M (world * gmap string vm) Image :=
  x ← get_state;
  match x.2 !! id with
  | None => throw (Errorf "not running")
  | Some v =>
      put_file dir "mem" (v_mem v);;
      put_file dir "state" (v_state v);;
      (match v_disk v with Some d => put_file dir "disk" d | None => mret tt end);;
      modify_snd (<[id := at_last v]>);;
      mret (mkImage (dir ++ ["mem"]) (dir ++ ["state"]) ((λ _, dir ++ ["disk"]) <$> v_disk v) None (knows base v) "")
  end.

Definition kept_Rebase (id n : string) : M (world * gmap string vm) unit :=
  x ← get_state;
  match x.2 !! id with
  | None => throw (Errorf "not running")
  | Some v => modify_snd (<[id := mkVm (v_mem v) (v_state v) (v_disk v) ((λ m, (n, m)) <$> v_last v) (v_last v)]>)
  end.

Definition kept_Resume (id : string) (img : Image) : M (world * gmap string vm) unit :=
  mem ← on_fst (os_ReadFile (i_Memory img));
  state ← on_fst (os_ReadFile (i_State img));
  disk ← (match i_Disk img with Some d => x ← on_fst (os_ReadFile d); mret (Some x) | None => mret None end);
  modify_snd (<[id := mkVm mem state disk (Some (i_Base img, mem)) None]>).

Definition kept_memory : MemoryBackend (gmap string vm) := {|
  Boot _ _ := mret tt;
  Running id := λ s, (Ok (bool_decide (is_Some (s.2 !! id))), s);
  Snapshot := kept_Snapshot; Rebase := kept_Rebase; Resume id _ img := kept_Resume id img;
  Shutdown id := modify_snd (delete id)
|}.
Definition kept_backend : Backend (gmap string vm) := {|
  Name := "kept"; Exec _ _ _ := mret 0; as_memory := Some kept_memory; as_guest := None
|}.

Lemma wp_put_file dir name b w m (Q : gerr + unit → world * gmap string vm → Prop) :
  quiet → fs_wf (w_fs w) → is_dir (w_fs w) dir → good_name name → w_fs w !! (dir ++ [name]) = None →
  (∀ w' f, w_zero w' = w_zero w → f_cells f = Some <$> b → w_fs w' = <[dir ++ [name] := NFile f]> (w_fs w) →
    fs_wf (w_fs w') → is_dir (w_fs w') dir → Q (inr tt) (w', m)) →
  wp (put_file dir name b) Q (w, m).
Proof.
  intros Hq Hwf Hd Hg Hn HQ. unfold put_file. wp_step. wp_use (wp_WriteFile_cells dir name); [done..|by rewrite Hn|].
  intros x w' [Hz Hx]. destruct x as [e|[]]; [by destruct Hx|]. destruct Hx as (f & Hc & Hfs). eapply HQ; try done.
  - rewrite Hfs. apply fs_wf_insert; try done. intros [k Hk]. congruence.
  - destruct Hd as [k Hk]. exists k. rewrite Hfs, lookup_insert_ne; [done|]. intros He%(f_equal length). rewrite length_app in He. simpl in He. lia.
Qed.

Lemma holds_read p b w m (Q : gerr + bytes → world * gmap string vm → Prop) :
  quiet → fs_wf (w_fs w) → holds (w_fs w) p b →
  (∀ w', w_fs w' = w_fs w → w_zero w' = w_zero w → Q (inr b) (w', m)) → wp (on_fst (os_ReadFile p)) Q (w, m).
Proof. intros Hq Hwf (f & Hf & <-) HQ. wp_step. by eapply (wp_ReadFile p f). Qed.

Lemma written b f : f_cells f = Some <$> b → contents f = b.
Proof. intros Hf. unfold contents. rewrite Hf, <- list_fmap_compose. apply (list_fmap_id b). Qed.

Lemma overlay_all (old b : bytes) : length old = length b → overlay old (Some <$> b) = b.
Proof.
  intros Hl. apply list_eq. intros k. rewrite overlay_lookup, list_lookup_fmap.
  destruct (b !! k) eqn:E; [|by destruct (old !! k)]. apply lookup_lt_Some in E.
  destruct (lookup_lt_is_Some_2 old k) as [x ->]; [lia|done].
Qed.

(** The machines but [id] are the same. *)
Definition elsewhere (id : string) (m m' : gmap string vm) : Prop := ∀ i, i ≠ id → m' !! i = m !! i.
Lemma elsewhere_insert id v m : elsewhere id m (<[id := v]> m).
Proof. intros i Hi. by rewrite lookup_insert_ne. Qed.

Lemma kept_snapshot id dir base v w b :
  quiet → b !! id = Some v → fs_wf (w_fs w) → is_dir (w_fs w) dir → (∀ c, w_fs w !! (dir ++ [c]) = None) →
  wp (kept_Snapshot id dir base) (λ x wb, ∃ img, x = inr img ∧ stays (λ q, False ∨ (below dir q ∧ q ≠ dir)) w wb.1 ∧
    shows (w_fs wb.1) dir base v img ∧ wb.2 !! id = Some (at_last v) ∧ elsewhere id b wb.2) (w, b).
Proof.
  intros Hq Hv Hwf Hd Hn. unfold kept_Snapshot. wp_step. wp_step. cbn [snd]. rewrite Hv.
  assert (∀ c c' : string, c ≠ c' → dir ++ [c] ≠ dir ++ [c']) as Hne by (intros c c' Hc He; by apply app_inj_tail in He as [_ ?]).
  assert (∀ c q, ¬ (False ∨ (below dir q ∧ q ≠ dir)) → dir ++ [c] ≠ q) as Hout.
  { intros c q Hq' <-. apply Hq'. right. split; [by eexists|]. intros He%(f_equal length). rewrite length_app in He. simpl in He. lia. }
  wp_step. apply wp_put_file; [done..|]. intros w1 fm Hz1 Hcm Hfs1 Hwf1 Hd1.
  wp_step. apply wp_put_file; [done..|by rewrite Hfs1, lookup_insert_ne by by apply Hne|]. intros w2 fs Hz2 Hcs Hfs2 Hwf2 Hd2.
  assert (∀ w3 (m : gmap string vm), w_zero w3 = w_zero w2 → fs_wf (w_fs w3) → (∀ q, q ≠ dir ++ ["disk"] → w_fs w3 !! q = w_fs w2 !! q) →
    match v_disk v with Some d => holds (w_fs w3) (dir ++ ["disk"]) d | None => True end →
    ∃ img, @inr gerr Image (mkImage (dir ++ ["mem"]) (dir ++ ["state"]) ((λ _, dir ++ ["disk"]) <$> v_disk v) None (knows base v) "") = inr img ∧
      stays (λ q, False ∨ (below dir q ∧ q ≠ dir)) w w3 ∧ shows (w_fs w3) dir base v img ∧
      <[id := at_last v]> m !! id = Some (at_last v) ∧ elsewhere id m (<[id := at_last v]> m)) as Hend.
  { intros w3 m Hz3 Hwf3 Hf3 Hdisk. eexists. split; [done|]. split_and!; [split_and!|..].
    - done.
    - congruence.
    - intros q Hq'. rewrite Hf3 by (intros ->; by apply (Hout "disk" _ Hq')).
      rewrite Hfs2, lookup_insert_ne, Hfs1, lookup_insert_ne by by apply Hout. done.
    - assert (w_fs w3 !! (dir ++ ["mem"]) = Some (NFile fm)) as Hmem.
      { rewrite Hf3 by by apply Hne. by rewrite Hfs2, lookup_insert_ne, Hfs1, lookup_insert_eq by by apply Hne. }
      split; simpl.
      + split_and!; [by eexists..|]. intros d. destruct (v_disk v); [|done]. intros [= <-]. by eexists.
      + unfold knows. destruct (v_base v) as [[n old]|] eqn:Ev; [|by exists fm; split; [|apply written]].
        case_bool_decide as Hk; [|by exists fm; split; [|apply written]]. destruct Hk as [-> Hl].
        exists fm, base, old. rewrite Hcm. split_and!; [done|done|done|by rewrite length_fmap|by apply overlay_all].
      + exists fs. split; [|by apply written]. rewrite Hf3 by by apply Hne. by rewrite Hfs2, lookup_insert_eq.
      + by destruct (v_disk v).
      + done.
    - apply lookup_insert_eq.
    - apply elsewhere_insert. }
  wp_step. destruct (v_disk v) as [d|].
  - apply wp_put_file; [done..|by rewrite Hfs2, lookup_insert_ne, Hfs1, lookup_insert_ne by by apply Hne|].
    intros w3 fd Hz3 Hcd Hfs3 Hwf3 Hd3. wp_step. wp_step. wp_step. apply (Hend w3); try done.
    + intros q Hq'. by rewrite Hfs3, lookup_insert_ne.
    + exists fd. split; [by rewrite Hfs3, lookup_insert_eq|by apply written].
  - wp_step. wp_step. wp_step. wp_step. by apply Hend.
Qed.

Lemma kept_resume id v img w b :
  quiet → fs_wf (w_fs w) → holds (w_fs w) (i_Memory img) (v_mem v) → holds (w_fs w) (i_State img) (v_state v) →
  match i_Disk img, v_disk v with Some d, Some c => holds (w_fs w) d c | None, None => True | _, _ => False end →
  wp (kept_Resume id img) (λ x wb, x = inr tt ∧ stays (λ _, False) w wb.1 ∧ elsewhere id b wb.2 ∧
    ∃ v', wb.2 !! id = Some v' ∧ same_vm v v' ∧ v_base v' = Some (i_Base img, v_mem v)) (w, b).
Proof.
  intros Hq Hwf Hm Hs Hd. unfold kept_Resume. wp_step. eapply holds_read; [done..|]. intros w1 Hfs1 Hz1.
  wp_step. eapply holds_read; rewrite ?Hfs1; [done..|]. intros w2 Hfs2 Hz2. wp_step.
  assert (∀ w3, w_fs w3 = w_fs w → w_zero w3 = w_zero w →
    wp (modify_snd (<[id := mkVm (v_mem v) (v_state v) (v_disk v) (Some (i_Base img, v_mem v)) None]>))
      (λ x wb, x = inr tt ∧ stays (λ _, False) w wb.1 ∧ elsewhere id b wb.2 ∧
        ∃ v', wb.2 !! id = Some v' ∧ same_vm v v' ∧ v_base v' = Some (i_Base img, v_mem v)) (w3, b)) as Hend.
  { intros w3 Hfs3 Hz3. wp_step. split_and!; [done| |apply elsewhere_insert|]; [split_and!; simpl; rewrite ?Hfs3; done|].
    eexists. split; [apply lookup_insert_eq|]. by split_and!. }
  destruct (i_Disk img) as [dp|], (v_disk v) as [dv|]; try done.
  - wp_step. eapply holds_read; [done|by rewrite Hfs2|by rewrite Hfs2|]. intros w3 Hfs3 Hz3. wp_step. apply Hend; congruence.
  - wp_step. apply Hend; congruence.
Qed.

#[global] Program Instance kept_spec : MachineSpec kept_memory := {|
  area _ := False;
  vm_at s id := s.2 !! id;
  resumable _ := True;
  can_hold _ _ := True
|}.
Next Obligation. done. Qed.
Next Obligation. done. Qed.
Next Obligation. done. Qed.
Next Obligation. intros w b id v Hv. exists w. split_and!; [|done..]. unfold Running, kept_memory. cbn [snd] in *. by rewrite Hv. Qed.
Next Obligation.
  intros id dir base v w b Hq Hv Hwf Hd Hn _. eapply wp_mono; [by apply kept_snapshot|].
  intros x wb (img & ? & ? & ? & ? & He). exists img. by split_and!.
Qed.
Next Obligation.
  intros id n v w b Hq Hv Hwf. unfold Rebase, kept_memory, kept_Rebase. wp_step. wp_step. cbn [fst snd] in *. rewrite Hv. wp_step.
  split_and!; [done| | |]; [by split_and!|split; [|done]; apply elsewhere_insert|]. eexists. split; [apply lookup_insert_eq|]. by split_and!.
Qed.
Next Obligation.
  intros id dir v img w b Hq _ _ Hwf _ Hm Hs Hd _. eapply wp_mono; [by eapply kept_resume|].
  intros x wb (? & ? & He & Hv). by split_and!.
Qed.
Next Obligation.
  intros id w b Hq Hwf. unfold Shutdown, kept_memory. wp_step. split_and!; [done|by split_and!|]. split; [|done].
  intros i Hi. cbn [snd]. by rewrite lookup_delete_ne.
Qed.

End kept_machine.

(** ** A machine whose memory has changed since its last image *)

#[local] Existing Instance calm.
#[local] Existing Instance in_order.

Definition box_repo : Repo := mkRepo ["repo"] ["repo"; "blobs"].
Definition box : Sandbox := mkSandbox "sbx-1" "box" "kept" "" "" 0 0.
Definition box_old : bytes := to_bytes "mem0".
Definition box_disk : bytes := to_bytes "dsk".
Definition box_vm : vm := mkVm (to_bytes "mem1") (to_bytes "st") (Some box_disk) (Some (image_name box_old, box_old)) None.
Definition box_ck : Checkpoint := mkCheckpoint "ck-1" "sbx-1" 1 "" "" ["ls"] 0 0 0 0 0 "" "" "" "" "".

(** Its guest sees the disk as a file. *)
Definition box_tree : Tree := mkTree [mkEntry "disk" o644 3 (hashOf box_disk) "" false].

Definition box_texts : list bytes :=
  [box_old; small_text box_old; v_mem box_vm; small_text (v_mem box_vm); replicate 4 x00;
   v_state box_vm; box_disk; small_text box_disk; replicate 3 x00; json_Marshal box_tree].
Definition box_U (b : bytes) : Prop := b ∈ box_texts.

Definition box_blob (b : bytes) : list (path * node) :=
  [(["repo"; "blobs"; shard (hashOf b)], NDir o755);
   (slot ["repo"; "blobs"] (hashOf b), NFile (File o644 (Some <$> b) 0 0))].
Definition box_fs : fs := Eval vm_compute in list_to_map (
  [([], NDir o755); (["tmp"], NDir o755); (["repo"], NDir o755)] ++ ((λ d, (["repo"; d], NDir o755)) <$> repo_dirs) ++
  box_blob box_old ++ box_blob (small_text box_old)).
Definition box_world : world := World box_fs 0 ∅.
Definition box_machines : gmap string vm := {["sbx-1" := box_vm]}.

Lemma box_no_collision : NoCollision box_U.
Proof. apply apart_b_ok. vm_compute. reflexivity. Qed.

Lemma box_in i b : box_texts !! i = Some b → box_U b.
Proof. apply list_elem_of_lookup_2. Qed.

Lemma small_image img i j k : (0 < length img ≤ 1024)%nat → box_texts !! i = Some img →
  box_texts !! j = Some (small_text img) → box_texts !! k = Some (replicate (length img) x00) → image_of box_U img.
Proof.
  intros Hl Hi Hj Hk. split; [apply small_in; [done|by eapply box_in|by eapply box_in]|apply small_zeros; [done|by eapply box_in]|lia].
Qed.

Lemma box_vm_in : vm_in box_U box_vm.
Proof.
  split.
  - apply (small_image _ 2 3 4); [simpl; lia|reflexivity..].
  - split; [by apply (box_in 5)|]. vm_compute. exact I.
  - intros d [= <-]. apply (small_image _ 6 7 8); [simpl; lia|reflexivity..].
Qed.

Lemma box_based : based box_repo box_fs box_vm.
Proof.
  intros n old [= <- <-]. split; [reflexivity|]. assert (0 < length box_old ≤ 1024)%nat as Hl by (simpl; lia). split.
  - rewrite small_manifest by exact Hl. vm_compute. reflexivity.
  - rewrite small_num by exact Hl. intros [|i]; [|lia]. intros _. rewrite small_chunk by exact Hl. vm_compute. reflexivity.
Qed.

Definition box_names : list string := vm_names box_vm.

Lemma box_no_cache c : box_fs !! (cache_dir box_repo ++ [c]) = None.
Proof.
  apply eq_None_not_Some. intros [n Hn].
  assert (nodes_b box_fs (λ q _, match under ["repo"; "cache"] q with Some _ => false | None => true end) = true) as Hb by (vm_compute; reflexivity).
  apply (nodes_b_ok _ _ _ _ Hb) in Hn. change (cache_dir box_repo) with ["repo"; "cache"] in Hn. rewrite under_app in Hn. discriminate Hn.
Qed.

Lemma box_cache : cache_inv box_U box_repo box_names box_world.
Proof.
  destruct (store_check_ok box_texts ["repo"; "blobs"] box_fs) as [Hs Hc]; [vm_compute; reflexivity|].
  split.
  - split; [exact calm_quiet|exact Hc].
  - exact Hs.
  - intros n h. unfold box_world. simpl. by rewrite lookup_empty.
  - reflexivity.
  - split.
    + apply dir_b_ok. vm_compute. reflexivity.
    + left. vm_compute. reflexivity.
    + intros c n. by rewrite box_no_cache.
    + intros h ext f _ _. unfold cache_file. by rewrite box_no_cache.
  - intros c [n Hn]. by rewrite box_no_cache in Hn.
  - apply (roomy_bound _ _ 0); [lia|intros p n; vm_compute; discriminate|vm_compute; discriminate].
Qed.

Lemma box_pre : capture_pre box_U kept_memory box_repo box_names box box_world.
Proof.
  split.
  - exact box_cache.
  - apply repo_check_ok. vm_compute. reflexivity.
  - reflexivity.
  - split; [by intros q []|by intros []|by intros t q _ []|]. by intros [k Hk].
  - apply dir_b_ok. vm_compute. reflexivity.
  - intros t. apply eq_None_not_Some. intros [n Hn].
    assert (nodes_b box_fs (λ q _, match under ["tmp"] q with Some (_ :: _) => false | _ => true end) = true) as Hb by (vm_compute; reflexivity).
    apply (nodes_b_ok _ _ _ _ Hb) in Hn. change (@tempdir calm) with ["tmp"] in Hn. rewrite under_app in Hn. discriminate Hn.
Qed.

(** C3 at the machine above, brought up as another sandbox. *)
Lemma machine_returns_witness :
  ∃ c' w1 b1 w2 b2 v2,
    captureMachine (H5 := kept_backend) box_repo box box_ck (box_world, box_machines) = (Ok c', (w1, b1)) ∧
    bringUp (H5 := kept_backend) box_repo "sbx-2" c' (mkTree []) (w1, b1) = (Ok tt, (w2, b2)) ∧
    b2 !! "sbx-2" = Some v2 ∧ v_mem v2 = to_bytes "mem1".
Proof.
  pose proof box_no_collision as NC.
  destruct (machine_returns (H1 := kept_backend) box_U kept_memory box_repo eq_refl box_names box box_ck box_vm (mkTree []) "sbx-2" box_world box_machines)
    as (c' & w1 & b1 & v1 & w2 & b2 & v2 & Hc & _ & _ & _ & Hb & Hv & [Hm _] & _).
  - exact box_pre.
  - reflexivity.
  - exact box_vm_in.
  - exact box_based.
  - reflexivity.
  - reflexivity.
  - intros x Hx. exact Hx.
  - exact I.
  - exists c', w1, b1, w2, b2, v2. split_and!; [exact Hc|exact Hb|exact Hv|exact Hm].
Defined.
