(* ===== verification/MachineSteps.v ===== *)
(** * Steps of a sandbox that runs in a machine

    [GuestSpec] is what the engine relies on of the files of a guest, as
    backend.go documents it.  Against it and [MachineSpec], a step records the
    guest's files and the machine, and a fork brings both back. *)

From S2P Require Import Prelude Sha256 Os OsFacts WalkFacts Parallel Cas Blobs Chunked ChunkedFacts Json Codec Codecs ChunkedProps Tree TreeFacts Snap SnapFacts SnapProps Model Repo RepoFacts RepoProps Backend Engine EngineFacts StepFacts CacheProps CacheFacts MachineFacts.
Import Cas Chunked Tree Snap Model Repo Backend Engine.
Open Scope Z_scope.

Section spec.
Context `{OsEnv}.

(** A call that only looks at guests. *)
Definition undisturbed {S} (vm_at : S → string → option vm) (can_hold : S → string → Prop)
    (guest_has : S → string → fs → path → Prop) (x y : S) : Prop :=
  (∀ i, vm_at y i = vm_at x i) ∧ (∀ i, can_hold x i → can_hold y i) ∧ ∀ i σ d, guest_has x i σ d → guest_has y i σ d.

#[global] Instance undisturbed_trans {S} (a : S → string → option vm) c g : Transitive (undisturbed a c g).
Proof. intros x y z (H1 & H2 & H3) (H4 & H5 & H6). split_and!; [|auto..]. intros i. by rewrite H4, H1. Qed.

Class GuestSpec {B : Type} (mb : MemoryBackend B) `{!MachineSpec mb} (g : GuestFS B) := {
  (** the guest of a machine has the files of a directory of a file system *)
  guest_has : world * B → string → fs → path → Prop;
  guest_local w w' b id σ d : (∀ q, area q → w_fs w' !! q = w_fs w !! q) → guest_has (w, b) id σ d → guest_has (w', b) id σ d;
  guest_ListFiles id v σ d w b :
    quiet → vm_at (w, b) id = Some v → guest_has (w, b) id σ d → fs_wf (w_fs w) →
    wp (ListFiles id) (λ x wb, ∃ es, x = inr es ∧ snapshot_of None d σ (mkTree es) ∧ stays area w wb.1 ∧
      undisturbed vm_at can_hold guest_has (w, b) wb) (w, b);
  guest_ReadFile id v σ d cs f w b :
    quiet → vm_at (w, b) id = Some v → guest_has (w, b) id σ d → fs_wf (w_fs w) →
    cs ≠ [] → σ !! (d ++ cs) = Some (NFile f) →
    wp (Backend.ReadFile id (join_with "/" cs)) (λ x wb, x = inr (contents f) ∧ stays area w wb.1 ∧
      undisturbed vm_at can_hold guest_has (w, b) wb) (w, b)
}.

End spec.

Section steps.
Context `{OsEnv, Sched} (U : bytes → Prop) {NC : NoCollision U} {B : Type} `{Backend B} (mb : MemoryBackend B)
  `{!MachineSpec mb} (g : GuestFS B) `{!GuestSpec mb g}.
Context (r : Repo) (is_memory : as_memory (B:=B) = Some mb) (is_guest : as_guest (B:=B) = Some g).
Implicit Types (w : world) (s : Sandbox) (v : vm) (b : B) (N : list string).

Notation unmoved := (undisturbed vm_at can_hold guest_has).

(** ** Putting blobs away *)

(** From [w] to [w'] blobs were added, and files of the backend may have changed. *)
Record filed w w' : Prop := {
  fl_kept : repo_kept U r (w_fs w) (w_fs w');
  fl_live : live (r_cas r) w';
  fl_memo : memo_ok w';
  fl_frame : ∀ q, ¬ below (r_cas r) q → ¬ area q → w_fs w' !! q = w_fs w !! q
}.

#[global] Instance filed_trans : Transitive filed.
Proof.
  intros w1 w2 w3 [Hk1 _ _ Hf1] [Hk2 Hl2 Hm2 Hf2]. split; [by eapply repo_kept_trans|done|done|].
  intros q H1' H2'. by rewrite Hf2, Hf1.
Qed.

(** What a step needs of the host, the repository and the cache. *)
Record machine_ready N s w : Prop := {
  mr_capture : capture_pre U mb r N s w;
  mr_named : trees_named (w_fs w) r
}.

Lemma ready_parts N s w : machine_ready N s w →
  quiet ∧ live (r_cas r) w ∧ memo_ok w ∧ store_inv U (r_cas r) (w_fs w) ∧ r_cas r = r_root r ++ ["blobs"] ∧
  fs_wf (w_fs w) ∧ apart mb r ∧ repo_wf r (w_fs w) ∧ good_id (s_Head s).
Proof.
  intros [[Hci Hrw Hh Hap _ _] _]. pose proof Hci as [Hl Hs Hm Hc _ _ _]. split_and!; try done; [apply Hl|apply Hs].
Qed.

Lemma filed_same w w' : live (r_cas r) w → store_inv U (r_cas r) (w_fs w) → memo_ok w → w_fs w' = w_fs w → w_zero w' = w_zero w → filed w w'.
Proof.
  intros Hl Hs Hm Hf Hz. split; [split|..]; rewrite ?Hf; try done.
  - eapply live_kept; [exact Hl|]. by rewrite Hf.
  - unfold memo_ok. by rewrite Hz.
Qed.

Lemma filed_grows {A} w (P : A → world → Prop) x w' :
  live (r_cas r) w → memo_ok w → grows U (r_cas r) w P x w' → filed w w' ∧ ∃ a, x = inr a ∧ P a w'.
Proof.
  intros Hl Hm [Hs Hmm HP Hll]. destruct (Hll Hl) as [Hl' [a ->]]. split; [|by exists a; eauto].
  split; [by apply store_step_kept|done|auto|]. intros q Hq _. by apply Hs.
Qed.

Lemma filed_stays N s w w' : machine_ready N s w → stays area w w' → filed w w'.
Proof.
  intros Hr Hst. destruct (ready_parts _ _ _ Hr) as (Hq & Hl & Hm & Hs & Hc & Hwf & Hap & _).
  split; [by eapply stays_kept; [..|apply Hap|]| | |]; destruct Hst as (Hwf' & Hz & Hf).
  - eapply live_kept; [exact Hl|]. intros q Hq'. apply Hf. intros Ha. apply (ap_repo _ _ Hap q Ha). by apply root_below_cas.
  - unfold memo_ok. by rewrite Hz.
  - intros q _ Ha. by apply Hf.
Qed.

(** Files of the backend are not the store's. *)
Lemma filed_store_area w w' : apart mb r → r_cas r = r_root r ++ ["blobs"] → store_frame (r_cas r) (w_fs w) (w_fs w') →
  ∀ q, area q → w_fs w' !! q = w_fs w !! q.
Proof. intros Hap Hc Hf q Hq. apply Hf. intros Hq'. apply (ap_repo _ _ Hap q Hq). by apply root_below_cas. Qed.

Lemma unmoved_local w w' b : (∀ q, area q → w_fs w' !! q = w_fs w !! q) → unmoved (w, b) (w', b).
Proof. intros Ha. split_and!; intros i; [by apply vm_local|by apply can_local|intros σ d; by apply guest_local]. Qed.

(** Documents are not the store's either. *)
Lemma kept_doc σ σ' d id : r_cas r = r_root r ++ ["blobs"] → repo_kept U r σ σ' → d ∈ doc_dirs → doc σ' r d id = doc σ r d id.
Proof.
  intros Hc Hk Hd. unfold doc, doc_file. rewrite (rk_frame _ _ _ _ Hk); [done| |].
  - rewrite <- app_assoc. by eexists.
  - rewrite Hc. by apply repo_blobs_disjoint.
Qed.

Lemma named_kept σ σ' : r_cas r = r_root r ++ ["blobs"] → repo_kept U r σ σ' → trees_named σ r → trees_named σ' r.
Proof.
  intros Hc Hk Hn id c Hid Hl. apply (Hn id c Hid). unfold load in *. by rewrite (kept_doc σ σ') in Hl by (done || (right; left)).
Qed.

Lemma ready_filed N s w w' : machine_ready N s w → filed w w' → machine_ready N s w'.
Proof.
  intros Hr [Hk Hl Hm Hf]. destruct (ready_parts _ _ _ Hr) as (Hq & _ & _ & Hs & Hc & Hwf & Hap & Hrw & Hh).
  destruct Hr as [[Hci _ _ _ [m Hm'] Hfree] Hn]. split; [split; try done|by eapply named_kept].
  - by eapply cache_inv_kept.
  - by eapply repo_wf_kept.
  - exists m. rewrite Hf; [done| |apply Hap]. intros Hx. apply (ap_out _ _ Hap). by apply root_below_cas.
  - intros t. rewrite Hf; [apply Hfree| |].
    + intros Hx. apply (temp_apart mb r (w_fs w) t (tempdir ++ [temp_name "vit-snap-" t])); [done|apply Hci|done|apply Hfree|by apply root_below_cas|].
      by exists []; rewrite app_nil_r.
    + apply (ap_snap _ _ Hap t). by exists []; rewrite app_nil_r.
Qed.

(** ** The guest's files *)

Definition entry_at (σ : fs) (d : path) (e : Entry) : Prop :=
  ∃ cs nd, cs ≠ [] ∧ σ !! (d ++ cs) = Some nd ∧ entry_of (join_with "/" cs) nd = Some e.

Lemma wp_fetch_entry N s v σ d e w b :
  machine_ready N s w → vm_at (w, b) (s_ID s) = Some v → guest_has (w, b) (s_ID s) σ d → listable U d σ → entry_at σ d e →
  wp (fetch_entry r (s_ID s) e) (λ x wb, x = inr tt ∧ filed w wb.1 ∧ unmoved (w, b) wb ∧
    entry_stored (r_cas r) (w_fs wb.1) e) (w, b).
Proof.
  intros Hr Hv Hg Hgi (cs & nd & Hne & Hnd & Hen). destruct (ready_parts _ _ _ Hr) as (Hq & Hl & Hm & Hs & Hc & Hwf & Hap & _ & _).
  assert (below d (d ++ cs)) as Hbd by by eexists. unfold fetch_entry.
  assert (unmoved (w, b) (w, b)) as Hsame by by apply unmoved_local.
  destruct nd as [f|m|t|m]; simpl in Hen; try done; injection Hen as <-; cbn [e_Hash e_Path].
  2: { rewrite decide_True by done. wp_step. split_and!; [done|by apply filed_same|done|]. intros Hx. discriminate Hx. }
  2: { rewrite decide_True by done. wp_step. split_and!; [done|by apply filed_same|done|]. intros _ Hx. simpl in Hx. by apply (ls_links _ _ _ Hgi) in Hnd. }
  rewrite decide_False by apply digest_not_empty. pose proof (ls_U _ _ _ Hgi _ _ Hbd Hnd) as HU.
  assert (∀ σ', stored σ' (r_cas r) (contents f) →
    entry_stored (r_cas r) σ' (mkEntry (join_with "/" cs) (node_mode (NFile f)) (f_size f) (hashOf (contents f)) "" false)) as Hes.
  { intros σ' Hst _ _. exists (contents f). split_and!; [done| |done]. cbn [e_Size]. unfold f_size, contents. by rewrite length_fmap. }
  wp_step. wp_step. wp_use (grows_Has U (r_cas r) (hashOf (contents f)) w); [done|apply hashOf_digest|].
  intros x w1 Hg1. destruct (filed_grows _ _ _ _ Hl Hm Hg1) as (Hf1 & has & -> & Hfs1 & Ht & _).
  assert (unmoved (w, b) (w1, b)) as Hu1 by (apply unmoved_local; by rewrite Hfs1).
  destruct has.
  { wp_step. split_and!; [done|done|done|]. apply Hes. destruct (Ht eq_refl) as [y Hy]. cbn [fst]. unfold stored. rewrite Hfs1, Hy.
    apply (f_equal Some). by eapply (blob_same U (r_cas r) (w_fs w)). }
  destruct (ready_parts _ _ _ (ready_filed _ _ _ _ Hr Hf1)) as (_ & Hl1 & Hm1 & Hs1 & _ & Hwf1 & _).
  wp_step. wp_step. eapply wp_mono.
  { apply (guest_ReadFile (s_ID s) v σ d cs f w1 b); try done; [by rewrite (proj1 Hu1)|by apply Hu1]. }
  intros x [w2 b2] (-> & Hst2 & Hu2). cbn [fst] in Hst2.
  pose proof (ready_filed _ _ _ _ Hr Hf1) as Hr1. pose proof (filed_stays _ _ _ _ Hr1 Hst2) as Hf2.
  destruct (ready_parts _ _ _ (ready_filed _ _ _ _ Hr1 Hf2)) as (_ & Hl2 & Hm2 & Hs2 & _).
  wp_step. wp_step. wp_use (grows_Put U (r_cas r) (contents f) w2); [done|done|].
  intros x w3 Hg3. destruct (filed_grows _ _ _ _ Hl2 Hm2 Hg3) as (Hf3 & h & -> & -> & Hst3).
  rewrite decide_False by tauto. wp_step. cbn [fst]. split_and!; [done|by etrans; [|etrans]| |by apply Hes].
  etrans; [exact Hu1|]. etrans; [exact Hu2|]. apply unmoved_local. eapply filed_store_area; [done|done|apply Hg3].
Qed.

#[local] Existing Instance path_le_trans.
#[local] Existing Instance path_le_total.

(** Putting the entries in order does not change what they say. *)
Lemma snapshot_sorted σ d es : snapshot_of None d σ (mkTree es) → snapshot_of None d σ (mkTree (Sorted es)).
Proof.
  intros [He Hs Hn]. assert (Sorted es ≡ₚ es) as Hp by apply merge_sort_Permutation. split; cbn [t_Entries] in *.
  - intros e. by rewrite Hp, He.
  - apply StronglySorted_merge_sort; apply _.
  - by rewrite Hp.
Qed.

Lemma wp_guestTree N s v σ d w b :
  machine_ready N s w → vm_at (w, b) (s_ID s) = Some v → guest_has (w, b) (s_ID s) σ d → listable U d σ →
  wp (guestTree r (s_ID s)) (λ x wb, ∃ t, x = inr t ∧ snapshot_of None d σ t ∧ filed w wb.1 ∧ unmoved (w, b) wb ∧
    Forall (entry_stored (r_cas r) (w_fs wb.1)) (t_Entries t)) (w, b).
Proof.
  intros Hr Hv Hg Hgi. destruct (ready_parts _ _ _ Hr) as (Hq & _ & _ & _ & _ & Hwf & _). unfold guestTree. wp_step. wp_step.
  eapply wp_mono; [by apply (guest_ListFiles (s_ID s) v σ d)|]. intros x [w1 b1] (es & -> & Hsn & Hst1 & Hu1). cbn [fst] in Hst1.
  pose proof (filed_stays _ _ _ _ Hr Hst1) as Hf1. wp_step.
  apply (wp_for_each es _ (λ l wb, filed w wb.1 ∧ unmoved (w, b) wb ∧ Forall (entry_stored (r_cas r) (w_fs wb.1)) l)); [done|..].
  - intros l e todo [w2 b2] Hl (Hf2 & Hu2 & Hes). cbn [fst] in *. pose proof (ready_filed _ _ _ _ Hr Hf2) as Hr2.
    eapply wp_mono.
    { apply (wp_fetch_entry N s v σ d e w2 b2); try done; [by rewrite (proj1 Hu2)|by apply Hu2|].
      assert (e ∈ es) as He by (rewrite Hl; set_solver). apply (so_entries _ _ _ _ Hsn) in He as (cs & nd & ? & ? & _ & ?). by exists cs, nd. }
    intros x [w3 b3] (-> & Hf3 & Hu3 & He3). cbn [fst] in *. split_and!; [by etrans|by etrans|]. apply Forall_app. split; [|by constructor].
    eapply Forall_impl; [exact Hes|]. intros e' He' Hd Hl'. destruct (He' Hd Hl') as (y & ? & ? & Hy). exists y. split_and!; [done..|].
    apply (rk_keep _ _ _ _ (fl_kept _ _ Hf3)); [apply hashOf_digest|done].
  - intros [w2 b2] (Hf2 & Hu2 & Hes). wp_step. exists (mkTree (Sorted es)). split_and!; [done|by apply snapshot_sorted|done|done|].
    cbn [t_Entries]. unfold Sorted. by rewrite merge_sort_Permutation.
Qed.

(** With a guest that runs, the tree of a step is the guest's. *)
Lemma wp_guest_tree N s v σ d w b :
  machine_ready N s w → vm_at (w, b) (s_ID s) = Some v → guest_has (w, b) (s_ID s) σ d → listable U d σ →
  wp (current_tree r s) (λ x wb, ∃ t, x = inr t ∧ snapshot_of None d σ t ∧ filed w wb.1 ∧ unmoved (w, b) wb ∧
    Forall (entry_stored (r_cas r) (w_fs wb.1)) (t_Entries t)) (w, b).
Proof.
  intros Hr Hv Hg Hgi. unfold current_tree. rewrite is_guest. wp_step. unfold machineRunning. rewrite is_memory.
  destruct (vm_Running w b (s_ID s) v Hv) as (w0 & Hrun & Hfs0 & Hz0). unfold wp at 1. rewrite Hrun.
  destruct (ready_parts _ _ _ Hr) as (Hq & Hl & Hm & Hs & _).
  pose proof (filed_same _ _ Hl Hs Hm Hfs0 Hz0) as Hf0. assert (unmoved (w, b) (w0, b)) as Hu0 by (apply unmoved_local; by rewrite Hfs0).
  eapply wp_mono; [apply (wp_guestTree N s v σ d w0 b); [by eapply ready_filed|by rewrite (proj1 Hu0)|by apply Hu0|done]|].
  intros x [w1 b1] (t & -> & Hsn & Hf1 & Hu1 & Hes). exists t. split_and!; [done|done|by etrans|by etrans|done].
Qed.

(** ** Recording a step *)

Lemma self_below (p : path) : below p p.
Proof. by exists []; rewrite app_nil_r. Qed.

(** Writing a document. *)
Lemma doc_written N d id f w w' :
  cache_inv U r N w → repo_wf r (w_fs w) → apart mb r → d ∈ doc_dirs → good_id id →
  w_fs w' = <[doc_file r d id := NFile f]> (w_fs w) → w_zero w' = w_zero w →
  cache_inv U r N w' ∧ repo_wf r (w_fs w') ∧ keeps_blobs r (w_fs w) (w_fs w') ∧ (∀ q, area q → w_fs w' !! q = w_fs w !! q).
Proof.
  intros Hci Hrw Hap Hd Hid Hfs Hz. pose proof Hci as [Hl Hs Hm Hc [[m Hroot] _ _ _] _ _].
  destruct (store_step_outside U r (w_fs w) d id f Hrw Hs Hd Hid) as [Hs' Ha]. rewrite <- Hfs in Hs', Ha.
  assert (below (r_root r) (doc_file r d id)) as Hdoc by (unfold doc_file; rewrite <- app_assoc; by eexists).
  split_and!.
  - eapply cache_inv_frame; [done|done|by eapply live_kept|unfold memo_ok; by rewrite Hz|..].
    + exists m. rewrite Hfs, lookup_insert_ne; [done|]. unfold doc_file. intros He%(f_equal length). rewrite !length_app in He. simpl in He. lia.
    + intros q [k ->]. rewrite Hfs, lookup_insert_ne; [done|]. unfold doc_file, cache_dir. rewrite <- !app_assoc.
      intros He%app_inv_head. simplify_eq/=. by set_unfold in Hd; naive_solver.
  - rewrite Hfs. by apply repo_wf_doc.
  - intros h x _ Hx. by rewrite (blob_of_agree (w_fs w)).
  - intros q Hq. rewrite Hfs, lookup_insert_ne; [done|]. intros <-. by apply (ap_repo _ _ Hap _ Hq).
Qed.

Lemma head_tree_kept s σ σ' p :
  r_cas r = r_root r ++ ["blobs"] → repo_kept U r σ σ' → trees_named σ r → good_id (s_Head s) →
  parent_is σ r s p → head_tree σ' r s = p.
Proof.
  intros Hc Hk Hn Hid [[He ->]|[[t ->] Ht]]; [unfold head_tree; by rewrite decide_True|]. revert Ht.
  unfold head_tree. case_decide; [done|]. unfold load at 1 2. rewrite (kept_doc σ σ') by (done || (right; left)).
  intros (pc & Hpc & Ht)%bind_Some. rewrite Hpc. simpl. unfold tree_at in *. apply bind_Some in Ht as (x & Hx & Ht).
  rewrite (rk_keep _ _ _ _ Hk (c_TreeHash pc) x); [done|by eapply Hn|done].
Qed.

Lemma entries_kept σ σ' l : keeps_blobs r σ σ' → Forall (entry_stored (r_cas r) σ) l → Forall (entry_stored (r_cas r) σ') l.
Proof.
  intros Hk Hes. eapply Forall_impl; [exact Hes|]. intros e He H1' H2'. destruct (He H1' H2') as (x & ? & ? & Hx).
  exists x. split_and!; [done..|]. by apply Hk; [apply hashOf_digest|].
Qed.

(** What a checkpoint of a running machine says, and what recording it left:
    the tree is the guest's, the machine is in the store and goes on. *)
Record machine_logged N s (cmd : list string) (code : Z) (σ : fs) (d : path) v w b (c : Checkpoint) (wb : world * B) : Prop := {
  ml_id : new_id "ck-" (c_ID c);
  ml_fields : c_Sandbox c = s_ID s ∧ c_Seq c = s_Steps s ∧ c_Parent c = s_Head s ∧ c_Command c = cmd ∧ c_ExitCode c = code ∧
    c_Note c = "" ∧ ∃ n, c_Created c = clock n;
  ml_doc : doc (w_fs wb.1) r "checkpoints" (c_ID c) = Some (json_MarshalIndent c);
  ml_tree : ∃ t, snapshot_of None d σ t ∧ c_TreeHash c = hashOf (json_Marshal t) ∧
    stored (w_fs wb.1) (r_cas r) (json_Marshal t) ∧ Forall (entry_stored (r_cas r) (w_fs wb.1)) (t_Entries t) ∧
    ∀ p, parent_is (w_fs w) r s p →
      c_Added c = count_kind added (Diff p t) ∧ c_Modified c = count_kind modified (Diff p t) ∧
      c_Deleted c = count_kind deleted (Diff p t);
  ml_machine : in_checkpoint U r (w_fs wb.1) v c;
  ml_vm : ∃ v', vm_at wb (s_ID s) = Some v' ∧ same_vm v v' ∧ based r (w_fs wb.1) v';
  ml_others : spares vm_at can_hold (s_ID s) (w, b) wb;
  ml_cache : cache_inv U r N wb.1;
  ml_repo : repo_wf r (w_fs wb.1);
  ml_blobs : keeps_blobs r (w_fs w) (w_fs wb.1);
  ml_frame : ∀ q, ¬ area q → ¬ below (r_cas r) q → q ≠ doc_file r "checkpoints" (c_ID c) →
    q ≠ doc_file r "sandboxes" (s_ID s) → w_fs wb.1 !! q = w_fs w !! q
}.

Lemma logged_sandbox N s cmd code σ d v w b c w1 b1 w2 f :
  machine_logged N s cmd code σ d v w b c (w1, b1) → apart mb r → good_id (s_ID s) →
  w_fs w2 = <[doc_file r "sandboxes" (s_ID s) := NFile f]> (w_fs w1) → w_zero w2 = w_zero w1 →
  machine_logged N s cmd code σ d v w b c (w2, b1).
Proof.
  intros [Hid Hf Hd (t & Ht1 & Ht2 & Ht3 & Ht4 & Ht5) Hm (v' & Hv1 & Hv2 & Hv3) Ho Hci Hrw Hb Hfr] Hap Hgs Hfs Hz. cbn [fst] in *.
  destruct (doc_written N "sandboxes" (s_ID s) f w1 w2 Hci Hrw Hap (list_elem_of_here _ _) Hgs Hfs Hz) as (Hci2 & Hrw2 & Hk2 & Ha2).
  split; cbn [fst]; try done.
  - rewrite Hfs, doc_insert, decide_False by naive_solver. done.
  - exists t. split_and!; [done|done|by apply Hk2; [apply hashOf_digest|]|by eapply entries_kept|done].
  - by eapply in_checkpoint_kept.
  - exists v'. split_and!; [by rewrite (vm_local w1 w2)|done|by eapply based_kept].
  - etrans; [exact Ho|]. by apply spares_local.
  - intros h x Hh Hx. by apply Hk2, Hb.
  - intros q H1' H2' H3' H4'. rewrite Hfs, lookup_insert_ne by done. by apply Hfr.
Qed.

(** The machine, its guest and their bytes, before a step is recorded. *)
Record machine_here s v σ (d : path) w b : Prop := {
  mh_vm : vm_at (w, b) (s_ID s) = Some v;
  mh_in : vm_in U v;
  mh_based : based r (w_fs w) v;
  mh_guest : guest_has (w, b) (s_ID s) σ d;
  mh_files : listable U d σ;
  mh_tree : ∀ t, snapshot_of None d σ t → U (json_Marshal t)
}.

(** The checkpoint before the machine is captured: its tree is put away. *)
Record prepared s (cmd : list string) (code : Z) (σ : fs) (d : path) w b (c : Checkpoint) w1 b1 : Prop := {
  pr_filed : filed w w1;
  pr_unmoved : unmoved (w, b) (w1, b1);
  pr_id : new_id "ck-" (c_ID c);
  pr_fields : c_Sandbox c = s_ID s ∧ c_Seq c = s_Steps s ∧ c_Parent c = s_Head s ∧ c_Command c = cmd ∧ c_ExitCode c = code ∧
    c_Note c = "" ∧ ∃ n, c_Created c = clock n;
  pr_image : c_DiskHash c = "" ∧ c_BaseHash c = "";
  pr_tree : ∃ t, snapshot_of None d σ t ∧ c_TreeHash c = hashOf (json_Marshal t) ∧
    stored (w_fs w1) (r_cas r) (json_Marshal t) ∧ Forall (entry_stored (r_cas r) (w_fs w1)) (t_Entries t) ∧
    ∀ p, parent_is (w_fs w) r s p →
      c_Added c = count_kind added (Diff p t) ∧ c_Modified c = count_kind modified (Diff p t) ∧
      c_Deleted c = count_kind deleted (Diff p t)
}.

Lemma wp_prepare N s cmd code v σ d w b (Q : gerr + Checkpoint → world * B → Prop) :
  machine_ready N s w → machine_here s v σ d w b →
  (∀ c w1 b1, prepared s cmd code σ d w b c w1 b1 →
     wp (c' ← captureMachine r s c; on_fst (SaveCheckpoint r c');; mret c') Q (w1, b1)) →
  wp (checkpoint r s (Some cmd) code "") Q (w, b).
Proof.
  intros Hr [Hv Hin Hb Hg Hgi HU] HQ. destruct (ready_parts _ _ _ Hr) as (Hq & _ & _ & _ & Hc & _ & Hap & _ & Hh). unfold checkpoint. wp_step.
  eapply wp_mono; [by apply (wp_guest_tree N s v σ d)|]. intros x [w1 b1] (t & -> & Hsn & Hf1 & Hu1 & Hes). cbn [fst] in *.
  pose proof (ready_filed _ _ _ _ Hr Hf1) as Hr1. destruct (ready_parts _ _ _ Hr1) as (_ & Hl1 & Hm1 & Hs1 & _).
  wp_step. wp_step. wp_use (grows_Put U (r_cas r) (json_Marshal t) w1); [done|by apply HU|].
  intros x w2 Hg2. destruct (filed_grows _ _ _ _ Hl1 Hm1 Hg2) as (Hf2 & h & -> & -> & Hst2).
  assert (∀ q, area q → w_fs w2 !! q = w_fs w1 !! q) as Ha2 by (eapply filed_store_area; [done|done|apply Hg2]).
  assert (filed w w2) as Hf12 by by etrans. pose proof (ready_filed _ _ _ _ Hr Hf12) as Hr2.
  destruct (ready_parts _ _ _ Hr2) as (_ & Hl2 & Hm2 & Hs2 & _ & _ & _ & Hrw2 & _).
  wp_step. wp_step. wp_use wp_parent_tree; [done|apply Hs2|apply Hr2|done|].
  intros x w3 (Hfs3 & Hz3 & p & -> & Hpar). specialize (Hpar Hq). wp_step. wp_step. apply wp_newID. intros id Hid.
  wp_step. wp_step. apply wp_time_Now. apply HQ. split; try done.
  - etrans; [exact Hf12|]. by apply filed_same.
  - etrans; [exact Hu1|]. apply unmoved_local. intros q Hq'. simpl. by rewrite Hfs3, Ha2.
  - split_and!; try done. by eexists.
  - exists t. simpl. rewrite Hfs3. split_and!; [done|done|done| |].
    + eapply entries_kept; [exact (rk_keep _ _ _ _ (fl_kept _ _ Hf2))|done].
    + intros p' Hp'. assert (p' = p) as ->; [|done]. rewrite Hpar. symmetry.
      eapply head_tree_kept; [done|exact (fl_kept _ _ Hf12)|apply Hr|done|done].
Qed.

Lemma wp_machine_checkpoint N s cmd code v σ d w b :
  machine_ready N s w → machine_here s v σ d w b →
  wp (checkpoint r s (Some cmd) code "") (λ x wb, ∃ c, x = inr c ∧ machine_logged N s cmd code σ d v w b c wb) (w, b).
Proof.
  intros Hr Hhere. apply (wp_prepare N s cmd code v σ d w b _ Hr Hhere). destruct Hhere as [Hv Hin Hb _ _ _].
  destruct (ready_parts _ _ _ Hr) as (Hq & _ & _ & _ & Hc & _ & Hap & _).
  intros c w5 b1 [Hf Hu Hid Hfields [Hd0 Hb0] (t & Hsn & Hth & Hst & Hes & Hcnt)]. wp_step.
  pose proof (ready_filed _ _ _ _ Hr Hf) as Hr5. pose proof (rk_keep _ _ _ _ (fl_kept _ _ Hf)) as Hk5.
  assert (vm_at (w5, b1) (s_ID s) = Some v) as Hv5 by by rewrite (proj1 Hu).
  eapply wp_mono; [apply (wp_captureMachine U mb r is_memory N s c v w5 b1 (mr_capture _ _ _ Hr5)); try done; by eapply based_kept|].
  intros x [w6 b6] (c' & [-> Hic (m & st & dk & Hset) Hk6 Hci6 Ho6 Hsp6 (v6 & Hv6 & Hsame6 & Hbase6)]). cbn [fst] in *.
  assert (good_id (c_ID c)) as Hgid by (eapply (new_id_good "ck-"); done).
  assert (repo_wf r (w_fs w6)) as Hrw6 by (eapply (repo_wf_kept U r (w_fs w5)); [apply Hr5|done]).
  assert (c_ID c' = c_ID c) as Hid' by by rewrite Hset.
  wp_step. wp_step. unfold SaveCheckpoint. rewrite Hid'.
  wp_use (wp_putJSON r "checkpoints" (c_ID c) c'); [done|right; left|done|]. intros x w7 (Hz7 & Hx). cbn [fst] in *.
  destruct x as [e|[]]; [by destruct Hx|]. destruct Hx as (f & Hf7 & Hfs7).
  destruct (doc_written N "checkpoints" (c_ID c) f w6 w7 Hci6 Hrw6 Hap) as (Hci7 & Hrw7 & Hk7 & Ha7); [right; left|done|done|done|].
  assert (keeps_blobs r (w_fs w5) (w_fs w7)) as Hk57 by (intros hh xx H1' H2'; apply Hk7, (rk_keep _ _ _ _ Hk6); done).
  wp_step. exists c'. split; [done|]. split; cbn [fst]; try done.
  - by rewrite Hid'.
  - by rewrite Hset.
  - by rewrite Hid', Hfs7, doc_insert, decide_True, Hf7.
  - exists t. split_and!; [done|by rewrite Hset|by apply Hk57; [apply hashOf_digest|]|by eapply entries_kept|by rewrite Hset].
  - eapply in_checkpoint_kept; [exact Hk7|exact Hic].
  - exists v6. split_and!; [by rewrite (vm_local w6 w7)|done|]. intros n old Hno. rewrite Hbase6 in Hno. injection Hno as <- <-.
    destruct Hic as [(? & ? & ?) _ _ _]. split; [done|]. eapply stored_image_kept; [exact Hk7|done].
  - assert (spares vm_at can_hold (s_ID s) (w, b) (w5, b1)) as Hsp5 by (split; [intros i _|]; apply Hu).
    etrans; [exact Hsp5|]. etrans; [exact Hsp6|]. by apply spares_local.
  - intros hh xx H1' H2'. by apply Hk57, Hk5.
  - intros q H1' H2' H3' _. rewrite Hid' in H3'. rewrite Hfs7, lookup_insert_ne by done. rewrite <- (fl_frame _ _ Hf) by done.
    destruct (decide (below (r_root r) q)); [by apply (rk_frame _ _ _ _ Hk6)|]. apply Ho6; [done|done|tauto].
Qed.

(** ** A checkpoint that has a machine *)

Record machine_kept N v (c : Checkpoint) (t : Tree) w : Prop := {
  mk_cache : cache_inv U r N w;
  mk_apart : apart mb r;
  mk_readable : readable U r (w_fs w) c t;
  mk_shape : tree_ok t;
  mk_entries : Forall (entry_stored (r_cas r) (w_fs w)) (t_Entries t);
  mk_vm : in_checkpoint U r (w_fs w) v c;
  mk_names : vm_names v ⊆ N;
  mk_resumable : resumable v
}.

Lemma readable_kept σ σ' c t :
  readable U r σ c t → repo_wf r σ' → store_inv U (r_cas r) σ' → keeps_blobs r σ σ' →
  doc σ' r "checkpoints" (c_ID c) = doc σ r "checkpoints" (c_ID c) → readable U r σ' c t.
Proof.
  intros [_ _ Hid Hl Hd Ht] Hrw Hs Hk Hdoc. split; try done.
  - unfold load in *. by rewrite Hdoc.
  - unfold tree_at in *. apply bind_Some in Ht as (x & Hx & Ht). by rewrite (Hk _ x).
Qed.

Lemma kept_step N v c t w w' :
  machine_kept N v c t w → cache_inv U r N w' → repo_wf r (w_fs w') → keeps_blobs r (w_fs w) (w_fs w') →
  doc (w_fs w') r "checkpoints" (c_ID c) = doc (w_fs w) r "checkpoints" (c_ID c) → machine_kept N v c t w'.
Proof.
  intros [Hci Hap Hre Hok Hes Hic HN Hres] Hci' Hrw' Hk Hdoc. split; try done.
  - eapply readable_kept; [done|done|apply Hci'|done|done].
  - by eapply entries_kept.
  - by eapply in_checkpoint_kept.
Qed.

(** Paths of the repository that no image is at. *)
Lemma image_frame w w' d k :
  r_cas r = r_root r ++ ["blobs"] → apart mb r → image_step mb r w w' → d ∈ repo_dirs → d ≠ "blobs" →
  w_fs w' !! ((r_root r ++ [d]) ++ k) = w_fs w !! ((r_root r ++ [d]) ++ k).
Proof.
  intros Hc Hap Hi Hd Hne. apply (is_frame _ _ _ _ Hi); [|rewrite Hc; intros [k' Hk]..|intros [k' Hk]].
  - intros Ha. apply (ap_repo _ _ Hap _ Ha). rewrite <- app_assoc. by eexists.
  - rewrite <- !app_assoc in Hk. apply app_inv_head in Hk. by simplify_eq/=.
  - unfold cache_dir in Hk. rewrite <- !app_assoc in Hk. apply app_inv_head in Hk. simplify_eq/=. set_unfold in Hd. naive_solver.
Qed.

Lemma doc_dir_repo d : d ∈ doc_dirs → d ∈ repo_dirs ∧ d ≠ "blobs".
Proof. intros Hd. split; [by apply doc_dirs_sub|]. intros ->. set_unfold in Hd. naive_solver. Qed.

Lemma image_doc w w' d id :
  r_cas r = r_root r ++ ["blobs"] → apart mb r → image_step mb r w w' → d ∈ doc_dirs →
  doc (w_fs w') r d id = doc (w_fs w) r d id.
Proof. intros Hc Hap Hi [Hd Hne]%doc_dir_repo. unfold doc, doc_file. by rewrite (image_frame w w'). Qed.

Lemma image_repo N w w' : repo_wf r (w_fs w) → cache_inv U r N w' → apart mb r → image_step mb r w w' → repo_wf r (w_fs w').
Proof.
  intros [Hfs Hcas Hdirs Hdocs] Hci Hap Hi. split; [apply Hi|done|..].
  - intros d Hd. destruct (decide (d = "blobs")) as [->|Hne]; [rewrite <- Hcas; apply Hci|].
    destruct (Hdirs d Hd) as [m Hm]. exists m. rewrite <- (app_nil_r (_ ++ [d])), (image_frame w w') by done. by rewrite app_nil_r.
  - intros d x n Hd. destruct (doc_dir_repo d Hd) as [Hd' Hne]. rewrite (image_frame w w') by done. by apply Hdocs.
Qed.

Lemma image_named w w' : r_cas r = r_root r ++ ["blobs"] → apart mb r → image_step mb r w w' →
  trees_named (w_fs w) r → trees_named (w_fs w') r.
Proof.
  intros Hc Hap Hi Hn id x Hid Hl. apply (Hn id x Hid). unfold load in *. by rewrite (image_doc w w') in Hl by (done || (right; left)).
Qed.

(** The place of temporary directories is outside of all of it. *)
Lemma temp_outside N s w t : capture_pre U mb r N s w → ¬ below (r_root r) (tempdir ++ [temp_name "vit-snap-" t]).
Proof.
  intros [Hci _ _ Hap _ Hfree] Hb. eapply (temp_apart mb r (w_fs w) t); [apply Hci|apply Hci|done|apply Hfree|exact Hb|apply self_below].
Qed.

Lemma ready_image N s w w' : machine_ready N s w → cache_inv U r N w' → image_step mb r w w' → machine_ready N s w'.
Proof.
  intros Hr Hci' Hi. destruct (ready_parts _ _ _ Hr) as (_ & _ & _ & _ & Hc & _ & Hap & Hrw & Hh).
  assert (∀ q, ¬ area q → ¬ below (r_root r) q → w_fs w' !! q = w_fs w !! q) as Ho.
  { intros q H1' H2'. apply (is_frame _ _ _ _ Hi); [done|..]; intros Hx; apply H2'; [by apply root_below_cas|by apply below_cache]. }
  split; [|eapply image_named; [done|done|exact Hi|apply Hr]]. pose proof (mr_capture _ _ _ Hr) as Hcp. split; try done.
  - by eapply image_repo.
  - destruct (cp_temp _ _ _ _ _ _ Hcp) as [m Hm]. exists m. rewrite Ho; [done|exact (ap_temp _ _ Hap)|exact (ap_out _ _ Hap)].
  - intros t. rewrite Ho; [apply Hcp| |by eapply temp_outside]. apply (ap_snap _ _ Hap t), self_below.
Qed.

(** ** Making sure the machine runs *)

Definition stopped s w b : Prop := ∃ w', Running (MemoryBackend := mb) (s_ID s) (w, b) = (Ok false, (w', b)) ∧ w_fs w' = w_fs w ∧ w_zero w' = w_zero w.

(** The machine a step starts from: the one that runs, or the head's. *)
Definition starts N s v w b : Prop :=
  (vm_at (w, b) (s_ID s) = Some v ∧ based r (w_fs w) v) ∨
  (stopped s w b ∧ can_hold (w, b) (s_ID s) ∧ ∃ c t, s_Head s ≠ "" ∧ s_Head s = c_ID c ∧ machine_kept N v c t w).

Lemma wp_ensureMachine N s v w b :
  machine_ready N s w → starts N s v w b →
  wp (ensureMachine r s) (λ x wb, x = inr tt ∧ machine_ready N s wb.1 ∧ spares vm_at can_hold (s_ID s) (w, b) wb ∧
    image_step mb r w wb.1 ∧ ∃ v', vm_at wb (s_ID s) = Some v' ∧ same_vm v v' ∧ based r (w_fs wb.1) v') (w, b).
Proof.
  intros Hr Hst. destruct (ready_parts _ _ _ Hr) as (Hq & Hl & Hm & Hs & Hc & Hwf & Hap & Hrw & Hh). unfold ensureMachine. rewrite is_memory. wp_step.
  assert (∀ w', w_fs w' = w_fs w → w_zero w' = w_zero w → machine_ready N s w' ∧ spares vm_at can_hold (s_ID s) (w, b) (w', b) ∧ image_step mb r w w') as Hsame.
  { intros w' Hf Hz. split_and!; [by eapply ready_filed, filed_same|apply spares_local; by rewrite Hf|]. split; rewrite ?Hf; try done. by intros ? ? ?. }
  destruct Hst as [[Hv Hbs]|((w' & Hrun & Hfs & Hz) & Hcan & c & t & Hne & Hhd & Hmk)].
  { destruct (vm_Running w b (s_ID s) v Hv) as (w' & Hrun & Hfs & Hz). unfold wp at 1. rewrite Hrun.
    destruct (Hsame w' Hfs Hz) as (? & ? & ?). wp_step. split_and!; try done. exists v. split_and!; [|done|simpl; by rewrite Hfs]. rewrite (vm_local w w'); [done|]. by rewrite Hfs. }
  unfold wp at 1. rewrite Hrun, decide_False by done. pose proof (mk_readable _ _ _ _ _ Hmk) as [_ _ Hgid Hld Hdg Htr]. rewrite Hhd.
  wp_step. wp_step. wp_use wp_GetCheckpoint; [by rewrite Hfs|done|]. rewrite Hfs, Hld. intros [e|c'] w1 (Hfs1 & Hz1 & Hx); [by specialize (Hx Hq)|].
  injection Hx as <-. wp_step. wp_step. wp_use wp_loadTree; [rewrite Hfs1; apply Hs|done|]. rewrite Hfs1.
  intros [e|t'] w2 (Hfs2 & Hz2 & Hx); [by rewrite Hx in Htr|].
  assert (w_fs w2 = w_fs w) as Hfw by congruence. destruct (Hsame w2 Hfw ltac:(congruence)) as (Hr2 & Hsp2 & His2).
  eapply wp_mono.
  { apply (wp_bringUp U mb r is_memory N (s_ID s) c v t' w2 b); [apply Hr2|done|rewrite Hfw; apply Hmk|apply Hmk|apply Hmk|by apply Hsp2]. }
  intros x [w3 b3] (-> & Hci3 & His3 & Hsp3 & v' & Hv' & Hsm & Hbs). cbn [fst] in *. split_and!; [done|by eapply ready_image|by etrans| |by exists v'].
  destruct His3 as [? Hk Hf]. rewrite Hfw in Hk, Hf. by split.
Qed.

End steps.
