(* ===== verification/FakeSpec.v ===== *)
(** * The fake machine keeps the promises of a machine

    [FakeMachine] is a backend in the sense of [MachineSpec] and [GuestSpec]:
    a snapshot holds the memory, the vcpu state and the packed guest directory,
    a difference overlays the base, and a machine resumed from an image has the
    memory and the files of the one it was taken of. *)

From S2P Require Import Prelude Sha256 Json Codec Base64 Os OsFacts WalkFacts Cas Chunked Tree TreeFacts Snap SnapFacts SnapProps Backend FakeMachine FakeProps PackFacts RepoFacts MachineFacts MachineSteps Checks.
Import Json Base64 Cas Chunked Tree Backend FakeMachine.
Open Scope Z_scope.

(** ** Deciding that a directory can be packed *)

Definition tidy_node (cs : path) (n : node) : Prop :=
  match n with NDir _ | NFile _ => True | _ => False end ∧ Forall (λ c, has_char slash c = false) cs ∧
  valid_utf8 (to_bytes (join_with "/" cs)) = true.
Definition tidy_below (dir : path) (kv : path * node) : Prop :=
  match under dir kv.1 with Some cs => tidy_node cs kv.2 | None => True end.
#[global] Instance tidy_node_dec cs n : Decision (tidy_node cs n).
Proof. unfold tidy_node. destruct n; apply _. Defined.
#[global] Instance tidy_below_dec dir kv : Decision (tidy_below dir kv).
Proof. unfold tidy_below. destruct (under dir kv.1); apply _. Defined.

Lemma under_some dir q cs : under dir q = Some cs → q = dir ++ cs.
Proof. unfold under. case_decide as Hd; [|done]. intros [= <-]. rewrite <- Hd at 1. by rewrite take_drop. Qed.

Definition tidy_b (dir : path) (σ : fs) : bool := dir_b σ dir && bool_decide (Forall (tidy_below dir) (map_to_list σ)).

Lemma tidy_b_ok dir σ : tidy_b dir σ = true ↔ tidy dir σ.
Proof.
  unfold tidy_b. rewrite andb_true_iff, bool_decide_eq_true, Forall_forall. split.
  - intros [Hd%dir_b_ok Hf]. assert (∀ cs n, σ !! (dir ++ cs) = Some n → tidy_node cs n) as Hn.
    { intros cs n Hn. specialize (Hf (dir ++ cs, n)). rewrite elem_of_map_to_list in Hf. specialize (Hf Hn).
      unfold tidy_below in Hf. cbn [fst snd] in Hf. by rewrite under_app in Hf. }
    split; [done|..].
    + intros cs n (Hk & _)%Hn. destruct n; try done; [right; by eexists|by left].
    + intros cs [n (_ & Hs & _)%Hn]. done.
    + intros cs [n (_ & _ & Hu)%Hn]. done.
  - intros [[m Hm] Hk Hs Hu]. split; [unfold dir_b; by rewrite Hm|]. intros [q n] Hq%elem_of_map_to_list. unfold tidy_below. cbn [fst snd].
    destruct (under dir q) as [cs|] eqn:E; [|done]. apply under_some in E as ->. split_and!.
    + destruct (Hk cs n Hq) as [Hd|[f ->]]; [by destruct n|done].
    + apply Hs. by eexists.
    + apply Hu. by eexists.
Qed.

#[global] Instance tidy_dec dir σ : Decision (tidy dir σ).
Proof. destruct (tidy_b dir σ) eqn:E; [left; by apply tidy_b_ok|right; rewrite <- tidy_b_ok; congruence]. Defined.
#[global] Instance whole_dec b : Decision (whole b).
Proof. unfold whole. apply _. Defined.
#[global] Instance is_dir_dec σ p : Decision (is_dir σ p).
Proof. unfold is_dir. destruct (σ !! p) as [[|m| |]|]; [right; by intros []|left; by exists m|right; by intros []..]. Defined.

(** ** The machine behind an identifier *)

Section fake_spec.
Context `{OsEnv, GoRuntime} (root : path) (root_good : Forall good_name root).
Implicit Types (w : world) (b : fake) (v : vm).

Definition machine_id (id : string) : Prop := good_name id ∧ has_char slash id = false.
#[global] Instance machine_id_dec id : Decision (machine_id id).
Proof. unfold machine_id, good_name. apply _. Defined.

(** The directory of a machine's guest. *)
Definition home (id : string) : path := root ++ [id; "work"].
Lemma home_dir id : machine_id id → guest_dir root id = home id.
Proof.
  intros [Hg Hs]. unfold guest_dir. rewrite (join_good root id) by done. rewrite join_good by done. unfold home. by rewrite <- app_assoc.
Qed.

Definition dir_or_absent (σ : fs) (p : path) : Prop := match σ !! p with Some (NDir _) | None => True | _ => False end.
#[global] Instance dir_or_absent_dec σ p : Decision (dir_or_absent σ p).
Proof. unfold dir_or_absent. destruct (σ !! p) as [[]|]; apply _. Defined.

Definition whole_if (m : option buf) : Prop := match m with Some i => whole i | None => True end.
#[global] Instance whole_if_dec m : Decision (whole_if m).
Proof. destruct m; unfold whole_if; apply _. Defined.

(** There is room for the machine [id]. *)
Definition fake_room (x : world * fake) (id : string) : Prop :=
  machine_id id ∧ is_dir (w_fs x.1) root ∧ dir_or_absent (w_fs x.1) (root ++ [id]) ∧ dir_or_absent (w_fs x.1) (home id) ∧
  whole_if (lastSnap x.2 !! id).
(** It runs, its memory fits an image, and its guest can be packed. *)
Definition fake_up (x : world * fake) (id : string) (r : bytes) : Prop :=
  fake_room x id ∧ (length r ≤ room)%nat ∧ whole_if (baseImg x.2 !! id) ∧ tidy (home id) (w_fs x.1).
#[global] Instance fake_room_dec x id : Decision (fake_room x id).
Proof. unfold fake_room. apply _. Defined.
#[global] Instance fake_up_dec x id r : Decision (fake_up x id r).
Proof. unfold fake_up. apply _. Defined.

Definition fake_vm (x : world * fake) (id : string) (r : bytes) : vm := mkVm
  (b_data (memImage r)) (to_bytes "fake-vcpu-state") (Some (files_json (files_below (home id) (w_fs x.1))))
  (n ← base x.2 !! id; i ← baseImg x.2 !! id; Some (n, b_data i)) (b_data <$> lastSnap x.2 !! id).
Definition fake_vm_at (x : world * fake) (id : string) : option vm :=
  r ← ram x.2 !! id; if decide (fake_up x id r) then Some (fake_vm x id r) else None.

Definition fake_area (q : path) : Prop := below root q.

Definition fake_resumable v : Prop := ∃ r dir σ, (length r ≤ room)%nat ∧ fs_wf σ ∧ tidy dir σ ∧
  v_mem v = b_data (memImage r) ∧ v_state v = to_bytes "fake-vcpu-state" ∧ v_disk v = Some (files_json (files_below dir σ)).

Lemma fake_vm_at_some x id v : fake_vm_at x id = Some v ↔ ∃ r, ram x.2 !! id = Some r ∧ fake_up x id r ∧ v = fake_vm x id r.
Proof.
  unfold fake_vm_at. destruct (ram x.2 !! id) as [r|]; cbn [mbind option_bind]; [|split; [done|by intros (r & [=] & _)]].
  case_decide as Hd.
  - split; [intros [= <-]; by exists r|]. by intros (r' & [= <-] & _ & ->).
  - split; [done|]. by intros (r' & [= <-] & ? & _).
Qed.

(** What the machine [id] is made of: files, and entries of the state. *)
Definition near (id : string) (q : path) : Prop := q = root ∨ q = root ++ [id] ∨ below (home id) q.
Definition same_files_at (id : string) w w' : Prop := ∀ q, near id q → w_fs w' !! q = w_fs w !! q.
Record same_entries (id : string) b b' : Prop := {
  sn_ram : ram b' !! id = ram b !! id;
  sn_base : base b' !! id = base b !! id;
  sn_baseImg : baseImg b' !! id = baseImg b !! id;
  sn_lastSnap : lastSnap b' !! id = lastSnap b !! id
}.

Lemma near_area id q : near id q → fake_area q.
Proof. unfold near, fake_area, home. intros [->|[->|[k ->]]]; [done|by eexists|rewrite <- app_assoc; by eexists]. Qed.

Lemma area_same w w' id : (∀ q, fake_area q → w_fs w' !! q = w_fs w !! q) → same_files_at id w w'.
Proof. intros Ha q Hq. by eapply Ha, near_area. Qed.

Lemma fake_room_same w w' b b' id :
  same_files_at id w w' → lastSnap b' !! id = lastSnap b !! id → fake_room (w, b) id → fake_room (w', b') id.
Proof.
  intros Ha Hl (Hid & [m Hm] & H1 & H2 & H3). cbn [fst snd] in *. unfold fake_room, dir_or_absent in *. cbn [fst snd].
  rewrite (Ha (root ++ [id])) by (right; by left). rewrite (Ha (home id)) by (right; by right). rewrite Hl.
  split_and!; [done| |done|done|done]. exists m. rewrite Ha; [done|by left].
Qed.

Lemma fake_up_same w w' b b' id r :
  same_files_at id w w' → same_entries id b b' → fake_up (w, b) id r → fake_up (w', b') id r.
Proof.
  intros Ha [_ _ Hbi Hl] (Hr & Hlen & Hw & Ht). split_and!; [by eapply fake_room_same|done|cbn [snd] in *; by rewrite Hbi|].
  eapply tidy_agree; [|exact Ht]. intros q Hq. apply Ha. right. by right.
Qed.

Lemma fake_vm_same w w' b b' id r :
  same_files_at id w w' → same_entries id b b' → fake_vm (w', b') id r = fake_vm (w, b) id r.
Proof.
  intros Ha [_ Hb Hbi Hl]. unfold fake_vm. cbn [fst snd]. rewrite Hb, Hbi, Hl. do 3 f_equal.
  apply files_below_agree. intros q Hq. apply Ha. right. by right.
Qed.

Lemma same_files_sym id w w' : same_files_at id w w' → same_files_at id w' w.
Proof. intros Ha q Hq. by rewrite Ha. Qed.
Lemma same_entries_sym id b b' : same_entries id b b' → same_entries id b' b.
Proof. by intros [H1 H2 H3 H4]; split. Qed.

Lemma fake_vm_at_same w w' b b' id :
  same_files_at id w w' → same_entries id b b' → fake_vm_at (w', b') id = fake_vm_at (w, b) id.
Proof.
  intros Ha Hs. apply option_eq. intros v. rewrite !fake_vm_at_some. cbn [snd]. rewrite (sn_ram _ _ _ Hs).
  split; intros (r & Hr & Hu & ->); exists r; (split_and!; [done| |]).
  - eapply fake_up_same; [by apply same_files_sym|by apply same_entries_sym|done].
  - by apply fake_vm_same.
  - by eapply fake_up_same.
  - symmetry. by apply fake_vm_same.
Qed.

(** Nothing of the machines changes but the entry of [id]. *)
Lemma fake_spares id w w' b b' :
  (∀ i, i ≠ id → same_files_at i w w' ∧ same_entries i b b') → (fake_room (w, b) id → fake_room (w', b') id) →
  spares fake_vm_at fake_room id (w, b) (w', b').
Proof.
  intros Hs Hr. split.
  - intros i Hi. destruct (Hs i Hi). by apply fake_vm_at_same.
  - intros i Hi. destruct (decide (i = id)) as [->|Hne]; [by apply Hr|]. destruct (Hs i Hne) as [Hf He].
    eapply fake_room_same; [exact Hf|apply He|exact Hi].
Qed.

Lemma same_refl id w : same_files_at id w w.
Proof. by intros q _. Qed.

Lemma room_way w b id : fs_wf (w_fs w) → fake_room (w, b) id → Forall good_name (home id) ∧ home id ≠ [] ∧ way (w_fs w) (home id).
Proof.
  intros Hwf ((Hg & Hs) & [m Hm] & H1 & H2 & _). cbn [fst] in *. unfold home. split_and!.
  - apply Forall_app. split; [done|]. repeat constructor; try done; apply Hg.
  - by destruct root.
  - intros q n Hq Hn. change [id; "work"] with ([id] ++ ["work"]) in *. rewrite app_assoc in *.
    apply prefix_snoc in Hq as [->|Hq]; [unfold dir_or_absent, home in H2; rewrite <- app_assoc in Hn; cbn [app] in Hn; rewrite Hn in H2; by destruct n|].
    apply prefix_snoc in Hq as [->|Hq]; [unfold dir_or_absent in H1; rewrite Hn in H1; by destruct n|].
    destruct Hq as [k Hk]. destruct (decide (k = [])) as [->|Hne]; [rewrite app_nil_r in Hk; rewrite <- Hk, Hm in Hn; by injection Hn as <-|].
    destruct (fs_wf_up (w_fs w) q k Hwf Hne) as [m' Hm']; [rewrite <- Hk, Hm; by eexists|]. rewrite Hm' in Hn. by injection Hn as <-.
Qed.

(** ** Snapshots *)

Definition fake_differs (b : fake) (id bs : string) : bool :=
  bool_decide (bs ≠ "") && bool_decide (default "" (base b !! id) = bs) && bool_decide (is_Some (baseImg b !! id)).

Lemma fake_differs_true b id bs : fake_differs b id bs = true → bs ≠ "" ∧ base b !! id = Some bs ∧ is_Some (baseImg b !! id).
Proof.
  unfold fake_differs. rewrite !andb_true_iff, !bool_decide_eq_true. intros [[Hne Hb] Hi]. split_and!; [done| |done].
  destruct (base b !! id); cbn in Hb; congruence.
Qed.

(** The memory of a snapshot. *)
Lemma wp_fake_mem dir img prev (diff : bool) w b :
  quiet → fs_wf (w_fs w) → is_dir (w_fs w) dir → w_fs w !! (dir ++ ["mem"]) = None → whole img → (diff = true → whole prev) →
  wp (if diff then on_fst (write_diff (dir ++ ["mem"]) img prev) else on_fst (os_WriteFile (dir ++ ["mem"]) (b_data img) o600))
    (λ x wb, x = inr tt ∧ wb.2 = b ∧ w_zero wb.1 = w_zero w ∧ ∃ f, w_fs wb.1 = <[dir ++ ["mem"] := NFile f]> (w_fs w) ∧
      if diff then f_cells f = cells_to img prev 16 else contents f = b_data img) (w, b).
Proof.
  intros Hq Hwf Hd Hn Hi Hp. destruct diff.
  - wp_step. eapply wp_mono; [apply wp_write_diff; try done; [by apply Hp|by rewrite Hn]|]. intros x w1 (-> & Hz & f & Hfs & Hf).
    split_and!; [done..|]. by exists f.
  - wp_step. eapply wp_mono; [apply wp_WriteFile; try done; by rewrite Hn|]. intros x w1 [Hz Hx]. destruct x as [e|[]]; [by destruct Hx|].
    destruct Hx as (f & Hf & Hfs). split_and!; [done..|]. by exists f.
Qed.

Lemma wp_fake_write dir c data w b :
  quiet → fs_wf (w_fs w) → is_dir (w_fs w) dir → good_name c → w_fs w !! (dir ++ [c]) = None →
  wp (on_fst (os_WriteFile (dir ++ [c]) data o600))
    (λ x wb, x = inr tt ∧ wb.2 = b ∧ w_zero wb.1 = w_zero w ∧ ∃ f, w_fs wb.1 = <[dir ++ [c] := NFile f]> (w_fs w) ∧ contents f = data) (w, b).
Proof.
  intros Hq Hwf Hd Hc Hn. wp_step. eapply wp_mono; [apply wp_WriteFile; try done; by rewrite Hn|]. intros x w1 [Hz Hx].
  destruct x as [e|[]]; [by destruct Hx|]. destruct Hx as (f & Hf & Hfs). split_and!; [done..|]. by exists f.
Qed.

(** A new file in a directory. *)
Lemma put_kept σ dir c f : fs_wf σ → is_dir σ dir → good_name c → σ !! (dir ++ [c]) = None →
  fs_wf (<[dir ++ [c] := NFile f]> σ) ∧ is_dir (<[dir ++ [c] := NFile f]> σ) dir ∧
  (∀ c', c' ≠ c → <[dir ++ [c] := NFile f]> σ !! (dir ++ [c']) = σ !! (dir ++ [c'])) ∧
  ∀ q, ¬ (below dir q ∧ q ≠ dir) → <[dir ++ [c] := NFile f]> σ !! q = σ !! q.
Proof.
  intros Hwf Hd Hc Hn. assert (dir ++ [c] ≠ dir) as Hne by (intros Hx; apply (f_equal length) in Hx; rewrite length_app in Hx; cbn in Hx; lia).
  split_and!.
  - apply fs_wf_insert; try done. intros [m Hm]. congruence.
  - destruct Hd as [m Hm]. exists m. by rewrite lookup_insert_ne.
  - intros c' Hc'. rewrite lookup_insert_ne; [done|]. intros [=]%(inj (app dir)). congruence.
  - intros q Hq. rewrite lookup_insert_ne; [done|]. intros <-. apply Hq. split; [by eexists|done].
Qed.

Lemma wp_get_fake (Q : gerr + fake → world * fake → Prop) w b : Q (inr b) (w, b) → wp get_fake Q (w, b).
Proof. done. Qed.
Lemma wp_set_fake g (Q : gerr + unit → world * fake → Prop) w b : Q (inr tt) (w, g b) → wp (set_fake g) Q (w, b).
Proof. done. Qed.

(** The state after a snapshot of [id]. *)
Definition snapped (b : fake) (id : string) (img : buf) (diff : bool) : fake :=
  mkFake (ram b) (base b) (baseImg b) (<[id := img]> (lastSnap b)) (if diff then Diffs b + 1 else Diffs b).

Lemma wp_fake_Snapshot id dir bs r w b :
  quiet → ram b !! id = Some r → fake_up (w, b) id r → fs_wf (w_fs w) → is_dir (w_fs w) dir → (∀ c, w_fs w !! (dir ++ [c]) = None) →
  (∀ q, below dir q → ¬ fake_area q) →
  wp (fm_Snapshot root id dir bs) (λ x wb, ∃ img, x = inr img ∧ stays (λ q, below dir q ∧ q ≠ dir) w wb.1 ∧
    shows (w_fs wb.1) dir bs (fake_vm (w, b) id r) img ∧ i_MemoryIsDiff img = fake_differs b id bs ∧
    wb.2 = snapped b id (memImage r) (fake_differs b id bs)) (w, b).
Proof.
  intros Hq Hr Hup Hwf Hd Hfree Hap. pose proof Hup as ((Hid & _) & _ & Hbi & Ht). cbn [fst snd] in *.
  unfold fm_Snapshot. wp_step. apply wp_get_fake. fold (fake_differs b id bs). rewrite Hr. cbn [default]. wp_step. apply wp_set_fake.
  fold (snapped b id (memImage r) (fake_differs b id bs)). set (b1 := snapped b id (memImage r) (fake_differs b id bs)).
  set (prev := default (mkBuf [] []) (baseImg b !! id)).
  assert (fake_differs b id bs = true → whole prev) as Hprev.
  { intros (_ & _ & i & Hi)%fake_differs_true. unfold prev. rewrite Hi in Hbi |- *. exact Hbi. }
  rewrite !(join_good dir) by done. rewrite home_dir by done. wp_step.
  eapply wp_mono; [apply (wp_fake_mem dir (memImage r) prev (fake_differs b id bs) w b1); try done; apply image_whole|].
  intros x [w1 b1'] (-> & Hb1 & Hz1 & f1 & Hf1 & Hm). cbn [fst snd] in *. subst b1'.
  destruct (put_kept (w_fs w) dir "mem" f1) as (Hwf1 & Hd1 & Hc1 & Ho1); [done..|]. rewrite <- Hf1 in *.
  wp_step. eapply wp_mono; [apply (wp_fake_write dir "state"); try done; by rewrite Hc1|]. intros x [w2 b2'] (-> & Hb2 & Hz2 & f2 & Hf2 & Hs). cbn [fst snd] in *. subst b2'.
  destruct (put_kept (w_fs w1) dir "state" f2) as (Hwf2 & Hd2 & Hc2 & Ho2); [done..|by rewrite Hc1|]. rewrite <- Hf2 in *.
  assert (∀ q, below (home id) q → w_fs w2 !! q = w_fs w !! q) as Hhome.
  { intros q Hq'. assert (¬ (below dir q ∧ q ≠ dir)) as Hn; [|by rewrite Ho2, Ho1]. intros [Hb _]. eapply Hap; [exact Hb|]. eapply near_area. right. by right. }
  wp_step. wp_step. eapply wp_mono; [apply wp_packDir; [done|done|by eapply tidy_agree]|]. intros x w3 (-> & Hf3 & Hz3).
  rewrite (files_below_agree _ _ _ Hhome). rewrite <- Hf3 in Hwf2, Hd2, Hc2.
  wp_step. eapply wp_mono; [apply (wp_fake_write dir "disk"); try done; rewrite Hc2 by done; by rewrite Hc1|].
  intros x [w4 b4'] (-> & Hb4 & Hz4 & f4 & Hf4 & Hk). cbn [fst snd] in *. subst b4'.
  destruct (put_kept (w_fs w3) dir "disk" f4) as (Hwf4 & Hd4 & Hc4 & Ho4); [done..|rewrite Hc2 by done; by rewrite Hc1|]. rewrite <- Hf4 in *.
  wp_step. eexists. split_and!; [done|..].
  - cbn [fst]. split_and!; [done|congruence|]. intros q Hq'. by rewrite Ho4, Hf3, Ho2, Ho1.
  - assert (w_fs w4 !! (dir ++ ["mem"]) = Some (NFile f1)) as Hmem by (rewrite Hc4, Hc2, Hf1 by done; apply lookup_insert_eq).
    cbn [fst]. split; cbn [i_Memory i_State i_Disk i_BaseDisk i_MemoryIsDiff i_Base fake_vm v_mem v_state v_disk v_base].
    + split_and!; [by eexists|by eexists|]. intros d' [= <-]. by eexists.
    + destruct (fake_differs b id bs) eqn:Hdf; [|by exists f1]. destruct (fake_differs_true _ _ _ Hdf) as (Hne & Hbase & i & Hi).
      exists f1, bs, (b_data i). cbn [fst snd]. rewrite Hbase, Hi. cbn [mbind option_bind]. rewrite decide_False by done.
      assert (prev = i) as <- by (unfold prev; by rewrite Hi). specialize (Hprev eq_refl). rewrite Hm. split_and!; [done|done|done| |].
      * rewrite cells_to_length; [exact Hprev|apply image_whole|lia].
      * apply overlay_diff; [apply image_whole|done].
    + exists f2. split; [|done]. rewrite Hc4, Hf3, Hf2 by done. apply lookup_insert_eq.
    + exists f4. split; [|done]. rewrite Hf4. apply lookup_insert_eq.
    + done.
  - done.
  - done.
Qed.

(** ** Resuming *)

Lemma home_apart i id k : i ≠ id → ¬ below (home id) (root ++ i :: k) ∧ ¬ (root ++ i :: k) `prefix_of` home id.
Proof.
  intros Hne. unfold home. split; [intros [e He]|intros [e He]].
  - rewrite <- app_assoc in He. apply (inj (app root)) in He. by injection He.
  - rewrite <- app_assoc in He. apply (inj (app root)) in He. by injection He.
Qed.

Lemma unpacked_others id l w w' : unpacked (home id) l (w_fs w) (w_fs w') → is_dir (w_fs w) root → ∀ i, i ≠ id → same_files_at i w w'.
Proof.
  intros Hl [m Hm] i Hi q [->|[->|[k ->]]].
  - rewrite Hm. apply (la_up _ _ _ _ Hl); [by eexists| |done]. intros Hx. apply (f_equal length) in Hx. unfold home in Hx. rewrite length_app in Hx. cbn in Hx. lia.
  - destruct (home_apart i id [] Hi). by apply (la_out _ _ _ _ Hl).
  - unfold home at 1 2. rewrite <- app_assoc. cbn [app]. destruct (home_apart i id ("work" :: k) Hi). by apply (la_out _ _ _ _ Hl).
Qed.

Lemma unpacked_outside id l w w' q : unpacked (home id) l (w_fs w) (w_fs w') → fs_wf (w_fs w) → is_dir (w_fs w) root → ¬ fake_area q →
  w_fs w' !! q = w_fs w !! q.
Proof.
  intros Hl Hwf [m Hm] Ha. assert (¬ below (home id) q) as Hb by (intros [k ->]; apply Ha; eapply near_area; right; right; by eexists).
  destruct (decide (q `prefix_of` home id)) as [Hp|Hp]; [|by apply (la_out _ _ _ _ Hl)].
  destruct (prefix_weak_total q root (home id)) as [[k Hk]|Hr]; [done|by eexists| |done].
  destruct (decide (k = [])) as [->|Hne]; [exfalso; apply Ha; rewrite app_nil_r in Hk; unfold fake_area; by rewrite <- Hk|].
  destruct (fs_wf_up (w_fs w) q k Hwf Hne) as [m' Hm']; [rewrite <- Hk, Hm; by eexists|]. rewrite Hm'. apply (la_up _ _ _ _ Hl); [done| |done].
  intros ->. by apply Hb.
Qed.

Lemma unpacked_room id l w w' : unpacked (home id) l (w_fs w) (w_fs w') → is_dir (w_fs w') (home id) →
  dir_or_absent (w_fs w') (root ++ [id]) ∧ dir_or_absent (w_fs w') (home id).
Proof.
  intros Hl [m Hm]. unfold dir_or_absent. split; [|by rewrite Hm]. destruct (w_fs w' !! (root ++ [id])) as [n|] eqn:E; [|done].
  assert (is_dir_node n = true) as Hd; [|by destruct n]. apply (la_way _ _ _ _ Hl (root ++ [id])); [|done]. unfold home. exists ["work"]. by rewrite <- app_assoc.
Qed.

(** The state after a resume. *)
Definition resumed (b : fake) (id : string) (r : bytes) (bs : string) (m : buf) : fake :=
  mkFake (<[id := r]> (ram b)) (<[id := bs]> (base b)) (<[id := m]> (baseImg b)) (lastSnap b) (Diffs b).

Lemma wp_memFromImage {S} r behind (Q : gerr + bytes → S → Prop) s :
  (length r ≤ room)%nat → Q (inr r) s → wp (memFromImage (mkBuf (b_data (memImage r)) behind)) Q s.
Proof.
  intros Hr HQ. destruct (mem_image_bounds r behind s) as [_ Hrun]; [unfold room, fakeMemSize in Hr; lia|].
  rewrite decide_True in Hrun by done. unfold wp. by rewrite Hrun.
Qed.

Lemma wp_fake_Resume id img r dir σ w b :
  quiet → (length r ≤ room)%nat → fs_wf σ → tidy dir σ → fake_room (w, b) id → fs_wf (w_fs w) →
  holds (w_fs w) (i_Memory img) (b_data (memImage r)) →
  (∃ d, i_Disk img = Some d ∧ holds (w_fs w) d (files_json (files_below dir σ))) →
  wp (fm_Resume root id img) (λ x wb, x = inr tt ∧ stays fake_area w wb.1 ∧ (∀ i, i ≠ id → same_files_at i w wb.1) ∧
    tidy (home id) (w_fs wb.1) ∧ files_below (home id) (w_fs wb.1) = files_below dir σ ∧
    fake_up wb id r ∧ ∃ m, b_data m = b_data (memImage r) ∧ wb.2 = resumed b id r (i_Base img) m) (w, b).
Proof.
  intros Hq Hr Hwfs Hts Hroom Hwf (fm & Hfm & Hcm) (d & Hd & fd & Hfd & Hcd). pose proof Hroom as (Hid & Hrt & _ & _ & Hls). cbn [fst snd] in *.
  unfold fm_Resume. wp_step. wp_step. eapply (wp_ReadFile _ fm); [done|done|by intros ??? ? []|]. intros w1 Hf1 Hz1. rewrite Hcm, Hd.
  wp_step. wp_step. eapply (wp_ReadFile _ fd); [by rewrite Hf1|by rewrite Hf1|by intros ??? ? []|]. intros w2 Hf2 Hz2. rewrite Hcd.
  assert (w_fs w2 = w_fs w) as Hf by congruence. assert (w_zero w2 = w_zero w) as Hz by congruence. clear Hf1 Hz1 Hf2 Hz2.
  destruct (room_way w b id Hwf Hroom) as (Hg & Hne & Hway). rewrite home_dir by done. rewrite <- Hf in Hway, Hwf.
  wp_step. wp_step. eapply wp_mono; [apply (wp_unpackDir _ (files_below dir σ)); try done; [apply files_roundtrip; intros k; by apply files_below_utf8|by apply below_layable]|].
  intros x w3 (-> & Hz3 & Hl & Hd3). destruct (unpacked_below dir σ (home id) _ _ Hwfs Hts Hd3 Hl) as [Ht3 Hfb]. pose proof (la_wf _ _ _ _ Hl) as Hwf3.
  rewrite Hf in Hwf. rewrite Hf in Hl. destruct (unpacked_room id _ w w3 Hl Hd3) as [Hda Hdb].
  assert (is_dir (w_fs w3) root) as Hrt3 by (apply (fs_wf_dir_up _ _ [id; "work"]); done).
  wp_step. apply wp_memFromImage; [done|]. apply wp_set_fake. cbn [fst snd]. split_and!; [done| | |done|done| |].
  - split_and!; [done|congruence|]. intros q Ha. by eapply unpacked_outside.
  - by eapply unpacked_others.
  - split_and!; [split_and!; done|done| |done]. cbn [snd baseImg whole_if]. rewrite lookup_insert_eq. apply (image_whole r).
  - exists (mkBuf (b_data (memImage r)) (spare (b_data (memImage r)))). by split.
Qed.

(** ** The promises *)

Lemma other_entries id i r bs m b : i ≠ id → same_entries i b (resumed b id r bs m).
Proof. intros Hi. by split; unfold resumed; cbn [ram base baseImg lastSnap]; rewrite ?lookup_insert_ne. Qed.

#[global] Program Instance fake_machine_spec : MachineSpec (fake_memory root) := {|
  area := fake_area;
  vm_at := fake_vm_at;
  resumable := fake_resumable;
  can_hold := fake_room
|}.
Next Obligation. intros w w' b id Ha. apply fake_vm_at_same; [by apply area_same|done]. Qed.
Next Obligation. intros w w' b id Ha. apply fake_room_same; [by apply area_same|done]. Qed.
Next Obligation.
  intros w b id v Hwf (r & Hr & (Hroom & Hlen & _ & Ht) & ->)%fake_vm_at_some. split; [|done].
  exists r, (home id), (w_fs w). by split_and!.
Qed.
Next Obligation.
  intros w b id v (r & Hr & _)%fake_vm_at_some. exists w. split_and!; [|done|done]. unfold Running, fake_memory, fm_Running, get_fake, mbind, M_bind.
  cbn [snd] in *. rewrite bool_decide_true by by eexists. done.
Qed.
Next Obligation.
  intros id dir bs v w b Hq (r & Hr & Hup & ->)%fake_vm_at_some Hwf Hd Hfree Hap. cbn [snd] in Hr.
  eapply wp_mono; [by apply (wp_fake_Snapshot id dir bs r w b)|]. intros x [w1 b1] (img & -> & (Hwf1 & Hz1 & Ho1) & Hsh & _ & Hb1). cbn [fst snd] in *. subst b1.
  assert (∀ i, same_files_at i w w1) as Hs.
  { intros i. apply area_same. intros q Ha. apply Ho1. intros [Hx _]. by eapply Hap. }
  exists img. split_and!; [done|..].
  - split_and!; [done|done|]. intros q Hn. apply Ho1. intros Hx. apply Hn. by right.
  - done.
  - apply fake_vm_at_some. exists r. pose proof Hup as ((Hid & Hroot & Hda & Hdb & _) & Hlen & Hbi & Ht). split_and!; [done|..].
    + split_and!; [|done|done|eapply tidy_agree; [|exact Ht]; intros q Hq'; apply (Hs id); right; by right].
      destruct (fake_room_same w w1 b b id (Hs id) eq_refl) as (? & ? & ? & ? & _); [apply Hup|]. split_and!; try done.
      cbn [snd snapped lastSnap]. rewrite lookup_insert_eq. apply image_whole.
    + unfold fake_vm, at_last. cbn [fst snd snapped base baseImg lastSnap v_mem v_state v_disk v_base]. rewrite lookup_insert_eq. cbn [fmap option_fmap option_map].
      do 2 f_equal. apply (f_equal files_json). symmetry. apply files_below_agree. intros q Hq'. apply (Hs id). right. by right.
  - apply fake_spares.
    + intros i Hi. split; [done|]. split; try done. cbn [snapped lastSnap]. by rewrite lookup_insert_ne.
    + intros Hroom. destruct (fake_room_same w w1 b b id (Hs id) eq_refl Hroom) as (? & ? & ? & ? & _). split_and!; try done.
      cbn [snd snapped lastSnap]. rewrite lookup_insert_eq. apply image_whole.
Qed.
Next Obligation.
  intros id n v w b Hq (r & Hr & Hup & ->)%fake_vm_at_some Hwf. cbn [snd] in Hr. pose proof Hup as (Hroom & Hlen & _ & Ht).
  pose proof Hroom as (Hid & Hroot & Hda & Hdb & Hls). cbn [fst snd] in *. unfold Rebase, fake_memory, fm_Rebase. apply wp_set_fake. cbn [fst].
  split_and!; [done|by split_and!|apply fake_spares; [|done]|].
  - intros i Hi. split; [done|]. split; cbn [ram base baseImg lastSnap]; rewrite ?lookup_insert_ne by done; try done.
    destruct (lastSnap b !! id); [by rewrite lookup_insert_ne|by rewrite lookup_delete_ne].
  - eexists. split; [apply fake_vm_at_some; exists r; split; [exact Hr|]; split; [|reflexivity]|split; [done|]].
    + split; [done|]. split; [done|]. split; [|done]. cbn [snd baseImg whole_if]. destruct (lastSnap b !! id) as [i|]; [by rewrite lookup_insert_eq|by rewrite lookup_delete_eq].
    + unfold fake_vm. cbn [fst snd ram base baseImg lastSnap v_base v_last]. rewrite lookup_insert_eq. cbn [mbind option_bind].
      destruct (lastSnap b !! id) as [i|]; [by rewrite lookup_insert_eq|by rewrite lookup_delete_eq].
Qed.
Next Obligation.
  intros id dir v img w b Hq (r & dir' & σ & Hlen & Hwfs & Hts & Hm & Hst & Hdk) Hroom Hwf Hnd Hhm Hhs Hhd Hbd.
  rewrite Hdk in Hhd. destruct (i_Disk img) as [d|] eqn:Ed; [|done].
  rewrite Hm in *. unfold Resume, fake_memory. eapply wp_mono; [apply (wp_fake_Resume id img r dir' σ w b); try done; by exists d|].
  intros x [w1 b1] (-> & Hstay & Ho & Ht1 & Hfb & Hup1 & m & Hdm & Hb1). cbn [fst snd] in *. subst b1.
  split_and!; [done|done|apply fake_spares; [|intros _; apply Hup1]|].
  - intros i Hi. split; [by apply Ho|by apply other_entries].
  - exists (fake_vm (w1, resumed b id r (i_Base img) m) id r).
    split_and!; [apply fake_vm_at_some; exists r; split; [apply lookup_insert_eq|by split]| |].
    + split_and!; [by rewrite Hm|by rewrite Hst|]. rewrite Hdk. unfold fake_vm. cbn [fst v_disk]. by rewrite Hfb.
    + unfold fake_vm. cbn [fst snd v_base resumed base baseImg]. rewrite !lookup_insert_eq. cbn [mbind option_bind]. by rewrite Hdm.
Qed.
Next Obligation.
  intros id w b Hq Hwf. unfold Shutdown, fake_memory, fm_Shutdown. apply wp_set_fake. cbn [fst]. split_and!; [done|by split_and!|].
  apply fake_spares; [|done]. intros i Hi. split; [done|]. split; cbn [ram base baseImg lastSnap]; [by rewrite lookup_delete_ne|done..].
Qed.

(** ** The guest's files *)

Lemma hasher_walk_ok σ dir z :
  quiet → fs_wf σ → walk_ok (snapshot_fn hasher None dir) σ dir (visit None dir) (λ _ w, w_fs w = σ ∧ w_zero w = z) (λ _, False).
Proof.
  intros Hq Hwf. split.
  - intros xs w [-> _]. done.
  - intros xs w [-> _]. by intros q _.
  - by intros xs w [? ?].
  - done.
  - intros p nd xs w Hp Hnd [Hσ Hz]. unfold snapshot_fn, visit. case_decide as Hrel.
    { wp_step. cbn [fst snd]. by rewrite app_nil_r. }
    cbn [ignored]. wp_step. wp_step. apply (wp_Lstat_some p nd); [by rewrite Hσ|by rewrite Hσ|done|]. destruct nd as [f|m|t|m]; cbn [is_dir_node].
    + wp_step. wp_step. unfold hasher. wp_step. eapply (wp_ReadFile p f); [cbn [w_fs tick]; by rewrite Hσ|cbn [w_fs tick]; by rewrite Hσ|done|].
      intros w1 Hf1 Hz1. wp_step. unfold add_entry. wp_step. cbn [fst snd]. cbn [w_fs w_zero tick] in *. split_and!; [congruence|congruence| |done].
      cbn [entry_of option_list]. do 3 f_equal. unfold f_size, contents. by rewrite length_fmap.
    + unfold add_entry. wp_step. by split_and!.
    + wp_step. wp_step. apply (wp_Readlink p t); [cbn [w_fs tick]; by rewrite Hσ|cbn [w_fs tick]; by rewrite Hσ|done|].
      unfold add_entry. wp_step. by split_and!.
    + wp_step. cbn [fst snd entry_of option_list]. rewrite app_nil_r. by split_and!.
  - done.
Qed.

Lemma snapshot_agree ign d σ σ' t : (∀ cs, σ' !! (d ++ cs) = σ !! (d ++ cs)) → snapshot_of ign d σ t → snapshot_of ign d σ' t.
Proof.
  intros Ha [He Hs Hn]. split; [|done|done]. intros e. rewrite He. unfold visible.
  split; intros (cs & nd & Hne & Hnd & Hv & Hee); exists cs, nd; (split_and!; [done| | |done]).
  - by rewrite Ha.
  - intros k r nd' Hk Hk' Hx. rewrite Ha in Hx. by eapply Hv.
  - by rewrite <- Ha.
  - intros k r nd' Hk Hk' Hx. rewrite <- Ha in Hx. by eapply Hv.
Qed.

Lemma wp_hasher_Snapshot dir w :
  quiet → fs_wf (w_fs w) → is_dir (w_fs w) dir → slashless dir (w_fs w) →
  wp (Tree.Snapshot hasher None dir) (λ x w', ∃ t, x = inr t ∧ snapshot_of None dir (w_fs w) t ∧ w_fs w' = w_fs w ∧ w_zero w' = w_zero w) w.
Proof.
  intros Hq Hwf [m Hm] Hn. unfold Tree.Snapshot. wp_step. wp_step.
  eapply wp_mono; [eapply (wp_WalkDir _ (w_fs w) dir (visit None dir)); [by apply hasher_walk_ok|done|done|done]|].
  intros [e|[]] [w1 es]; [by intros [_ []]|]. intros [[Hf Hz] ->]. cbn [fst snd] in *. wp_step. eexists. split_and!; [done| |done|done].
  by apply snapshot_of_items.
Qed.

Definition fake_has (x : world * fake) (id : string) (σ : fs) (d : path) : Prop :=
  machine_id id ∧ d = home id ∧ fs_wf σ ∧ is_dir σ d ∧ slashless d σ ∧ ∀ cs, w_fs x.1 !! (d ++ cs) = σ !! (d ++ cs).

Lemma fake_undisturbed w w' b : w_fs w' = w_fs w → undisturbed fake_vm_at fake_room fake_has (w, b) (w', b).
Proof.
  intros Hf. assert (∀ i, same_files_at i w w') as Hs by (intros i q _; by rewrite Hf). split_and!.
  - intros i. by apply fake_vm_at_same.
  - intros i. by apply fake_room_same.
  - intros i σ d (H1 & H2 & H3 & H4 & H5 & H6). split_and!; try done. cbn [fst] in *. intros cs. by rewrite Hf.
Qed.

#[global] Program Instance fake_guest_spec : GuestSpec (fake_memory root) (fake_guest root) := {| guest_has := fake_has |}.
Next Obligation.
  intros w w' b id σ d Ha (H1 & H2 & H3 & H4 & H5 & H6). split_and!; try done. cbn [fst] in *. intros cs. rewrite <- H6. apply Ha.
  subst d. eapply near_area. right. right. by eexists.
Qed.
Next Obligation.
  intros id v σ d w b Hq _ (Hid & -> & Hwfs & [m Hm] & Hn & Ha) Hwf. cbn [fst] in Ha. unfold ListFiles, fake_guest, fm_ListFiles. rewrite home_dir by done.
  wp_step. wp_step. eapply wp_mono; [apply wp_hasher_Snapshot; [done|done| |]|].
  - exists m. rewrite <- (app_nil_r (home id)), Ha, app_nil_r. done.
  - intros cs. rewrite Ha. apply Hn.
  - intros x w1 (t & -> & Ht & Hf & Hz). wp_step. exists (t_Entries t). destruct t as [es]. cbn [t_Entries fst]. split_and!; [done| | |].
    + eapply snapshot_agree; [|exact Ht]. intros cs. by rewrite Ha.
    + split_and!; [by rewrite Hf|done|]. intros q _. by rewrite Hf.
    + by apply fake_undisturbed.
Qed.
Next Obligation.
  intros id v σ d cs f w b Hq _ (Hid & -> & Hwfs & _ & Hn & Ha) Hwf Hne Hfile. cbn [fst] in Ha. unfold Backend.ReadFile, fake_guest, fm_ReadFile. rewrite home_dir by done.
  assert (join (home id) (join_with "/" cs) = home id ++ cs) as ->.
  { unfold join. rewrite (split_join slash) by (done || (apply Hn; by eexists)). apply clean_onto_good. apply (fs_wf_names σ (home id)); [done|by eexists]. }
  wp_step. eapply (wp_ReadFile _ f); [done|by rewrite Ha|by intros ??? ? []|]. intros w1 Hf Hz. cbn [fst]. split_and!; [done| |by apply fake_undisturbed].
  split_and!; [by rewrite Hf|done|]. intros q _. by rewrite Hf.
Qed.

(** Nothing of a machine is lost in what the interface sees of it: two machines
    that are the same for [MachineSpec] have the same memory and files, so what
    is proved of checkpoints, forks and checkouts against the interface is about
    the fake machine's memory and its guest's files. *)
Lemma fake_vm_inj x y id id' v v' :
  fs_wf (w_fs x.1) → fs_wf (w_fs y.1) → fake_vm_at x id = Some v → fake_vm_at y id' = Some v' → same_vm v v' →
  ram y.2 !! id' = ram x.2 !! id ∧ files_below (guest_dir root id') (w_fs y.1) = files_below (guest_dir root id) (w_fs x.1).
Proof.
  intros Hwf Hwf' (r & Hr & ((Hid & _) & Hlen & _ & Ht) & ->)%fake_vm_at_some (r' & Hr' & ((Hid' & _) & Hlen' & _ & Ht') & ->)%fake_vm_at_some (Hm & _ & Hd).
  rewrite !home_dir, Hr, Hr' by done. cbn [fake_vm v_mem v_disk] in *. apply (inj Some) in Hd. split.
  - destruct (mem_image_bounds r [] tt) as [_ H1]; [unfold room, fakeMemSize in Hlen; lia|].
    destruct (mem_image_bounds r' [] tt) as [_ H2]; [unfold room, fakeMemSize in Hlen'; lia|].
    rewrite Hm, H1, !decide_True in H2 by done. by injection H2 as ->.
  - apply (inj Some). rewrite <- !files_roundtrip by (intros k; by apply files_below_utf8). by rewrite Hd.
Qed.

(** The memory a snapshot's file stands for: a difference is laid over the image
    of the base the machine runs on. *)
Definition memory_of (b : fake) (id bs : string) (f : file) : bytes :=
  if fake_differs b id bs then overlay (b_data (default (mkBuf [] []) (baseImg b !! id))) (f_cells f) else contents f.

Lemma shows_memory w b id bs r img σ dir :
  i_MemoryIsDiff img = fake_differs b id bs → shows σ dir bs (fake_vm (w, b) id r) img →
  ∃ fm d fd, σ !! i_Memory img = Some (NFile fm) ∧ memory_of b id bs fm = b_data (memImage r) ∧
    i_Disk img = Some d ∧ σ !! d = Some (NFile fd) ∧ contents fd = files_json (files_below (home id) (w_fs w)).
Proof.
  intros Hdf [_ Hmem _ Hdisk _]. cbn [fake_vm v_mem v_disk v_base fst snd] in *.
  destruct (i_Disk img) as [d|]; [|done]. destruct Hdisk as (fd & Hfd & Hcd). unfold memory_of. rewrite Hdf in Hmem.
  destruct (fake_differs b id bs).
  - destruct Hmem as (fm & n & old & Hfm & Hb & _ & _ & Ho). exists fm, d, fd. split_and!; [done| |done..].
    destruct (base b !! id); [|done]. destruct (baseImg b !! id) as [i|]; [|done]. cbn in Hb |- *. by simplify_eq.
  - destruct Hmem as (fm & Hfm & Hcm). by exists fm, d, fd.
Qed.

Lemma snapshot_room w w1 b id img diff :
  (∀ i, same_files_at i w w1) → whole img → ∀ i, fake_room (w, b) i → fake_room (w1, snapped b id img diff) i.
Proof.
  intros Hs Hi i Hroom. destruct (fake_room_same w w1 b b i (Hs i) eq_refl Hroom) as (H1 & H2 & H3 & H4 & H5). split_and!; try done.
  cbn [snd snapped lastSnap]. destruct (decide (i = id)) as [->|Hne]; [by rewrite lookup_insert_eq|by rewrite lookup_insert_ne].
Qed.

(** C37 (fake_resumes): a snapshot of a fake machine that runs puts its memory (all
    of it, or the pages that changed over the base it runs on), the vcpu state
    and the files of its guest into the directory and nothing anywhere else.
    An image with that memory (the file of a full snapshot, or a difference laid
    over the image of its base) and that disk, resumed at any later time under
    any identifier there is room for, gives a machine with the same memory,
    whose guest has the same files with the same contents and no others,
    whatever was there and in whatever order the files are unpacked; the memory
    and the files of every other machine stay.  [fake_up] says that the machine's
    memory fits its image (16 pages less 8 bytes) and that its guest has files
    and directories with UTF-8 names only, no links. *)
Theorem fake_resumes id dir bs r w b :
  quiet → ram b !! id = Some r → fake_up (w, b) id r →
  fs_wf (w_fs w) → is_dir (w_fs w) dir → (∀ c, w_fs w !! (dir ++ [c]) = None) → (∀ q, below dir q → ¬ below root q) →
  ∃ img w1 b1 fm d fd, fm_Snapshot root id dir bs (w, b) = (Ok img, (w1, b1)) ∧
    shows (w_fs w1) dir bs (fake_vm (w, b) id r) img ∧ i_MemoryIsDiff img = fake_differs b id bs ∧ fs_wf (w_fs w1) ∧
    (∀ q, ¬ (below dir q ∧ q ≠ dir) → w_fs w1 !! q = w_fs w !! q) ∧
    (∀ i, fake_room (w, b) i → fake_room (w1, b1) i) ∧
    w_fs w1 !! i_Memory img = Some (NFile fm) ∧ i_Disk img = Some d ∧ w_fs w1 !! d = Some (NFile fd) ∧
    ∀ id' img' d' w' b', fake_room (w', b') id' → fs_wf (w_fs w') →
      holds (w_fs w') (i_Memory img') (memory_of b id bs fm) → i_Disk img' = Some d' → holds (w_fs w') d' (contents fd) →
      ∃ w2 b2, fm_Resume root id' img' (w', b') = (Ok tt, (w2, b2)) ∧
        ram b2 !! id' = Some r ∧ fake_up (w2, b2) id' r ∧
        files_below (guest_dir root id') (w_fs w2) = files_below (guest_dir root id) (w_fs w) ∧
        ∀ i, machine_id i → i ≠ id' → ram b2 !! i = ram b' !! i ∧
          files_below (guest_dir root i) (w_fs w2) = files_below (guest_dir root i) (w_fs w').
Proof.
  intros Hq Hr Hup Hwf Hd Hfree Hap. pose proof Hup as ((Hid & _) & Hlen & _ & Ht).
  destruct (wp_exists _ _ _ (wp_fake_Snapshot id dir bs r w b Hq Hr Hup Hwf Hd Hfree Hap))
    as (x & [w1 b1] & Hrun & img & -> & (Hwf1 & Hz1 & Ho1) & Hsh & Hdf & Hb1). cbn [fst snd] in *.
  assert (∀ i, same_files_at i w w1) as Hs.
  { intros i. apply area_same. intros q Ha. apply Ho1. intros [Hx _]. by eapply Hap. }
  destruct (shows_memory w b id bs r img _ dir Hdf Hsh) as (fm & d & fd & Hfm & Hmem & Hdk & Hfd & Hcd).
  exists img, w1, b1, fm, d, fd. split_and!; [done|done|done|done|done| |done|done|done|].
  { subst b1. apply snapshot_room; [done|apply image_whole]. }
  rewrite Hmem, Hcd. intros id' img' d' w' b' Hroom Hwf' Hm' Hd' Hk'. pose proof Hroom as (Hid' & _).
  destruct (wp_exists _ _ _ (wp_fake_Resume id' img' r (home id) (w_fs w) w' b' Hq Hlen Hwf Ht Hroom Hwf' Hm' (ex_intro _ d' (conj Hd' Hk'))))
    as (x & [w2 b2] & Hrun2 & -> & _ & Hs2 & _ & Hfb & Hup2 & m & _ & Hb2). cbn [fst snd] in *.
  exists w2, b2. rewrite !home_dir by done. split_and!; [done|subst b2; apply lookup_insert_eq|done|done|]. intros i Hi Hne. rewrite home_dir by done. split.
  - subst b2. unfold resumed. cbn [ram]. by rewrite lookup_insert_ne.
  - apply files_below_agree. intros q Hqb. rewrite (Hs2 i Hne) by (right; by right). done.
Qed.
End fake_spec.

(** A map gone through in its own order, and no capacity to spare. *)
Definition plain_runtime : GoRuntime := {| range_map l := l; range_perm l := reflexivity l; spare _ := [] |}.

Definition guest_file (c : string) : node := NFile (File o644 (Some <$> to_bytes c) 0 0).
Definition two_machines : world := World (list_to_map [
  ([], NDir o755); (["m"], NDir o755); (["snap"], NDir o755);
  (["m"; "a"], NDir o755); (["m"; "a"; "work"], NDir o755);
  (["m"; "a"; "work"; "main.go"], guest_file "package main"); (["m"; "a"; "work"; "pkg"], NDir o755);
  (["m"; "a"; "work"; "pkg"; "x"], guest_file "1");
  (["m"; "b"], NDir o755); (["m"; "b"; "work"], NDir o755); (["m"; "b"; "work"; "stale"], guest_file "old")]) 0 ∅.
(** The first machine runs on the image [h0], with less memory written. *)
Definition two_rams : fake := mkFake {["a" := to_bytes "boot;x"; "b" := to_bytes "boot;"]}
  {["a" := "h0"]} {["a" := memImage (to_bytes "boot;")]} ∅ 0.

(** The difference laid over its base, as a file beside it. *)
Definition laid_over (b : fake) (w1 : world) (fm : file) : world :=
  set_fs (<[["snap"; "full"] := NFile (File o600 (Some <$> memory_of b "a" "h0" fm) 0 99)]> (w_fs w1)) w1.

Lemma laid_over_contents b w1 fm : holds (w_fs (laid_over b w1 fm)) ["snap"; "full"] (memory_of b "a" "h0" fm).
Proof.
  eexists. split; [apply lookup_insert_eq|]. generalize (memory_of b "a" "h0" fm). intros m. unfold contents. cbn [f_cells].
  rewrite <- list_fmap_compose. apply list_fmap_id.
Qed.
Lemma laid_over_other b w1 fm q : q ≠ ["snap"; "full"] → w_fs (laid_over b w1 fm) !! q = w_fs w1 !! q.
Proof. intros Hne. by apply lookup_insert_ne. Qed.
Lemma laid_over_wf b w1 fm : fs_wf (w_fs w1) → is_dir (w_fs w1) ["snap"] → w_fs w1 !! ["snap"; "full"] = None → fs_wf (w_fs (laid_over b w1 fm)).
Proof. intros Hwf Hd Hn. apply (fs_wf_insert _ ["snap"] "full"); [done..|]. intros [m Hm]. cbn [app] in Hm. congruence. Qed.
Lemma laid_over_room b w1 fm b1 i : fake_room ["m"] (w1, b1) i → fake_room ["m"] (laid_over b w1 fm, b1) i.
Proof. apply fake_room_same; [|done]. apply area_same. intros q [k ->]. by apply laid_over_other. Qed.

(** C37 at two machines: the second resumed from a difference of the first. *)
Lemma fake_resumes_witness :
  ∃ img w1 b1 fm d w2 b2, @fm_Snapshot calm ["m"] "a" ["snap"] "h0" (two_machines, two_rams) = (Ok img, (w1, b1)) ∧
    i_MemoryIsDiff img = true ∧ w_fs w1 !! i_Memory img = Some (NFile fm) ∧
    @fm_Resume calm plain_runtime ["m"] "b" (mkImage ["snap"; "full"] [] (Some d) None false "") (laid_over two_rams w1 fm, b1) = (Ok tt, (w2, b2)) ∧
    ram b2 !! "b" = Some (to_bytes "boot;x") ∧
    files_below (guest_dir ["m"] "b") (w_fs w2) = {["main.go" := to_bytes "package main"; "pkg/x" := to_bytes "1"]}.
Proof.
  assert (fs_wf (w_fs two_machines)) as Hwf by (apply fs_check_ok; vm_compute; reflexivity).
  assert (Forall good_name ["m"]) as Hg by by repeat constructor.
  assert (fake_room ["m"] (two_machines, two_rams) "a") as Ha by (apply (bool_decide_eq_true _); vm_compute; reflexivity).
  assert (fake_room ["m"] (two_machines, two_rams) "b") as Hb by (apply (bool_decide_eq_true _); vm_compute; reflexivity).
  assert (tidy (home ["m"] "a") (w_fs two_machines)) as Ht by (apply tidy_b_ok; vm_compute; reflexivity).
  assert (∀ c, w_fs two_machines !! (["snap"] ++ [c]) = None) as Hfree.
  { intros c. apply eq_None_not_Some. intros [n Hn].
    assert (nodes_b (w_fs two_machines) (λ q _, match under ["snap"] q with Some (_ :: _) => false | _ => true end) = true) as Hc by (vm_compute; reflexivity).
    apply (nodes_b_ok _ _ _ _ Hc) in Hn. rewrite under_app in Hn. discriminate Hn. }
  destruct (@fake_resumes calm plain_runtime ["m"] Hg "a" ["snap"] "h0" (to_bytes "boot;x") two_machines two_rams)
    as (img & w1 & b1 & fm & d & fd & Hs & _ & _ & Hwf1 & Hsame & Hroom & Hfm & Hdk & Hfd & Hres).
  - exact calm_quiet.
  - reflexivity.
  - split; [exact Ha|]. split; [|split; [apply image_whole|exact Ht]]. change (length (to_bytes "boot;x")) with 6%nat. unfold room, fakeMemSize. lia.
  - exact Hwf.
  - by eexists.
  - exact Hfree.
  - intros q [k ->] [k' Hx]. discriminate Hx.
  - assert ((@fm_Snapshot calm ["m"] "a" ["snap"] "h0" (two_machines, two_rams)).1 =
      Ok (mkImage ["snap"; "mem"] ["snap"; "state"] (Some ["snap"; "disk"]) None true "h0")) as Himg by (vm_compute; reflexivity).
    rewrite Hs in Himg. injection Himg as ->. injection Hdk as <-.
    assert (w_fs (@fm_Snapshot calm ["m"] "a" ["snap"] "h0" (two_machines, two_rams)).2.1 !! ["snap"; "full"] = None) as Hn by (vm_compute; reflexivity).
    rewrite Hs in Hn. cbn [fst snd] in Hn.
    destruct (Hres "b" (mkImage ["snap"; "full"] [] (Some ["snap"; "disk"]) None false "") ["snap"; "disk"] (laid_over two_rams w1 fm) b1)
      as (w2 & b2 & Hr & Hm & _ & Hf & _).
    + apply laid_over_room, Hroom, Hb.
    + apply laid_over_wf; [exact Hwf1| |exact Hn]. exists o755. rewrite Hsame; [reflexivity|]. intros [_ Hx]. by apply Hx.
    + apply laid_over_contents.
    + reflexivity.
    + exists fd. split; [|reflexivity]. rewrite laid_over_other by done. exact Hfd.
    + exists (mkImage ["snap"; "mem"] ["snap"; "state"] (Some ["snap"; "disk"]) None true "h0"), w1, b1, fm, ["snap"; "disk"], w2, b2.
      split; [exact Hs|]. split; [reflexivity|]. split; [exact Hfm|]. split; [exact Hr|]. split; [exact Hm|]. rewrite Hf. vm_compute. reflexivity.
Defined.
