(* ===== verification/MachineRuns.v ===== *)
(** * Runs, checkouts and forks of a sandbox that runs in a machine *)

From S2P Require Import Prelude Sha256 Os OsFacts WalkFacts Parallel Cas Blobs Chunked ChunkedFacts Json Codec Codecs ChunkedProps Tree TreeFacts Snap SnapFacts SnapProps Model Repo RepoFacts RepoProps Backend Engine EngineFacts StepFacts CacheProps CacheFacts MachineFacts MachineSteps.
Import Cas Chunked Tree Snap Model Repo Backend Engine.
Open Scope Z_scope.

Section runs.
Context `{OsEnv, Sched} (U : bytes → Prop) {NC : NoCollision U} {B : Type} `{Backend B} (mb : MemoryBackend B)
  `{!MachineSpec mb} (g : GuestFS B) `{!GuestSpec mb g}.
Context (r : Repo) (is_memory : as_memory (B:=B) = Some mb) (is_guest : as_guest (B:=B) = Some g).
Implicit Types (w : world) (s : Sandbox) (v : vm) (b : B) (N : list string).

Notation spared := (spares vm_at can_hold).
Notation ready := (machine_ready U mb r).
Notation here := (machine_here U mb g r).
Notation logged := (machine_logged U mb r).
Notation kept_at := (machine_kept U mb r).

(** ** Running a command *)

(** A command changes files of the backend only, and leaves a machine that can
    be recorded. *)
Definition obeys N s command v w b : Prop := ∀ w0 b0 v0,
  ready N s w0 → spared (s_ID s) (w, b) (w0, b0) → image_step mb r w w0 →
  vm_at (w0, b0) (s_ID s) = Some v0 → same_vm v v0 → based r (w_fs w0) v0 →
  wp (Exec (s_ID s) (WorkDir r (s_ID s)) command) (λ x wb, stays area w0 wb.1 ∧ spared (s_ID s) (w0, b0) wb ∧
    ∃ code v' σ d, x = inr code ∧ here s v' σ d wb.1 wb.2 ∧ vm_names v' ⊆ N) (w0, b0).

(** What [Run] did: the machine runs, the command ran in it, the step is
    recorded. *)
Definition machine_ran N s command v w b (x : gerr + Checkpoint) w' b' (s' : Sandbox) : Prop :=
  ∃ c code w0 b0 v0 we be v1 σ d, x = inr c ∧
    ensureMachine r s (w, b) = (Ok tt, (w0, b0)) ∧ vm_at (w0, b0) (s_ID s) = Some v0 ∧ same_vm v v0 ∧
    Exec (s_ID s) (WorkDir r (s_ID s)) command (w0, b0) = (Ok code, (we, be)) ∧
    here s v1 σ d we be ∧ vm_names v1 ⊆ N ∧ ready N s we ∧
    s' = set_head (c_ID c) (add_step s) ∧ logged N (add_step s) command code σ d v1 we be c (w', b') ∧
    spared (s_ID s) (w, b) (w', b') ∧ doc (w_fs w') r "sandboxes" (s_ID s) = Some (json_MarshalIndent s') ∧
    keeps_blobs r (w_fs w) (w_fs w') ∧
    ∀ q, ¬ area q → ¬ below (r_cas r) q → ¬ below (cache_dir r) q → q ≠ doc_file r "checkpoints" (c_ID c) →
      q ≠ doc_file r "sandboxes" (s_ID s) → w_fs w' !! q = w_fs w !! q.

Lemma wp_machine_Run N s command v w b :
  ready N s w → good_id (s_ID s) → starts U mb r N s v w b → obeys N s command v w b →
  wp (Run r command) (λ x wbs, machine_ran N s command v w b x wbs.1.1 wbs.1.2 wbs.2) (w, b, s).
Proof.
  intros Hr Hgs Hst Hob. destruct (ready_parts _ _ _ _ _ _ Hr) as (Hq & _ & _ & _ & Hc & _ & Hap & _). unfold Run. wp_step. wp_step. cbn [snd]. wp_step. wp_step.
  destruct (wp_exists _ _ _ (wp_ensureMachine U mb r is_memory N s v w b Hr Hst))
    as (x & [w0 b0] & Hen & -> & Hr0 & Hsp0 & His0 & v0 & Hv0 & Hsm0 & Hbs0). cbn [fst] in *.
  unfold wp at 1. rewrite Hen. wp_step. wp_step.
  destruct (wp_exists _ _ _ (Hob w0 b0 v0 Hr0 Hsp0 His0 Hv0 Hsm0 Hbs0)) as (x & [we be] & Hex & Hste & Hspe & code & v1 & σ & d & -> & Hh & HN). cbn [fst snd] in *.
  unfold wp at 1. rewrite Hex. wp_step. wp_step. wp_step. wp_step.
  pose proof (filed_stays U mb r _ _ _ _ Hr0 Hste) as Hfe. pose proof (ready_filed U mb r _ _ _ _ Hr0 Hfe) as Hre.
  assert (ready N (add_step s) we) as Hre' by (destruct Hre as [[] ?]; by split; [split|]).
  assert (here (add_step s) v1 σ d we be) as Hh' by (destruct Hh; by split).
  eapply wp_mono; [by apply (wp_machine_checkpoint U mb g r is_memory is_guest N (add_step s) command code v1 σ d we be)|].
  intros x [w1 b1] (c & -> & Hlog). wp_step. wp_step. wp_step. wp_step. wp_step. unfold SaveSandbox.
  wp_use (wp_putJSON r "sandboxes" (s_ID s) (set_head (c_ID c) (add_step s))); [apply Hlog|left|done|].
  intros x w2 (Hz2 & Hx). destruct x as [e|[]]; [by destruct Hx|]. destruct Hx as (f & Hf & Hfs2).
  assert (logged N (add_step s) command code σ d v1 we be c (w2, b1)) as Hlog2 by by eapply (logged_sandbox U mb r N (add_step s)).
  wp_step. exists c, code, w0, b0, v0, we, be, v1, σ, d. cbn [fst snd]. split_and!; try done.
  - etrans; [exact Hsp0|]. etrans; [exact Hspe|]. etrans; [exact (ml_others _ _ _ _ _ _ _ _ _ _ _ _ _ _ Hlog)|].
    apply spares_local. intros q Hq'. rewrite Hfs2, lookup_insert_ne; [done|]. intros <-.
    apply (ap_repo _ _ Hap _ Hq'). unfold doc_file. rewrite <- app_assoc. by eexists.
  - by rewrite Hfs2, doc_insert, decide_True, Hf.
  - intros h y Hdg Hy. apply (ml_blobs _ _ _ _ _ _ _ _ _ _ _ _ _ _ Hlog2), (rk_keep _ _ _ _ (fl_kept _ _ _ _ _ Hfe)), (is_keep _ _ _ _ His0); done.
  - intros q H1' H2' H3' H4' H5'. etrans; [by apply (ml_frame _ _ _ _ _ _ _ _ _ _ _ _ _ _ Hlog2)|].
    rewrite (fl_frame _ _ _ _ _ Hfe) by done. by apply (is_frame _ _ _ _ His0).
Qed.

(** The checkpoint of a step, to go back to. *)
Lemma logged_kept N s command code σ d v w b c wb :
  logged N s command code σ d v w b c wb → apart mb r → vm_names v ⊆ N → resumable v → listable U d σ →
  json_dom c → (∀ t, snapshot_of None d σ t → json_dom t) →
  ∃ t, snapshot_of None d σ t ∧ kept_at N v c t wb.1.
Proof.
  intros [Hid Hf Hd (t & Hsn & Hth & Hst & Hes & _) Hic _ _ Hci Hrw _ _] Hap HN Hres Hls Hj Hjt. exists t. split; [done|].
  split; try done; [split; try done|].
  - apply Hci.
  - by eapply (new_id_good "ck-").
  - by apply load_doc.
  - rewrite Hth. apply hashOf_digest.
  - unfold tree_at. rewrite Hth. unfold stored in Hst. rewrite Hst. exact (json_roundtrip t (Hjt t Hsn)).
  - by eapply snapshot_shape; [apply Hls..|].
Qed.

(** ** Going back *)

(** A change in a working directory. *)
Lemma worked_kept_at N v c t id w w' :
  kept_at N v c t w → worked r id (w_fs w) (w_fs w') → w_zero w' = w_zero w →
  kept_at N v c t w' ∧ ∀ q, area q → w_fs w' !! q = w_fs w !! q.
Proof.
  intros Hk Hw Hz. pose proof Hk as [Hci Hap [Hrw Hs _ _ _ _] _ _ _ _ _]. pose proof (worked_blobs _ _ _ _ Hrw Hw) as Hbl.
  assert (∀ q, below (work_dir r id) q → below (r_root r) q) as Hroot.
  { intros q [k ->]. unfold work_dir, below. rewrite <- !app_assoc. by eexists. }
  split.
  - eapply kept_step; [done| |by eapply worked_repo| |eapply worked_doc; [done|right; left]].
    + eapply cache_inv_frame; [done|by eapply worked_store|eapply live_kept; [apply Hci|done]|unfold memo_ok; rewrite Hz; apply Hci| |].
      * destruct (co_root _ _ _ (ci_ok _ _ _ _ Hci)) as [m Hm]. exists m. rewrite (wk_frame _ _ _ _ Hw); [done|].
        intros [k Hx]. apply (f_equal length) in Hx. unfold work_dir in Hx. rewrite !length_app in Hx. simpl in Hx. lia.
      * intros q [k ->]. apply (wk_frame _ _ _ _ Hw). intros [k' Hx]. unfold work_dir, cache_dir in Hx.
        rewrite <- !app_assoc in Hx. apply app_inv_head in Hx. by simplify_eq/=.
    + intros h x _ Hx. by rewrite (blob_of_agree (w_fs w)).
  - intros q Hq. apply (wk_frame _ _ _ _ Hw). intros Hb. by apply (ap_repo _ _ Hap q Hq), Hroot.
Qed.

(** The tree and the machine of a checkpoint brought to the sandbox [id], and
    the documents of [L] written. *)
Record returned N v c t (id : string) (L : list (string * string)) w b (wb : world * B) : Prop := {
  rt_vm : ∃ v', vm_at wb id = Some v' ∧ same_vm v v' ∧ based r (w_fs wb.1) v';
  rt_others : spared id (w, b) wb;
  rt_kept : kept_at N v c t wb.1;
  rt_work : ∃ σ1, restored (r_cas r) (WorkDir r id) t (w_fs w) σ1 ∧ ∀ q, below (work_dir r id) q → w_fs wb.1 !! q = σ1 !! q;
  rt_blobs : keeps_blobs r (w_fs w) (w_fs wb.1);
  rt_docs : ∀ d x, d ∈ doc_dirs → (d, x) ∉ L → doc (w_fs wb.1) r d x = doc (w_fs w) r d x
}.

Lemma wp_return N v c t id w b (Q : gerr + unit → world * B → Prop) :
  quiet → work_id id → kept_at N v c t w → restore_able U (r_cas r) (WorkDir r id) t (w_fs w) → can_hold (w, b) id →
  (∀ wb, ¬ blocked t (WorkDir r id) (w_fs w) → returned N v c t id [] w b wb → Q (inr tt) wb) →
  (∀ e w', blocked t (WorkDir r id) (w_fs w) → worked r id (w_fs w) (w_fs w') → w_zero w' = w_zero w → Q (inl e) (w', b)) →
  wp (on_fst (Restore (StoreBlobs (r_cas r)) t (WorkDir r id));; bringUp r id c t) Q (w, b).
Proof.
  intros Hq Hid Hk Hpre Hcan HQ HQe. pose proof (rw_cas _ _ (re_repo _ _ _ _ _ (mk_readable _ _ _ _ _ _ _ _ Hk))) as Hcas. wp_step. wp_step.
  wp_use (wp_Restore_able U (r_cas r) (WorkDir r id) t w); [done|done|].
  intros [e|[]] w1 (Hz1 & Hbl & Hres); [by apply HQe; [|apply contained_worked|]|].
  pose proof (restored_worked _ _ _ _ _ _ Hid Hres) as Hw1. destruct (worked_kept_at _ _ _ _ _ _ _ Hk Hw1 Hz1) as [Hk1 Ha1].
  pose proof Hk1 as [Hci1 Hap Hre1 Hok Hes Hic HN Hrs].
  eapply wp_mono; [apply (wp_bringUp U mb r is_memory N id c v t w1 b); try done; by eapply can_local|].
  intros x [w2 b2] (-> & Hci2 & His & Hsp & Hv). cbn [fst] in *. apply HQ; [done|].
  assert (∀ d x, d ∈ doc_dirs → doc (w_fs w2) r d x = doc (w_fs w1) r d x) as Hdoc by (intros; by apply (image_doc mb r w1 w2)).
  split; cbn [fst]; try done.
  - etrans; [|exact Hsp]. by apply spares_local.
  - eapply kept_step; [done|done|eapply image_repo; [apply Hre1|done..]|apply His|apply Hdoc; right; left].
  - exists (w_fs w1). split; [done|]. intros q [k ->]. unfold work_dir. rewrite <- app_assoc. apply (image_frame mb r w1 w2); try done. do 3 right; left.
  - intros h x Hh Hx. apply (is_keep _ _ _ _ His); [done|]. rewrite (blob_of_agree (w_fs w)); [done|].
    eapply worked_blobs; [apply (re_repo _ _ _ _ _ (mk_readable _ _ _ _ _ _ _ _ Hk))|done].
  - intros d x Hd _. rewrite Hdoc by done. by eapply worked_doc.
Qed.

(** A document written after. *)
Lemma returned_doc N v c t id L w b w1 b1 d x f w2 :
  returned N v c t id L w b (w1, b1) → d ∈ doc_dirs → good_id x → (d, x) ≠ ("checkpoints", c_ID c) →
  w_fs w2 = <[doc_file r d x := NFile f]> (w_fs w1) → w_zero w2 = w_zero w1 →
  returned N v c t id ((d, x) :: L) w b (w2, b1).
Proof.
  intros [(v' & Hv & Hsm & Hbs) Hsp Hk (σ1 & Hres & Hwk) Hkb Hdc] Hd Hx Hne Hfs Hz. cbn [fst] in *. pose proof Hk as [Hci Hap Hre _ _ _ _ _].
  destruct (doc_written U mb r N d x f w1 w2 Hci (re_repo _ _ _ _ _ Hre) Hap Hd Hx Hfs Hz) as (Hci2 & Hrw2 & Hk2 & Ha2).
  split; cbn [fst].
  - exists v'. split_and!; [by rewrite (vm_local w1 w2)|done|by eapply based_kept].
  - etrans; [exact Hsp|]. by apply spares_local.
  - eapply kept_step; [done..|]. rewrite Hfs, doc_insert, decide_False by naive_solver. done.
  - exists σ1. split; [done|]. intros q Hq. rewrite Hfs, lookup_insert_ne; [by apply Hwk|]. intros <-. by apply work_not_doc in Hq.
  - intros h y Hh Hy. by apply Hk2, Hkb.
  - intros d' x' Hd' Hn. rewrite Hfs, doc_insert, decide_False; [|intros [-> ->]; apply Hn; left]. apply Hdc; [done|]. intros Hin. apply Hn. by right.
Qed.

Lemma kept_same N v c t w w' : kept_at N v c t w → w_fs w' = w_fs w → w_zero w' = w_zero w → kept_at N v c t w'.
Proof.
  intros Hk Hfs Hz. apply (kept_step U mb r N v c t w w'); rewrite ?Hfs; [done| |apply (mk_readable _ _ _ _ _ _ _ _ Hk)|by intros ???|done].
  eapply cache_inv_same; [apply Hk|done|done].
Qed.

Lemma returned_tick N v c t id L w b w1 b1 w2 :
  returned N v c t id L w b (w1, b1) → w_fs w2 = w_fs w1 → w_zero w2 = w_zero w1 → returned N v c t id L w b (w2, b1).
Proof.
  intros [(v' & Hv & Hsm & Hbs) Hsp Hk Hwk Hkb Hdc] Hfs Hz. cbn [fst] in *.
  assert (∀ q, area q → w_fs w2 !! q = w_fs w1 !! q) as Ha by (intros q _; by rewrite Hfs).
  split; cbn [fst]; rewrite ?Hfs; try done.
  - exists v'. by rewrite (vm_local w1 w2).
  - etrans; [exact Hsp|]. by apply spares_local.
  - by eapply kept_same.
Qed.

(** Forgetting where the world was before some reads. *)
Lemma returned_from N v c t id L w w' b wb :
  w_fs w' = w_fs w → returned N v c t id L w' b wb → returned N v c t id L w b wb.
Proof.
  intros Hfs [Hv Hsp Hk Hwk Hkb Hdc]. rewrite Hfs in *. split; try done. etrans; [|exact Hsp].
  apply spares_local. intros q _. by rewrite Hfs.
Qed.

(** Checking the checkpoint out.  It fails when something of another kind is in
    the way, and then only the working directory has changed. *)
Lemma wp_machine_Checkout N s v c t w b :
  quiet → work_id (s_ID s) → kept_at N v c t w → c_Sandbox c = s_ID s →
  restore_able U (r_cas r) (WorkDir r (s_ID s)) t (w_fs w) → can_hold (w, b) (s_ID s) →
  wp (Checkout r (c_ID c)) (λ x wbs, match x with
    | inr _ => ¬ blocked t (WorkDir r (s_ID s)) (w_fs w) ∧ wbs.2 = set_head (c_ID c) s ∧
        returned N v c t (s_ID s) [("sandboxes", s_ID s)] w b wbs.1 ∧
        doc (w_fs wbs.1.1) r "sandboxes" (s_ID s) = Some (json_MarshalIndent wbs.2)
    | inl _ => blocked t (WorkDir r (s_ID s)) (w_fs w) ∧ wbs.2 = s ∧ wbs.1.2 = b ∧
        worked r (s_ID s) (w_fs w) (w_fs wbs.1.1) ∧ w_zero wbs.1.1 = w_zero w
    end) (w, b, s).
Proof.
  intros Hq Hid Hk Hsb Hpre Hcan. pose proof (mk_readable _ _ _ _ _ _ _ _ Hk) as [Hrw Hst Hgid Hl Hd Ht].
  unfold Checkout. wp_step. wp_step. cbn [snd]. wp_step. wp_step. wp_step.
  wp_use wp_GetCheckpoint; [done|done|]. rewrite Hl. intros [e|c'] w1 (Hfs1 & Hz1 & Hx); [by specialize (Hx Hq)|].
  injection Hx as <-. rewrite decide_False by tauto. wp_step. wp_step. wp_step.
  wp_use wp_loadTree; [rewrite Hfs1; apply Hst|done|]. rewrite Hfs1. intros [e|t'] w2 (Hfs2 & Hz2 & Ht'); [by rewrite Ht' in Ht|].
  rewrite Ht in Ht'. injection Ht' as <-. assert (w_fs w2 = w_fs w) as Hfs by congruence. assert (w_zero w2 = w_zero w) as Hz by congruence.
  assert (wp (on_fst (Restore (StoreBlobs (r_cas r)) t (WorkDir r (s_ID s)));; bringUp r (s_ID s) c t)
    (λ x wb, match x with
      | inr _ => ¬ blocked t (WorkDir r (s_ID s)) (w_fs w) ∧ returned N v c t (s_ID s) [] w b wb
      | inl _ => blocked t (WorkDir r (s_ID s)) (w_fs w) ∧ wb.2 = b ∧ worked r (s_ID s) (w_fs w) (w_fs wb.1) ∧ w_zero wb.1 = w_zero w
      end) (w2, b)) as Hret.
  { apply (wp_return N v c t); rewrite ?Hfs, ?Hz; try done; [by eapply kept_same|apply (can_local w w2); [by intros; rewrite Hfs|done]|].
    intros wb Hb Hr. split; [done|]. by eapply returned_from. }
  apply wp_bind_inv in Hret. wp_step. wp_step. eapply wp_mono; [exact Hret|].
  intros [e|[]] [w3 b3] Hr3; [by destruct Hr3 as (? & ? & ? & ?)|].
  wp_step. wp_step. eapply wp_mono; [exact Hr3|]. intros [e|[]] [w4 b4] Hr4; [by destruct Hr4 as (? & ? & ? & ?)|]. destruct Hr4 as [Hub Hr4]. wp_step. wp_step. wp_step. wp_step. unfold SaveSandbox.
  wp_use (wp_putJSON r "sandboxes" (s_ID s) (set_head (c_ID c) s)); [apply (mk_readable _ _ _ _ _ _ _ _ (rt_kept _ _ _ _ _ _ _ _ _ Hr4))|left|apply Hid|].
  intros x w5 (Hz5 & Hx). destruct x as [e|[]]; [by destruct Hx|]. destruct Hx as (f & Hf & Hfs5). cbn [fst snd].
  split_and!; [done|done| |by rewrite Hfs5, doc_insert, decide_True, Hf].
  eapply returned_doc; [exact Hr4|left|apply Hid|done|exact Hfs5|exact Hz5].
Qed.

(** A tree can be restored where there is nothing. *)
Lemma restore_fresh N v c t id w :
  kept_at N v c t w → work_id id → (∀ cs, w_fs w !! (WorkDir r id ++ cs) = None) → restore_pre U (r_cas r) (WorkDir r id) t (w_fs w).
Proof.
  intros Hk Hid Hn. pose proof (mk_readable _ _ _ _ _ _ _ _ Hk) as [Hrw Hst _ _ _ _]. split; try done.
  - apply Hk.
  - intros cs Hb. rewrite (rw_cas _ _ Hrw) in Hb. apply (work_apart _ id) in Hb. apply Hb. rewrite WorkDir_eq by done. by eexists.
  - right. exists (r_root r ++ ["work"]), id. rewrite WorkDir_eq in * by done. split_and!; [done|apply Hrw; do 3 right; left|apply Hid|].
    specialize (Hn []). by rewrite app_nil_r in Hn.
  - intros cs [n Hx]. by rewrite Hn in Hx.
  - intros e He. by rewrite Hn.
  - apply Forall_forall, Hk.
Qed.

(** Forking it. *)
Lemma wp_machine_Fork N v c t name w b :
  quiet → kept_at N v c t w →
  (∀ id, next_id (w_tick w) "sbx-" id → can_hold (w, b) id ∧ ∀ cs, w_fs w !! (WorkDir r id ++ cs) = None) →
  wp (Fork r (c_ID c) name) (λ x wb, ∃ s' ck, x = inr s' ∧ next_id (w_tick w) "sbx-" (s_ID s') ∧ new_id "ck-" (c_ID ck) ∧
    s_Head s' = c_ID ck ∧ made_sandbox name (c_ID c) s' ∧ fork_root c ck (s_ID s') ∧
    (c_ID ck ≠ c_ID c → returned N v c t (s_ID s') [("sandboxes", s_ID s'); ("checkpoints", c_ID ck)] w b wb ∧
      doc (w_fs wb.1) r "checkpoints" (c_ID ck) = Some (json_MarshalIndent ck) ∧
      doc (w_fs wb.1) r "sandboxes" (s_ID s') = Some (json_MarshalIndent s'))) (w, b).
Proof.
  intros Hq Hk Hnew. pose proof (mk_readable _ _ _ _ _ _ _ _ Hk) as [Hrw Hst Hgid Hl Hd Ht].
  unfold Fork. wp_step. wp_step. eapply wp_mono; [apply wp_forward; [apply forward_GetCheckpoint|by apply wp_GetCheckpoint]|].
  rewrite Hl. intros [e|c'] w1 [(Hfs1 & Hz1 & Hx) Hle1]; [by specialize (Hx Hq)|]. injection Hx as <-. wp_step. wp_step.
  eapply wp_mono; [apply wp_forward; [apply forward_loadTree|apply wp_loadTree; [rewrite Hfs1; apply Hst|done]]|].
  rewrite Hfs1. intros [e|t'] w2 [(Hfs2 & Hz2 & Ht') Hle2]; [by rewrite Ht' in Ht|].
  rewrite Ht in Ht'. injection Ht' as <-. wp_step. wp_step. unfold new_sandbox. wp_step. apply wp_newID_next. intros id Hnid'.
  assert (next_id (w_tick w) "sbx-" id) as Hnx by (eapply next_id_later; [|exact Hnid']; lia).
  pose proof (new_work_id _ (next_id_new _ _ _ Hnx)) as Hwid. destruct (Hnew id Hnx) as [Hcan Hfree].
  wp_step. apply wp_time_Now. wp_step. set (s0 := mkSandbox _ _ _ _ _ _ _). set (w3 := tick (tick w2)).
  assert (w_fs w3 = w_fs w) as Hfs by (simpl; congruence). assert (w_zero w3 = w_zero w) as Hz by (simpl; congruence). clearbody w3.
  assert (wp (on_fst (Restore (StoreBlobs (r_cas r)) t (WorkDir r id));; bringUp r id c t)
    (λ x wb, x = inr tt ∧ returned N v c t id [] w b wb) (w3, b)) as Hret.
  { pose proof (restore_fresh _ _ _ _ id _ Hk Hwid Hfree) as Hpre. apply restore_pre_able in Hpre as [Hpre Hnb].
    apply (wp_return N v c t); rewrite ?Hfs; try done; [by eapply kept_same|apply (can_local w w3); [by intros; rewrite Hfs|done]|].
    intros wb _ Hr. split; [done|]. by eapply returned_from. }
  apply wp_bind_inv in Hret. wp_step. eapply wp_mono; [exact Hret|]. intros [e|[]] [w4 b4] Hr4; [by destruct Hr4|].
  wp_step. eapply wp_mono; [exact Hr4|]. intros x [w5 b5] [-> Hr5]. wp_step. wp_step. apply wp_newID. intros ck Hnck.
  assert (good_id ck) as Hgck by (eapply (new_id_good "ck-"); done).
  wp_step. wp_step. apply wp_time_Now. set (root := mkCheckpoint _ _ _ _ _ _ _ _ _ _ _ _ _ _ _ _). set (w6 := tick (tick w5)).
  pose proof (returned_tick _ _ _ _ _ _ _ _ _ _ w6 Hr5 eq_refl eq_refl) as Hr6. clearbody w6.
  pose proof (mk_readable _ _ _ _ _ _ _ _ (rt_kept _ _ _ _ _ _ _ _ _ Hr6)) as Hre6.
  wp_step. wp_step. unfold SaveCheckpoint. wp_use (wp_putJSON r "checkpoints" ck root); [apply Hre6|right; left|done|].
  intros x w7 (Hz7 & Hx). destruct x as [e|[]]; [by destruct Hx|]. destruct Hx as (f & Hf & Hfs7). cbn [fst] in *.
  assert (repo_wf r (w_fs w7)) as Hrw7 by (rewrite Hfs7; apply repo_wf_doc; [apply Hre6|right; left|done]).
  wp_step. wp_step. unfold SaveSandbox. wp_use (wp_putJSON r "sandboxes" id (set_head ck s0)); [done|left|apply Hwid|].
  intros x w8 (Hz8 & Hx). destruct x as [e|[]]; [by destruct Hx|]. destruct Hx as (f' & Hf' & Hfs8). wp_step.
  exists (set_head ck s0), root. cbn [fst]. split_and!; try done; [by repeat split; eexists..|]. intros Hne.
  split_and!.
  - eapply returned_doc; [eapply returned_doc; [exact Hr6|right; left|exact Hgck| |exact Hfs7|exact Hz7]|left|apply Hwid|done|exact Hfs8|exact Hz8].
    intros [= He]. by apply Hne.
  - by rewrite Hfs8, doc_insert, decide_False, Hfs7, doc_insert, decide_True, Hf by naive_solver.
  - by rewrite Hfs8, doc_insert, decide_True, Hf'.
Qed.

End runs.
