(* ===== verification/MachineTravel.v ===== *)
(** * What a history of machines promises

    Steps, forks, checkouts and stops of sandboxes that run in machines, in any
    order: the machine of every checkpoint can be brought back. *)

From S2P Require Import Prelude Sha256 Os OsFacts WalkFacts Parallel Cas Blobs Chunked ChunkedFacts Json Codec Codecs ChunkedProps Tree TreeFacts Snap SnapFacts SnapProps Model Repo RepoFacts RepoProps Backend Engine EngineFacts StepFacts StepProps CacheProps CacheFacts MachineFacts MachineProps MachineSteps MachineRuns Checks.
Import Cas Chunked Tree Snap Model Repo Backend Engine.
Open Scope Z_scope.

Section travel.
Context `{OsEnv, Sched} (U : bytes → Prop) {NC : NoCollision U} {B : Type} `{Backend B} (mb : MemoryBackend B)
  `{!MachineSpec mb} (g : GuestFS B) `{!GuestSpec mb g}.
Context (r : Repo) (is_memory : as_memory (B:=B) = Some mb) (is_guest : as_guest (B:=B) = Some g).
Implicit Types (w : world) (s : Sandbox) (v : vm) (b : B) (N : list string).

Notation kept_at := (machine_kept U mb r).
Notation ready := (machine_ready U mb r).

(** C5 (machine_run_records): a step of a sandbox whose machine runs, or is stopped
    with a machine in its head.  The command starts in that machine; the
    checkpoint [Run] returns has the command and its exit code, a tree that is
    exactly the guest's files with every file stored, the counts of the
    differences from the head's tree, and the machine the command left: its
    memory, device state and disk are in the store.  The machine goes on as the
    command left it, the other machines, blobs and documents stay.

    The host does not fail; the backend meets [MachineSpec], whose machines have no
    layered base disk, and [GuestSpec]; the command changes files of the backend
    only ([obeys]); the images of the machine before and after it fit in the image
    cache. *)
Theorem machine_run_records N s command v w b :
  ready N s w → good_id (s_ID s) → starts U mb r N s v w b → obeys U mb g r N s command v w b →
  ∃ c w' b' s', Run r command (w, b, s) = (Ok c, (w', b', s')) ∧
    machine_ran U mb g r N s command v w b (inr c) w' b' s'.
Proof.
  intros Hr Hid Hst Hob.
  destruct (wp_exists _ _ _ (wp_machine_Run U mb g r is_memory is_guest N s command v w b Hr Hid Hst Hob))
    as (x & [[w' b'] s'] & Hrun & Hp). pose proof Hp as (c & code & w0 & b0 & v0 & we & be & v1 & σ & d & -> & _).
  by exists c, w', b', s'.
Qed.

(** Where a new sandbox can be. *)
Definition roomy_for w b : Prop := ∀ id, next_id (w_tick w) "sbx-" id →
  can_hold (w, b) id ∧ ∀ cs, w_fs w !! (WorkDir r id ++ cs) = None.

(** One operation, or a change in a working directory.  The random identifier
    of a new checkpoint is not one in use. *)
Inductive machine_op N : world * B → world * B → Prop :=
| mo_work id w w' b :
    worked r id (w_fs w) (w_fs w') → w_zero w' = w_zero w → machine_op N (w, b) (w', b)
| mo_run s command v x w b w' b' s' :
    ready N s w → good_id (s_ID s) → starts U mb r N s v w b → obeys U mb g r N s command v w b →
    Run r command (w, b, s) = (x, (w', b', s')) →
    (∀ c, x = Ok c → doc (w_fs w) r "checkpoints" (c_ID c) = None) → machine_op N (w, b) (w', b')
| mo_checkout s v c t x w b w' b' s' :
    kept_at N v c t w → work_id (s_ID s) → c_Sandbox c = s_ID s →
    restore_able U (r_cas r) (WorkDir r (s_ID s)) t (w_fs w) → can_hold (w, b) (s_ID s) →
    Checkout r (c_ID c) (w, b, s) = (x, (w', b', s')) → machine_op N (w, b) (w', b')
| mo_fork v c t name x w b w' b' :
    kept_at N v c t w → roomy_for w b → Fork r (c_ID c) name (w, b) = (x, (w', b')) →
    (∀ s, x = Ok s → doc (w_fs w) r "checkpoints" (s_Head s) = None) → machine_op N (w, b) (w', b')
| mo_stop s x w b w' b' :
    Stop s (w, b) = (x, (w', b')) → machine_op N (w, b) (w', b').

(** A document that is there is not one with a new identifier. *)
Lemma kept_doc_there N v c t w : kept_at N v c t w → is_Some (doc (w_fs w) r "checkpoints" (c_ID c)).
Proof.
  intros Hk. pose proof (re_load _ _ _ _ _ (mk_readable _ _ _ _ _ _ _ _ Hk)) as Hl. unfold load in Hl.
  destruct (doc _ _ _ _); [by eexists|done].
Qed.

Lemma kept_ran N s command v v0 c0 t0 w b c w' b' s' :
  kept_at N v0 c0 t0 w → machine_ran U mb g r N s command v w b (inr c) w' b' s' → c_ID c ≠ c_ID c0 → kept_at N v0 c0 t0 w'.
Proof.
  intros Hk (c' & code & w0 & b0 & v1 & we & be & v2 & σ & d & [= <-] & _ & _ & _ & _ & _ & _ & _ & _ & Hl & _ & _ & Hkb & Hdc) Hne.
  apply (kept_step U mb r N v0 c0 t0 w w'); [done|apply Hl|apply Hl|done|]. pose proof Hk as [Hci Hap _ _ _ _ _ _].
  assert (below (r_root r) (doc_file r "checkpoints" (c_ID c0))) as Hb by (unfold doc_file; rewrite <- app_assoc; by eexists).
  unfold doc. rewrite Hdc; [done|..].
  - intros Ha. by apply (ap_repo _ _ Hap _ Ha).
  - rewrite (ci_cas _ _ _ _ Hci). apply repo_blobs_disjoint. right; left.
  - intros [k Hx]. unfold cache_dir, doc_file in Hx. rewrite <- !app_assoc in Hx. apply app_inv_head in Hx. by simplify_eq/=.
  - by intros [_ ?]%doc_file_inj.
  - by intros [? _]%doc_file_inj.
Qed.

Lemma kept_returned N v v0 c c0 t t0 id L w b wb :
  kept_at N v0 c0 t0 w → returned U mb r N v c t id L w b wb → ("checkpoints", c_ID c0) ∉ L → kept_at N v0 c0 t0 wb.1.
Proof.
  intros Hk Hr Hn. pose proof (rt_kept _ _ _ _ _ _ _ _ _ _ _ _ Hr) as [Hci _ Hre _ _ _ _ _].
  apply (kept_step U mb r N v0 c0 t0 w wb.1); [done|done|apply Hre|apply Hr|]. apply (rt_docs _ _ _ _ _ _ _ _ _ _ _ _ Hr); [right; left|done].
Qed.

Lemma machine_op_kept N v c t x y :
  quiet → machine_op N x y → kept_at N v c t x.1 → kept_at N v c t y.1.
Proof.
  intros Hq Hop Hk. destruct (kept_doc_there _ _ _ _ _ Hk) as [dc Hdc].
  destruct Hop as [id w w' b Hw Hz|s command v1 x w b w' b' s' Hr Hid Hst Hob Hrun Hfr|s v1 c1 t1 x w b w' b' s' Hk1 Hid Hsb Hpre Hcan Hrun
    |v1 c1 t1 name x w b w' b' Hk1 Hroom Hrun Hfr|s x w b w' b' Hrun]; cbn [fst] in *.
  - by eapply worked_kept_at.
  - pose proof (wp_run _ _ _ _ _ (wp_machine_Run U mb g r is_memory is_guest N s command v1 w b Hr Hid Hst Hob) Hrun) as Hp.
    destruct x as [c'|e|]; [|by destruct Hp as (? & ? & ? & ? & ? & ? & ? & ? & ? & ? & ? & _)|done]. cbn [fst snd] in Hp.
    eapply kept_ran; [exact Hk|exact Hp|]. intros He. rewrite <- He, (Hfr c' eq_refl) in Hdc. done.
  - pose proof (wp_run _ _ _ _ _ (wp_machine_Checkout U mb r is_memory N s v1 c1 t1 w b Hq Hid Hk1 Hsb Hpre Hcan) Hrun) as Hp.
    destruct x as [[]|e|]; [| |done].
    2:{ destruct Hp as (_ & _ & _ & Hwk & Hz). by eapply worked_kept_at. }
    destruct Hp as (_ & _ & Hret & _). cbn [fst snd] in Hret.
    eapply (kept_returned _ _ _ _ _ _ _ _ _ _ _ (w', b')); [exact Hk|exact Hret|]. by intros [[=]|?%not_elem_of_nil]%elem_of_cons.
  - pose proof (wp_run _ _ _ _ _ (wp_machine_Fork U mb r is_memory N v1 c1 t1 name w b Hq Hk1 Hroom) Hrun) as Hp.
    destruct x as [s'|e|]; [|by destruct Hp as (? & ? & ? & _)|done].
    destruct Hp as (s2 & ck & [= <-] & _ & _ & Hh & _ & _ & Hret). specialize (Hfr _ eq_refl). rewrite Hh in Hfr.
    destruct (kept_doc_there _ _ _ _ _ Hk1) as [d1 Hd1]. destruct Hret as (Hret & _); [intros He; by rewrite <- He, Hfr in Hd1|].
    eapply (kept_returned _ _ _ _ _ _ _ _ _ _ _ (w', b')); [exact Hk|exact Hret|].
    intros [[=]|[[= He]|?%not_elem_of_nil]%elem_of_cons]%elem_of_cons; [|done]. by rewrite He, Hfr in Hdc.
  - unfold Stop in Hrun. rewrite is_memory in Hrun. pose proof Hk as [Hci Hap Hre _ _ _ _ _].
    pose proof (wp_run _ _ _ _ _ (vm_Shutdown (s_ID s) w b Hq (rw_fs _ _ (re_repo _ _ _ _ _ Hre))) Hrun) as Hp.
    destruct x as [[]|e|]; [|by destruct Hp|done]. destruct Hp as (_ & Hst & _). cbn [fst snd] in Hst.
    pose proof (stays_kept U r _ w w' (ci_cas _ _ _ _ Hci) (re_store _ _ _ _ _ Hre) (ap_repo _ _ Hap) Hst) as Hrk.
    apply (kept_step U mb r N v c t w w'); [done| |by eapply repo_wf_kept; [apply Hre|]|exact (rk_keep _ _ _ _ Hrk)|].
    + destruct Hst as (Hwf & Hz & Hf). eapply cache_inv_kept; [done|done| |unfold memo_ok; rewrite Hz; apply Hci].
      eapply live_kept; [apply Hci|]. intros q Hq'. apply Hf. intros Ha. apply (ap_repo _ _ Hap q Ha). apply root_below_cas; [apply Hci|done].
    + apply (kept_doc U r); [apply Hci|done|right; left].
Qed.

(** C4 (machine_past): a checkpoint of a machine, and whatever warm operations
    follow on sandboxes of the repository: steps of machines that run or whose head
    has one, checkouts and forks of checkpoints that have one, stops, and changes
    in the working directories.  The machine comes back: a fork of the checkpoint
    is a new sandbox that runs a machine with its memory, device state and disk,
    in a working directory with its tree; and a checkout gives the sandbox that
    machine again, unless something of another kind stands in the working
    directory at a path of the tree, when it fails and changes that directory only.
    Every other machine is left as it is, and what the backend believes of the
    image a machine derives from is true of the store.

    The host does not fail; the backend meets [MachineSpec], whose machines have no
    layered base disk; the images of all the machines of the history ([N]) fit in
    the image cache; a checkout finds a directory or nothing for the working
    directory, and no symbolic link in it where the tree has a file or a directory;
    new identifiers are not in use. *)
Theorem machine_past N v c t name w b w' b' :
  quiet → kept_at N v c t w → rtc (machine_op N) (w, b) (w', b') → roomy_for w' b' →
  kept_at N v c t w' ∧
  (∃ s' ck w2 b2, Fork r (c_ID c) name (w', b') = (Ok s', (w2, b2)) ∧ s_Head s' = c_ID ck ∧
     made_sandbox name (c_ID c) s' ∧ fork_root c ck (s_ID s') ∧
     (c_ID ck ≠ c_ID c →
        returned U mb r N v c t (s_ID s') [("sandboxes", s_ID s'); ("checkpoints", c_ID ck)] w' b' (w2, b2))) ∧
  (∀ s, work_id (s_ID s) → c_Sandbox c = s_ID s → restore_able U (r_cas r) (WorkDir r (s_ID s)) t (w_fs w') →
     can_hold (w', b') (s_ID s) →
     (¬ blocked t (WorkDir r (s_ID s)) (w_fs w') ∧ ∃ w2 b2,
        Checkout r (c_ID c) (w', b', s) = (Ok tt, (w2, b2, set_head (c_ID c) s)) ∧
        returned U mb r N v c t (s_ID s) [("sandboxes", s_ID s)] w' b' (w2, b2)) ∨
     (blocked t (WorkDir r (s_ID s)) (w_fs w') ∧ ∃ e w2,
        Checkout r (c_ID c) (w', b', s) = (Err e, (w2, b', s)) ∧ worked r (s_ID s) (w_fs w') (w_fs w2))).
Proof.
  intros Hq Hk Hs Hroom. assert (kept_at N v c t w') as Hk'.
  { change (kept_at N v c t (w', b').1). change (kept_at N v c t (w, b).1) in Hk. revert Hk.
    induction Hs as [|x y z Hop _ IH]; [done|]. intros Hx. by eapply IH, machine_op_kept. }
  split_and!; [done|..].
  - destruct (wp_exists _ _ _ (wp_machine_Fork U mb r is_memory N v c t name w' b' Hq Hk' Hroom))
      as (x & [w2 b2] & Hrun & s' & ck & -> & _ & _ & Hh & Hmade & Hroot & Hret).
    exists s', ck, w2, b2. split_and!; try done. intros Hne. by apply Hret.
  - intros s Hid Hsb Hpre Hcan.
    destruct (wp_exists _ _ _ (wp_machine_Checkout U mb r is_memory N s v c t w' b' Hq Hid Hk' Hsb Hpre Hcan))
      as (x & [[w2 b2] s'] & Hrun & Hp). destruct x as [e|[]]; cbn [fst snd] in *.
    + right. destruct Hp as (Hbl & -> & -> & Hwk & _). split; [done|]. by exists e, w2.
    + left. destruct Hp as (Hnb & -> & Hret & _). split; [done|]. by exists w2, b2.
Qed.

End travel.

(** ** A machine whose guest has one file, its disk *)

Section disk_guest.
Context `{OsEnv}.

Definition disk_file (c : bytes) : file := File o644 (Some <$> c) 0 0.
Definition disk_fs (v : vm) : fs :=
  match v_disk v with
  | Some c => <[["disk"] := NFile (disk_file c)]> fs_root
  | None => fs_root
  end.
Definition disk_entries (v : vm) : list Entry :=
  match v_disk v with
  | Some c => [mkEntry "disk" o644 (Z.of_nat (length c)) (hashOf c) "" false]
  | None => []
  end.

Definition machine_named (id : string) : M (world * gmap string vm) vm :=
  x ← get_state;
  match x.2 !! id with Some v => mret v | None => throw (Errorf "not running") end.

Definition disk_guest : GuestFS (gmap string vm) := {|
  ListFiles id := v ← machine_named id; mret (disk_entries v);
  Backend.ReadFile id p :=
    v ← machine_named id;
    match v_disk v with Some c => if decide (p = "disk") then mret c else throw (Errno ENOENT) | None => throw (Errno ENOENT) end;
  WriteTree _ _ _ := throw (Errorf "read only")
|}.

Definition set_mem (m : bytes) (v : vm) : vm := mkVm m (v_state v) (v_disk v) (v_base v) (v_last v).

(** A command of this machine is the memory it leaves. *)
Definition disk_exec (id : string) (command : list string) : M (world * gmap string vm) Z :=
  v ← machine_named id;
  modify_snd (<[id := set_mem (to_bytes (join_with " " command)) v]>);;
  mret 0.

Definition disk_backend : Backend (gmap string vm) := {|
  Name := "kept"; Exec id _ command := disk_exec id command; as_memory := Some kept_memory; as_guest := Some disk_guest
|}.

Lemma wp_machine_named id v w m (Q : gerr + vm → world * gmap string vm → Prop) :
  m !! id = Some v → Q (inr v) (w, m) → wp (machine_named id) Q (w, m).
Proof. intros Hv HQ. unfold machine_named. wp_step. wp_step. cbn [snd]. rewrite Hv. by wp_step. Qed.

Lemma disk_nodes v cs n : disk_fs v !! cs = Some n →
  (cs = [] ∧ n = NDir o755) ∨ ∃ c, v_disk v = Some c ∧ cs = ["disk"] ∧ n = NFile (disk_file c).
Proof.
  unfold disk_fs. assert (∀ q k, fs_root !! q = Some k → q = [] ∧ k = NDir o755) as Hr.
  { intros q k. unfold fs_root. rewrite lookup_singleton_Some. naive_solver. }
  destruct (v_disk v) as [c|]; [|left; by apply Hr]. rewrite lookup_insert_Some. intros [[<- <-]|[_ Hn]]; [right; eauto|left; by apply Hr].
Qed.

Lemma disk_wf v : fs_wf (disk_fs v).
Proof.
  unfold disk_fs. destruct (v_disk v); [|apply fs_root_wf].
  apply (fs_wf_insert fs_root [] "disk"); [apply fs_root_wf|by eexists|by repeat split|]. intros [m Hm]. by vm_compute in Hm.
Qed.

Lemma disk_entry v e : e ∈ disk_entries v ↔
  ∃ cs nd, cs ≠ [] ∧ disk_fs v !! ([] ++ cs) = Some nd ∧ visible None [] (disk_fs v) cs ∧ entry_of (join_with "/" cs) nd = Some e.
Proof.
  split.
  - unfold disk_entries. destruct (v_disk v) as [c|] eqn:E; [|by intros ?%not_elem_of_nil]. intros ->%list_elem_of_singleton.
    exists ["disk"], (NFile (disk_file c)). split_and!; [done|unfold disk_fs; rewrite E; apply lookup_insert_eq|by intros ???|].
    unfold entry_of, f_size, contents, disk_file. cbn [f_cells]. rewrite length_fmap, <- list_fmap_compose, list_fmap_id. done.
  - intros (cs & nd & Hne & Hn & _ & He). cbn [app] in Hn. apply disk_nodes in Hn as [[-> _]|(c & Hc & -> & ->)]; [done|].
    unfold disk_entries. rewrite Hc. apply list_elem_of_singleton. symmetry. apply (inj Some). rewrite <- He.
    unfold entry_of, f_size, contents, disk_file. cbn [f_cells]. rewrite length_fmap, <- list_fmap_compose, list_fmap_id. done.
Qed.

Lemma disk_snapshot v : snapshot_of None [] (disk_fs v) (mkTree (disk_entries v)).
Proof.
  split; cbn [t_Entries].
  - apply disk_entry.
  - unfold disk_entries. destruct (v_disk v); by repeat constructor.
  - unfold disk_entries. destruct (v_disk v); [|constructor]. apply NoDup_singleton.
Qed.

Lemma disk_snapshot_only v t : snapshot_of None [] (disk_fs v) t → t = mkTree (disk_entries v).
Proof.
  intros [He _ Hn]. destruct t as [l]. cbn [t_Entries] in *. apply (f_equal mkTree).
  assert (l ≡ₚ disk_entries v) as Hp.
  { apply NoDup_Permutation; [by apply NoDup_fmap_1 in Hn| |intros e; rewrite He; symmetry; apply disk_entry].
    unfold disk_entries. destruct (v_disk v); [apply NoDup_singleton|constructor]. }
  unfold disk_entries in *. destruct (v_disk v); [|by apply Permutation_nil_r]. symmetry in Hp. by apply Permutation_length_1_inv in Hp.
Qed.

#[global] Program Instance disk_guest_spec : GuestSpec kept_memory disk_guest := {|
  guest_has s id σ d := ∃ v, s.2 !! id = Some v ∧ σ = disk_fs v ∧ d = []
|}.
Next Obligation. by intros. Qed.
Next Obligation.
  intros id v σ d w b Hq Hv (v' & Hv' & -> & ->) Hwf. cbn [snd] in *. unfold ListFiles, disk_guest. wp_step. eapply wp_machine_named; [exact Hv'|].
  wp_step. exists (disk_entries v'). split_and!; [done|apply disk_snapshot|by split_and!|by split_and!].
Qed.
Next Obligation.
  intros id v σ d cs f w b Hq Hv (v' & Hv' & -> & ->) Hwf Hne Hf. cbn [snd app] in *. apply disk_nodes in Hf as [[-> _]|(c & Hc & -> & [= ->])]; [done|].
  unfold Backend.ReadFile, disk_guest. wp_step. eapply wp_machine_named; [exact Hv'|]. rewrite Hc. rewrite decide_True by done. wp_step.
  split_and!; [|by split_and!|by split_and!]. apply (f_equal inr). unfold contents, disk_file. cbn [f_cells].
  rewrite <- list_fmap_compose. by rewrite list_fmap_id.
Qed.

End disk_guest.

(** ** A step of it, and back *)

#[local] Existing Instance calm.
#[local] Existing Instance in_order.
#[local] Existing Instance disk_backend.
#[local] Existing Instance box_no_collision.

Definition box_before : vm := mkVm box_old (to_bytes "st") (Some box_disk) (Some (image_name box_old, box_old)) None.
Definition box_start : gmap string vm := {["sbx-1" := box_before]}.

Lemma box_apart_nodes (p : path) : nodes_b box_fs (λ q _, match under p q with Some (_ :: _) => false | _ => true end) = true →
  ∀ c k, box_fs !! (p ++ c :: k) = None.
Proof.
  intros Hb c k. apply eq_None_not_Some. intros [n Hn]. apply (nodes_b_ok _ _ _ _ Hb) in Hn. rewrite under_app in Hn. discriminate Hn.
Qed.

Lemma box_ready : machine_ready box_U kept_memory box_repo box_names box box_world.
Proof.
  split; [exact box_pre|]. intros id c _ Hl. unfold load, doc, doc_file in Hl. rewrite <- app_assoc in Hl. cbn [app] in Hl.
  change (r_root box_repo) with ["repo"] in Hl. change (w_fs box_world) with box_fs in Hl.
  change (["repo"] ++ ["checkpoints"; id +:+ ".json"]) with (["repo"; "checkpoints"] ++ (id +:+ ".json") :: []) in Hl.
  rewrite box_apart_nodes in Hl by (vm_compute; reflexivity). discriminate Hl.
Qed.

Lemma vm_in_same U v v' : same_vm v v' → vm_in U v → vm_in U v'.
Proof. intros (Hm & Hs & Hd) [? ? ?]. split; rewrite ?Hm, ?Hs, ?Hd; done. Qed.

Lemma box_after v : same_vm box_before v → same_vm box_vm (set_mem (to_bytes "mem1") v).
Proof. intros (_ & Hs & Hd). split_and!; cbn [set_mem v_mem v_state v_disk]; [done|exact Hs|exact Hd]. Qed.

Lemma box_listable v : v_disk v = Some box_disk → listable box_U [] (disk_fs v).
Proof.
  intros Hd. split.
  - apply disk_wf.
  - intros cs [n Hn]. cbn [app] in Hn. apply disk_nodes in Hn as [[-> _]|(c & _ & -> & _)]; by repeat constructor.
  - intros q l _ Hn. by apply disk_nodes in Hn as [[_ ?]|(c & _ & _ & ?)].
  - intros q f _ Hn. apply disk_nodes in Hn as [[_ ?]|(c & Hc & _ & [= ->])]; [done|]. rewrite Hd in Hc. injection Hc as <-.
    replace (contents (disk_file box_disk)) with box_disk; [by apply (box_in 6)|]. vm_compute. reflexivity.
Qed.

Lemma box_tree_in v t : v_disk v = Some box_disk → snapshot_of None [] (disk_fs v) t → t = box_tree.
Proof. intros Hd ->%disk_snapshot_only. unfold disk_entries. rewrite Hd. reflexivity. Qed.

Lemma box_obeys : obeys box_U kept_memory disk_guest box_repo box_names box ["mem1"] box_before box_world box_start.
Proof.
  intros w0 b0 v0 Hr Hsp His Hv Hsm Hbs. change (b0 !! "sbx-1" = Some v0) in Hv.
  change (Exec (s_ID box) (WorkDir box_repo (s_ID box)) ["mem1"]) with (disk_exec "sbx-1" ["mem1"]).
  unfold disk_exec. wp_step. eapply wp_machine_named; [exact Hv|]. wp_step. wp_step. wp_step.
  pose proof (box_after v0 Hsm) as Hsm1. set (v1 := set_mem _ v0) in *. assert (v_disk v1 = Some box_disk) as Hd1 by apply Hsm1.
  split_and!; [|split; [|done]; apply elsewhere_insert|].
  - split_and!; [|done..]. eapply ready_parts. exact Hr.
  - exists 0, v1, (disk_fs v1), []. split; [done|]. split; [split|].
    + apply lookup_insert_eq.
    + eapply vm_in_same; [exact Hsm1|exact box_vm_in].
    + exact Hbs.
    + exists v1. split_and!; [apply lookup_insert_eq|done|done].
    + by apply box_listable.
    + intros t Ht. rewrite (box_tree_in v1 t Hd1 Ht). by apply (box_in 9).
    + intros x Hx. unfold vm_names in Hx. destruct Hsm1 as (Hm & Hs & Hd). rewrite Hm, Hs, Hd in Hx. exact Hx.
Qed.

Lemma box_starts : starts box_U kept_memory box_repo box_names box box_before box_world box_start.
Proof. left. split; [reflexivity|exact box_based]. Qed.

(** C5 at a command that changes the memory. *)
Lemma machine_run_records_witness :
  ∃ c w' b' s', Run box_repo ["mem1"] (box_world, box_start, box) = (Ok c, (w', b', s')) ∧
    machine_ran box_U kept_memory disk_guest box_repo box_names box ["mem1"] box_before box_world box_start (inr c) w' b' s'.
Proof.
  exact (machine_run_records box_U kept_memory disk_guest box_repo eq_refl eq_refl box_names box ["mem1"] box_before box_world box_start
    box_ready eq_refl box_starts box_obeys).
Defined.

Lemma image_name_utf8 img : utf8 (image_name img).
Proof. apply hashOf_utf8. Qed.

Lemma box_counts : count_kind added (Diff None box_tree) = 1 ∧ count_kind modified (Diff None box_tree) = 0 ∧
  count_kind deleted (Diff None box_tree) = 0.
Proof. vm_compute. done. Qed.

Lemma box_parent σ : parent_is σ box_repo (add_step box) None.
Proof. left. split; reflexivity. Qed.

(** The command of the step, and what it left. *)
Lemma box_exec w0 b0 v0 code we be :
  b0 !! "sbx-1" = Some v0 → disk_exec "sbx-1" ["mem1"] (w0, b0) = (Ok code, (we, be)) →
  code = 0 ∧ be = <["sbx-1" := set_mem (to_bytes "mem1") v0]> b0.
Proof.
  intros Hv. unfold disk_exec, machine_named, mbind, M_bind, get_state, modify_snd. cbn [fst snd]. rewrite Hv. cbn [mret M_ret].
  by intros [= <- _ <-].
Qed.

Lemma box_logged_dom v σ d w b c wb :
  machine_logged box_U kept_memory box_repo box_names (add_step box) ["mem1"] 0 σ d v w b c wb →
  (∀ t, snapshot_of None d σ t → t = box_tree) → is_Some (v_disk v) → json_dom c.
Proof.
  intros Hl Ht [dk Hdk]. destruct (ml_fields _ _ _ _ _ _ _ _ _ _ _ _ _ _ Hl) as (Hsb & Hsq & Hpa & Hcm & Hcd & Hno & n & Hcr).
  destruct (ml_tree _ _ _ _ _ _ _ _ _ _ _ _ _ _ Hl) as (t & Hsn & Hth & _ & _ & Hcnt). pose proof (Ht t Hsn) as ->.
  destruct (Hcnt None (box_parent _)) as (Hadd & Hmod & Hdel). destruct box_counts as (Ha' & Hm' & Hd'). rewrite Ha' in Hadd. rewrite Hm' in Hmod. rewrite Hd' in Hdel.
  destruct (ml_machine _ _ _ _ _ _ _ _ _ _ _ _ _ _ Hl) as [(Hmh & _) (Hsh & _) Hdh Hbh]. rewrite Hdk in Hdh. destruct Hdh as [Hdh _].
  assert (utf8 (c_ID c)) as Hu by (apply (new_id_utf8 "ck-"); [by repeat constructor|apply Hl]).
  assert (utf8 (c_TreeHash c)) as Hu1 by (rewrite Hth; apply hashOf_utf8). assert (utf8 (c_MemHash c)) as Hu2 by (rewrite Hmh; apply image_name_utf8).
  assert (utf8 (c_StateHash c)) as Hu3 by (rewrite Hsh; apply hashOf_utf8). assert (utf8 (c_DiskHash c)) as Hu4 by (rewrite Hdh; apply image_name_utf8).
  clear Hth Hmh Hsh Hdh Hl Hcnt Ht. change (codec_dom c). unfold codec_dom, checkpoint_codec.
  rewrite Hsb, Hsq, Hpa, Hcm, Hcd, Hno, Hcr, Hadd, Hmod, Hdel, Hbh.
  split_and!; try assumption; try (by repeat constructor); vm_compute; done.
Qed.

Lemma box_work_free q k : below ["repo"; "work"] q → q ≠ ["repo"; "work"] → box_fs !! (q ++ k) = None.
Proof.
  intros [[|c cs] ->] Hne; [done|]. rewrite <- app_assoc. apply box_apart_nodes. vm_compute. reflexivity.
Qed.

Lemma box_not_work id cs p : p ≠ "work" → ¬ below ["repo"; p] (work_dir box_repo id ++ cs).
Proof. intros Hp [k Hx]. unfold work_dir in Hx. cbn in Hx. by injection Hx. Qed.
Lemma box_work_ne id : work_dir box_repo id ≠ ["repo"; "work"].
Proof. unfold work_dir. cbn. discriminate. Qed.

(** The checkpoint of that step has the machine. *)
Lemma box_recorded :
  ∃ c w' b' s' v1, Run box_repo ["mem1"] (box_world, box_start, box) = (Ok c, (w', b', s')) ∧
    machine_kept box_U kept_memory box_repo box_names v1 c box_tree w' ∧ v_mem v1 = to_bytes "mem1" ∧ c_Sandbox c = "sbx-1" ∧
    ∀ id cs, work_id id → w_fs w' !! (WorkDir box_repo id ++ cs) = None.
Proof.
  destruct (wp_exists _ _ _ (wp_machine_Run (H1 := disk_backend) box_U kept_memory disk_guest box_repo eq_refl eq_refl box_names box ["mem1"] box_before box_world box_start
    box_ready eq_refl box_starts box_obeys)) as (x & [[w' b'] s'] & Hrun & c & code & w0 & b0 & v0 & we & be & v1 & σ & d & -> & _ & Hv0 & Hsm & Hex & Hh & HN & Hre & _ & Hlog & _ & _ & _ & Hfr).
  cbn [fst snd] in *. change (b0 !! "sbx-1" = Some v0) in Hv0. change (disk_exec "sbx-1" ["mem1"] (w0, b0) = (Ok code, (we, be))) in Hex.
  destruct (box_exec _ _ _ _ _ _ Hv0 Hex) as [-> ->]. destruct Hh as [Hv1 _ _ (v2 & Hv2 & -> & ->) Hls _].
  cbn [snd] in Hv2. change (<["sbx-1" := set_mem (to_bytes "mem1") v0]> b0 !! "sbx-1" = Some v1) in Hv1.
  change (<["sbx-1" := set_mem (to_bytes "mem1") v0]> b0 !! "sbx-1" = Some v2) in Hv2.
  rewrite lookup_insert_eq in Hv1, Hv2. apply (inj Some) in Hv1, Hv2. subst v1 v2. set (v1 := set_mem _ v0) in *.
  assert (v_disk v1 = Some box_disk) as Hd1 by apply Hsm.
  assert (json_dom c) as Hj by (eapply box_logged_dom; [exact Hlog|intros t; by apply box_tree_in|by rewrite Hd1]).
  destruct (logged_kept box_U kept_memory box_repo _ _ _ _ _ _ _ _ _ _ _ Hlog) as (t & Ht & Hk); [apply Hre|done|done|done|exact Hj| |].
  { intros t ->%box_tree_in; [|done]. change (Forall codec_dom (t_Entries box_tree)). by repeat constructor. }
  rewrite (box_tree_in _ _ Hd1 Ht) in Hk. exists c, w', b', s', v1. split_and!; [exact Hrun|exact Hk|reflexivity| |].
  - apply (ml_fields _ _ _ _ _ _ _ _ _ _ _ _ _ _ Hlog).
  - intros id cs Hid. rewrite WorkDir_eq by done.
    rewrite Hfr; [apply box_work_free; [by exists [id]|apply box_work_ne]|by intros []|by apply box_not_work|by apply box_not_work|..].
    + intros He. apply (box_not_work id cs "checkpoints"); [done|]. rewrite He. by eexists.
    + intros He. apply (box_not_work id cs "sandboxes"); [done|]. rewrite He. by eexists.
Qed.

(** C4 at that step: after a stop, a fork of it and a checkout. *)
Lemma machine_past_witness :
  ∃ c w' b' s' s2 w2 b2 w3 b3 v3, Run box_repo ["mem1"] (box_world, box_start, box) = (Ok c, (w', b', s')) ∧
    Fork box_repo (c_ID c) "copy" (w', delete "sbx-1" b') = (Ok s2, (w2, b2)) ∧
    Checkout box_repo (c_ID c) (w', delete "sbx-1" b', box) = (Ok tt, (w3, b3, set_head (c_ID c) box)) ∧
    b3 !! "sbx-1" = Some v3 ∧ v_mem v3 = to_bytes "mem1".
Proof.
  destruct box_recorded as (c & w' & b' & s' & v1 & Hrun & Hk & Hm & Hsb & Hfree).
  assert (work_id "sbx-1") as Hid by by repeat split.
  destruct (machine_past (H1 := disk_backend) box_U kept_memory disk_guest box_repo eq_refl eq_refl box_names v1 c box_tree "copy" w' b' w' (delete "sbx-1" b'))
    as (_ & (s2 & ck & w2 & b2 & Hf & _) & Hco).
  - exact calm_quiet.
  - exact Hk.
  - apply rtc_once. eapply (mo_stop _ _ _ _ _ box (Ok tt)). reflexivity.
  - intros id Hn. split; [exact I|]. intros cs. apply Hfree. eapply new_work_id, next_id_new. exact Hn.
  - pose proof (restore_fresh _ _ _ _ _ _ _ "sbx-1" _ Hk Hid (λ cs, Hfree "sbx-1" cs Hid)) as [Hab Hnb]%restore_pre_able.
    destruct (Hco box Hid Hsb Hab I) as [(_ & w3 & b3 & Hc & [(v3 & Hv3 & (Hm3 & _) & _) _ _ _ _ _])|[Hbl _]].
    2: by destruct (Hnb Hbl).
    exists c, w', b', s', s2, w2, b2, w3, b3, v3. split_and!; [exact Hrun|exact Hf|exact Hc|exact Hv3|]. by rewrite Hm3.
Defined.
