(* ===== verification/Cli.v ===== *)
(** * The commands of vit (src/cmd/vit/main.go, remote.go, config.go)

    Each command as a program on the files, the state of the backends and
    remotes, and what it has printed.  Paths are taken against the working
    directory [cwd]; what a child process prints is not part of the model. *)

From S2P Require Import Prelude Sha256 Json GoTime Os Cas Parallel Chunked Tree Model Repo Backend Engine Remote Sync Agent Firecracker Flags Config.
Import Json Cas Chunked Tree Model Repo Backend Engine Remote Sync Agent Firecracker Flags Config.
Open Scope Z_scope.

Module Cli.

Definition version : string := "0.2.0".

(** What a command has printed on its standard output and error. *)
Record term := mkTerm { t_out : string; t_err : string }.

Definition nl : string := String (Ascii.ascii_of_byte x0a) "".

(** ** Formatting *)

Definition sprint_d (z : Z) : string := pretty_Z z.
Fixpoint spaces (n : nat) : string := match n with O => "" | S k => String (Ascii.ascii_of_byte x20) (spaces k) end.
(** The width of a text, in characters. *)
Definition width (s : string) : nat := length (runes_of (to_bytes s)).
(** [%-n]. *)
Definition pad_right (n : nat) (s : string) : string := s +:+ spaces (n - width s).

(** [text/tabwriter] with padding 2, on rows of the same number of cells, none
    with a tab or a line break: every column but the last is as wide as its
    widest cell and two more. *)
Definition cell (row : list string) (i : nat) : string := default "" (row !! i).
Definition col_width (rows : list (list string)) (i : nat) : nat := max_list ((λ r, width (cell r i)) <$> rows) + 2.
Definition tab_row (rows : list (list string)) (n : nat) (row : list string) : string :=
  join_with "" ((λ i, pad_right (col_width rows i) (cell row i)) <$> seq 0 n) +:+ cell row n +:+ nl.
Definition tabulate (rows : list (list string)) : string :=
  join_with "" (tab_row rows (length (default [] (head rows)) - 1) <$> rows).

(** [time.RFC3339] of a time in UTC. *)
Definition rfc3339 (t : Z) : string := of_bytes (GoTime.format (t / GoTime.nanos * GoTime.nanos)).

Definition machineTag (c : Checkpoint) : string := if HasMemory c then " +machine" else "".
Definition changeSummary (c : Checkpoint) : string :=
  if decide (c_Added c = 0 ∧ c_Modified c = 0 ∧ c_Deleted c = 0) then "no file changes" else
  join_with " " ((if decide (0 < c_Added c) then ["+" +:+ sprint_d (c_Added c)] else []) ++
                 (if decide (0 < c_Modified c) then ["~" +:+ sprint_d (c_Modified c)] else []) ++
                 (if decide (0 < c_Deleted c) then ["-" +:+ sprint_d (c_Deleted c)] else [])).
Definition commandOrNote (c : Checkpoint) : string :=
  match c_Command c with [] => "(" +:+ c_Note c +:+ ")" | l => join_with " " l end.
Definition exitLabel (c : Checkpoint) : string :=
  match c_Command c with [] => "" | _ => "exit " +:+ sprint_d (c_ExitCode c) end.
Definition dash (s : string) : string := if decide (s = "") then "-" else s.

Definition usage_text : string := join_with nl [
  "vit: git for virtual machines. Sandboxes that checkpoint at every step.";
  "";
  "  vit init                         create a repo (.vit) in the current directory";
  "  vit config [KEY [VALUE]]         show or set configuration";
  "  vit new [NAME] [--backend B]     start a sandbox (process or firecracker)";
  "  vit run -- CMD...                run a command; the result is a checkpoint";
  "  vit log [SANDBOX]                the checkpoints of a sandbox, newest first";
  "  vit ls                           list sandboxes";
  "  vit status                       the current sandbox and its head";
  "  vit use SANDBOX                  make a sandbox current";
  "  vit checkout CHECKPOINT          rewind the current sandbox to a checkpoint";
  "  vit diff CK [CK2]                what changed at a checkpoint, or between two";
  "  vit show CHECKPOINT PATH         print a file as it was at a checkpoint";
  "  vit fork CHECKPOINT [NAME]       branch a new sandbox from any checkpoint";
  "  vit stop [SANDBOX]               shut a sandbox's machine down (history kept)";
  "  vit push [SANDBOX] --to URL      upload a sandbox's checkpoints to a remote";
  "  vit pull CHECKPOINT --from URL   pull a checkpoint and fork it here";
  "";
  "On the firecracker backend a checkpoint holds the machine's memory and disk as";
  "well as its files: fork and checkout resume the live machine. Remotes are";
  "s3://bucket/prefix, dir:///path or a path. See docs/.";
  ""].

(** ** Remotes *)

(** An object store a target names. *)
Inductive target := ToDir (root : path) | ToS3 (s : S3).

(** [strings.Cut]. *)
Fixpoint cut (c : ascii) (s : string) : string * string :=
  match s with
  | EmptyString => ("", "")
  | String a s' => if decide (a = c) then ("", s') else let '(x, y) := cut c s' in (String a x, y)
  end.

(** A store that keeps its state in the files only. *)
Definition no_state {F A} (m : M (world * unit) A) : M (world * F) A := λ s,
  let '(r, (w, _)) := m (s.1, tt) in (r, (w, s.2)).
Definition DirStoreOn `{OsEnv} (F : Type) (root : path) : ObjectStore F :=
  let d := DirStore root in {|
    store_Put k b := no_state (store_Put k b);
    store_Get k := no_state (store_Get k);
    store_Has k := no_state (store_Has k);
    store_List p := no_state (store_List p)
  |}.

Section cli.
Context `{OsEnv, Sched, GoJSON Manifest, GoJSON Tree, GoJSON Sandbox, GoJSON Checkpoint, Processes, ErrorText}.
Context {F : Type} `{Host F, Dialer (world * F), ClientConn (world * F)}.
(** The working directory and environment of the command; the parts of net/url,
    encoding/xml and net/http the S3 store uses; a bound on pages listed. *)
Context (cwd : path) (environ : list string).
Context (url_Parse : string → option (string * string)) (xml_Unmarshal : bytes → option listResult)
        (http_Do : Remote.request → M (world * F) response) (pages : nat).

Abbreviation cmd := (M (world * F * term)).
Definition files {A} (m : M world A) : cmd A := on_fst (on_fst m).
Definition printf (s : string) : cmd unit := modify_snd (λ t, mkTerm (t_out t +:+ s) (t_err t)).
Definition eprintf (s : string) : cmd unit := modify_snd (λ t, mkTerm (t_out t) (t_err t +:+ s)).

(** A path as the system takes it. *)
Definition at_cwd (p : string) : path := if has_prefix "/" p then join [] p else join cwd p.

Definition firstEnv (keys : list string) : string :=
  default "" (head (filter (λ v, v ≠ "") (getenv <$> keys))).

Definition parseRemote (t : string) : M world target :=
  if has_prefix "s3://" t then
    let '(bucket, prefix) := cut slash (trim_prefix "s3://" t) in
    if decide (bucket = "") then throw (Errorf "s3 target needs a bucket: s3://bucket/prefix") else
    let ak := getenv "AWS_ACCESS_KEY_ID" in
    let sk := getenv "AWS_SECRET_ACCESS_KEY" in
    if decide (ak = "" ∨ sk = "") then throw (Errorf "set AWS_ACCESS_KEY_ID and AWS_SECRET_ACCESS_KEY for s3") else
    let region := or_string (firstEnv ["AWS_REGION"; "AWS_DEFAULT_REGION"]) "us-east-1" in
    s ← of_sum (NewS3 url_Parse (mkS3Config (firstEnv ["AWS_ENDPOINT_URL"; "S3_ENDPOINT_URL"]) region bucket prefix ak sk
                  (bool_decide (getenv "VIT_S3_PATH_STYLE" ≠ ""))));
    mret (ToS3 s)
  else if has_prefix "dir://" t then (d ← NewDirStore (at_cwd (trim_prefix "dir://" t)); mret (ToDir d))
  else if has_prefix "/" t || has_prefix "./" t || has_prefix "../" t then (d ← NewDirStore (at_cwd t); mret (ToDir d))
  else throw (Errorf ("unknown remote " +:+ fmt_q t +:+ " (use s3://bucket/prefix, dir:///path, or a filesystem path)")).

Definition store_of (t : target) : ObjectStore F :=
  match t with
  | ToDir root => DirStoreOn F root
  | ToS3 s => S3Store url_Parse xml_Unmarshal http_Do pages s
  end.

Definition backend_of (b : chosen) : Backend F :=
  match b with UseProcess => ProcessOn F | UseFirecracker f => FirecrackerBackend f environ end.

(** ** The repository *)

(** The directories from the working directory up; [rdir] is reversed. *)
Fixpoint find_repo (rdir : path) : M world path :=
  let p := reverse rdir ++ [".vit"] in
  fi ← attempt (os_Stat p);
  match fi with
  | inr (NDir _) => mret p
  | _ =>
      match rdir with
      | [] => throw (Errorf "not a vit repo (run `vit init` first)")
      | _ :: parent => find_repo parent
      end
  end.
Definition repoDir : M world path :=
  let v := getenv "VIT_DIR" in
  if decide (v ≠ "") then mret (at_cwd v) else find_repo (reverse cwd).

Definition openRepo : M world (Repo * path * config) :=
  root ← repoDir;
  repo ← OpenRepo root;
  cfg ← loadConfig root;
  mret (repo, root, cfg).

Definition engineFor (cfg : config) (name : string) : M world (Backend F) := b ← backend (F := F) cfg name; mret (backend_of b).

Definition currentSandbox (root : path) : M world string :=
  b ← attempt (os_ReadFile (join root "CURRENT"));
  mret (match b with inr b => of_bytes (trim_space b) | inl _ => "" end).
Definition setCurrent (root : path) (id : string) : M world unit := os_WriteFile (join root "CURRENT") (to_bytes (id +:+ nl)) o644.

Definition sandboxEngine (id : string) : M world (Backend F * Repo * Sandbox * path * config) :=
  x ← openRepo;
  let '(repo, root, cfg) := x in
  id ← (if decide (id = "") then currentSandbox root else mret id);
  if decide (id = "") then throw (Errorf "no current sandbox (run `vit new`)") else
  s ← GetSandbox repo id;
  e ← engineFor cfg (s_Backend s);
  mret (e, repo, s, root, cfg).

(** ** The commands *)

Definition first_arg (args : list string) : string := default "" (head args).

Definition cmdInit (args : list string) : cmd unit :=
  let root := join (at_cwd (match args with [] => "." | d :: _ => d end)) ".vit" in
  files (OpenRepo root);;
  printf ("initialised a vit repo at " +:+ path_string root +:+ nl).

Definition key_line (cfg : config) (kd : string * string) : string :=
  pad_right 22 kd.1 +:+ " " +:+ pad_right 40 (dash (get cfg kd.1)) +:+ " " +:+ kd.2 +:+ nl.
Definition key_le (a b : string * string) : Prop := String.le a.1 b.1.
#[global] Instance cli_key_le_dec a b : Decision (key_le a b) := _.
Definition cmdConfig (args : list string) : cmd unit :=
  x ← files openRepo;
  let '(_, _, cfg) := x in
  match args with
  | [] => for_each (merge_sort key_le configKeys) (λ kd, printf (key_line cfg kd))
  | [k] => printf (get cfg k +:+ nl)
  | k :: v :: _ => files (with_local cfg (set k v));; mret tt
  end.

Definition cmdNew (args : list string) : cmd unit :=
  let fs := parseFlags args in
  x ← files openRepo;
  let '(repo, root, cfg) := x in
  e ← files (engineFor cfg (or_string (str fs "backend") (defaultBackend cfg)));
  s ← on_fst (@Create _ _ _ _ _ _ F e repo (first_arg (rest fs)));
  files (setCurrent root (s_ID s));;
  printf ("created sandbox " +:+ s_Name s +:+ " (" +:+ s_ID s +:+ ") on " +:+ s_Backend s +:+ ", now current" +:+ nl).

(** A method of the engine on the sandbox it was given. *)
Definition on_sandbox {A} (s : Sandbox) (m : M (world * F * Sandbox) A) : M (world * F) A := λ x,
  let '(r, (x', _)) := m (x, s) in (r, x').

Definition cmdRun (args : list string) : cmd unit :=
  let args := match args with a :: l => if decide (a = "--") then l else args | [] => [] end in
  if decide (args = []) then throw (Errorf "a command is required: vit run -- CMD...") else
  x ← files (sandboxEngine "");
  let '(e, repo, s, _, _) := x in
  c ← on_fst (on_sandbox s (@Run _ _ _ _ _ _ F e repo args));
  printf (nl +:+ "[" +:+ c_ID c +:+ " step " +:+ sprint_d (c_Seq c) +:+ "] exit " +:+ sprint_d (c_ExitCode c) +:+ ", " +:+
    changeSummary c +:+ machineTag c +:+ nl).

Definition log_line (s : Sandbox) (c : Checkpoint) : string :=
  (if decide (c_ID c = s_Head s) then "* " else "  ") +:+ c_ID c +:+ "  step " +:+ pad_right 3 (sprint_d (c_Seq c)) +:+ " " +:+
  pad_right 8 (exitLabel c) +:+ " " +:+ changeSummary c +:+ machineTag c +:+ "  " +:+ commandOrNote c +:+ nl.
Definition cmdLog (args : list string) : cmd unit :=
  x ← files (sandboxEngine (first_arg args));
  let '(_, repo, s, _, _) := x in
  hist ← files (History repo (s_ID s));
  printf ("sandbox " +:+ s_Name s +:+ " (" +:+ s_ID s +:+ ") on " +:+ s_Backend s);;
  (if decide (s_ForkedFrom s ≠ "") then printf (", forked from " +:+ s_ForkedFrom s) else mret tt);;
  printf nl;;
  for_each hist (λ c, printf (log_line s c)).

Definition machineState (cfg : config) (s : Sandbox) : M (world * F) string :=
  b ← attempt (on_fst (backend (F := F) cfg (s_Backend s)));
  match b with
  | inl _ => mret "?"
  | inr b =>
      match @as_memory F (backend_of b) with
      | None => mret "-"
      | Some mb => up ← Running (s_ID s); mret (if up : bool then "running" else "stopped")
      end
  end.

(** [machineState] of a nil configuration, which is read for a key the
    environment does not set. *)
Definition firecracker_keys : list string := filter (λ k, k ≠ "backend") configKeys.*1.
Definition machineState_nil (s : Sandbox) : M (world * F) string :=
  if bool_decide (s_Backend s = "firecracker") && existsb (λ k, bool_decide (getenv (envName k) = "")) firecracker_keys
  then panic else machineState (mkCfg [] (Some ∅)) s.

Definition ls_row (cfg : config) (cur : string) (s : Sandbox) : M (world * F) (list string) :=
  st ← machineState cfg s;
  mret [if decide (s_ID s = cur) then "*" else " "; s_ID s; s_Name s; s_Backend s; st; sprint_d (s_Steps s);
        dash (s_ForkedFrom s); rfc3339 (s_Created s)].
Definition cmdLs : cmd unit :=
  x ← files openRepo;
  let '(repo, root, cfg) := x in
  cur ← files (currentSandbox root);
  l ← files (Sandboxes repo);
  rows ← on_fst (fold_m (λ rows s, r ← ls_row cfg cur s; mret (rows ++ [r]))
                   [[""; "ID"; "NAME"; "BACKEND"; "MACHINE"; "STEPS"; "FORKED FROM"; "CREATED"]] l);
  printf (tabulate rows).

Definition cmdStatus : cmd unit :=
  x ← attempt (files (sandboxEngine ""));
  match x with
  | inl e => printf (error_text e +:+ nl)
  | inr (e, repo, s, _, _) =>
      y ← attempt (files openRepo);
      st ← on_fst (match y with inr (_, _, cfg) => machineState cfg s | inl _ => machineState_nil s end);
      printf ("on sandbox " +:+ s_Name s +:+ " (" +:+ s_ID s +:+ "), backend " +:+ s_Backend s +:+ ", machine " +:+ st +:+ nl);;
      printf ("head " +:+ s_Head s +:+ ", " +:+ sprint_d (s_Steps s) +:+ " step(s)" +:+ nl);;
      if decide (s_Backend s = "process" ∨ s_Backend s = "") then printf ("files in " +:+ path_string (WorkDir repo (s_ID s)) +:+ nl)
      else mret tt
  end.

Definition cmdCheckout (args : list string) : cmd unit :=
  match args with
  | [] => throw (Errorf "usage: vit checkout CHECKPOINT")
  | id :: _ =>
      x ← files (sandboxEngine "");
      let '(e, repo, s, _, _) := x in
      on_fst (on_sandbox s (@Checkout _ _ _ _ _ _ F e repo id));;
      c ← attempt (files (GetCheckpoint repo id));
      let how := match c with inr c => if HasMemory c then "machine resumed from that step" else "files restored" | inl _ => "files restored" end in
      printf ("checked out " +:+ id +:+ "; " +:+ how +:+ nl)
  end.

Definition change_sign (k : kind) : string := match k with added => "+" | modified => "~" | deleted => "-" end.
Definition cmdDiff (args : list string) : cmd unit :=
  match args with
  | [] => throw (Errorf "usage: vit diff CK [CK2]")
  | a :: args' =>
      x ← files openRepo;
      let '(repo, _, _) := x in
      fromto ← match args' with
               | b :: _ => mret (a, b)
               | [] => c ← attempt (files (GetCheckpoint repo a)); mret (match c with inr c => c_Parent c | inl _ => "" end, a)
               end;
      changes ← files (DiffAt repo fromto.1 fromto.2);
      match changes with
      | [] => printf ("no changes" +:+ nl)
      | _ => for_each changes (λ c, printf (change_sign (c_Kind c) +:+ " " +:+ c_Path c +:+ nl))
      end
  end.

Definition cmdShow (args : list string) : cmd unit :=
  match args with
  | ck :: p :: _ =>
      x ← files openRepo;
      let '(repo, _, _) := x in
      b ← files (ReadFileAt repo ck p);
      printf (of_bytes b)
  | _ => throw (Errorf "usage: vit show CHECKPOINT PATH")
  end.

Definition cmdFork (args : list string) : cmd unit :=
  let fs := parseFlags args in
  match rest fs with
  | [] => throw (Errorf "usage: vit fork CHECKPOINT [NAME] [--backend B]")
  | ck :: names =>
      x ← files openRepo;
      let '(repo, root, cfg) := x in
      src ← files (GetCheckpoint repo ck);
      name ← (if decide (str fs "backend" = "") then
                s ← attempt (files (GetSandbox repo (c_Sandbox src)));
                mret (match s with inr s => s_Backend s | inl _ => defaultBackend cfg end)
              else mret (str fs "backend"));
      e ← files (engineFor cfg name);
      s ← on_fst (@Fork _ _ _ _ _ _ F e repo (c_ID src) (first_arg names));
      files (setCurrent root (s_ID s));;
      let how := if bool_decide (name = "firecracker") && HasMemory src then "warm, the machine resumed from that step" else "cold, from its files" in
      printf ("forked " +:+ c_ID src +:+ " into sandbox " +:+ s_Name s +:+ " (" +:+ s_ID s +:+ ") on " +:+ name +:+ ", " +:+ how +:+ "; now current" +:+ nl)
  end.

Definition cmdStop (args : list string) : cmd unit :=
  x ← files (sandboxEngine (first_arg args));
  let '(e, _, s, _, _) := x in
  on_fst (@Stop F e s);;
  printf ("stopped " +:+ s_Name s +:+ "; the next run resumes from " +:+ s_Head s +:+ nl).

Definition cmdUse (args : list string) : cmd unit :=
  match args with
  | [] => throw (Errorf "usage: vit use SANDBOX")
  | a :: _ =>
      x ← files openRepo;
      let '(repo, root, _) := x in
      s ← files (GetSandbox repo a);
      files (setCurrent root (s_ID s));;
      printf ("now on sandbox " +:+ s_Name s +:+ " (" +:+ s_ID s +:+ ")" +:+ nl)
  end.

Definition cmdPush (args : list string) : cmd unit :=
  let fs := parseFlags args in
  let to := str fs "to" in
  if decide (to = "") then throw (Errorf "usage: vit push [SANDBOX] --to s3://bucket/prefix") else
  x ← files (sandboxEngine (first_arg (rest fs)));
  let '(_, repo, s, _, _) := x in
  t ← files (parseRemote to);
  st ← on_fst (@Push _ _ _ _ _ F (store_of t) repo (s_ID s));
  printf ("pushed " +:+ s_Name s +:+ " to " +:+ to +:+ ": " +:+ sprint_d (ps_Checkpoints st) +:+ " checkpoints, " +:+
    sprint_d (ps_Blobs st) +:+ " blobs uploaded, " +:+ sprint_d (ps_BlobsSkipped st) +:+ " already there" +:+ nl).

Definition cmdPull (args : list string) : cmd unit :=
  let fs := parseFlags args in
  let from := str fs "from" in
  match rest fs with
  | ck :: _ =>
      if decide (from = "") then throw (Errorf "usage: vit pull CHECKPOINT --from s3://bucket/prefix [--as NAME] [--backend B]") else
      x ← files openRepo;
      let '(repo, root, cfg) := x in
      t ← files (parseRemote from);
      e ← files (engineFor cfg (or_string (str fs "backend") (defaultBackend cfg)));
      c ← on_fst (@Pull _ _ _ _ F (store_of t) repo ck);
      printf ("pulled checkpoint " +:+ c_ID c +:+ nl);;
      s ← on_fst (@Fork _ _ _ _ _ _ F e repo (c_ID c) (str fs "as"));
      Prelude.ignore (files (setCurrent root (s_ID s)));;
      printf ("forked into sandbox " +:+ s_Name s +:+ " (" +:+ s_ID s +:+ ") on " +:+ s_Backend s +:+ ", now current" +:+ nl)
  | [] => throw (Errorf "usage: vit pull CHECKPOINT --from s3://bucket/prefix [--as NAME] [--backend B]")
  end.

(** The command a name stands for. *)
Definition commands : list (string * (list string → cmd unit)) := [
  ("init", cmdInit); ("config", cmdConfig); ("new", cmdNew); ("run", cmdRun); ("log", cmdLog);
  ("ls", λ _, cmdLs); ("status", λ _, cmdStatus);
  ("checkout", cmdCheckout); ("diff", cmdDiff); ("show", cmdShow); ("fork", cmdFork);
  ("stop", cmdStop); ("use", cmdUse); ("push", cmdPush); ("pull", cmdPull)].
Definition find_command (name : string) : option (list string → cmd unit) :=
  snd <$> find (λ c, bool_decide (c.1 = name)) commands.

(** [main]: the arguments after the program's name; the exit status. *)
Definition main (args : list string) : cmd Z :=
  match args with
  | [] => printf usage_text;; mret 2
  | name :: args =>
      if decide (name = "version") then printf ("vit " +:+ version +:+ nl);; mret 0 else
      if decide (name = "-h" ∨ name = "--help" ∨ name = "help") then printf usage_text;; mret 0 else
      match find_command name with
      | None => eprintf ("unknown command " +:+ fmt_q name +:+ nl +:+ nl);; printf usage_text;; mret 2
      | Some run =>
          r ← attempt (run args);
          match r with
          | inl e => eprintf ("vit: " +:+ error_text e +:+ nl);; mret 1
          | inr _ => mret 0
          end
      end
  end.

End cli.
End Cli.
