(* ===== verification/CliProps.v ===== *)
(** * What the commands promise *)

From S2P Require Import Prelude Sha256 Json Codec Os OsFacts Cas Parallel Chunked Tree Model Repo RepoFacts Backend Engine Remote Sync Agent Firecracker Flags Config Cli Checks.
Import Json Cas Chunked Tree Model Repo Backend Engine Remote Sync Agent Firecracker Flags Config Cli.
Open Scope Z_scope.

Section props.
Context `{OsEnv} (Hq : quiet) (cwd : path).

(** A directory with a repository in it: its .vit is a directory, or a link to
    one. *)
Definition has_repo (σ : fs) (d : path) : Prop := ∃ q m, find_node σ true (d ++ [".vit"]) = inr (q, NDir m).
#[global] Instance has_repo_dec σ d : Decision (has_repo σ d).
Proof.
  unfold has_repo. destruct (find_node σ true (d ++ [".vit"])) as [e|[q [|m| |]]].
  1,2,4,5: right; by intros (? & ? & ?). left. by exists q, m.
Defined.

Lemma wp_stat_repo {A} d (yes no : M world A) Q w :
  (has_repo (w_fs w) d → wp yes Q (tick w)) → (¬ has_repo (w_fs w) d → wp no Q (tick w)) →
  wp (fi ← attempt (os_Stat (d ++ [".vit"])); match fi with inr (NDir _) => yes | _ => no end) Q w.
Proof.
  intros Hyes Hno. wp_step. wp_step. apply wp_Stat; [done|]. unfold has_repo in *.
  destruct (find_node (w_fs w) true (d ++ [".vit"])) as [e|[q [|m| |]]]; cbn; first [apply Hyes; by eexists _, _|apply Hno; by intros (? & ? & ?)].
Qed.

Lemma wp_find_repo rdir w :
  wp (find_repo rdir) (λ v w', w_fs w' = w_fs w ∧
    match v with
    | inr p => ∃ up rest, reverse rdir = up ++ rest ∧ p = up ++ [".vit"] ∧ has_repo (w_fs w) up ∧
        ∀ up' rest', reverse rdir = up' ++ rest' → (length up < length up')%nat → ¬ has_repo (w_fs w) up'
    | inl _ => ∀ up rest, reverse rdir = up ++ rest → ¬ has_repo (w_fs w) up
    end) w.
Proof.
  revert w. induction rdir as [|c rdir IH]; intros w; cbn [find_repo]; apply wp_stat_repo; intros Hr.
  - wp_step. split; [done|]. exists [], []. split_and!; [done|done|done|]. intros [|] rest' Heq Hlt; [cbn in Hlt; lia|done].
  - wp_step. split; [done|]. intros [|] rest Heq; [done|done].
  - wp_step. split; [done|]. exists (reverse (c :: rdir)), []. split_and!; [by rewrite app_nil_r|done|done|].
    intros up' rest' Heq Hlt. rewrite Heq, length_app in Hlt. lia.
  - wp_use IH. rewrite reverse_cons in *. intros v w' [Hfs Hv]. split; [done|].
    assert (∀ up rest, reverse rdir ++ [c] = up ++ rest → up = reverse rdir ++ [c] ∨ ∃ rest', reverse rdir = up ++ rest') as Hcase.
    { intros up rest Heq. destruct (path_case rest) as [->|(k & x & ->)]; [left; by rewrite app_nil_r in Heq|].
      rewrite app_assoc in Heq. apply app_inj_tail_iff in Heq as [-> _]. right. by eexists. }
    destruct v as [e|p].
    + intros up rest Heq. destruct (Hcase up rest Heq) as [->|[rest' Hrest]]; [done|]. by eapply Hv.
    + destruct Hv as (up & rest & Hup & -> & Hhas & Hmax). exists up, (rest ++ [c]). split_and!; [by rewrite Hup, app_assoc|done|done|].
      intros up' rest' Heq Hlt. destruct (Hcase up' rest' Heq) as [->|[rest'' Hrest]]; [done|]. by eapply Hmax.
Qed.

(** Without VIT_DIR the commands use the repository of the
    nearest directory, from the working directory up, that has one, and fail
    when none has; the search always ends and changes nothing. *)
Theorem repo_found w :
  getenv "VIT_DIR" = "" →
  ∃ v w', repoDir cwd w = (match v with inl e => Err e | inr p => Ok p end, w') ∧ w_fs w' = w_fs w ∧
    match v with
    | inr p => ∃ up rest, cwd = up ++ rest ∧ p = up ++ [".vit"] ∧ has_repo (w_fs w) up ∧
        ∀ up' rest', cwd = up' ++ rest' → (length up < length up')%nat → ¬ has_repo (w_fs w) up'
    | inl _ => ∀ up rest, cwd = up ++ rest → ¬ has_repo (w_fs w) up
    end.
Proof.
  intros Henv. unfold repoDir. rewrite Henv, decide_False by (by intros Hne; apply Hne).
  pose proof (wp_find_repo (reverse cwd) w) as Hwp. rewrite reverse_involutive in Hwp.
  destruct (wp_exists _ _ _ Hwp) as (v & w' & Hrun & Hfs & Hv). by exists v, w'.
Qed.

End props.

(** ** A project *)

Definition project_fs : fs := Eval vm_compute in list_to_map [
  ([], NDir o755); (["home"], NDir o755); (["home"; ".vit"], NDir o755);
  (["home"; "p"], NDir o755); (["home"; "p"; "src"], NDir o755)].

(** At a concrete input: the repository of a directory above. *)
Lemma repo_found_witness :
  ∃ w', @repoDir calm ["home"; "p"; "src"] (World project_fs 0 ∅) = (Ok ["home"; ".vit"], w') ∧ w_fs w' = project_fs.
Proof.
  destruct (repo_found (H := calm) calm_quiet ["home"; "p"; "src"] (World project_fs 0 ∅) eq_refl) as (v & w' & Hrun & Hfs & _).
  assert ((@repoDir calm ["home"; "p"; "src"] (World project_fs 0 ∅)).1 = Ok ["home"; ".vit"]) as Hr by (vm_compute; reflexivity).
  exists w'. rewrite Hrun in Hr |- *. cbn [fst] in Hr. rewrite Hr. split; [reflexivity|exact Hfs].
Defined.
