(* ===== verification/GuestInit.v ===== *)
(** * The init of a guest (src/cmd/vit-guest/main.go, vsock_linux.go)

    As PID 1 of a VM, vit-guest mounts what a system needs, layers the writable
    disk over the root, then starts the agent and collects every process that
    ends, for as long as the VM lives.  System calls Go's [os] has no function
    for are a parameter ([GuestKernel]); the supervising loop is a step relation
    in which processes of the guest end and are adopted between any two steps.
    The agent side listens on vsock with raw system calls ([VsockCalls]). *)

From S2P Require Import Prelude Sha256 Os OsFacts Remote Agent.
Import Remote Agent.
Open Scope Z_scope.

Module GuestInit.

(** ** Preparing the machine *)

Definition work : string := "/work".

(** The system calls; any of them may change what paths mean. *)
Class GuestKernel (K : Type) := {
  sys_Mount : string → string → string → Z → string → M (world * K) unit;
  sys_PivotRoot : string → string → M (world * K) unit;
  sys_Chdir : string → M (world * K) unit;
  sys_Unmount : string → Z → M (world * K) unit;
  sys_Sethostname : string → M (world * K) unit
}.

Definition MS_MOVE : Z := 0x2000.
Definition MNT_DETACH : Z := 2.

Definition at_root (p : string) : path := join [] p.

(** [fmt.Errorf("msg: %w", err)] around a call. *)
Definition wrapping {S A} (msg : string) (m : M S A) : M S A :=
  r ← attempt m;
  match r with inl e => throw (Wrap (msg +:+ ": ") e) | inr a => mret a end.

Section init.
Context `{OsEnv} {K : Type} `{GuestKernel K}.

Definition mkdirs (p : string) (mode : Z) : M (world * K) unit := ignore (on_fst (os_MkdirAll (at_root p) mode)).

Fixpoint pick_scratch (ds : list string) : M (world * K) string :=
  match ds with
  | [] => mret ""
  | d :: ds' =>
      r ← attempt (on_fst (os_Stat (at_root d)));
      match r with inr (NDir _) => mret d | _ => pick_scratch ds' end
  end.

Definition overlay_opts (upper : string) : string :=
  "lowerdir=/,upperdir=" +:+ upper +:+ "/upper,workdir=" +:+ upper +:+ "/work".

Definition overlayRoot : M (world * K) unit :=
  scratch ← pick_scratch ["/mnt"; "/tmp"; "/media"];
  if decide (scratch = "") then throw (Errorf "the base image has no /mnt, /tmp or /media to work in") else
  wrapping ("tmpfs on " +:+ scratch) (sys_Mount "tmpfs" scratch "tmpfs" 0 "mode=0755");;
  let upper := scratch +:+ "/upper" in
  let root := scratch +:+ "/root" in
  mkdirs upper o755;;
  mkdirs root o755;;
  wrapping "mounting the writable disk" (sys_Mount "/dev/vdb" upper "ext4" 0 "noinit_itable");;
  mkdirs (upper +:+ "/upper") o755;;
  mkdirs (upper +:+ "/work") o755;;
  wrapping "overlay" (sys_Mount "overlay" root "overlay" 0 (overlay_opts upper));;
  for_each ["/proc"; "/sys"; "/dev"] (λ m, wrapping ("moving " +:+ m) (sys_Mount m (root +:+ m) "" MS_MOVE ""));;
  mkdirs (root +:+ "/.oldroot") o700;;
  wrapping "pivot_root" (sys_PivotRoot root (root +:+ "/.oldroot"));;
  sys_Chdir "/";;
  ignore (sys_Unmount "/.oldroot" MNT_DETACH);;
  ignore (on_fst (os_Remove (at_root "/.oldroot"))).

(** [initMain] up to its loop; a message on standard error is left out. *)
Definition initMain_setup : M (world * K) unit :=
  for_each [("proc", "/proc", "proc"); ("sysfs", "/sys", "sysfs"); ("devtmpfs", "/dev", "devtmpfs")]
    (λ '(src, dst, fs), ignore (sys_Mount src dst fs 0 ""));;
  r ← attempt (on_fst (os_Stat (at_root "/dev/vdb")));
  (match r with inr _ => ignore overlayRoot | inl _ => mret tt end);;
  for_each [("tmpfs", "/dev/shm", "tmpfs"); ("devpts", "/dev/pts", "devpts"); ("tmpfs", "/run", "tmpfs")]
    (λ '(src, dst, fs), mkdirs dst o755;; ignore (sys_Mount src dst fs 0 ""));;
  mkdirs work o755;;
  ignore (sys_Sethostname "vit").

End init.

(** ** One program, two roles *)

(** What [main] runs, with the environment variables it leaves. *)
Inductive role := RunInit | RunServe.
#[global] Instance role_eq_decision : EqDecision role.
Proof. solve_decision. Defined.

Definition guest_path : string := "/usr/local/sbin:/usr/local/bin:/usr/sbin:/usr/bin:/sbin:/bin".

Definition guest_main (pid : Z) (env : gmap string string) : role * gmap string string :=
  let env := <["PATH" := guest_path]> env in
  (if decide (pid = 1 ∧ default "" (env !! "VIT_AGENT_CHILD") = "") then RunInit else RunServe, env).

(** The environment [initMain] starts the agent with. *)
Definition child_env (env : gmap string string) : gmap string string := <["VIT_AGENT_CHILD" := "1"]> env.

(** As init the program is init, and what it starts of itself is the agent,
    whatever pid that gets. *)
Lemma roles env pid : env !! "VIT_AGENT_CHILD" = None →
  let '(r, env') := guest_main 1 env in r = RunInit ∧ (guest_main pid (child_env env')).1 = RunServe.
Proof.
  intros He. unfold guest_main, child_env. split.
  - rewrite decide_True; [done|]. split; [done|]. by rewrite lookup_insert_ne, He by done.
  - cbn [fst]. rewrite decide_False; [done|]. intros [_ Hd]. rewrite lookup_insert_ne, lookup_insert_eq in Hd by done. discriminate Hd.
Qed.

(** ** The order of the calls

    A kernel that notes each call and refuses those it is told to.  Against it
    [overlayRoot] makes the calls of a fixed plan, in order, up to the first
    that is refused. *)

Inductive kcall :=
| KMount (src dst fs : string) (flags : Z) (data : string)
| KPivotRoot (root old : string)
| KChdir (d : string)
| KUnmount (d : string) (flags : Z)
| KSethostname (n : string).

Definition note_call (refuse : kcall → option gerr) (c : kcall) : M (world * list kcall) unit := λ s,
  (match refuse c with Some e => Err e | None => Ok tt end, (s.1, s.2 ++ [c])).

Definition Noting (refuse : kcall → option gerr) : GuestKernel (list kcall) := {|
  sys_Mount src dst fs flags data := note_call refuse (KMount src dst fs flags data);
  sys_PivotRoot a b := note_call refuse (KPivotRoot a b);
  sys_Chdir d := note_call refuse (KChdir d);
  sys_Unmount d flags := note_call refuse (KUnmount d flags);
  sys_Sethostname n := note_call refuse (KSethostname n)
|}.

(** The mounts, then the pivot, then the change of directory. *)
Definition overlay_plan (scratch : string) : list kcall :=
  let upper := scratch +:+ "/upper" in
  let root := scratch +:+ "/root" in
  [KMount "tmpfs" scratch "tmpfs" 0 "mode=0755"; KMount "/dev/vdb" upper "ext4" 0 "noinit_itable";
   KMount "overlay" root "overlay" 0 (overlay_opts upper);
   KMount "/proc" (root +:+ "/proc") "" MS_MOVE ""; KMount "/sys" (root +:+ "/sys") "" MS_MOVE "";
   KMount "/dev" (root +:+ "/dev") "" MS_MOVE "";
   KPivotRoot root (root +:+ "/.oldroot"); KChdir "/"].

(** The calls of a plan up to the first refused one, and whether none was. *)
Fixpoint follow (refuse : kcall → option gerr) (plan : list kcall) : list kcall * bool :=
  match plan with
  | [] => ([], true)
  | c :: cs => match refuse c with
               | Some _ => ([c], false)
               | None => let '(l, ok) := follow refuse cs in (c :: l, ok)
               end
  end.

Section order.
Context `{OsEnv} (refuse : kcall → option gerr).
#[local] Instance noting : GuestKernel (list kcall) := Noting refuse.

Lemma wp_call c (Q : gerr + unit → world * list kcall → Prop) w l :
  (∀ e, refuse c = Some e → Q (inl e) (w, l ++ [c])) →
  (refuse c = None → Q (inr tt) (w, l ++ [c])) →
  wp (note_call refuse c) Q (w, l).
Proof.
  intros He Ho. unfold wp, note_call. simpl. destruct (refuse c) as [e|]; [by apply He|by apply Ho].
Qed.

Lemma wp_note msg c (Q : gerr + unit → world * list kcall → Prop) w l :
  (∀ e, refuse c = Some e → Q (inl (Wrap (msg +:+ ": ") e)) (w, l ++ [c])) →
  (refuse c = None → Q (inr tt) (w, l ++ [c])) →
  wp (wrapping msg (note_call refuse c)) Q (w, l).
Proof.
  intros He Ho. unfold wrapping. wp_step. wp_step. by apply wp_call; [intros e Hr; apply He|].
Qed.

Lemma wp_mkdirAll_rev rp m (Q : gerr + unit → world → Prop) w : (∀ r w', Q r w') → wp (mkdirAll_rev rp m) Q w.
Proof.
  intros HQ. revert Q HQ w. induction rp as [|x rp IH]; intros Q HQ w; simpl; wp_step; wp_step.
  all: apply wp_Stat; [intros e _|destruct (snd <$> _) as [e|[]]; simpl; try apply HQ; try apply wp_throw; try apply wp_ret; try apply HQ].
  all: wp_step; first [apply wp_ret|apply IH; intros [e'|[]] w'; [apply HQ|]].
  all: wp_step; wp_step; apply wp_sys; [intros e2 _|destruct (lift_errno _) as [e2|[]]; simpl; [|by apply wp_ret]].
  all: wp_step; wp_step; apply wp_sys_read; [intros e3 _|destruct (lift_errno _) as [e3|[]]; simpl]; try apply wp_throw; try apply wp_ret; apply HQ.
Qed.

Lemma wp_mkdirs p m (Q : gerr + unit → world * list kcall → Prop) w l :
  (∀ w', Q (inr tt) (w', l)) → wp (mkdirs p m) Q (w, l).
Proof. intros HQ. unfold mkdirs. wp_step. wp_step. by apply wp_mkdirAll_rev. Qed.

Lemma wp_pick_scratch ds (Q : gerr + string → world * list kcall → Prop) w l :
  (∀ d w', d ∈ ds ∨ d = "" → Q (inr d) (w', l)) → wp (pick_scratch ds) Q (w, l).
Proof.
  revert w. induction ds as [|d ds IH]; intros w HQ; simpl; [wp_step; auto|].
  wp_step. wp_step. wp_step. apply wp_Stat; [intros e _|].
  - apply IH. intros d' w' Hd. apply HQ. set_solver.
  - destruct (lift_errno _) as [e|[]]; try (apply wp_ret, HQ; set_solver);
      apply IH; intros d' w' Hd; apply HQ; set_solver.
Qed.

Ltac use_answers :=
  unfold overlay_plan; simpl;
  repeat match goal with E : refuse ?c = _ |- context [refuse ?c] => rewrite E; simpl end.
Ltac issue d :=
  intros ? ?; right; exists d; split; [done|]; use_answers.

Lemma overlay_order w :
  wp overlayRoot (λ r s,
    match r with
    | inl e => s.2 = [] ∨ ∃ d, d ∈ ["/mnt"; "/tmp"; "/media"] ∧ follow refuse (overlay_plan d) = (s.2, false)
    | inr _ => ∃ d, d ∈ ["/mnt"; "/tmp"; "/media"] ∧ follow refuse (overlay_plan d) = (overlay_plan d, true) ∧
                    s.2 = overlay_plan d ++ [KUnmount "/.oldroot" MNT_DETACH]
    end) (w, []).
Proof.
  unfold overlayRoot. wp_step. apply wp_pick_scratch. intros d w1 Hd.
  case_decide as Hn; [wp_step; by left|]. destruct Hd as [Hd|]; [|done].
  do 7 (wp_step; first [apply wp_note; [issue d; done|intros ?]|apply wp_mkdirs; intros ?]).
  wp_step. cbn [for_each]. do 3 (wp_step; apply wp_note; [issue d; done|intros ?]). wp_step.
  do 2 (wp_step; first [apply wp_note; [issue d; done|intros ?]|apply wp_mkdirs; intros ?]).
  wp_step. apply wp_call; [issue d; done|intros ?].
  assert (follow refuse (overlay_plan d) = (overlay_plan d, true)) as Hf.
  { by use_answers. }
  wp_step. wp_step. apply wp_call; intros; wp_step; wp_step; (apply wp_sys; [intros ? _|]); by exists d.
Qed.

End order.

(** ** Supervising the agent *)

(** What [Wait4] can fail with when it waits for any child. *)
Inductive wait_err := EINTR | ECHILD.
#[global] Instance wait_err_eq_decision : EqDecision wait_err.
Proof. solve_decision. Defined.

(** Where the loop of [initMain] stands: about to start the agent, or waiting
    for children while the agent it started has the pid [child]. *)
Inductive phase := Launching | Waiting (child : Z).
#[global] Instance phase_eq_decision : EqDecision phase.
Proof. solve_decision. Defined.

(** The body of the inner loop, on what [Wait4] returned. *)
Definition after_wait (child pid : Z) (err : option wait_err) : phase :=
  if decide (err = Some EINTR) then Waiting child else
  if decide (pid = child ∨ err = Some ECHILD) then Launching else Waiting child.

(** The children of PID 1: the agents it started and the orphans it adopted. *)
Inductive pstate := Running | Zombie.
#[global] Instance pstate_eq_decision : EqDecision pstate.
Proof. solve_decision. Defined.

Record machine := Machine { m_phase : phase; m_procs : gmap Z pstate }.

(** [wait4(-1, ...)]: it collects a child that has ended, blocks while every
    child runs, and fails when a signal arrives or when there is no child. *)
Inductive wait4 (ps : gmap Z pstate) : Z → option wait_err → gmap Z pstate → Prop :=
| wait4_reap pid : ps !! pid = Some Zombie → wait4 ps pid None (delete pid ps)
| wait4_intr : wait4 ps (-1) (Some EINTR) ps
| wait4_none : ps = ∅ → wait4 ps (-1) (Some ECHILD) ps.

(** What a step did, as far as the promises below tell steps apart. *)
Inductive event :=
| Progress        (* the agent was started, or a child was collected *)
| Idling          (* starting failed, or waiting was interrupted *)
| Exit            (* a child ended *)
| Adopt.          (* an orphan became a child *)

Definition wait_event (err : option wait_err) : event :=
  if decide (err = Some EINTR) then Idling else Progress.

Inductive init_step : machine → event → machine → Prop :=
| step_start ps pid :
    1 < pid → ps !! pid = None →
    init_step (Machine Launching ps) Progress (Machine (Waiting pid) (<[pid := Running]> ps))
| step_start_failed ps :
    init_step (Machine Launching ps) Idling (Machine Launching ps)
| step_wait ps child pid err ps' :
    wait4 ps pid err ps' →
    init_step (Machine (Waiting child) ps) (wait_event err) (Machine (after_wait child pid err) ps')
| proc_exit ph ps pid :
    ps !! pid = Some Running →
    init_step (Machine ph ps) Exit (Machine ph (<[pid := Zombie]> ps))
| proc_adopt ph ps pid st :
    1 < pid → ps !! pid = None →
    init_step (Machine ph ps) Adopt (Machine ph (<[pid := st]> ps)).

Inductive init_run : machine → list event → machine → Prop :=
| run_nil m : init_run m [] m
| run_cons m e m' es m'' : init_step m e m' → init_run m' es m'' → init_run m (e :: es) m''.

(** The state in which the loop is entered: no child yet. *)
Definition booted : machine := Machine Launching ∅.
Definition reachable (m : machine) : Prop := ∃ es, init_run booted es m.

#[global] Instance event_eq_decision : EqDecision event.
Proof. solve_decision. Defined.

Definition zombies (ps : gmap Z pstate) : gmap Z pstate := filter (λ kv, kv.2 = Zombie) ps.

(** The agent runs and nothing is left to collect. *)
Definition resting (m : machine) : Prop :=
  ∃ child, m_phase m = Waiting child ∧ m_procs m !! child = Some Running ∧ zombies (m_procs m) = ∅.

(** The agent the loop waits for is one of the children, running or to be
    collected. *)
Definition supervised (m : machine) : Prop :=
  match m_phase m with Launching => True | Waiting child => is_Some (m_procs m !! child) end.

Lemma after_reap child pid : after_wait child pid None = if decide (pid = child) then Launching else Waiting child.
Proof. unfold after_wait. rewrite decide_False by done. repeat case_decide; naive_solver. Qed.

Lemma step_supervised m e m' : init_step m e m' → supervised m → supervised m'.
Proof.
  destruct 1 as [ps pid ? Hn|ps|ps child pid err ps' Hw|ph ps pid Hr|ph ps pid st ? Hn]; unfold supervised; simpl; intros Hs.
  - rewrite lookup_insert_eq. eauto.
  - done.
  - destruct Hw as [pid Hz| | ->].
    + rewrite after_reap. case_decide; [done|]. by rewrite lookup_delete_ne.
    + unfold after_wait. by rewrite decide_True.
    + unfold after_wait. rewrite decide_False by done. by rewrite decide_True by naive_solver.
  - destruct ph as [|c]; [done|]. destruct (decide (pid = c)) as [->|]; [rewrite lookup_insert_eq|rewrite lookup_insert_ne by done]; eauto.
  - destruct ph as [|c]; [done|]. destruct (decide (pid = c)) as [->|]; [rewrite lookup_insert_eq|rewrite lookup_insert_ne by done]; eauto.
Qed.

Lemma run_supervised m es m' : init_run m es m' → supervised m → supervised m'.
Proof. induction 1; eauto using step_supervised. Qed.

Lemma reachable_supervised m : reachable m → supervised m.
Proof. intros [es Hr]. by eapply run_supervised. Qed.

(** How much there is left to do: two steps for a child to collect (it may be
    the agent, to be started again), one when the agent is to be started. *)
Definition rank (m : machine) : nat :=
  2 * size (zombies (m_procs m)) + match m_phase m with Launching => 1 | Waiting _ => 0 end.

Lemma zombies_insert_running pid ps : ps !! pid = None → zombies (<[pid := Running]> ps) = zombies ps.
Proof. intros Hn. unfold zombies. rewrite map_filter_insert_False by done. by rewrite delete_id. Qed.

Lemma zombies_insert_size pid st ps : (size (zombies (<[pid := st]> ps)) ≤ size (zombies ps) + 1)%nat.
Proof.
  unfold zombies. rewrite map_filter_insert. case_decide.
  - rewrite map_size_insert. destruct (_ !! pid); simpl; lia.
  - assert (size (filter (λ kv : Z * pstate, kv.2 = Zombie) (delete pid ps)) ≤ size (filter (λ kv : Z * pstate, kv.2 = Zombie) ps))%nat; [|lia].
    rewrite map_filter_delete, map_size_delete. destruct (_ !! pid); simpl; lia.
Qed.

Lemma zombies_reap pid ps : ps !! pid = Some Zombie → size (zombies ps) = S (size (zombies (delete pid ps))).
Proof.
  intros Hz. unfold zombies. rewrite map_filter_delete, map_size_delete.
  assert (filter (λ kv : Z * pstate, kv.2 = Zombie) ps !! pid = Some Zombie) as -> by by apply map_lookup_filter_Some.
  assert (size (filter (λ kv : Z * pstate, kv.2 = Zombie) ps) ≠ 0)%nat; [|simpl; lia].
  intros He%map_size_empty_inv. apply (f_equal (.!! pid)) in He. rewrite lookup_empty in He.
  assert (filter (λ kv : Z * pstate, kv.2 = Zombie) ps !! pid = Some Zombie) by by apply map_lookup_filter_Some. congruence.
Qed.

(** How a step changes the rank: progress lowers it, a child that ends or is
    adopted raises it by two at most. *)
Definition gain (e : event) : nat := match e with Exit | Adopt => 2 | _ => 0 end.
Definition cost (e : event) : nat := match e with Progress => 1 | _ => 0 end.

Lemma step_rank m e m' : supervised m → init_step m e m' → (rank m' + cost e ≤ rank m + gain e)%nat.
Proof.
  intros Hs. destruct 1 as [ps pid ? Hn|ps|ps child pid err ps' Hw|ph ps pid Hr|ph ps pid st ? Hn]; unfold rank; simpl.
  - rewrite zombies_insert_running by done. lia.
  - lia.
  - destruct Hw as [pid Hz| | ->].
    + change (wait_event None) with Progress. rewrite after_reap, (zombies_reap _ _ Hz). simpl. case_decide; lia.
    + change (wait_event (Some EINTR)) with Idling. unfold after_wait. rewrite decide_True by done. simpl. lia.
    + unfold supervised in Hs. simpl in Hs. rewrite lookup_empty in Hs. by destruct Hs.
  - pose proof (zombies_insert_size pid Zombie ps). lia.
  - pose proof (zombies_insert_size pid st ps). lia.
Qed.

Lemma run_rank m es m' : init_run m es m' → supervised m →
  (rank m' + sum_list (cost <$> es) ≤ rank m + sum_list (gain <$> es))%nat.
Proof.
  induction 1 as [|m e m' es m'' Hst Hr IH]; intros Hs; csimpl; [lia|].
  pose proof (step_rank _ _ _ Hs Hst). pose proof (IH (step_supervised _ _ _ Hst Hs)). lia.
Qed.

Lemma fresh_pid (ps : gmap Z pstate) : ∃ pid, 1 < pid ∧ ps !! pid = None.
Proof.
  set (ns := (λ p, Z.to_nat (p - 2)) <$> elements (dom ps)).
  exists (2 + Z.of_nat (fresh ns)). split; [lia|]. apply not_elem_of_dom. intros Hin%elem_of_elements.
  apply (infinite_is_fresh ns). unfold ns at 2. apply list_elem_of_fmap. exists (2 + Z.of_nat (fresh ns)).
  split; [lia|done].
Qed.

Lemma zombies_nil ps : zombies ps = ∅ ↔ ∀ pid, ps !! pid ≠ Some Zombie.
Proof.
  unfold zombies. split.
  - intros He pid Hz. apply (f_equal (.!! pid)) in He. rewrite lookup_empty in He.
    apply eq_None_not_Some in He. apply He. exists Zombie. by apply map_lookup_filter_Some.
  - intros Hno. apply map_empty. intros pid. apply eq_None_not_Some. intros [st [Hl Hz]%map_lookup_filter_Some].
    simpl in Hz. subst st. by eapply Hno.
Qed.

Lemma waiting_progress c ps e m' :
  init_step (Machine (Waiting c) ps) e m' → e = Progress → (∃ pid, ps !! pid = Some Zombie) ∨ ps = ∅.
Proof.
  inversion 1 as [| |? ? ? err ? Hw| |]; subst; intros He; [|done..].
  destruct Hw; [eauto|by unfold wait_event in He; rewrite decide_True in He|auto].
Qed.

Lemma progress_or_rest m : supervised m → resting m ∨ ∃ m', init_step m Progress m'.
Proof.
  destruct m as [[|c] ps]; intros Hs.
  - right. destruct (fresh_pid ps) as (pid & ? & ?). eexists. by apply (step_start _ pid).
  - destruct (map_choose_or_empty (zombies ps)) as [(pid & st & [Hl Hz]%map_lookup_filter_Some)|Hz].
    + right. simpl in Hz. subst st. exists (Machine (after_wait c pid None) (delete pid ps)).
      change Progress with (wait_event None). by constructor; constructor.
    + left. exists c. split_and!; [done| |done]. destruct Hs as [[] Hs]; [done|]. by apply zombies_nil with (pid := c) in Hz.
Qed.

Lemma resting_stuck m : supervised m → (resting m ↔ ∀ m', ¬ init_step m Progress m').
Proof.
  destruct m as [ph ps]. intros Hs. split.
  - intros (c & Hc & Hr & Hz) m' Hst. simpl in *. rewrite zombies_nil in Hz.
    subst ph. destruct (waiting_progress _ _ _ _ Hst eq_refl) as [[pid Hp] | ->]; [by apply (Hz pid)|].
    by rewrite lookup_empty in Hr.
  - intros Hno. destruct (progress_or_rest _ Hs) as [|[m' Hst]]; [done|by apply Hno in Hst].
Qed.

(** Left alone, the loop comes to rest. *)
Lemma settles n m : supervised m → (rank m ≤ n)%nat →
  ∃ es m', init_run m es m' ∧ Forall (λ e, e = Progress) es ∧ (length es ≤ n)%nat ∧ resting m'.
Proof.
  revert m. induction n as [|n IH]; intros m Hs Hn; (destruct (progress_or_rest _ Hs) as [|[m' Hst]];
    [by exists [], m; split_and!; [constructor|constructor|simpl; lia|]|]);
    pose proof (step_rank _ _ _ Hs Hst); simpl in *; [lia|].
  destruct (IH m') as (es & m'' & Hr & Hall & Hl & Hrest); [by eapply step_supervised|lia|].
  exists (Progress :: es), m''. split_and!; [by econstructor|by constructor|simpl; lia|done].
Qed.

(** C40 (supervise_live): the loop of init never leaves the guest without an
    agent for good.  From any state it can reach, whatever processes end or are
    adopted in between, it makes at most [rank m] steps and two more for each
    such event before it rests; it rests exactly when the agent runs and every
    ended child has been collected; and left alone it comes to rest within
    [rank m] steps. *)
Theorem supervise_live m es m' :
  reachable m → init_run m es m' →
  (sum_list (cost <$> es) ≤ rank m + sum_list (gain <$> es))%nat ∧
  (resting m' ↔ ∀ m'', ¬ init_step m' Progress m'') ∧
  ∃ es' m'', init_run m' es' m'' ∧ Forall (λ e, e = Progress) es' ∧ (length es' ≤ rank m')%nat ∧ resting m''.
Proof.
  intros Hm%reachable_supervised Hr. pose proof (run_supervised _ _ _ Hr Hm) as Hm'. split_and!.
  - pose proof (run_rank _ _ _ Hr Hm). lia.
  - by apply resting_stuck.
  - by apply settles.
Qed.

(** A run in which the agent is started and ends while an orphan is adopted. *)
Definition crashed : machine := Machine (Waiting 2) {[2 := Zombie; 7 := Running]}.

Lemma crash_run : init_run booted [Progress; Adopt; Exit] crashed.
Proof.
  econstructor; [by apply (step_start _ 2)|]. econstructor; [by apply (proc_adopt _ _ 7 Running)|].
  econstructor; [by apply (proc_exit _ _ 2)|].
  match goal with |- init_run ?m [] ?m' => replace m with m'; [constructor|] end.
  reflexivity.
Qed.

(** C40 at the run above. *)
Lemma supervise_live_witness :
  init_run booted [Progress; Adopt; Exit] crashed ∧ ¬ resting crashed ∧
  ∃ es' m'', init_run crashed es' m'' ∧ (length es' ≤ 2)%nat ∧ resting m''.
Proof.
  split_and!; [exact crash_run|intros (c & [= <-] & Hr & _); by vm_compute in Hr|].
  destruct (supervise_live booted [Progress; Adopt; Exit] crashed) as (_ & _ & es & m & Hr & _ & Hl & Hm);
    [exists []; constructor|exact crash_run|].
  exists es, m. split_and!; [exact Hr|exact Hl|exact Hm].
Defined.

End GuestInit.
