(* ===== verification/Vsock.v ===== *)
(** * The vsock socket of the agent (src/cmd/vit-guest/vsock_linux.go, main.go)

    Go's net package does not know AF_VSOCK, so the agent makes the system
    calls itself.  They are a parameter ([VsockCalls]); the address, the loop
    of [Write] and the loop of [serve] are the source's. *)

From S2P Require Import Prelude Sha256 Os Remote Agent.
Import Agent.
Open Scope Z_scope.

Module Vsock.

Definition afVSOCK : Z := 40.
Definition sockaddrVM : nat := 16.

(** Go's conversion [byte(x)]. *)
Definition to_byte (x : Z) : byte := default x00 (Byte.of_N (Z.to_N (x mod 256))).

(** The address [listenVsock] binds to: family, port and the CID for any. *)
Definition sockaddr (port : Z) : bytes :=
  [to_byte afVSOCK; to_byte (Z.shiftr afVSOCK 8); x00; x00;
   to_byte port; to_byte (Z.shiftr port 8); to_byte (Z.shiftr port 16); to_byte (Z.shiftr port 24);
   xff; xff; xff; xff; x00; x00; x00; x00].

(** The system calls on a file descriptor.  [vs_write] returns how many bytes
    were taken. *)
Class VsockCalls (S : Type) := {
  vs_socket : Z → M S Z;
  vs_bind : Z → bytes → M S unit;
  vs_listen : Z → Z → M S unit;
  vs_accept : Z → M S Z;
  vs_read : Z → nat → M S bytes;
  vs_write : Z → bytes → M S nat;
  vs_close : Z → M S unit
}.

Section calls.
Context {S : Type} `{VsockCalls S}.

Definition closing {A} (msg : string) (fd : Z) (m : M S A) : M S A :=
  r ← attempt m;
  match r with inl e => ignore (vs_close fd);; throw (Wrap msg e) | inr a => mret a end.

Definition listenVsock (port : Z) : M S Z :=
  r ← attempt (vs_socket afVSOCK);
  match r with
  | inl e => throw (Wrap "socket: " e)
  | inr fd =>
      closing "bind vsock: " fd (vs_bind fd (sockaddr port));;
      closing "listen: " fd (vs_listen fd 16);;
      mret fd
  end.

Definition Accept (fd : Z) : M S Z := vs_accept fd.

(** [Read] into a buffer of [n] bytes: what was read, or the end. *)
Definition Read (fd : Z) (n : nat) : M S bytes :=
  b ← vs_read fd n;
  if decide (b = []) then throw (Errorf "EOF") else mret b.

(** [Write]: the count written and the error, if any.  [fuel] bounds the calls;
    a call that takes nothing and reports no error would be made again. *)
Fixpoint write_loop (fuel : nat) (fd : Z) (p : bytes) (total : nat) : M S (nat * option gerr) :=
  if decide (total < length p)%nat then
    match fuel with
    | O => throw (Errorf "out of fuel")
    | Datatypes.S k =>
        r ← attempt (vs_write fd (drop total p));
        match r with
        | inl e => mret (total, Some e)
        | inr n => write_loop k fd p (total + n)
        end
    end
  else mret (total, None).
Definition Write (fd : Z) (p : bytes) : M S (nat * option gerr) := write_loop (length p) fd p 0.

Definition Close (fd : Z) : M S unit := vs_close fd.

(** [serve] for [n] turns of its loop: a connection is handed to a goroutine
    that answers it and closes it ([go_handle]), a failed [Accept] is tried
    again. *)
Fixpoint serve_loop (go_handle : Z → M S unit) (n : nat) (ln : Z) : M S unit :=
  match n with
  | O => mret tt
  | Datatypes.S k =>
      r ← attempt (Accept ln);
      match r with inl _ => serve_loop go_handle k ln | inr c => go_handle c;; serve_loop go_handle k ln end
  end.
Definition serve (go_handle : Z → M S unit) (n : nat) : M S unit :=
  ln ← listenVsock Port;
  serve_loop go_handle n ln.

End calls.

(** ** The address says what it should *)

Definition byte_val (b : byte) : Z := Z.of_N (Byte.to_N b).

Lemma to_byte_val x : byte_val (to_byte x) = x mod 256.
Proof.
  unfold byte_val, to_byte. assert (0 ≤ x mod 256 < 256) as Hx by (apply Z.mod_pos_bound; lia).
  destruct (Byte.of_N (Z.to_N (x mod 256))) as [b|] eqn:E; simpl.
  - apply Byte.to_of_N in E. rewrite E. lia.
  - apply Byte.of_N_None_iff in E. lia.
Qed.

Definition le_val (b : bytes) : Z := foldr (λ x acc, byte_val x + 256 * acc) 0 b.

(** The struct sockaddr_vm the kernel reads: family at 0, port at 4, CID at 8,
    in the order of a little-endian host. *)
Lemma sockaddr_fields port : 0 ≤ port < 2 ^ 32 →
  length (sockaddr port) = sockaddrVM ∧
  le_val (take 2 (sockaddr port)) = afVSOCK ∧
  le_val (take 4 (drop 4 (sockaddr port))) = port ∧
  le_val (take 4 (drop 8 (sockaddr port))) = 0xFFFFFFFF.
Proof.
  intros Hp. split_and!; [done|done| |done]. unfold le_val, sockaddr. simpl. rewrite !to_byte_val, !Z.shiftr_div_pow2 by lia.
  change (2 ^ 8) with 256. change (2 ^ 16) with (256 * 256). change (2 ^ 24) with (256 * 256 * 256).
  rewrite <- !Z.div_div by lia.
  pose proof (Z.div_mod port 256). pose proof (Z.div_mod (port / 256) 256). pose proof (Z.div_mod (port / 256 / 256) 256).
  rewrite (Z.mod_small (port / 256 / 256 / 256)); [lia|].
  rewrite !Z.div_div by lia. split; [apply Z.div_pos; lia|apply Z.div_lt_upper_bound; lia].
Qed.

(** ** Write writes everything *)

(** What [write] promises: it takes at least one byte and at most what it is
    given, and the peer gets what was taken; a failed call takes nothing. *)
Class WriteSpec (S : Type) `{VsockCalls S} (sent : S → Z → bytes) := {
  write_takes fd p s : p ≠ [] →
    wp (vs_write fd p) (λ r s', match r with
      | inl _ => sent s' fd = sent s fd
      | inr n => (0 < n ≤ length p)%nat ∧ sent s' fd = sent s fd ++ take n p
      end) s
}.

Section write.
Context {S : Type} `{WriteSpec S sent}.

Lemma wp_write_loop fuel fd p total s :
  (length p - total ≤ fuel)%nat → (total ≤ length p)%nat →
  wp (write_loop fuel fd p total) (λ r s', ∃ n oe, r = inr (n, oe) ∧ (total ≤ n ≤ length p)%nat ∧
    (oe = None → n = length p) ∧ sent s' fd = sent s fd ++ take (n - total) (drop total p)) s.
Proof.
  revert total s. induction fuel as [|k IH]; intros total s Hf Ht; cbn [write_loop].
  - rewrite decide_False by lia. wp_step. exists total, None. split_and!; try done; try lia.
    rewrite Nat.sub_diag, take_0. by rewrite app_nil_r.
  - case_decide as Hl.
    2:{ wp_step. exists total, None. split_and!; try done; try lia. by rewrite Nat.sub_diag, take_0, app_nil_r. }
    wp_step. wp_step. wp_use write_takes.
    { intros Hn%(f_equal length). rewrite length_drop in Hn. simpl in Hn. lia. }
    intros [e|n] s'.
    + intros Hs. wp_step. exists total, (Some e). split_and!; try done; try lia. by rewrite Hs, Nat.sub_diag, take_0, app_nil_r.
    + rewrite length_drop. intros [Hn Hs]. wp_use IH; [lia|lia|]. intros r s'' (m & oe & -> & Hm & Ho & Hs'').
      exists m, oe. split_and!; try done; try lia. rewrite Hs'', Hs, <- app_assoc, <- drop_drop. f_equal.
      replace (m - total)%nat with (n + (m - (total + n)))%nat by lia. by rewrite take_take_drop.
Qed.

(** [Write] returns without an error only when every byte has gone out, in
    order; after an error, the count is how many have. *)
Lemma write_complete fd p s :
  wp (Write fd p) (λ r s', ∃ n oe, r = inr (n, oe) ∧ (n ≤ length p)%nat ∧ (oe = None → n = length p) ∧
    sent s' fd = sent s fd ++ take n p) s.
Proof.
  unfold Write. wp_use wp_write_loop; [lia|lia|]. intros r s' (n & oe & -> & ? & ? & Hs).
  exists n, oe. rewrite Nat.sub_0_r, drop_0 in Hs. split_and!; try done; lia.
Qed.

End write.

(** A socket that takes two bytes at a time. *)
Definition Trickle : VsockCalls bytes := {|
  vs_socket _ := mret 3; vs_bind _ _ := mret tt; vs_listen _ _ := mret tt; vs_accept _ := mret 4;
  vs_read _ _ := mret []; vs_write _ p := λ s, (Ok (Nat.min 2 (length p)), s ++ take 2 p); vs_close _ := mret tt
|}.

Lemma trickle_spec : @WriteSpec bytes Trickle (λ s _, s).
Proof.
  constructor. intros fd p s Hp. unfold wp. simpl. destruct p as [|a [|b p]]; [done| |]; simpl; split; (lia || done).
Qed.

Example trickle_write : @Write bytes Trickle 4 [x01; x02; x03] [] = (Ok (3%nat, None), [x01; x02; x03]).
Proof. reflexivity. Qed.

End Vsock.
